(** * Drawing board: a room-scoped WebSocket broadcast server

    A shallow embedding of the Go server (the [main] package: the schema of
    [schema.go] and the hub, rooms, clients and pumps of the server file) and
    the properties its specification states about it.

    Conventions of the embedding.
    - A [*Client] is a location [loc] in a heap of client objects; a [*Room]
      is the key of the room in [hub.Rooms] (rooms are created by
      [GetOrCreateRoom] only and are never removed or replaced).
    - A critical section guarded by a mutex is one atomic state transformer.
      [generateID] is eight critical sections of [randMu], one in each call
      of [randomInt]: the handlers of overlapping requests take their turns
      in any order.
    - A run-time panic (send on a closed channel, close of a closed channel,
      index out of range, division by zero) is the result [None].
    - [[]byte] payloads produced by [json.Marshal] are kept as the JSON value
      they encode; bytes read from the socket are kept as the JSON value they
      parse to, or as [Garbage] when [encoding/json] rejects their syntax.
    - Go's [int] is the 64-bit integer of the usual server targets. *)

From Stdlib Require Import ZArith String Ascii List Sorted.
From Stdlib Require Import Floats.PrimFloat.
From stdpp Require Import gmap strings list fin_maps.

Set Warnings "-register-all,-clear-no-such-hyp".

Open Scope string_scope.
Open Scope Z_scope.

(* ===================================================================== *)
(** ** JSON values and the part of [encoding/json] the server relies on   *)
(* ===================================================================== *)

(** [float64]: the server never computes with coordinates, it only stores
    and forwards them; JSON text denotes finite values only. *)
Definition float64 : Type := PrimFloat.float.

Inductive json : Type :=
| JNull
| JBool (b : bool)
| JNum (f : float64)
| JStr (s : string)
| JArr (items : list json)
| JObj (members : list (string * json)).

(** What [ReadMessage] hands to [json.Unmarshal]. *)
Inductive frame : Type :=
| Garbage
| Json (v : json).

Definition lower_ascii (a : ascii) : ascii :=
  let n := nat_of_ascii a in
  if ((65 <=? n)%nat && (n <=? 90)%nat)%bool then ascii_of_nat (n + 32) else a.

(** [foldName] of [encoding/json], as far as it can reach a tag of the
    schema. Strings are the UTF-8 bytes of the text; a key is folded rune by
    rune to one member of its simple case-folding orbit. An ASCII letter
    folds with its other case, and the only runes outside ASCII whose orbit
    holds an ASCII letter are U+017F (long s, the bytes C5 BF), which folds
    with s, and U+212A (Kelvin sign, the bytes E2 84 AA), which folds with
    k. Every other rune outside ASCII is left as it is: it folds with no
    letter of a tag. *)
Fixpoint foldName (s : string) : string :=
  match s with
  | EmptyString => EmptyString
  | String a s1 =>
      match s1 with
      | EmptyString => String (lower_ascii a) EmptyString
      | String b s2 =>
          if ((nat_of_ascii a =? 197)%nat && (nat_of_ascii b =? 191)%nat)%bool
          then String "s" (foldName s2)
          else
            match s2 with
            | EmptyString => String (lower_ascii a) (foldName s1)
            | String c s3 =>
                if ((nat_of_ascii a =? 226)%nat && (nat_of_ascii b =? 132)%nat
                    && (nat_of_ascii c =? 170)%nat)%bool
                then String "k" (foldName s3)
                else String (lower_ascii a) (foldName s1)
            end
      end
  end.

(** A JSON key selects a struct field when it equals the field's tag under
    that folding (no two tags of the schema fold together, so the decoder's
    preference for an exact match never decides). *)
Definition key_is (tag key : string) : bool :=
  String.eqb (foldName key) (foldName tag).

(** A Go [map[string]interface{}] is kept as its key-sorted member list, the
    order in which [json.Marshal] writes a map. *)
Fixpoint obj_put (k : string) (v : json) (m : list (string * json))
  : list (string * json) :=
  match m with
  | [] => [(k, v)]
  | (k', v') :: m' =>
      match String.compare k k' with
      | Eq => (k, v) :: m'
      | Lt => (k, v) :: (k', v') :: m'
      | Gt => (k', v') :: obj_put k v m'
      end
  end.

Fixpoint obj_get (k : string) (m : list (string * json)) : option json :=
  match m with
  | [] => None
  | (k', v) :: m' => if String.eqb k k' then Some v else obj_get k m'
  end.

(** [json.Unmarshal] into an [interface{}]: arrays become slices, objects
    become maps (a repeated key keeps its last value). *)
Fixpoint to_iface (v : json) : json :=
  match v with
  | JArr items => JArr (map to_iface items)
  | JObj members =>
      JObj (fold_left (fun m kv => obj_put (fst kv) (snd kv) m)
              (map (fun kv => (fst kv, to_iface (snd kv))) members) [])
  | _ => v
  end.

(** Decoding one JSON value into a field that already holds [old]: [null]
    leaves the field alone, a value of the wrong kind is an
    [UnmarshalTypeError]. *)
Definition into_string (v : json) (old : string) : option string :=
  match v with
  | JStr s => Some s
  | JNull => Some old
  | _ => None
  end.

Definition into_float64 (v : json) (old : float64) : option float64 :=
  match v with
  | JNum f => Some f
  | JNull => Some old
  | _ => None
  end.

(* ===================================================================== *)
(** ** schema.go                                                          *)
(* ===================================================================== *)

Definition TypeDraw : string := "draw".
Definition TypeClear : string := "clear".
Definition TypeSync : string := "sync".
Definition TypeJoin : string := "join".
Definition TypeLeave : string := "leave".
Definition TypeCursor : string := "cursor".
Definition TypeUserList : string := "userlist".

Record DrawElement : Type := mkDrawElement {
  el_ID : string;
  el_Type : string;
  el_X1 : float64;
  el_Y1 : float64;
  el_X2 : float64;
  el_Y2 : float64;
  el_StrokeColor : string;
  el_StrokeWidth : float64;
  el_UserID : string
}.

Record UserInfo : Type := mkUserInfo {
  ui_ID : string;
  ui_Color : string
}.

(** The dynamic contents of [Message.Data]: whatever the server assigns to
    the [interface{}] field. *)
Inductive data : Type :=
| DIface (v : json)
| DElement (e : DrawElement)
| DUserInfo (u : UserInfo)
| DUserList (us : list UserInfo)
| DSync (elements : list DrawElement) (userId color : string).

Record Message : Type := mkMessage {
  msg_Type : string;
  msg_UserID : string;
  msg_Data : data
}.

Definition zero_float : float64 := 0%float.

Definition zero_DrawElement : DrawElement :=
  mkDrawElement "" "" zero_float zero_float zero_float zero_float "" zero_float "".

Definition zero_Message : Message := mkMessage "" "" (DIface JNull).

Definition set_el_UserID (uid : string) (e : DrawElement) : DrawElement :=
  mkDrawElement (el_ID e) (el_Type e) (el_X1 e) (el_Y1 e) (el_X2 e) (el_Y2 e)
    (el_StrokeColor e) (el_StrokeWidth e) uid.

Definition set_msg_UserID (uid : string) (m : Message) : Message :=
  mkMessage (msg_Type m) uid (msg_Data m).

Definition set_msg_Data (d : data) (m : Message) : Message :=
  mkMessage (msg_Type m) (msg_UserID m) d.

(** *** Marshalling *)

Definition Marshal_DrawElement (e : DrawElement) : json :=
  JObj [ ("id", JStr (el_ID e));
         ("elementType", JStr (el_Type e));
         ("x1", JNum (el_X1 e));
         ("y1", JNum (el_Y1 e));
         ("x2", JNum (el_X2 e));
         ("y2", JNum (el_Y2 e));
         ("strokeColor", JStr (el_StrokeColor e));
         ("strokeWidth", JNum (el_StrokeWidth e));
         ("userId", JStr (el_UserID e)) ].

Definition Marshal_UserInfo (u : UserInfo) : json :=
  JObj [ ("id", JStr (ui_ID u)); ("color", JStr (ui_Color u)) ].

Definition Marshal_data (d : data) : json :=
  match d with
  | DIface v => v
  | DElement e => Marshal_DrawElement e
  | DUserInfo u => Marshal_UserInfo u
  | DUserList us => JArr (map Marshal_UserInfo us)
  | DSync elements userId color =>
      JObj [ ("color", JStr color);
             ("elements", JArr (map Marshal_DrawElement elements));
             ("userId", JStr userId) ]
  end.

(** [omitempty] on an [interface{}] drops a nil interface only. *)
Definition data_is_nil (d : data) : bool :=
  match d with
  | DIface JNull => true
  | _ => false
  end.

(** [json.Marshal(msg)] for a [Message]: [userId] and [data] carry
    [omitempty]. *)
Definition Marshal (m : Message) : json :=
  JObj ([("type", JStr (msg_Type m))]
        ++ (if String.eqb (msg_UserID m) "" then []
            else [("userId", JStr (msg_UserID m))])
        ++ (if data_is_nil (msg_Data m) then []
            else [("data", Marshal_data (msg_Data m))])).

(** *** Unmarshalling *)

(** The members of an object are stored into the struct one after the
    other; an unknown key is skipped. *)
Fixpoint fill_Message (members : list (string * json)) (m : Message)
  : option Message :=
  match members with
  | [] => Some m
  | (k, v) :: rest =>
      if key_is "type" k then
        s ← into_string v (msg_Type m);
        fill_Message rest (mkMessage s (msg_UserID m) (msg_Data m))
      else if key_is "userId" k then
        s ← into_string v (msg_UserID m);
        fill_Message rest (mkMessage (msg_Type m) s (msg_Data m))
      else if key_is "data" k then
        fill_Message rest (mkMessage (msg_Type m) (msg_UserID m) (DIface (to_iface v)))
      else fill_Message rest m
  end.

(** [json.Unmarshal(msgBytes, &msg)] with [var msg Message]. *)
Definition Unmarshal_Message (f : frame) : option Message :=
  match f with
  | Garbage => None
  | Json JNull => Some zero_Message
  | Json (JObj members) => fill_Message members zero_Message
  | Json _ => None
  end.

Fixpoint fill_DrawElement (members : list (string * json)) (e : DrawElement)
  : option DrawElement :=
  match members with
  | [] => Some e
  | (k, v) :: rest =>
      if key_is "id" k then
        s ← into_string v (el_ID e);
        fill_DrawElement rest
          (mkDrawElement s (el_Type e) (el_X1 e) (el_Y1 e) (el_X2 e) (el_Y2 e)
             (el_StrokeColor e) (el_StrokeWidth e) (el_UserID e))
      else if key_is "elementType" k then
        s ← into_string v (el_Type e);
        fill_DrawElement rest
          (mkDrawElement (el_ID e) s (el_X1 e) (el_Y1 e) (el_X2 e) (el_Y2 e)
             (el_StrokeColor e) (el_StrokeWidth e) (el_UserID e))
      else if key_is "x1" k then
        x ← into_float64 v (el_X1 e);
        fill_DrawElement rest
          (mkDrawElement (el_ID e) (el_Type e) x (el_Y1 e) (el_X2 e) (el_Y2 e)
             (el_StrokeColor e) (el_StrokeWidth e) (el_UserID e))
      else if key_is "y1" k then
        x ← into_float64 v (el_Y1 e);
        fill_DrawElement rest
          (mkDrawElement (el_ID e) (el_Type e) (el_X1 e) x (el_X2 e) (el_Y2 e)
             (el_StrokeColor e) (el_StrokeWidth e) (el_UserID e))
      else if key_is "x2" k then
        x ← into_float64 v (el_X2 e);
        fill_DrawElement rest
          (mkDrawElement (el_ID e) (el_Type e) (el_X1 e) (el_Y1 e) x (el_Y2 e)
             (el_StrokeColor e) (el_StrokeWidth e) (el_UserID e))
      else if key_is "y2" k then
        x ← into_float64 v (el_Y2 e);
        fill_DrawElement rest
          (mkDrawElement (el_ID e) (el_Type e) (el_X1 e) (el_Y1 e) (el_X2 e) x
             (el_StrokeColor e) (el_StrokeWidth e) (el_UserID e))
      else if key_is "strokeColor" k then
        s ← into_string v (el_StrokeColor e);
        fill_DrawElement rest
          (mkDrawElement (el_ID e) (el_Type e) (el_X1 e) (el_Y1 e) (el_X2 e) (el_Y2 e)
             s (el_StrokeWidth e) (el_UserID e))
      else if key_is "strokeWidth" k then
        x ← into_float64 v (el_StrokeWidth e);
        fill_DrawElement rest
          (mkDrawElement (el_ID e) (el_Type e) (el_X1 e) (el_Y1 e) (el_X2 e) (el_Y2 e)
             (el_StrokeColor e) x (el_UserID e))
      else if key_is "userId" k then
        s ← into_string v (el_UserID e);
        fill_DrawElement rest
          (mkDrawElement (el_ID e) (el_Type e) (el_X1 e) (el_Y1 e) (el_X2 e) (el_Y2 e)
             (el_StrokeColor e) (el_StrokeWidth e) s)
      else fill_DrawElement rest e
  end.

(** [json.Unmarshal(dataBytes, &element)] with [var element DrawElement],
    [dataBytes] being the encoding of [v]. *)
Definition Unmarshal_DrawElement (v : json) : option DrawElement :=
  match v with
  | JNull => Some zero_DrawElement
  | JObj members => fill_DrawElement members zero_DrawElement
  | _ => None
  end.

(* ===================================================================== *)
(** ** Machine integers and the id generator                              *)
(* ===================================================================== *)

(** [uint64] arithmetic wraps modulo 2^64. *)
Definition wrap_uint64 (x : Z) : Z := x mod 2 ^ 64.

(** The conversion [int(x)] and [int] arithmetic: two's complement on the
    bits of an [int], 64 on the targets considered here. *)
Definition wrap_int_bits (bits : Z) (x : Z) : Z :=
  (x + 2 ^ (bits - 1)) mod 2 ^ bits - 2 ^ (bits - 1).

Definition wrap_int (x : Z) : Z := wrap_int_bits 64 x.

(** [len] of a string, as an [int]. *)
Definition len (s : string) : Z := Z.of_nat (String.length s).

(** [s[i]] for an [int] index: out of range panics. *)
Definition index_string (s : string) (i : Z) : option ascii :=
  if (i <? 0) then None else String.get (Z.to_nat i) s.

(** [var randSeed uint64 = 1] *)
Definition randSeed_init : Z := 1.

(** [randomInt]: the state is [randSeed]; [%] truncates towards zero and
    panics on a zero divisor. *)
Definition randomInt (max : Z) (randSeed : Z) : option (Z * Z) :=
  let randSeed := wrap_uint64 (randSeed * 1103515245 + 12345) in
  if max =? 0 then None
  else Some (Z.rem (wrap_int (randSeed / 65536)) max, randSeed).

Definition letters : string :=
  "abcdefghijklmnopqrstuvwxyzABCDEFGHIJKLMNOPQRSTUVWXYZ0123456789".

(** The loop [for i := range b] of [randomString], on the [n] cells still
    to fill. *)
Fixpoint randomString_loop (n : nat) (randSeed : Z) : option (string * Z) :=
  match n with
  | O => Some (EmptyString, randSeed)
  | S n' =>
      '(i, randSeed) ← randomInt (len letters) randSeed;
      b ← index_string letters i;
      '(rest, randSeed) ← randomString_loop n' randSeed;
      Some (String b rest, randSeed)
  end.

(** One turn of that loop in a handler that has filled [b] so far: the
    lock [randMu] is held inside [randomInt] only, so this is all a handler
    does to [randSeed] without another handler being able to step in. *)
Definition randomString_turn (b : string) (randSeed : Z) : option (string * Z) :=
  '(i, randSeed) ← randomInt (len letters) randSeed;
  a ← index_string letters i;
  Some (String.append b (String a EmptyString), randSeed).

(** [randomString]: [make([]byte, n)] panics on a negative length. *)
Definition randomString (n : Z) (randSeed : Z) : option (string * Z) :=
  if n <? 0 then None else randomString_loop (Z.to_nat n) randSeed.

Definition generateID (randSeed : Z) : option (string * Z) :=
  randomString 8 randSeed.

(** The ids handed out by [k] successive calls of [generateID]. *)
Fixpoint generateIDs (k : nat) (randSeed : Z) : option (list string * Z) :=
  match k with
  | O => Some ([], randSeed)
  | S k' =>
      '(id, randSeed) ← generateID randSeed;
      '(ids, randSeed) ← generateIDs k' randSeed;
      Some (id :: ids, randSeed)
  end.

(** [userColors] and [getNextColor]; the state is [colorIndex]. *)
Definition userColors : list string :=
  [ "#e74c3c"; "#3498db"; "#2ecc71"; "#f39c12";
    "#9b59b6"; "#1abc9c"; "#e67e22"; "#34495e" ].

Definition getNextColor (colorIndex : Z) : option (string * Z) :=
  let i := Z.rem colorIndex (Z.of_nat (length userColors)) in
  if i <? 0 then None
  else color ← userColors !! Z.to_nat i; Some (color, wrap_int (colorIndex + 1)).

(** [k] successive calls of [getNextColor]. *)
Fixpoint getNextColors (k : nat) (colorIndex : Z) : option (list string * Z) :=
  match k with
  | O => Some ([], colorIndex)
  | S k' =>
      '(color, colorIndex) ← getNextColor colorIndex;
      '(colors, colorIndex) ← getNextColors k' colorIndex;
      Some (color :: colors, colorIndex)
  end.

(* ===================================================================== *)
(** ** Channels, connections, clients                                     *)
(* ===================================================================== *)

Abbreviation loc := nat.

(** A buffered [chan []byte]. *)
Record chan : Type := mkChan {
  ch_buf : list json;
  ch_cap : nat;
  ch_closed : bool
}.

Definition make_chan (capacity : nat) : chan := mkChan [] capacity false.

Inductive send_result : Type :=
| Sent (ch : chan)
| SendWouldBlock
| SendOnClosed.

(** The send operation [ch <- msg]: it panics on a closed channel, it is
    ready when the buffer has room and it would block otherwise. *)
Definition chan_send (msg : json) (ch : chan) : send_result :=
  if ch_closed ch then SendOnClosed
  else if (length (ch_buf ch) <? ch_cap ch)%nat
       then Sent (mkChan (ch_buf ch ++ [msg]) (ch_cap ch) (ch_closed ch))
       else SendWouldBlock.

Inductive recv_result : Type :=
| Received (msg : json) (ch : chan)
| RecvClosed
| RecvWouldBlock.

(** The receive of [for msg := range ch]. *)
Definition chan_recv (ch : chan) : recv_result :=
  match ch_buf ch with
  | msg :: rest => Received msg (mkChan rest (ch_cap ch) (ch_closed ch))
  | [] => if ch_closed ch then RecvClosed else RecvWouldBlock
  end.

(** [close(ch)]: closing a closed channel panics. *)
Definition chan_close (ch : chan) : option chan :=
  if ch_closed ch then None else Some (mkChan (ch_buf ch) (ch_cap ch) true).

(** [select { case ch <- msg: default: }]: the default branch is taken
    when the send would block. *)
Definition select_send_default (msg : json) (ch : chan) : option chan :=
  match chan_send msg ch with
  | Sent ch' => Some ch'
  | SendWouldBlock => Some ch
  | SendOnClosed => None
  end.

(** The socket as the server sees it: the text messages written to it and
    whether it has been closed. *)
Record Conn : Type := mkConn {
  conn_written : list json;
  conn_closed : bool
}.

Definition Conn_WriteMessage (msg : json) (c : Conn) : Conn :=
  if conn_closed c then c else mkConn (conn_written c ++ [msg]) (conn_closed c).

Definition Conn_Close (c : Conn) : Conn := mkConn (conn_written c) true.

Record Client : Type := mkClient {
  cl_ID : string;
  cl_Conn : Conn;
  cl_Room : string;
  cl_Color : string;
  cl_Send : chan;
  cl_closed : bool
}.

Definition set_cl_Send (ch : chan) (c : Client) : Client :=
  mkClient (cl_ID c) (cl_Conn c) (cl_Room c) (cl_Color c) ch (cl_closed c).

Definition set_cl_Conn (cn : Conn) (c : Client) : Client :=
  mkClient (cl_ID c) cn (cl_Room c) (cl_Color c) (cl_Send c) (cl_closed c).

Definition set_cl_closed (b : bool) (c : Client) : Client :=
  mkClient (cl_ID c) (cl_Conn c) (cl_Room c) (cl_Color c) (cl_Send c) b.

(** The body of the loops of [Broadcast] and [BroadcastToAll] for one
    client: under [client.mu], send unless [closed]. *)
Definition deliver (msg : json) (client : Client) : option Client :=
  if cl_closed client then Some client
  else ch ← select_send_default msg (cl_Send client); Some (set_cl_Send ch client).

(* ===================================================================== *)
(** ** Rooms                                                              *)
(* ===================================================================== *)

Record Room : Type := mkRoom {
  room_ID : string;
  room_Clients : gset loc;
  room_Elements : list DrawElement
}.

Definition new_Room (roomID : string) : Room := mkRoom roomID ∅ [].

Definition AddClient (client : loc) (r : Room) : Room :=
  mkRoom (room_ID r) ({[client]} ∪ room_Clients r) (room_Elements r).

Definition RemoveClient (client : loc) (r : Room) : Room :=
  mkRoom (room_ID r) (room_Clients r ∖ {[client]}) (room_Elements r).

Definition AddElement (element : DrawElement) (r : Room) : Room :=
  mkRoom (room_ID r) (room_Clients r) (room_Elements r ++ [element]).

Definition ClearElements (r : Room) : Room :=
  mkRoom (room_ID r) (room_Clients r) [].

Definition GetElements (r : Room) : list DrawElement := room_Elements r.

(** [for client := range r.Clients] visits the members in some order; the
    loops below run over any such enumeration. *)
Fixpoint Broadcast_loop (msg : json) (sender : loc) (members : list loc)
    (heap : gmap loc Client) : option (gmap loc Client) :=
  match members with
  | [] => Some heap
  | client :: rest =>
      if decide (client = sender) then Broadcast_loop msg sender rest heap
      else
        c ← heap !! client;
        c' ← deliver msg c;
        Broadcast_loop msg sender rest (<[client := c']> heap)
  end.

Fixpoint BroadcastToAll_loop (msg : json) (members : list loc)
    (heap : gmap loc Client) : option (gmap loc Client) :=
  match members with
  | [] => Some heap
  | client :: rest =>
      c ← heap !! client;
      c' ← deliver msg c;
      BroadcastToAll_loop msg rest (<[client := c']> heap)
  end.

Definition Broadcast (msg : json) (sender : loc) (r : Room)
    (heap : gmap loc Client) : option (gmap loc Client) :=
  Broadcast_loop msg sender (elements (room_Clients r)) heap.

Definition BroadcastToAll (msg : json) (r : Room)
    (heap : gmap loc Client) : option (gmap loc Client) :=
  BroadcastToAll_loop msg (elements (room_Clients r)) heap.

Fixpoint GetUserList_loop (members : list loc) (heap : gmap loc Client)
    (users : list UserInfo) : option (list UserInfo) :=
  match members with
  | [] => Some users
  | client :: rest =>
      c ← heap !! client;
      GetUserList_loop rest heap (users ++ [mkUserInfo (cl_ID c) (cl_Color c)])
  end.

Definition GetUserList (r : Room) (heap : gmap loc Client)
  : option (list UserInfo) :=
  GetUserList_loop (elements (room_Clients r)) heap [].

(** The entry of [GetUserList] for one client, and the entries for an
    enumeration of members. *)
Definition user_info (c : Client) : UserInfo := mkUserInfo (cl_ID c) (cl_Color c).

Definition users_of (members : list loc) (h : gmap loc Client) : list UserInfo :=
  omap (λ k, user_info <$> h !! k) members.

(* ===================================================================== *)
(** ** The hub and the process state                                      *)
(* ===================================================================== *)

(** What [log.Printf] is called with. *)
Inductive log_line : Type :=
| LogUnmarshalError
| LogWebSocketError
| LogUpgradeError
| LogJoined (userID roomID : string)
| LogLeft (userID roomID : string).

(** The package-level variables ([hub], [colorIndex], [randSeed]), the
    client objects allocated so far and the log. [drawn] holds the local
    [b] of [randomString] in the request handlers that are inside
    [generateID]: for each such handler, the bytes filled so far. *)
Record State : Type := mkState {
  Rooms : gmap string Room;
  heap : gmap loc Client;
  colorIndex : Z;
  randSeed : Z;
  logged : list log_line;
  drawn : gmap nat string
}.

Definition init : State := mkState ∅ ∅ 0 randSeed_init [] ∅.

Definition set_Rooms (rs : gmap string Room) (σ : State) : State :=
  mkState rs (heap σ) (colorIndex σ) (randSeed σ) (logged σ) (drawn σ).

Definition set_heap (h : gmap loc Client) (σ : State) : State :=
  mkState (Rooms σ) h (colorIndex σ) (randSeed σ) (logged σ) (drawn σ).

Definition set_colorIndex (i : Z) (σ : State) : State :=
  mkState (Rooms σ) (heap σ) i (randSeed σ) (logged σ) (drawn σ).

Definition set_randSeed (s : Z) (σ : State) : State :=
  mkState (Rooms σ) (heap σ) (colorIndex σ) s (logged σ) (drawn σ).

Definition set_drawn (d : gmap nat string) (σ : State) : State :=
  mkState (Rooms σ) (heap σ) (colorIndex σ) (randSeed σ) (logged σ) d.

Definition log_Printf (l : log_line) (σ : State) : State :=
  mkState (Rooms σ) (heap σ) (colorIndex σ) (randSeed σ) (logged σ ++ [l]) (drawn σ).

(** [hub.GetOrCreateRoom]: the room's key stands for the returned pointer. *)
Definition GetOrCreateRoom (roomID : string) (σ : State) : State :=
  match Rooms σ !! roomID with
  | Some _ => σ
  | None => set_Rooms (<[roomID := new_Room roomID]> (Rooms σ)) σ
  end.

(** A method with a [*Room] receiver that updates the room. *)
Definition on_Room (room : string) (f : Room → Room) (σ : State) : option State :=
  r ← Rooms σ !! room;
  Some (set_Rooms (<[room := f r]> (Rooms σ)) σ).

Definition Room_Broadcast (room : string) (msg : json) (sender : loc)
    (σ : State) : option State :=
  r ← Rooms σ !! room;
  h ← Broadcast msg sender r (heap σ);
  Some (set_heap h σ).

Definition Room_BroadcastToAll (room : string) (msg : json) (σ : State)
  : option State :=
  r ← Rooms σ !! room;
  h ← BroadcastToAll msg r (heap σ);
  Some (set_heap h σ).

(* ===================================================================== *)
(** ** The pumps                                                          *)
(* ===================================================================== *)

(** The draw case of [readPump] up to the broadcast: the element is stored
    and put into the message only when the payload decodes. *)
Definition store_draw (c : Client) (msg : Message) (σ : State)
  : option (Message * State) :=
  match Unmarshal_DrawElement (Marshal_data (msg_Data msg)) with
  | Some element =>
      let element := set_el_UserID (cl_ID c) element in
      σ ← on_Room (cl_Room c) (AddElement element) σ;
      Some (set_msg_Data (DElement element) msg, σ)
  | None => Some (msg, σ)
  end.

(** [readPump], from [msg.UserID = c.ID] to the end of the [switch], for
    the client object at [client]. *)
Definition route (client : loc) (msg : Message) (σ : State) : option State :=
  c ← heap σ !! client;
  let msg := set_msg_UserID (cl_ID c) msg in
  if String.eqb (msg_Type msg) TypeDraw then
    '(msg, σ) ← store_draw c msg σ;
    Room_Broadcast (cl_Room c) (Marshal msg) client σ
  else if String.eqb (msg_Type msg) TypeCursor then
    Room_Broadcast (cl_Room c) (Marshal msg) client σ
  else if String.eqb (msg_Type msg) TypeClear then
    σ ← on_Room (cl_Room c) ClearElements σ;
    Room_BroadcastToAll (cl_Room c) (Marshal msg) σ
  else Some σ.

(** One turn of the loop of [readPump] after a successful [ReadMessage]. *)
Definition handle_frame (client : loc) (f : frame) (σ : State) : option State :=
  match Unmarshal_Message f with
  | None => Some (log_Printf LogUnmarshalError σ)
  | Some msg => route client msg σ
  end.

(** The deferred function of [readPump], first critical section:
    [c.closed = true; close(c.Send)] under [c.mu]. *)
Definition teardown_close (client : loc) (σ : State) : option State :=
  c ← heap σ !! client;
  ch ← chan_close (cl_Send c);
  Some (set_heap (<[client := set_cl_Send ch (set_cl_closed true c)]> (heap σ)) σ).

(** The rest of the deferred function. *)
Definition teardown_leave (client : loc) (σ : State) : option State :=
  c ← heap σ !! client;
  σ ← on_Room (cl_Room c) (RemoveClient client) σ;
  let σ := set_heap (<[client := set_cl_Conn (Conn_Close (cl_Conn c)) c]> (heap σ)) σ in
  σ ← Room_Broadcast (cl_Room c)
        (Marshal (mkMessage TypeLeave (cl_ID c) (DIface JNull))) client σ;
  r ← Rooms σ !! cl_Room c;
  users ← GetUserList r (heap σ);
  σ ← Room_BroadcastToAll (cl_Room c)
        (Marshal (mkMessage TypeUserList "" (DUserList users))) σ;
  Some (log_Printf (LogLeft (cl_ID c) (cl_Room c)) σ).

Definition teardown (client : loc) (σ : State) : option State :=
  σ ← teardown_close client σ; teardown_leave client σ.

(** What [ReadMessage] returns. *)
Inductive read : Type :=
| ReadError (unexpected : bool)
| ReadFrame (f : frame).

(** [readPump] on the results of its successive reads: the loop ends at
    the first error, then the deferred function runs. A list without an
    error is a pump still blocked in [ReadMessage]. *)
Fixpoint readPump (client : loc) (reads : list read) (σ : State) : option State :=
  match reads with
  | [] => Some σ
  | ReadError unexpected :: _ =>
      teardown client (if unexpected then log_Printf LogWebSocketError σ else σ)
  | ReadFrame f :: rest =>
      σ ← handle_frame client f σ; readPump client rest σ
  end.

(** One turn of the loop of [writePump]; [write_ok] tells whether
    [WriteMessage] succeeds on an open socket. The pump closes the socket
    when it returns. *)
Definition writePump_step (client : loc) (write_ok : bool) (σ : State)
  : option State :=
  c ← heap σ !! client;
  match chan_recv (cl_Send c) with
  | Received msg ch =>
      let cn :=
        if (write_ok && negb (conn_closed (cl_Conn c)))%bool
        then Conn_WriteMessage msg (cl_Conn c)
        else Conn_Close (cl_Conn c) in
      Some (set_heap (<[client := set_cl_Conn cn (set_cl_Send ch c)]> (heap σ)) σ)
  | RecvClosed =>
      Some (set_heap (<[client := set_cl_Conn (Conn_Close (cl_Conn c)) c]> (heap σ)) σ)
  | RecvWouldBlock => Some σ
  end.

(** [writePump] on the outcomes of its successive writes: the loop ends
    when [Send] is closed and drained, or at the first write that fails;
    the deferred function then closes the socket. A pump that finds [Send]
    open and empty, or whose list of outcomes has run out, is still
    blocked in its loop. *)
Fixpoint writePump (client : loc) (writes : list bool) (σ : State) : option State :=
  match writes with
  | [] => Some σ
  | write_ok :: rest =>
      c ← heap σ !! client;
      match chan_recv (cl_Send c) with
      | Received msg ch =>
          if (write_ok && negb (conn_closed (cl_Conn c)))%bool then
            writePump client rest
              (set_heap (<[client := set_cl_Conn (Conn_WriteMessage msg (cl_Conn c))
                                       (set_cl_Send ch c)]> (heap σ)) σ)
          else
            Some (set_heap (<[client := set_cl_Conn (Conn_Close (cl_Conn c))
                                          (set_cl_Send ch c)]> (heap σ)) σ)
      | RecvClosed =>
          Some (set_heap (<[client := set_cl_Conn (Conn_Close (cl_Conn c)) c]> (heap σ)) σ)
      | RecvWouldBlock => Some σ
      end
  end.

(** The client object after its write pump has written [sent] and left
    [queued] in the channel. *)
Definition pumped (sent queued : list json) (socket_closed : bool) (c : Client) : Client :=
  set_cl_Conn (mkConn (conn_written (cl_Conn c) ++ sent) socket_closed)
    (set_cl_Send (mkChan queued (ch_cap (cl_Send c)) (ch_closed (cl_Send c))) c).

(** [if userID == "" { userID = generateID() }], for a handler that no
    other handler interrupts: [generateID] runs to its end. The turns of a
    handler that is interrupted are the events [EvDraw] below. *)
Definition resolve_userID (userID : string) (σ : State) : option (string * State) :=
  if String.eqb userID "" then
    '(id, seed) ← generateID (randSeed σ); Some (id, set_randSeed seed σ)
  else Some (userID, σ).

(** The room [GetOrCreateRoom] returns for a key. *)
Definition room_of (roomID : string) (σ : State) : Room :=
  default (new_Room roomID) (Rooms σ !! roomID).

(** [if roomID == "" { roomID = "default" }] *)
Definition room_key (roomID : string) : string :=
  if String.eqb roomID "" then "default" else roomID.

(** [handleWebSocket] up to the start of the pumps, for the route parameter
    [roomId], the query parameter [userId] and the outcome of the upgrade.
    The new client object is allocated at a location not in use. *)
Definition handleWebSocket (roomID userID : string) (upgrade_ok : bool)
    (σ : State) : option (option loc * State) :=
  let roomID := room_key roomID in
  '(userID, σ) ← resolve_userID userID σ;
  if negb upgrade_ok then Some (None, log_Printf LogUpgradeError σ)
  else
    let σ := GetOrCreateRoom roomID σ in
    '(color, ci) ← getNextColor (colorIndex σ);
    let σ := set_colorIndex ci σ in
    let client := fresh (dom (heap σ)) in
    let c := mkClient userID (mkConn [] false) roomID color (make_chan 256) false in
    let σ := set_heap (<[client := c]> (heap σ)) σ in
    σ ← on_Room roomID (AddClient client) σ;
    let σ := log_Printf (LogJoined userID roomID) σ in
    r ← Rooms σ !! roomID;
    let syncMsg := mkMessage TypeSync userID (DSync (GetElements r) userID color) in
    let c := set_cl_Conn (Conn_WriteMessage (Marshal syncMsg) (cl_Conn c)) c in
    let σ := set_heap (<[client := c]> (heap σ)) σ in
    let joinMsg := mkMessage TypeJoin userID (DUserInfo (mkUserInfo userID color)) in
    σ ← Room_Broadcast roomID (Marshal joinMsg) client σ;
    r ← Rooms σ !! roomID;
    users ← GetUserList r (heap σ);
    let userListMsg := mkMessage TypeUserList "" (DUserList users) in
    σ ← Room_BroadcastToAll roomID (Marshal userListMsg) σ;
    Some (Some client, σ).

(** The sync message written to the socket of a client. *)
Definition sync_of (client : loc) (σ : State) : option json :=
  c ← heap σ !! client; head (conn_written (cl_Conn c)).

(* ===================================================================== *)
(** ** Runs of the server                                                 *)
(* ===================================================================== *)

(** What can happen next: a connection request is handled, the read pump
    of a client gets a frame or a read error (and runs the first critical
    section of its deferred function), finishes its deferred function, or
    its write pump takes a turn.

    [EvConnect] is a request whose handler is not interrupted by the
    handler of another request. [gin] runs every handler in a goroutine of
    its own, and [generateID] takes [randMu] once in each of its eight calls
    of [randomInt], not around them: between two of these calls the
    handlers of other requests can draw from [randSeed] too. For a request
    that brings no [userId], [EvDraw request] is one turn of the loop of
    [randomString] in its handler, and [EvAccept request roomID upgrade_ok]
    is that handler from the return of [generateID] on; the turns of
    different requests come in any order. *)
Inductive event : Type :=
| EvConnect (roomID userID : string) (upgrade_ok : bool)
| EvFrame (client : loc) (f : frame)
| EvReadError (client : loc) (unexpected : bool)
| EvLeave (client : loc)
| EvWrite (client : loc) (write_ok : bool)
| EvDraw (request : nat)
| EvAccept (request : nat) (roomID : string) (upgrade_ok : bool).

(** The read pump of a client is in its loop while [closed] is unset. *)
Definition reading (client : loc) (σ : State) : bool :=
  match heap σ !! client with
  | Some c => negb (cl_closed c)
  | None => false
  end.

(** The deferred function of a client is between its two parts when
    [closed] is set and the client is still a member of its room. *)
Definition leaving (client : loc) (σ : State) : bool :=
  match heap σ !! client with
  | Some c =>
      cl_closed c &&
      match Rooms σ !! cl_Room c with
      | Some r => bool_decide (client ∈ room_Clients r)
      | None => false
      end
  | None => false
  end.

Definition exec (e : event) (σ : State) : option State :=
  match e with
  | EvConnect roomID userID upgrade_ok =>
      snd <$> handleWebSocket roomID userID upgrade_ok σ
  | EvFrame client f =>
      if reading client σ then handle_frame client f σ else None
  | EvReadError client unexpected =>
      if reading client σ
      then teardown_close client
             (if unexpected then log_Printf LogWebSocketError σ else σ)
      else None
  | EvLeave client =>
      if leaving client σ then teardown_leave client σ else None
  | EvWrite client write_ok => writePump_step client write_ok σ
  | EvDraw request =>
      let b := default EmptyString (drawn σ !! request) in
      if (String.length b <? 8)%nat then
        '(b, seed) ← randomString_turn b (randSeed σ);
        Some (set_drawn (<[request := b]> (drawn σ)) (set_randSeed seed σ))
      else None
  | EvAccept request roomID upgrade_ok =>
      (* [generateID] has returned a non-empty [userID]: the handler goes
         on as [handleWebSocket] does below its [if userID == ""] *)
      userID ← drawn σ !! request;
      if (String.length userID =? 8)%nat then
        '(_, σ) ← handleWebSocket roomID userID upgrade_ok σ;
        Some (set_drawn (delete request (drawn σ)) σ)
      else None
  end.

Fixpoint run (es : list event) (σ : State) : option State :=
  match es with
  | [] => Some σ
  | e :: es' => σ ← exec e σ; run es' σ
  end.

Definition reachable (σ : State) : Prop := ∃ es, run es init = Some σ.

(** The number of calls of [generateID] that no other handler interrupts
    along a run. *)
Definition generates (e : event) : bool :=
  match e with
  | EvConnect _ userID _ => String.eqb userID ""
  | _ => false
  end.

Fixpoint generated (es : list event) : nat :=
  match es with
  | [] => O
  | e :: es' => ((if generates e then 1 else 0) + generated es')%nat
  end.

(** The calls of [randomInt] an event makes, and their number along a
    run. *)
Definition draws_of (e : event) : nat :=
  match e with
  | EvConnect _ userID _ => if String.eqb userID "" then 8%nat else 0%nat
  | EvDraw _ => 1%nat
  | _ => 0%nat
  end.

Fixpoint draws (es : list event) : nat :=
  match es with
  | [] => O
  | e :: es' => (draws_of e + draws es')%nat
  end.

(** A run in which no call of [generateID] is interrupted by the handler
    of another request. *)
Definition uninterrupted (es : list event) : bool :=
  forallb (λ e, match e with EvDraw _ => false | _ => true end) es.

(** The seed after [n] calls of [randomInt]. *)
Fixpoint seed_after (n : nat) (randSeed : Z) : Z :=
  match n with
  | O => randSeed
  | S n' => seed_after n' (wrap_uint64 (randSeed * 1103515245 + 12345))
  end.

(** The character the [p]-th call of [randomInt] of the process (counted
    from 0) selects, when it is made by [randomString]. *)
Definition char_at (p : nat) : option ascii :=
  '(i, _) ← randomInt (len letters) (seed_after p randSeed_init);
  index_string letters i.

(** [b] holds the characters of the calls at the positions [ps]. *)
Definition drawn_at (ps : list nat) (b : string) : Prop :=
  Some <$> list_ascii_of_string b = char_at <$> ps.

(** [ps] are increasing positions below [n]. *)
Definition increasing_below (n : nat) (ps : list nat) : Prop :=
  StronglySorted lt ps ∧ Forall (λ p, (p < n)%nat) ps.

(** The room an accepted connection joins. *)
Definition joins (e : event) : option string :=
  match e with
  | EvConnect roomID _ true | EvAccept _ roomID true => Some (room_key roomID)
  | _ => None
  end.

(** The number of accepted connections along a run. *)
Definition accepts (e : event) : bool :=
  match e with
  | EvConnect _ _ upgrade_ok | EvAccept _ _ upgrade_ok => upgrade_ok
  | _ => false
  end.

Fixpoint accepted (es : list event) : nat :=
  match es with
  | [] => O
  | e :: es' => ((if accepts e then 1 else 0) + accepted es')%nat
  end.

(** Whether an event is an inbound frame that decodes to a clear message. *)
Definition clears (e : event) : bool :=
  match e with
  | EvFrame _ f =>
      match Unmarshal_Message f with
      | Some msg => String.eqb (msg_Type msg) TypeClear
      | None => false
      end
  | _ => false
  end.

(** Whether an event appends to the log of the room [rid]: an inbound draw
    frame of a client of that room whose data decodes as an element. *)
Definition appends (rid : string) (σ : State) (e : event) : bool :=
  match e with
  | EvFrame client f =>
      match heap σ !! client, Unmarshal_Message f with
      | Some c, Some msg =>
          String.eqb (cl_Room c) rid
          && String.eqb (msg_Type msg) TypeDraw
          && match Unmarshal_DrawElement (Marshal_data (msg_Data msg)) with
             | Some _ => true
             | None => false
             end
      | _, _ => false
      end
  | _ => false
  end.

(** A run from [σ] along which nothing is appended to the log of [rid]. *)
Fixpoint no_append (rid : string) (es : list event) (σ : State) : bool :=
  match es with
  | [] => true
  | e :: es' =>
      negb (appends rid σ e)
      && match exec e σ with
         | Some σ1 => no_append rid es' σ1
         | None => true
         end
  end.

(** A sequence of enqueue attempts on one client. *)
Fixpoint deliver_all (msgs : list json) (client : Client) : option Client :=
  match msgs with
  | [] => Some client
  | msg :: rest => c ← deliver msg client; deliver_all rest c
  end.

(** A sequence of [AddElement] calls on one room. *)
Fixpoint AddElement_all (room : string) (elements : list DrawElement) (σ : State)
  : option State :=
  match elements with
  | [] => Some σ
  | element :: rest =>
      σ ← on_Room room (AddElement element) σ; AddElement_all room rest σ
  end.

(** *** Observations *)

(** The element log and the members of a room, the payloads queued for a
    client. *)
Definition elements_of (room : string) (σ : State) : option (list DrawElement) :=
  room_Elements <$> Rooms σ !! room.

Definition members_of (room : string) (σ : State) : option (gset loc) :=
  room_Clients <$> Rooms σ !! room.

Definition queue_of (client : loc) (σ : State) : option (list json) :=
  (λ c, ch_buf (cl_Send c)) <$> heap σ !! client.

(** The sync payload for a snapshot of elements. *)
Definition sync_payload (elements : list DrawElement) (userID color : string) : json :=
  JObj [ ("type", JStr "sync");
         ("userId", JStr userID);
         ("data", JObj [ ("color", JStr color);
                         ("elements", JArr (map Marshal_DrawElement elements));
                         ("userId", JStr userID) ]) ].

(** The [userId] member of a payload. *)
Definition payload_userId (payload : json) : option json :=
  match payload with
  | JObj members => obj_get "userId" members
  | _ => None
  end.

(** Two frames that are the same object but for the string under one
    [userId] key. *)
Definition differ_in_userId (f1 f2 : frame) : Prop :=
  ∃ before after u1 u2,
    f1 = Json (JObj (before ++ ("userId", JStr u1) :: after))
    ∧ f2 = Json (JObj (before ++ ("userId", JStr u2) :: after)).

(** Two elements that are the same but for their [UserID]. *)
Definition same_but_UserID (e1 e2 : DrawElement) : Prop :=
  set_el_UserID "" e1 = set_el_UserID "" e2.

(** *** Relations between inbound frames *)

(** Decoded envelopes with the same type and data. *)
Definition agree (o1 o2 : option Message) : Prop :=
  match o1, o2 with
  | Some m1, Some m2 => msg_Type m1 = msg_Type m2 ∧ msg_Data m1 = msg_Data m2
  | None, None => True
  | _, _ => False
  end.

(** Member lists with the same keys and the same values, but for strings
    under the key [userId]. *)
Definition same_member (a b : string * json) : Prop :=
  fst a = fst b
  ∧ (snd a = snd b
     ∨ (fst a = "userId" ∧ ∃ s1 s2, snd a = JStr s1 ∧ snd b = JStr s2)).

(** Decoded elements that are the same but for their [UserID]. *)
Definition agree_elements (o1 o2 : option DrawElement) : Prop :=
  match o1, o2 with
  | Some e1, Some e2 => same_but_UserID e1 e2
  | None, None => True
  | _, _ => False
  end.

(** Two frames that are the same object but for the string under one
    [userId] key of the object under one [data] key. *)
Definition differ_in_element_userId (f1 f2 : frame) : Prop :=
  ∃ before after ebefore eafter u1 u2,
    f1 = Json (JObj (before
                     ++ ("data", JObj (ebefore ++ ("userId", JStr u1) :: eafter))
                     :: after))
    ∧ f2 = Json (JObj (before
                       ++ ("data", JObj (ebefore ++ ("userId", JStr u2) :: eafter))
                       :: after)).

(** Decoded envelopes with the same type and the same data, unless the data
    are still [d1] and [d2]. *)
Definition agree_but_data (d1 d2 : data) (o1 o2 : option Message) : Prop :=
  match o1, o2 with
  | Some m1, Some m2 =>
      msg_Type m1 = msg_Type m2
      ∧ (msg_Data m1 = msg_Data m2 ∨ (msg_Data m1 = d1 ∧ msg_Data m2 = d2))
  | None, None => True
  | _, _ => False
  end.

(** *** Sample traffic *)

Definition state_of (es : list event) : State := default init (run es init).

(** Two connections, A at location 0 and B at location 1, in one room. *)
Definition two_members : State :=
  state_of [EvConnect "abc123" "A" true; EvConnect "abc123" "B" true].

Definition line_element (id userId : json) : json :=
  JObj [ ("id", id); ("elementType", JStr "line");
         ("x1", JNum 1%float); ("y1", JNum 2%float);
         ("x2", JNum 3%float); ("y2", JNum 4%float);
         ("strokeColor", JStr "#000000"); ("strokeWidth", JNum 2%float);
         ("userId", userId) ].

Definition envelope (type userId : string) (data : json) : frame :=
  Json (JObj [ ("type", JStr type); ("userId", JStr userId); ("data", data) ]).

Definition cursor_frame : frame :=
  envelope "cursor" "A" (JObj [ ("x", JNum 10%float); ("y", JNum 20%float) ]).

(** B has not drained its queue while A moved its cursor 255 times: the
    queue of B holds 256 payloads. *)
Definition crowded : State :=
  state_of ([EvConnect "abc123" "A" true; EvConnect "abc123" "B" true]
            ++ repeat (EvFrame 0%nat cursor_frame) 255).

(** The state in which A has joined and its write pump has written the
    one payload that was queued: the queue of A is empty. *)
Definition drained : State :=
  state_of [EvConnect "abc123" "A" true; EvWrite 0%nat true].

(** [n] payloads, all different. *)
Definition numbered (n : nat) : list json :=
  map (λ i, JArr (repeat JNull i)) (seq 0 n).

(** The state in which B has hit a read error and run the first critical
    section of its deferred function, while it is still a member of the
    room. *)
Definition closing : State :=
  state_of [EvConnect "abc123" "A" true; EvConnect "abc123" "B" true;
            EvReadError 1%nat false].

(** A draws a line in the room it shares with B. *)
Definition draw_frame : frame :=
  envelope "draw" "A" (line_element (JStr "e1") (JStr "A")).

Definition sketched : State :=
  state_of [EvConnect "abc123" "A" true; EvConnect "abc123" "B" true;
            EvFrame 0%nat draw_frame].

(** A and B in one room, C in another. *)
Definition two_rooms : State :=
  state_of [EvConnect "abc123" "A" true; EvConnect "abc123" "B" true;
            EvConnect "xyz789" "C" true].

(** Two requests without a [userId] for one room: handled one after the
    other, and with the turns of their handlers alternating. *)
Definition one_after_the_other : list event :=
  repeat (EvDraw 0%nat) 8 ++ [EvAccept 0%nat "abc123" true]
  ++ repeat (EvDraw 1%nat) 8 ++ [EvAccept 1%nat "abc123" true].

Definition overlapping : list event :=
  concat (repeat [EvDraw 0%nat; EvDraw 1%nat] 8)
  ++ [EvAccept 0%nat "abc123" true; EvAccept 1%nat "abc123" true].

(* ===================================================================== *)
(** ** Invariants of the server state                                     *)
(* ===================================================================== *)

(** A client object as the server maintains it: the [closed] flag tells
    whether [Send] has been closed, [Send] is the channel made by
    [handleWebSocket] and the id is not empty. *)
Record client_ok (c : Client) : Prop := {
  ok_closed : cl_closed c = ch_closed (cl_Send c);
  ok_cap : ch_cap (cl_Send c) = 256%nat;
  ok_id : cl_ID c ≠ ""
}.

(** Pointers are valid: the members of a room are allocated clients and
    the room of a client is in the hub. *)
Record wf (σ : State) : Prop := {
  wf_client : ∀ k c, heap σ !! k = Some c → client_ok c;
  wf_member : ∀ rid r k,
      Rooms σ !! rid = Some r → k ∈ room_Clients r → is_Some (heap σ !! k);
  wf_room : ∀ k c, heap σ !! k = Some c → is_Some (Rooms σ !! cl_Room c)
}.

(** One enqueue attempt on each client of [targets], the other clients
    being left alone. *)
Definition fanout (msg : json) (targets : gset loc) (h : gmap loc Client)
  : gmap loc Client :=
  map_imap (λ k c, if decide (k ∈ targets) then deliver msg c else Some c) h.

(** The clients whose read pump is in its loop are members of their
    room. *)
Definition readers_are_members (σ : State) : Prop :=
  ∀ k c, heap σ !! k = Some c → cl_closed c = false →
         ∃ r, Rooms σ !! cl_Room c = Some r ∧ k ∈ room_Clients r.

(** What the server does to a client object once it has made it: the id,
    the room and the colour are never assigned again, the channel keeps its
    capacity and never holds more than that, what has been written to the
    socket stays written, a closed socket is left alone and the [closed]
    flag is never reset. *)
Record evolves (c c' : Client) : Prop := {
  ev_ID : cl_ID c' = cl_ID c;
  ev_Room : cl_Room c' = cl_Room c;
  ev_Color : cl_Color c' = cl_Color c;
  ev_cap : ch_cap (cl_Send c') = ch_cap (cl_Send c);
  ev_bound : (length (ch_buf (cl_Send c)) ≤ ch_cap (cl_Send c))%nat →
             (length (ch_buf (cl_Send c')) ≤ ch_cap (cl_Send c))%nat;
  ev_written : conn_written (cl_Conn c) `prefix_of` conn_written (cl_Conn c');
  ev_socket : conn_closed (cl_Conn c) = true → cl_Conn c' = cl_Conn c;
  ev_closed : cl_closed c = true → cl_closed c' = true
}.

(** What one event does to the room stored under [rid]. *)
Inductive room_step (σ : State) (e : event) (rid : string) (r : Room) : Room → Prop :=
| step_same : room_step σ e rid r r
| step_join :
    joins e = Some rid →
    room_step σ e rid r (AddClient (fresh (dom (heap σ))) r)
| step_leave k c :
    e = EvLeave k → heap σ !! k = Some c → cl_Room c = rid →
    room_step σ e rid r (RemoveClient k r)
| step_draw k f c element :
    e = EvFrame k f → heap σ !! k = Some c → cl_Room c = rid →
    appends rid σ e = true →
    room_step σ e rid r (AddElement (set_el_UserID (cl_ID c) element) r)
| step_clear k f c :
    e = EvFrame k f → heap σ !! k = Some c → cl_Room c = rid → clears e = true →
    room_step σ e rid r (ClearElements r).

(** The members of a room are clients that joined that room. *)
Definition members_own_room (σ : State) : Prop :=
  ∀ rid r k, Rooms σ !! rid = Some r → k ∈ room_Clients r →
             ∃ c, heap σ !! k = Some c ∧ cl_Room c = rid.

(** Every room is stored under its own id. *)
Definition rooms_named (σ : State) : Prop :=
  ∀ rid r, Rooms σ !! rid = Some r → room_ID r = rid.

(** No channel holds more than its capacity. *)
Definition queues_bounded (σ : State) : Prop :=
  ∀ k c, heap σ !! k = Some c →
         (length (ch_buf (cl_Send c)) ≤ ch_cap (cl_Send c))%nat.

(** Every stored element carries the id of a connection that joined the
    room it is stored in. *)
Definition elements_attributed (σ : State) : Prop :=
  ∀ rid r element, Rooms σ !! rid = Some r → element ∈ room_Elements r →
    ∃ k c, heap σ !! k = Some c ∧ cl_Room c = rid ∧ cl_ID c = el_UserID element.

(* ===================================================================== *)
(** ** The element log as a slice                                         *)
(* ===================================================================== *)

(** [Room.Elements] is a Go slice: a window of [sl_len] cells on a backing
    array of [sl_cap] cells, which [append] may write in place. The arrays
    live in a store of their own; [room_Elements] above is what the slice
    of the room reads. *)
Record slice : Type := mkSlice {
  sl_array : loc;
  sl_len : nat;
  sl_cap : nat
}.

Definition slice_read (arrays : gmap loc (list DrawElement)) (s : slice)
  : list DrawElement :=
  take (sl_len s) (default [] (arrays !! sl_array s)).

(** [make([]DrawElement, n)]: a new array of zero values. *)
Definition slice_make (n : nat) (arrays : gmap loc (list DrawElement))
  : slice * gmap loc (list DrawElement) :=
  let a := fresh (dom arrays) in
  (mkSlice a n n, <[a := replicate n zero_DrawElement]> arrays).

(** [copy(dst, src)]: the first [min(len(dst), len(src))] cells. *)
Definition slice_copy (dst src : slice) (arrays : gmap loc (list DrawElement))
  : gmap loc (list DrawElement) :=
  let n := Nat.min (sl_len dst) (sl_len src) in
  match arrays !! sl_array dst with
  | Some cells =>
      <[sl_array dst := (take n (slice_read arrays src) ++ drop n cells)%list]> arrays
  | None => arrays
  end.

(** [append(s, x)]: in place when the array has a spare cell, otherwise
    into a new array of the capacity [grow] chooses. *)
Definition slice_append (grow : nat → nat) (s : slice) (x : DrawElement)
    (arrays : gmap loc (list DrawElement))
  : slice * gmap loc (list DrawElement) :=
  if (sl_len s <? sl_cap s)%nat then
    (mkSlice (sl_array s) (S (sl_len s)) (sl_cap s),
     alter (λ cells, <[sl_len s := x]> cells) (sl_array s) arrays)
  else
    let a := fresh (dom arrays) in
    let capacity := grow (sl_cap s) in
    (mkSlice a (S (sl_len s)) capacity,
     <[a := (slice_read arrays s
            ++ x :: replicate (capacity - S (sl_len s)) zero_DrawElement)%list]>
       arrays).

(** [s[i] = x], which writes a cell of the array in place; an index out
    of range panics. The server never assigns to a cell of a log, but the
    holder of a slice can. *)
Definition slice_store (s : slice) (i : nat) (x : DrawElement)
    (arrays : gmap loc (list DrawElement)) : option (gmap loc (list DrawElement)) :=
  if (i <? sl_len s)%nat
  then Some (alter (λ cells, <[i := x]> cells) (sl_array s) arrays)
  else None.

(** [AddElement], [ClearElements] and [GetElements] on the slice. *)
Definition AddElement_slice (grow : nat → nat) (element : DrawElement)
    (st : slice * gmap loc (list DrawElement))
  : slice * gmap loc (list DrawElement) :=
  slice_append grow (fst st) element (snd st).

Definition ClearElements_slice (st : slice * gmap loc (list DrawElement))
  : slice * gmap loc (list DrawElement) :=
  slice_make 0 (snd st).

Definition GetElements_slice (st : slice * gmap loc (list DrawElement))
  : slice * gmap loc (list DrawElement) :=
  let '(elements, arrays) := slice_make (sl_len (fst st)) (snd st) in
  (elements, slice_copy elements (fst st) arrays).

Inductive log_op : Type :=
| OpAdd (element : DrawElement)
| OpClear.

Definition log_op_slice (grow : nat → nat) (st : slice * gmap loc (list DrawElement))
    (op : log_op) : slice * gmap loc (list DrawElement) :=
  match op with
  | OpAdd element => AddElement_slice grow element st
  | OpClear => ClearElements_slice st
  end.

Definition log_op_list (elements : list DrawElement) (op : log_op)
  : list DrawElement :=
  match op with
  | OpAdd element => (elements ++ [element])%list
  | OpClear => []
  end.

(** The slice is a window on an allocated array. *)
Definition slice_ok (arrays : gmap loc (list DrawElement)) (s : slice) : Prop :=
  ∃ cells, arrays !! sl_array s = Some cells ∧ length cells = sl_cap s
           ∧ (sl_len s ≤ sl_cap s)%nat.

(* ===================================================================== *)
(** ** The id generator                                                   *)
(* ===================================================================== *)

Section Generator.

Lemma wrap_uint64_range x : 0 ≤ wrap_uint64 x < 2 ^ 64.
Proof. unfold wrap_uint64. apply Z.mod_pos_bound. lia. Qed.

(** The quotient of a [uint64] by 65536 is below 2^48, which [int]
    holds unchanged. *)
Lemma wrap_int_quotient x :
  0 ≤ x < 2 ^ 64 → wrap_int (x / 65536) = x / 65536 ∧ 0 ≤ x / 65536 < 2 ^ 48.
Proof.
  intros [Hlo Hhi].
  assert (Hq : 0 ≤ x / 65536 < 2 ^ 48).
  { split; [apply Z.div_pos; lia |].
    apply Z.div_lt_upper_bound; [lia |].
    replace (65536 * 2 ^ 48) with (2 ^ 64) by reflexivity. exact Hhi. }
  split; [| exact Hq].
  unfold wrap_int, wrap_int_bits. change (64 - 1) with 63.
  rewrite Z.mod_small; [lia |].
  assert (2 ^ 48 < 2 ^ 63) by (apply Z.pow_lt_mono_r; lia).
  assert (2 ^ 63 + 2 ^ 63 = 2 ^ 64) by reflexivity.
  lia.
Qed.

Lemma randomInt_range max seed :
  0 < max →
  ∃ r seed', randomInt max seed = Some (r, seed') ∧ 0 ≤ r < max
             ∧ seed' = wrap_uint64 (seed * 1103515245 + 12345).
Proof.
  intros Hmax. unfold randomInt.
  destruct (Z.eqb_spec max 0) as [-> | _]; [lia |].
  eexists _, _. split; [reflexivity |]. split; [| reflexivity].
  destruct (wrap_int_quotient _ (wrap_uint64_range (seed * 1103515245 + 12345)))
    as [-> [Hq _]].
  apply Z.rem_bound_pos; lia.
Qed.

Lemma get_in_range s (n : nat) :
  (n < String.length s)%nat →
  ∃ a, String.get n s = Some a ∧ In a (list_ascii_of_string s).
Proof.
  revert n. induction s as [| b s IH]; intros n Hn; simpl in Hn; [lia |].
  destruct n as [| n]; simpl.
  - exists b. split; [reflexivity | now left].
  - destruct (IH n) as (a & Ha & Hin); [lia |].
    exists a. split; [exact Ha | now right].
Qed.

Lemma index_string_in_range s i :
  0 ≤ i < len s →
  ∃ a, index_string s i = Some a ∧ In a (list_ascii_of_string s).
Proof.
  intros [Hlo Hhi]. unfold index_string, len in *.
  destruct (Z.ltb_spec i 0); [lia |].
  apply get_in_range. lia.
Qed.

Lemma len_letters : len letters = 62.
Proof. reflexivity. Qed.

Lemma randomString_loop_total (n : nat) seed :
  ∃ s seed', randomString_loop n seed = Some (s, seed')
             ∧ String.length s = n
             ∧ Forall (λ a, In a (list_ascii_of_string letters)) (list_ascii_of_string s).
Proof.
  revert seed. induction n as [| n IH]; intros seed.
  - exists EmptyString, seed. repeat split. constructor.
  - cbn [randomString_loop].
    destruct (randomInt_range (len letters) seed) as (i & seed1 & -> & Hi & _);
      [rewrite len_letters; lia |].
    destruct (index_string_in_range letters i Hi) as (b & Hb & Hin).
    destruct (IH seed1) as (rest & seed2 & Hrest & Hlen & Hall).
    exists (String b rest), seed2.
    cbn. rewrite Hb. cbn. rewrite Hrest. cbn.
    repeat split; [now rewrite Hlen | constructor; assumption].
Qed.

Lemma generateID_total seed :
  ∃ id seed', generateID seed = Some (id, seed') ∧ String.length id = 8%nat.
Proof.
  unfold generateID, randomString.
  destruct (randomString_loop_total (Z.to_nat 8) seed) as (s & seed' & H & Hlen & _).
  exists s, seed'. split; [exact H | exact Hlen].
Qed.

Lemma generateIDs_total (k : nat) seed :
  ∃ ids seed', generateIDs k seed = Some (ids, seed') ∧ length ids = k
               ∧ Forall (λ id, String.length id = 8%nat) ids.
Proof.
  revert seed. induction k as [| k IH]; intros seed.
  - exists [], seed. repeat split. constructor.
  - destruct (generateID_total seed) as (id & seed1 & Hid & Hlen).
    destruct (IH seed1) as (ids & seed2 & Hids & Hk & Hall).
    exists (id :: ids), seed2. cbn [generateIDs]. rewrite Hid. cbn. rewrite Hids. cbn.
    repeat split; [now rewrite Hk | constructor; assumption].
Qed.

Lemma generateIDs_S (k : nat) seed :
  generateIDs (S k) seed =
  '(id, randSeed) ← generateID seed;
  '(ids, randSeed) ← generateIDs k randSeed;
  Some (id :: ids, randSeed).
Proof. reflexivity. Qed.

(** Calls of [generateID] compose: [k] calls then one more. *)
Lemma generateIDs_snoc (k : nat) seed ids seed1 id seed2 :
  generateIDs k seed = Some (ids, seed1) →
  generateID seed1 = Some (id, seed2) →
  generateIDs (S k) seed = Some ((ids ++ [id])%list, seed2).
Proof.
  revert seed ids. induction k as [| k IH]; intros seed ids Hk Hid.
  - cbn in Hk. injection Hk as <- <-. rewrite generateIDs_S, Hid. reflexivity.
  - rewrite generateIDs_S in Hk.
    destruct (generateID seed) as [[id0 s0] |] eqn:H0; [| discriminate].
    cbn [mbind option_bind] in Hk.
    destruct (generateIDs k s0) as [[ids0 s1] |] eqn:H1; [| discriminate].
    cbn [mbind option_bind] in Hk. injection Hk as <- <-.
    rewrite generateIDs_S, H0. cbn [mbind option_bind].
    rewrite (IH s0 ids0 H1 Hid). reflexivity.
Qed.

End Generator.

(** With an [int] of 32 bits the conversion can be negative, and so can
    the index: the third call of [randomInt] from the initial seed. *)
Remark narrow_int_goes_negative :
  ∃ seed1 seed2 i,
    randomInt 62 randSeed_init = Some (i, seed1)
    ∧ seed2 = wrap_uint64 (seed1 * 1103515245 + 12345)
    ∧ wrap_int_bits 32 (wrap_uint64 (seed2 * 1103515245 + 12345) / 65536)
      = -1773787263
    ∧ Z.rem (-1773787263) 62 = -61.
Proof. eexists _, _, _. repeat split; reflexivity. Qed.

(* ===================================================================== *)
(** ** Enqueue attempts and fan-out                                       *)
(* ===================================================================== *)

Section Queues.

Implicit Types (c : Client) (msg : json) (h : gmap loc Client).

(** An attempt on a client whose flag agrees with its channel never
    sends on a closed channel. *)
Lemma deliver_coherent msg c :
  cl_closed c = ch_closed (cl_Send c) → is_Some (deliver msg c).
Proof.
  intros Hc. unfold deliver, select_send_default, chan_send.
  destruct (cl_closed c) eqn:E; [eauto |].
  rewrite <- Hc. destruct (_ <? _)%nat; cbn; eauto.
Qed.

Lemma deliver_closed msg c : cl_closed c = true → deliver msg c = Some c.
Proof. intros H. unfold deliver. now rewrite H. Qed.

(** An attempt changes nothing but the buffer of [Send]. *)
Lemma deliver_frame msg c c' :
  deliver msg c = Some c' →
  cl_ID c' = cl_ID c ∧ cl_Conn c' = cl_Conn c ∧ cl_Room c' = cl_Room c
  ∧ cl_Color c' = cl_Color c ∧ cl_closed c' = cl_closed c
  ∧ ch_cap (cl_Send c') = ch_cap (cl_Send c)
  ∧ ch_closed (cl_Send c') = ch_closed (cl_Send c).
Proof.
  unfold deliver, select_send_default, chan_send.
  destruct c as [id cn rm col [buf cap [|]] [|]]; cbn;
    try discriminate; try (intros [= <-]; repeat split; reflexivity).
  match goal with |- context [if ?b then _ else _] => destruct b end;
    cbn; intros [= <-]; repeat split; reflexivity.
Qed.

Lemma deliver_ok msg c c' : deliver msg c = Some c' → client_ok c → client_ok c'.
Proof.
  intros H [H1 H2 H3].
  destruct (deliver_frame _ _ _ H) as (Hid & _ & _ & _ & Hcl & Hcap & Hch).
  split; congruence.
Qed.

(** The attempt on an open client: appended when there is room, dropped
    when the buffer is full. *)
Lemma deliver_open msg c :
  cl_closed c = false → ch_closed (cl_Send c) = false →
  deliver msg c =
  Some (if (length (ch_buf (cl_Send c)) <? ch_cap (cl_Send c))%nat
        then set_cl_Send (mkChan (ch_buf (cl_Send c) ++ [msg])
                            (ch_cap (cl_Send c)) false) c
        else c).
Proof.
  intros H1 H2. unfold deliver, select_send_default, chan_send.
  rewrite H1, H2. destruct (_ <? _)%nat; cbn; [reflexivity |].
  destruct c as [? ? ? ? [? ? ?] ?]; reflexivity.
Qed.

Lemma lookup_fanout msg targets h k :
  fanout msg targets h !! k =
  h !! k ≫= (λ c, if decide (k ∈ targets) then deliver msg c else Some c).
Proof. unfold fanout. apply map_lookup_imap. Qed.

Lemma fanout_empty msg h : fanout msg ∅ h = h.
Proof.
  apply map_eq. intros k. rewrite lookup_fanout.
  destruct (h !! k); cbn; [| reflexivity].
  case_decide; [set_solver | reflexivity].
Qed.

Lemma lookup_fanout_outside msg targets h k :
  k ∉ targets → fanout msg targets h !! k = h !! k.
Proof.
  intros Hk. rewrite lookup_fanout. destruct (h !! k); cbn; [| reflexivity].
  case_decide; [contradiction | reflexivity].
Qed.

Lemma lookup_fanout_inside msg targets h k :
  k ∈ targets → fanout msg targets h !! k = h !! k ≫= deliver msg.
Proof.
  intros Hk. rewrite lookup_fanout. destruct (h !! k); cbn; [| reflexivity].
  case_decide; [reflexivity | contradiction].
Qed.

(** Extending the targets by a client already served. *)
Lemma fanout_insert msg targets h k c c' :
  k ∉ targets → h !! k = Some c → deliver msg c = Some c' →
  fanout msg targets (<[k := c']> h) = fanout msg ({[k]} ∪ targets) h.
Proof.
  intros Hk Hc Hd. apply map_eq. intros i. rewrite !lookup_fanout.
  destruct (decide (i = k)) as [-> | Hne].
  - rewrite lookup_insert_eq, Hc. cbn.
    repeat case_decide; try set_solver; now rewrite Hd.
  - rewrite lookup_insert_ne by congruence.
    destruct (h !! i); cbn; [| reflexivity].
    repeat case_decide; try reflexivity; set_solver.
Qed.

Lemma Broadcast_loop_fanout msg sender l h :
  NoDup l →
  (∀ k, k ∈ l → k ≠ sender →
        ∃ c, h !! k = Some c ∧ cl_closed c = ch_closed (cl_Send c)) →
  Broadcast_loop msg sender l h
  = Some (fanout msg (list_to_set l ∖ {[sender]}) h).
Proof.
  intros Hnd. revert h. induction Hnd as [| k l Hk Hnd IH]; intros h Hall.
  - cbn. f_equal. rewrite <- (fanout_empty msg h) at 1. f_equal. set_solver.
  - cbn [Broadcast_loop]. case_decide as Hs.
    + subst k. rewrite IH.
      * f_equal. f_equal. set_solver.
      * intros j Hj Hne. apply Hall; [now right | exact Hne].
    + destruct (Hall k) as (c & Hc & Hco); [now left | exact Hs |].
      destruct (deliver_coherent msg c Hco) as [c' Hd].
      rewrite Hc. cbn. rewrite Hd. cbn. rewrite IH.
      * f_equal.
        rewrite (fanout_insert msg _ h k c c'); [| set_solver | exact Hc | exact Hd].
        f_equal. set_solver.
      * intros j Hj Hne.
        assert (j ≠ k) by (intros ->; contradiction).
        rewrite lookup_insert_ne by congruence.
        apply Hall; [now right | exact Hne].
Qed.

Lemma BroadcastToAll_loop_fanout msg l h :
  NoDup l →
  (∀ k, k ∈ l → ∃ c, h !! k = Some c ∧ cl_closed c = ch_closed (cl_Send c)) →
  BroadcastToAll_loop msg l h = Some (fanout msg (list_to_set l) h).
Proof.
  intros Hnd. revert h. induction Hnd as [| k l Hk Hnd IH]; intros h Hall.
  - cbn. f_equal. now rewrite fanout_empty.
  - cbn [BroadcastToAll_loop].
    destruct (Hall k) as (c & Hc & Hco); [now left |].
    destruct (deliver_coherent msg c Hco) as [c' Hd].
    rewrite Hc. cbn. rewrite Hd. cbn. rewrite IH.
    + f_equal.
      rewrite (fanout_insert msg _ h k c c'); [| set_solver | exact Hc | exact Hd].
      reflexivity.
    + intros j Hj.
      assert (j ≠ k) by (intros ->; contradiction).
      rewrite lookup_insert_ne by congruence.
      apply Hall. now right.
Qed.

End Queues.

(* ===================================================================== *)
(** ** Well-formed states                                                 *)
(* ===================================================================== *)

Section WellFormed.

Implicit Types (σ : State) (c : Client) (r : Room) (msg : json).

Lemma wf_init : wf init.
Proof. split; cbn; intros *; rewrite ?lookup_empty; discriminate. Qed.

Lemma wf_log_Printf l σ : wf σ → wf (log_Printf l σ).
Proof. intros [H1 H2 H3]. split; assumption. Qed.

Lemma wf_set_colorIndex i σ : wf σ → wf (set_colorIndex i σ).
Proof. intros [H1 H2 H3]. split; assumption. Qed.

Lemma wf_set_randSeed s σ : wf σ → wf (set_randSeed s σ).
Proof. intros [H1 H2 H3]. split; assumption. Qed.

Lemma wf_set_drawn d σ : wf σ → wf (set_drawn d σ).
Proof. intros [H1 H2 H3]. split; assumption. Qed.

Lemma wf_coherent σ k c :
  wf σ → heap σ !! k = Some c → cl_closed c = ch_closed (cl_Send c).
Proof. intros Hwf Hc. apply (wf_client _ Hwf _ _ Hc). Qed.

(** The fan-out keeps every client object, changing buffers only. *)
Lemma fanout_lookup_Some msg targets (h : gmap loc Client) k c :
  h !! k = Some c → cl_closed c = ch_closed (cl_Send c) →
  ∃ c', fanout msg targets h !! k = Some c'
        ∧ (c' = c ∨ deliver msg c = Some c').
Proof.
  intros Hc Hco. rewrite lookup_fanout, Hc. cbn. case_decide.
  - destruct (deliver_coherent msg c Hco) as [c' Hd]. exists c'. rewrite Hd. eauto.
  - exists c. eauto.
Qed.

Lemma fanout_lookup_inv msg targets (h : gmap loc Client) k c' :
  fanout msg targets h !! k = Some c' →
  ∃ c, h !! k = Some c ∧ (c' = c ∨ deliver msg c = Some c').
Proof.
  rewrite lookup_fanout. destruct (h !! k) as [c |]; cbn; [| discriminate].
  case_decide; intros H'; exists c; split; try reflexivity.
  - now right.
  - injection H' as <-. now left.
Qed.

Lemma wf_fanout msg targets σ :
  wf σ → wf (set_heap (fanout msg targets (heap σ)) σ).
Proof.
  intros Hwf. split; cbn.
  - intros k c' Hk. apply fanout_lookup_inv in Hk as (c & Hc & [-> | Hd]).
    + apply (wf_client _ Hwf _ _ Hc).
    + apply (deliver_ok _ _ _ Hd). apply (wf_client _ Hwf _ _ Hc).
  - intros rid r k Hr Hk.
    destruct (wf_member _ Hwf _ _ _ Hr Hk) as [c Hc].
    destruct (fanout_lookup_Some msg targets _ _ _ Hc (wf_coherent _ _ _ Hwf Hc))
      as (c' & -> & _).
    eauto.
  - intros k c' Hk. apply fanout_lookup_inv in Hk as (c & Hc & [-> | Hd]).
    + apply (wf_room _ Hwf _ _ Hc).
    + destruct (deliver_frame _ _ _ Hd) as (_ & _ & -> & _).
      apply (wf_room _ Hwf _ _ Hc).
Qed.

(** Replacing a room by one whose members are allocated. *)
Lemma wf_set_room rid r' σ :
  wf σ → (∀ k, k ∈ room_Clients r' → is_Some (heap σ !! k)) →
  wf (set_Rooms (<[rid := r']> (Rooms σ)) σ).
Proof.
  intros Hwf Hmem. split; cbn.
  - apply (wf_client _ Hwf).
  - intros rid0 r0 k. rewrite lookup_insert. case_decide.
    + intros [= <-]. apply Hmem.
    + apply (wf_member _ Hwf).
  - intros k c Hc. rewrite lookup_insert_is_Some.
    destruct (decide (rid = cl_Room c)); [now left | right].
    split; [assumption | apply (wf_room _ Hwf _ _ Hc)].
Qed.

Lemma wf_GetOrCreateRoom rid σ : wf σ → wf (GetOrCreateRoom rid σ).
Proof.
  intros Hwf. unfold GetOrCreateRoom. destruct (Rooms σ !! rid); [assumption |].
  apply wf_set_room; [assumption |]. cbn. set_solver.
Qed.

(** Storing a client object whose room is in the hub. *)
Lemma wf_set_client k c σ :
  wf σ → client_ok c → is_Some (Rooms σ !! cl_Room c) →
  wf (set_heap (<[k := c]> (heap σ)) σ).
Proof.
  intros Hwf Hok Hroom. split; cbn.
  - intros j c0. rewrite lookup_insert. case_decide.
    + intros [= <-]. exact Hok.
    + apply (wf_client _ Hwf).
  - intros rid r j Hr Hj. rewrite lookup_insert_is_Some.
    destruct (decide (k = j)); [now left | right].
    split; [assumption | apply (wf_member _ Hwf _ _ _ Hr Hj)].
  - intros j c0. rewrite lookup_insert. case_decide.
    + intros [= <-]. exact Hroom.
    + apply (wf_room _ Hwf).
Qed.

Lemma Room_Broadcast_wf rid r msg sender σ :
  wf σ → Rooms σ !! rid = Some r →
  Room_Broadcast rid msg sender σ
  = Some (set_heap (fanout msg (room_Clients r ∖ {[sender]}) (heap σ)) σ).
Proof.
  intros Hwf Hr. unfold Room_Broadcast, Broadcast. rewrite Hr. cbn.
  rewrite Broadcast_loop_fanout.
  - cbn. now rewrite list_to_set_elements_L.
  - apply NoDup_elements.
  - intros k Hk _. apply elem_of_elements in Hk.
    destruct (wf_member _ Hwf _ _ _ Hr Hk) as [c Hc].
    exists c. split; [exact Hc | apply (wf_coherent _ _ _ Hwf Hc)].
Qed.

Lemma Room_BroadcastToAll_wf rid r msg σ :
  wf σ → Rooms σ !! rid = Some r →
  Room_BroadcastToAll rid msg σ
  = Some (set_heap (fanout msg (room_Clients r) (heap σ)) σ).
Proof.
  intros Hwf Hr. unfold Room_BroadcastToAll, BroadcastToAll. rewrite Hr. cbn.
  rewrite BroadcastToAll_loop_fanout.
  - cbn. now rewrite list_to_set_elements_L.
  - apply NoDup_elements.
  - intros k Hk. apply elem_of_elements in Hk.
    destruct (wf_member _ Hwf _ _ _ Hr Hk) as [c Hc].
    exists c. split; [exact Hc | apply (wf_coherent _ _ _ Hwf Hc)].
Qed.

Lemma GetUserList_loop_total l (h : gmap loc Client) users :
  (∀ k, k ∈ l → is_Some (h !! k)) → is_Some (GetUserList_loop l h users).
Proof.
  revert users. induction l as [| k l IH]; intros users Hall; cbn; [eauto |].
  destruct (Hall k) as [c Hc]; [now left |].
  rewrite Hc. cbn. apply IH. intros j Hj. apply Hall. now right.
Qed.

Lemma GetUserList_wf rid r σ :
  wf σ → Rooms σ !! rid = Some r → is_Some (GetUserList r (heap σ)).
Proof.
  intros Hwf Hr. apply GetUserList_loop_total.
  intros k Hk. apply elem_of_elements in Hk. apply (wf_member _ Hwf _ _ _ Hr Hk).
Qed.

End WellFormed.

(* ===================================================================== *)
(** ** The router in closed form                                          *)
(* ===================================================================== *)

Section Router.

Implicit Types (σ : State) (c : Client) (r : Room) (m : Message).

Lemma wf_room_update (f : Room → Room) rid r σ :
  wf σ → Rooms σ !! rid = Some r → room_Clients (f r) ⊆ room_Clients r →
  wf (set_Rooms (<[rid := f r]> (Rooms σ)) σ).
Proof.
  intros Hwf Hr Hsub. apply wf_set_room; [assumption |].
  intros k Hk. apply (wf_member _ Hwf _ _ _ Hr). set_solver.
Qed.

(** A draw whose payload decodes: the element, with the id of the
    connection, is appended and sent on to the other members. *)
Lemma route_draw_stored k c r m e σ :
  wf σ → heap σ !! k = Some c → Rooms σ !! cl_Room c = Some r →
  msg_Type m = TypeDraw →
  Unmarshal_DrawElement (Marshal_data (msg_Data m)) = Some e →
  route k m σ
  = Some (set_heap
            (fanout (Marshal (mkMessage TypeDraw (cl_ID c)
                                (DElement (set_el_UserID (cl_ID c) e))))
               (room_Clients r ∖ {[k]}) (heap σ))
            (set_Rooms (<[cl_Room c := AddElement (set_el_UserID (cl_ID c) e) r]>
                          (Rooms σ)) σ)).
Proof.
  intros Hwf Hc Hr Ht He. unfold route. rewrite Hc. cbn [mbind option_bind].
  change (msg_Type (set_msg_UserID (cl_ID c) m)) with (msg_Type m). rewrite Ht.
  change (String.eqb TypeDraw TypeDraw) with true. cbv iota.
  unfold store_draw.
  change (msg_Data (set_msg_UserID (cl_ID c) m)) with (msg_Data m). rewrite He.
  unfold on_Room. rewrite Hr. cbn [mbind option_bind].
  rewrite (Room_Broadcast_wf _ (AddElement (set_el_UserID (cl_ID c) e) r)).
  - unfold set_msg_Data, set_msg_UserID. cbn. rewrite Ht. reflexivity.
  - apply (wf_room_update (AddElement _)); [assumption .. | reflexivity].
  - cbn. apply lookup_insert_eq.
Qed.

(** A draw whose payload does not decode: nothing is stored, the message
    is sent on with the payload it came with. *)
Lemma route_draw_raw k c r m σ :
  wf σ → heap σ !! k = Some c → Rooms σ !! cl_Room c = Some r →
  msg_Type m = TypeDraw →
  Unmarshal_DrawElement (Marshal_data (msg_Data m)) = None →
  route k m σ
  = Some (set_heap
            (fanout (Marshal (mkMessage TypeDraw (cl_ID c) (msg_Data m)))
               (room_Clients r ∖ {[k]}) (heap σ)) σ).
Proof.
  intros Hwf Hc Hr Ht He. unfold route. rewrite Hc. cbn [mbind option_bind].
  change (msg_Type (set_msg_UserID (cl_ID c) m)) with (msg_Type m). rewrite Ht.
  change (String.eqb TypeDraw TypeDraw) with true. cbv iota.
  unfold store_draw.
  change (msg_Data (set_msg_UserID (cl_ID c) m)) with (msg_Data m). rewrite He.
  cbn [mbind option_bind].
  erewrite Room_Broadcast_wf; [| eassumption ..].
  unfold set_msg_UserID. rewrite Ht. reflexivity.
Qed.

Lemma route_cursor k c r m σ :
  wf σ → heap σ !! k = Some c → Rooms σ !! cl_Room c = Some r →
  msg_Type m = TypeCursor →
  route k m σ
  = Some (set_heap
            (fanout (Marshal (mkMessage TypeCursor (cl_ID c) (msg_Data m)))
               (room_Clients r ∖ {[k]}) (heap σ)) σ).
Proof.
  intros Hwf Hc Hr Ht. unfold route. rewrite Hc. cbn [mbind option_bind].
  change (msg_Type (set_msg_UserID (cl_ID c) m)) with (msg_Type m). rewrite Ht.
  change (String.eqb TypeCursor TypeDraw) with false.
  change (String.eqb TypeCursor TypeCursor) with true. cbv iota.
  erewrite Room_Broadcast_wf; [| eassumption ..].
  unfold set_msg_UserID. rewrite Ht. reflexivity.
Qed.

Lemma route_clear k c r m σ :
  wf σ → heap σ !! k = Some c → Rooms σ !! cl_Room c = Some r →
  msg_Type m = TypeClear →
  route k m σ
  = Some (set_heap
            (fanout (Marshal (mkMessage TypeClear (cl_ID c) (msg_Data m)))
               (room_Clients r) (heap σ))
            (set_Rooms (<[cl_Room c := ClearElements r]> (Rooms σ)) σ)).
Proof.
  intros Hwf Hc Hr Ht. unfold route. rewrite Hc. cbn [mbind option_bind].
  change (msg_Type (set_msg_UserID (cl_ID c) m)) with (msg_Type m). rewrite Ht.
  change (String.eqb TypeClear TypeDraw) with false.
  change (String.eqb TypeClear TypeCursor) with false.
  change (String.eqb TypeClear TypeClear) with true. cbv iota.
  unfold on_Room. rewrite Hr. cbn [mbind option_bind].
  rewrite (Room_BroadcastToAll_wf _ (ClearElements r)).
  - unfold set_msg_UserID. cbn. rewrite Ht. reflexivity.
  - apply (wf_room_update ClearElements); [assumption .. | reflexivity].
  - cbn. apply lookup_insert_eq.
Qed.

(** Any other type tag falls through the [switch]. *)
Lemma route_other k c m σ :
  heap σ !! k = Some c →
  msg_Type m ≠ TypeDraw → msg_Type m ≠ TypeCursor → msg_Type m ≠ TypeClear →
  route k m σ = Some σ.
Proof.
  intros Hc H1 H2 H3. unfold route. rewrite Hc. cbn [mbind option_bind].
  change (msg_Type (set_msg_UserID (cl_ID c) m)) with (msg_Type m).
  destruct (String.eqb_spec (msg_Type m) TypeDraw); [contradiction |].
  destruct (String.eqb_spec (msg_Type m) TypeCursor); [contradiction |].
  destruct (String.eqb_spec (msg_Type m) TypeClear); [contradiction |].
  reflexivity.
Qed.

Lemma wf_route k m σ σ' : wf σ → route k m σ = Some σ' → wf σ'.
Proof.
  intros Hwf Hroute.
  destruct (heap σ !! k) as [c |] eqn:Hc;
    [| unfold route in Hroute; rewrite Hc in Hroute; discriminate].
  destruct (wf_room _ Hwf _ _ Hc) as [r Hr].
  destruct (String.eqb_spec (msg_Type m) TypeDraw) as [Hd | Hd].
  { destruct (Unmarshal_DrawElement (Marshal_data (msg_Data m))) as [e |] eqn:He.
    - rewrite (route_draw_stored _ _ _ _ _ _ Hwf Hc Hr Hd He) in Hroute.
      injection Hroute as <-.
      apply (wf_fanout _ _ (set_Rooms _ σ)).
      apply (wf_room_update (AddElement _)); [assumption .. | reflexivity].
    - rewrite (route_draw_raw _ _ _ _ _ Hwf Hc Hr Hd He) in Hroute.
      injection Hroute as <-. now apply wf_fanout. }
  destruct (String.eqb_spec (msg_Type m) TypeCursor) as [Hcu | Hcu].
  { rewrite (route_cursor _ _ _ _ _ Hwf Hc Hr Hcu) in Hroute.
    injection Hroute as <-. now apply wf_fanout. }
  destruct (String.eqb_spec (msg_Type m) TypeClear) as [Hcl | Hcl].
  { rewrite (route_clear _ _ _ _ _ Hwf Hc Hr Hcl) in Hroute.
    injection Hroute as <-.
    apply (wf_fanout _ _ (set_Rooms _ σ)).
    apply (wf_room_update ClearElements); [assumption .. | reflexivity]. }
  rewrite (route_other _ _ _ _ Hc Hd Hcu Hcl) in Hroute. now injection Hroute as <-.
Qed.

Lemma wf_handle_frame k f σ σ' : wf σ → handle_frame k f σ = Some σ' → wf σ'.
Proof.
  intros Hwf. unfold handle_frame. destruct (Unmarshal_Message f) as [m |].
  - now apply wf_route.
  - intros [= <-]. now apply wf_log_Printf.
Qed.

End Router.

(* ===================================================================== *)
(** ** Joining, leaving and the write pump                                *)
(* ===================================================================== *)

Section Lifecycle.

Implicit Types (σ : State) (c : Client) (r : Room).

Lemma wf_Room_Broadcast rid msg sender σ σ' :
  wf σ → Room_Broadcast rid msg sender σ = Some σ' → wf σ'.
Proof.
  intros Hwf H. destruct (Rooms σ !! rid) as [r |] eqn:Hr.
  - rewrite (Room_Broadcast_wf _ _ _ _ _ Hwf Hr) in H. injection H as <-.
    now apply wf_fanout.
  - unfold Room_Broadcast in H. rewrite Hr in H. discriminate.
Qed.

Lemma wf_Room_BroadcastToAll rid msg σ σ' :
  wf σ → Room_BroadcastToAll rid msg σ = Some σ' → wf σ'.
Proof.
  intros Hwf H. destruct (Rooms σ !! rid) as [r |] eqn:Hr.
  - rewrite (Room_BroadcastToAll_wf _ _ _ _ Hwf Hr) in H. injection H as <-.
    now apply wf_fanout.
  - unfold Room_BroadcastToAll in H. rewrite Hr in H. discriminate.
Qed.

Lemma wf_teardown_close k σ σ' : wf σ → teardown_close k σ = Some σ' → wf σ'.
Proof.
  intros Hwf. unfold teardown_close.
  destruct (heap σ !! k) as [c |] eqn:Hc; [| discriminate]. cbn [mbind option_bind].
  unfold chan_close. destruct (ch_closed (cl_Send c)) eqn:E; [discriminate |].
  cbn [mbind option_bind]. intros [= <-].
  destruct (wf_client _ Hwf _ _ Hc) as [H1 H2 H3].
  apply wf_set_client; [assumption | split; cbn; auto |].
  apply (wf_room _ Hwf _ _ Hc).
Qed.

(** The first critical section of the deferred function sets the flag and
    closes the channel in one step. *)
Lemma teardown_close_closes k σ σ' :
  teardown_close k σ = Some σ' →
  ∃ c c', heap σ !! k = Some c ∧ heap σ' !! k = Some c'
          ∧ cl_closed c' = true ∧ ch_closed (cl_Send c') = true
          ∧ ch_buf (cl_Send c') = ch_buf (cl_Send c).
Proof.
  unfold teardown_close.
  destruct (heap σ !! k) as [c |] eqn:Hc; [| discriminate]. cbn [mbind option_bind].
  unfold chan_close. destruct (ch_closed (cl_Send c)) eqn:E; [discriminate |].
  cbn [mbind option_bind]. intros [= <-].
  eexists _, _. split; [reflexivity |]. cbn. rewrite lookup_insert_eq.
  split; [reflexivity |]. cbn. auto.
Qed.

Lemma wf_teardown_leave k σ σ' : wf σ → teardown_leave k σ = Some σ' → wf σ'.
Proof.
  intros Hwf. unfold teardown_leave.
  destruct (heap σ !! k) as [c |] eqn:Hc; [| discriminate]. cbn [mbind option_bind].
  unfold on_Room.
  destruct (Rooms σ !! cl_Room c) as [r |] eqn:Hr; [| discriminate].
  cbn [mbind option_bind].
  set (σ1 := set_heap _ (set_Rooms _ σ)).
  assert (Hwf1 : wf σ1).
  { apply (wf_set_client _ _ (set_Rooms _ σ)).
    - apply (wf_room_update (RemoveClient k)); [assumption .. |]. cbn. set_solver.
    - destruct (wf_client _ Hwf _ _ Hc). split; assumption.
    - cbn. rewrite lookup_insert_eq. eauto. }
  destruct (Room_Broadcast _ _ _ σ1) as [σ2 |] eqn:H2; [| discriminate].
  cbn [mbind option_bind].
  assert (Hwf2 : wf σ2) by (eapply wf_Room_Broadcast; eassumption).
  destruct (Rooms σ2 !! cl_Room c) as [r2 |]; [| discriminate].
  cbn [mbind option_bind].
  destruct (GetUserList r2 (heap σ2)) as [users |]; [| discriminate].
  cbn [mbind option_bind].
  destruct (Room_BroadcastToAll _ _ σ2) as [σ3 |] eqn:H3; [| discriminate].
  cbn [mbind option_bind]. intros [= <-].
  apply wf_log_Printf. eapply wf_Room_BroadcastToAll; eassumption.
Qed.

Lemma wf_writePump_step k ok σ σ' :
  wf σ → writePump_step k ok σ = Some σ' → wf σ'.
Proof.
  intros Hwf. unfold writePump_step.
  destruct (heap σ !! k) as [c |] eqn:Hc; [| discriminate]. cbn [mbind option_bind].
  destruct (wf_client _ Hwf _ _ Hc) as [H1 H2 H3].
  pose proof (wf_room _ Hwf _ _ Hc) as Hroom.
  unfold chan_recv. destruct (ch_buf (cl_Send c)) as [| msg rest].
  - destruct (ch_closed (cl_Send c)) eqn:E; intros [= <-]; [| assumption].
    apply wf_set_client; [assumption | split; cbn; congruence | assumption].
  - intros [= <-]. apply wf_set_client; [assumption | split; cbn; assumption | assumption].
Qed.

Lemma resolve_userID_total userID σ :
  ∃ uid σ1, resolve_userID userID σ = Some (uid, σ1) ∧ uid ≠ ""
            ∧ Rooms σ1 = Rooms σ ∧ heap σ1 = heap σ
            ∧ colorIndex σ1 = colorIndex σ ∧ logged σ1 = logged σ
            ∧ (userID ≠ "" → uid = userID ∧ σ1 = σ)
            ∧ (userID = "" →
               generateID (randSeed σ) = Some (uid, randSeed σ1)).
Proof.
  unfold resolve_userID. destruct (String.eqb_spec userID "") as [-> | Hne].
  - destruct (generateID_total (randSeed σ)) as (id & seed & Hid & Hlen).
    rewrite Hid. cbn. exists id, (set_randSeed seed σ).
    repeat split; try reflexivity; try assumption; try congruence.
    intros ->. discriminate.
  - exists userID, σ. repeat split; try reflexivity; try assumption; congruence.
Qed.

Lemma getNextColor_total ci :
  0 ≤ ci → ∃ color ci', getNextColor ci = Some (color, ci').
Proof.
  intros Hci. unfold getNextColor.
  change (Z.of_nat (length userColors)) with 8.
  pose proof (Z.rem_bound_pos ci 8 Hci ltac:(lia)) as Hr.
  destruct (Z.ltb_spec (Z.rem ci 8) 0) as [Hlt | _]; [lia |].
  destruct (userColors !! Z.to_nat (Z.rem ci 8)) as [color |] eqn:E.
  - cbn. eauto.
  - apply lookup_ge_None in E. cbn in E. lia.
Qed.

End Lifecycle.

(* ===================================================================== *)
(** ** Joining a room                                                     *)
(* ===================================================================== *)

Section Join.

Implicit Types (σ : State) (c : Client) (r : Room).

Lemma GetOrCreateRoom_lookup rid σ :
  Rooms (GetOrCreateRoom rid σ) !! rid = Some (room_of rid σ)
  ∧ heap (GetOrCreateRoom rid σ) = heap σ
  ∧ colorIndex (GetOrCreateRoom rid σ) = colorIndex σ
  ∧ randSeed (GetOrCreateRoom rid σ) = randSeed σ
  ∧ <[rid := room_of rid σ]> (Rooms σ) = Rooms (GetOrCreateRoom rid σ).
Proof.
  unfold GetOrCreateRoom, room_of. destruct (Rooms σ !! rid) as [r |] eqn:Hr; cbn.
  - repeat split; try assumption. now apply insert_id.
  - rewrite lookup_insert_eq. repeat split.
Qed.

(** An enqueue attempt leaves what was written to the socket alone. *)
Lemma fanout_written msg targets (h : gmap loc Client) k c :
  h !! k = Some c → cl_closed c = ch_closed (cl_Send c) →
  ∃ c', fanout msg targets h !! k = Some c' ∧ cl_Conn c' = cl_Conn c.
Proof.
  intros Hc Hco.
  destruct (fanout_lookup_Some msg targets h k c Hc Hco) as (c' & Hc' & [-> | Hd]).
  - eauto.
  - exists c'. split; [assumption |]. now destruct (deliver_frame _ _ _ Hd) as (_ & -> & _).
Qed.

Lemma handleWebSocket_join roomID userID σ color ci :
  wf σ → getNextColor (colorIndex σ) = Some (color, ci) →
  ∃ k σ' uid σ1,
    handleWebSocket roomID userID true σ = Some (Some k, σ')
    ∧ resolve_userID userID σ = Some (uid, σ1)
    ∧ heap σ !! k = None
    ∧ wf σ'
    ∧ sync_of k σ'
      = Some (Marshal (mkMessage TypeSync uid
                         (DSync (room_Elements (room_of (room_key roomID) σ)) uid color)))
    ∧ randSeed σ' = randSeed σ1
    ∧ Rooms σ' = <[room_key roomID := AddClient k (room_of (room_key roomID) σ)]> (Rooms σ)
    ∧ ∃ c1 msgJ msgU,
        c1 = mkClient uid
               (mkConn [Marshal (mkMessage TypeSync uid
                                   (DSync (room_Elements (room_of (room_key roomID) σ))
                                      uid color))] false)
               (room_key roomID) color (make_chan 256) false
        ∧ heap σ'
          = fanout msgU ({[k]} ∪ room_Clients (room_of (room_key roomID) σ))
              (fanout msgJ
                 (({[k]} ∪ room_Clients (room_of (room_key roomID) σ)) ∖ {[k]})
                 (<[k := c1]> (heap σ))).
Proof.
  intros Hwf Hcol. unfold handleWebSocket.
  destruct (resolve_userID_total userID σ)
    as (uid & σ1 & Hres & Huid & HR1 & Hh1 & Hc1 & Hl1 & _ & _).
  rewrite Hres. cbn [mbind option_bind negb].
  assert (Hwf1 : wf σ1).
  { destruct Hwf as [A B C]. split; rewrite ?HR1, ?Hh1; assumption. }
  set (rid := room_key roomID).
  destruct (GetOrCreateRoom_lookup rid σ1) as (Hr0 & Hh2 & Hc2 & Hs2 & Hins).
  assert (Hro : room_of rid σ1 = room_of rid σ) by (unfold room_of; now rewrite HR1).
  rewrite Hro in Hr0, Hins.
  pose proof (wf_GetOrCreateRoom rid _ Hwf1) as Hwf2.
  set (σ2 := GetOrCreateRoom rid σ1) in *.
  rewrite Hc2, Hc1, Hcol. cbn [mbind option_bind].
  set (k := fresh (dom (heap (set_colorIndex ci σ2)))).
  assert (Hfresh : heap σ !! k = None).
  { apply not_elem_of_dom. rewrite <- Hh1, <- Hh2. apply is_fresh. }
  set (c0 := mkClient uid (mkConn [] false) rid color (make_chan 256) false).
  set (σ4 := set_heap (<[k := c0]> (heap (set_colorIndex ci σ2))) (set_colorIndex ci σ2)).
  assert (Hwf4 : wf σ4).
  { apply wf_set_client.
    - now apply wf_set_colorIndex.
    - split; cbn; auto.
    - cbn. rewrite Hr0. eauto. }
  unfold on_Room.
  assert (Hr4 : Rooms σ4 !! rid = Some (room_of rid σ)) by exact Hr0.
  rewrite Hr4. cbn [mbind option_bind].
  set (r1 := AddClient k (room_of rid σ)).
  set (σ5 := set_Rooms (<[rid := r1]> (Rooms σ4)) σ4).
  assert (Hwf5 : wf σ5).
  { apply wf_set_room; [assumption |]. intros j Hj. cbn in Hj.
    apply elem_of_union in Hj as [Hj | Hj].
    - apply elem_of_singleton in Hj as ->. cbn. rewrite lookup_insert_eq. eauto.
    - cbn. rewrite lookup_insert_is_Some.
      destruct (decide (k = j)); [now left | right]. split; [assumption |].
      apply (wf_member _ Hwf2 _ _ _ Hr0 Hj). }
  assert (Hr5 : Rooms (log_Printf (LogJoined uid rid) σ5) !! rid = Some r1)
    by (cbn; apply lookup_insert_eq).
  rewrite Hr5. cbn [mbind option_bind].
  set (syncMsg := mkMessage TypeSync uid (DSync (GetElements r1) uid color)).
  set (c1 := set_cl_Conn (Conn_WriteMessage (Marshal syncMsg) (cl_Conn c0)) c0).
  set (σ7 := set_heap (<[k := c1]> (heap (log_Printf (LogJoined uid rid) σ5)))
               (log_Printf (LogJoined uid rid) σ5)).
  assert (Hwf7 : wf σ7).
  { apply wf_set_client.
    - now apply wf_log_Printf.
    - split; cbn; auto.
    - cbn. rewrite lookup_insert_eq. eauto. }
  assert (Hr7 : Rooms σ7 !! rid = Some r1) by exact Hr5.
  rewrite (Room_Broadcast_wf _ _ _ _ _ Hwf7 Hr7). cbn [mbind option_bind].
  set (σ8 := set_heap (fanout _ _ (heap σ7)) σ7).
  assert (Hwf8 : wf σ8) by (apply wf_fanout; assumption).
  assert (Hr8 : Rooms σ8 !! rid = Some r1) by exact Hr5.
  rewrite Hr8. cbn [mbind option_bind].
  destruct (GetUserList_wf _ _ _ Hwf8 Hr8) as [users Hu].
  rewrite Hu. cbn [mbind option_bind].
  rewrite (Room_BroadcastToAll_wf _ _ _ _ Hwf8 Hr8). cbn [mbind option_bind].
  eexists k, _, uid, σ1.
  split; [reflexivity |]. split; [reflexivity |].
  split; [exact Hfresh |].
  split; [apply wf_fanout; assumption |].
  split; [| split; [| split]].
  - unfold sync_of. cbn [heap set_heap].
    assert (H7 : heap σ7 !! k = Some c1) by (cbn; apply lookup_insert_eq).
    destruct (fanout_written
                (Marshal (mkMessage TypeJoin uid (DUserInfo (mkUserInfo uid color))))
                (room_Clients r1 ∖ {[k]}) _ _ _ H7 eq_refl) as (c2 & H8 & Hcn2).
    assert (H8' : heap σ8 !! k = Some c2) by exact H8.
    destruct (fanout_written
                (Marshal (mkMessage TypeUserList "" (DUserList users)))
                (room_Clients r1) (heap σ8) _ _ H8'
                (wf_coherent σ8 _ _ Hwf8 H8')) as (c3 & H9 & Hcn3).
    rewrite H9. cbn [mbind option_bind].
    rewrite Hcn3, Hcn2. reflexivity.
  - cbn. rewrite Hs2. reflexivity.
  - cbn. rewrite <- Hins, insert_insert_eq, HR1. reflexivity.
  - eexists c1, _, _. split; [reflexivity |].
    cbn. rewrite insert_insert_eq, Hh2, Hh1. reflexivity.
Qed.

End Join.

(* ===================================================================== *)
(** ** Invariants along runs                                              *)
(* ===================================================================== *)

Section Runs.

Implicit Types (σ : State) (c : Client) (r : Room) (e : event).

Lemma Room_Broadcast_seed rid msg sender σ σ' :
  Room_Broadcast rid msg sender σ = Some σ' → randSeed σ' = randSeed σ.
Proof.
  unfold Room_Broadcast. destruct (Rooms σ !! rid); [| discriminate]. cbn.
  destruct (Broadcast _ _ _ _); [| discriminate]. cbn. now intros [= <-].
Qed.

Lemma Room_BroadcastToAll_seed rid msg σ σ' :
  Room_BroadcastToAll rid msg σ = Some σ' → randSeed σ' = randSeed σ.
Proof.
  unfold Room_BroadcastToAll. destruct (Rooms σ !! rid); [| discriminate]. cbn.
  destruct (BroadcastToAll _ _ _); [| discriminate]. cbn. now intros [= <-].
Qed.

Lemma on_Room_seed rid f σ σ' :
  on_Room rid f σ = Some σ' → randSeed σ' = randSeed σ.
Proof.
  unfold on_Room. destruct (Rooms σ !! rid); [| discriminate]. cbn.
  now intros [= <-].
Qed.

Lemma route_seed k m σ σ' : route k m σ = Some σ' → randSeed σ' = randSeed σ.
Proof.
  unfold route. destruct (heap σ !! k) as [c |]; [| discriminate].
  cbn [mbind option_bind].
  destruct (String.eqb _ TypeDraw).
  { unfold store_draw. destruct (Unmarshal_DrawElement _).
    - destruct (on_Room _ _ σ) as [σ1 |] eqn:E1; [| discriminate].
      cbn [mbind option_bind]. intros H.
      rewrite (Room_Broadcast_seed _ _ _ _ _ H). apply (on_Room_seed _ _ _ _ E1).
    - cbn [mbind option_bind]. apply Room_Broadcast_seed. }
  destruct (String.eqb _ TypeCursor); [apply Room_Broadcast_seed |].
  destruct (String.eqb _ TypeClear); [| now intros [= <-]].
  destruct (on_Room _ _ σ) as [σ1 |] eqn:E1; [| discriminate].
  cbn [mbind option_bind]. intros H.
  rewrite (Room_BroadcastToAll_seed _ _ _ _ H). apply (on_Room_seed _ _ _ _ E1).
Qed.

Lemma handle_frame_seed k f σ σ' :
  handle_frame k f σ = Some σ' → randSeed σ' = randSeed σ.
Proof.
  unfold handle_frame. destruct (Unmarshal_Message f).
  - apply route_seed.
  - now intros [= <-].
Qed.

Lemma teardown_close_seed k σ σ' :
  teardown_close k σ = Some σ' → randSeed σ' = randSeed σ.
Proof.
  unfold teardown_close. destruct (heap σ !! k) as [c |]; [| discriminate].
  cbn [mbind option_bind]. destruct (chan_close _); [| discriminate].
  cbn. now intros [= <-].
Qed.

Lemma teardown_leave_seed k σ σ' :
  teardown_leave k σ = Some σ' → randSeed σ' = randSeed σ.
Proof.
  unfold teardown_leave. destruct (heap σ !! k) as [c |]; [| discriminate].
  cbn [mbind option_bind].
  destruct (on_Room _ _ σ) as [σ1 |] eqn:E1; [| discriminate].
  cbn [mbind option_bind].
  destruct (Room_Broadcast _ _ _ _) as [σ2 |] eqn:E2; [| discriminate].
  cbn [mbind option_bind].
  destruct (Rooms σ2 !! cl_Room c); [| discriminate]. cbn [mbind option_bind].
  destruct (GetUserList _ _); [| discriminate]. cbn [mbind option_bind].
  destruct (Room_BroadcastToAll _ _ σ2) as [σ3 |] eqn:E3; [| discriminate].
  cbn [mbind option_bind]. intros [= <-]. cbn.
  rewrite (Room_BroadcastToAll_seed _ _ _ _ E3), (Room_Broadcast_seed _ _ _ _ _ E2).
  cbn. apply (on_Room_seed _ _ _ _ E1).
Qed.

Lemma writePump_step_seed k ok σ σ' :
  writePump_step k ok σ = Some σ' → randSeed σ' = randSeed σ.
Proof.
  unfold writePump_step. destruct (heap σ !! k) as [c |]; [| discriminate].
  cbn [mbind option_bind]. destruct (chan_recv _); now intros [= <-].
Qed.

(** An accepted connection got its colour: [getNextColor] did not panic. *)
Lemma handleWebSocket_color roomID userID σ x :
  handleWebSocket roomID userID true σ = Some x →
  ∃ color ci, getNextColor (colorIndex σ) = Some (color, ci).
Proof.
  intros H. destruct (getNextColor (colorIndex σ)) as [[color ci] |] eqn:Hcol;
    [eauto |].
  exfalso. unfold handleWebSocket in H.
  destruct (resolve_userID_total userID σ)
    as (uid & σ1 & Hres & _ & _ & _ & Hc1 & _).
  rewrite Hres in H. cbn [mbind option_bind negb] in H.
  destruct (GetOrCreateRoom_lookup (room_key roomID) σ1) as (_ & _ & Hc2 & _).
  rewrite Hc2, Hc1, Hcol in H. discriminate.
Qed.

(** A refused upgrade leaves the hub and the clients alone; the id has
    been drawn before. *)
Lemma handleWebSocket_refused roomID userID σ :
  ∃ uid σ1, resolve_userID userID σ = Some (uid, σ1)
            ∧ handleWebSocket roomID userID false σ
              = Some (None, log_Printf LogUpgradeError σ1).
Proof.
  destruct (resolve_userID_total userID σ) as (uid & σ1 & Hres & _).
  exists uid, σ1. split; [assumption |]. unfold handleWebSocket.
  rewrite Hres. reflexivity.
Qed.

(** A connection request either panics in [getNextColor] or joins. *)
Lemma handleWebSocket_inv roomID userID ok σ res σ' :
  wf σ → handleWebSocket roomID userID ok σ = Some (res, σ') →
  wf σ' ∧ ∃ uid σ1, resolve_userID userID σ = Some (uid, σ1)
                    ∧ randSeed σ' = randSeed σ1.
Proof.
  intros Hwf H. destruct ok.
  - destruct (handleWebSocket_color _ _ _ _ H) as (color & ci & Hcol).
    destruct (handleWebSocket_join roomID userID σ color ci Hwf Hcol)
      as (k & σ2 & uid & σ1 & Hj & Hres & _ & Hwf2 & _ & Hseed & _).
    rewrite Hj in H. injection H as <- <-. eauto.
  - destruct (handleWebSocket_refused roomID userID σ) as (uid & σ1 & Hres & Hr).
    rewrite Hr in H. injection H as <- <-.
    destruct (resolve_userID_total userID σ)
      as (uid' & σ1' & Hres' & _ & HR1 & Hh1 & _).
    rewrite Hres in Hres'. injection Hres' as <- <-.
    split; [| eauto].
    apply wf_log_Printf. destruct Hwf as [A B C].
    split; rewrite ?HR1, ?Hh1; assumption.
Qed.

(** One turn of the loop of [randomString] in the handler of a request. *)
Lemma exec_EvDraw q σ σ' :
  exec (EvDraw q) σ = Some σ' →
  ∃ b seed,
    (String.length (default EmptyString (drawn σ !! q)) < 8)%nat
    ∧ randomString_turn (default EmptyString (drawn σ !! q)) (randSeed σ)
      = Some (b, seed)
    ∧ σ' = set_drawn (<[q := b]> (drawn σ)) (set_randSeed seed σ).
Proof.
  cbn [exec]. cbv zeta.
  destruct (Nat.ltb_spec (String.length (default EmptyString (drawn σ !! q))) 8)
    as [Hlt | Hge]; [| discriminate].
  destruct (randomString_turn _ _) as [[b seed] |]; [| discriminate].
  cbn. intros [= <-]. eauto.
Qed.

(** The handler of a request goes on from the return of [generateID] as
    an uninterrupted handler does for a request that brought that id. *)
Lemma exec_EvAccept q roomID ok σ σ' :
  exec (EvAccept q roomID ok) σ = Some σ' →
  ∃ userID σ1,
    drawn σ !! q = Some userID ∧ String.length userID = 8%nat
    ∧ exec (EvConnect roomID userID ok) σ = Some σ1
    ∧ σ' = set_drawn (delete q (drawn σ1)) σ1.
Proof.
  cbn [exec]. destruct (drawn σ !! q) as [userID |]; [| discriminate].
  cbn [mbind option_bind].
  destruct (Nat.eqb_spec (String.length userID) 8) as [Hlen | Hne]; [| discriminate].
  destruct (handleWebSocket roomID userID ok σ) as [[res σ1] |] eqn:H;
    [| discriminate].
  cbn. intros [= <-]. exists userID, σ1.
  split; [reflexivity |]. split; [exact Hlen |]. split; [| reflexivity].
  now rewrite H.
Qed.

Lemma exec_wf e σ σ' : wf σ → exec e σ = Some σ' → wf σ'.
Proof.
  intros Hwf.
  assert (Hconnect : ∀ roomID userID ok σ σ',
             wf σ → exec (EvConnect roomID userID ok) σ = Some σ' → wf σ').
  { clear. intros roomID userID ok σ σ' Hwf. cbn [exec].
    destruct (handleWebSocket roomID userID ok σ) as [[res σ1] |] eqn:H;
      [| discriminate].
    cbn. intros [= <-]. now destruct (handleWebSocket_inv _ _ _ _ _ _ Hwf H). }
  destruct e as [roomID userID ok | k f | k u | k | k ok | q | q roomID ok];
    [| | | | | intros He; destruct (exec_EvDraw _ _ _ He) as (b & seed & _ & _ & ->);
               now apply wf_set_drawn, wf_set_randSeed
           | intros He;
             destruct (exec_EvAccept _ _ _ _ _ He) as (uid & σ1 & _ & _ & He' & ->);
             exact (wf_set_drawn _ _ (Hconnect _ _ _ _ _ Hwf He')) ];
    cbn [exec].
  - exact (Hconnect _ _ _ _ _ Hwf).
  - destruct (reading k σ); [| discriminate]. now apply wf_handle_frame.
  - destruct (reading k σ); [| discriminate]. apply wf_teardown_close.
    destruct u; [apply wf_log_Printf |]; assumption.
  - destruct (leaving k σ); [| discriminate]. now apply wf_teardown_leave.
  - now apply wf_writePump_step.
Qed.

Lemma run_wf es σ σ' : wf σ → run es σ = Some σ' → wf σ'.
Proof.
  revert σ. induction es as [| e es IH]; intros σ Hwf; cbn [run].
  - now intros [= <-].
  - destruct (exec e σ) as [σ1 |] eqn:He; [| discriminate]. cbn.
    apply IH. eapply exec_wf; eassumption.
Qed.

Lemma reachable_wf σ : reachable σ → wf σ.
Proof. intros [es Hes]. eapply run_wf; [apply wf_init | exact Hes]. Qed.

(** Only a connection request without a user id advances [randSeed]: by
    one call of [generateID] when its handler is not interrupted, by one
    call of [randomInt] at each turn otherwise. *)
Lemma exec_seed e σ σ' :
  wf σ → exec e σ = Some σ' →
  match e with
  | EvDraw _ => ∃ i, randomInt (len letters) (randSeed σ) = Some (i, randSeed σ')
  | _ => if generates e
         then ∃ id, generateID (randSeed σ) = Some (id, randSeed σ')
         else randSeed σ' = randSeed σ
  end.
Proof.
  intros Hwf.
  assert (Hconnect : ∀ roomID userID ok σ σ',
             wf σ → exec (EvConnect roomID userID ok) σ = Some σ' →
             if String.eqb userID ""
             then ∃ id, generateID (randSeed σ) = Some (id, randSeed σ')
             else randSeed σ' = randSeed σ).
  { clear. intros roomID userID ok σ σ' Hwf. cbn [exec].
    destruct (handleWebSocket roomID userID ok σ) as [[res σ1] |] eqn:H;
      [| discriminate].
    cbn. intros [= <-].
    destruct (handleWebSocket_inv _ _ _ _ _ _ Hwf H) as (_ & uid & σ0 & Hres & ->).
    destruct (resolve_userID_total userID σ)
      as (uid' & σ0' & Hres' & _ & _ & _ & _ & _ & Hsame & Hgen).
    rewrite Hres in Hres'. injection Hres' as <- <-.
    destruct (String.eqb_spec userID "") as [Hu | Hu].
    + exists uid. now apply Hgen.
    + destruct (Hsame Hu) as [_ ->]. reflexivity. }
  destruct e as [roomID userID ok | k f | k u | k | k ok | q | q roomID ok];
    [| | | | | intros He; destruct (exec_EvDraw _ _ _ He) as (b & seed & _ & Ht & ->);
               unfold randomString_turn in Ht;
               destruct (randomInt (len letters) (randSeed σ)) as [[i s1] |];
               [| discriminate]; cbn [mbind option_bind] in Ht;
               destruct (index_string letters i); [| discriminate];
               injection Ht as _ <-; now exists i
           | intros He;
             destruct (exec_EvAccept _ _ _ _ _ He) as (uid & σ1 & _ & Hlen & He' & ->);
             pose proof (Hconnect _ _ _ _ _ Hwf He') as Hs;
             destruct uid; [discriminate | exact Hs] ];
    cbn [generates].
  - apply Hconnect, Hwf.
  - cbn [exec]. destruct (reading k σ); [| discriminate]. apply handle_frame_seed.
  - cbn [exec]. destruct (reading k σ); [| discriminate]. intros H.
    rewrite (teardown_close_seed _ _ _ H). now destruct u.
  - cbn [exec]. destruct (leaving k σ); [| discriminate]. apply teardown_leave_seed.
  - cbn [exec]. apply writePump_step_seed.
Qed.

(** Along a run in which no call of [generateID] is interrupted, the seed
    moves from one id of the sequence to the next. *)
Lemma run_seed es σ σ' (n : nat) seed0 ids :
  wf σ → generateIDs n seed0 = Some (ids, randSeed σ) →
  uninterrupted es = true →
  run es σ = Some σ' →
  ∃ ids', generateIDs (n + generated es) seed0 = Some ((ids ++ ids')%list, randSeed σ').
Proof.
  revert σ n ids. induction es as [| e es IH]; intros σ n ids Hwf Hn Hun; cbn [run].
  - intros [= <-]. exists []. rewrite app_nil_r, Nat.add_0_r. exact Hn.
  - destruct (exec e σ) as [σ1 |] eqn:He; [| discriminate]. cbn [mbind option_bind].
    intros Hrun. pose proof (exec_wf _ _ _ Hwf He) as Hwf1.
    cbn [uninterrupted forallb] in Hun. apply andb_true_iff in Hun as [Hun1 Hun].
    fold (uninterrupted es) in Hun.
    assert (Hs : if generates e
                 then ∃ id, generateID (randSeed σ) = Some (id, randSeed σ1)
                 else randSeed σ1 = randSeed σ).
    { pose proof (exec_seed _ _ _ Hwf He) as Hs.
      destruct e; first [exact Hs | discriminate]. }
    cbn [generated]. destruct (generates e) eqn:Hg.
    + destruct Hs as [id Hid].
      pose proof (generateIDs_snoc _ _ _ _ _ _ Hn Hid) as Hn1.
      destruct (IH σ1 (S n) _ Hwf1 Hn1 Hun Hrun) as [ids' Hids'].
      exists (id :: ids').
      replace (n + (1 + generated es))%nat with (S n + generated es)%nat by lia.
      rewrite Hids'. now rewrite <- app_assoc.
    + rewrite <- Hs in Hn.
      destruct (IH σ1 n _ Hwf1 Hn Hun Hrun) as [ids' Hids'].
      exists ids'. exact Hids'.
Qed.

End Runs.

(* ===================================================================== *)
(** ** After the close                                                    *)
(* ===================================================================== *)

Section Closing.

Implicit Types (σ : State) (c : Client) (r : Room) (e : event).

(** A fan-out leaves a client whose flag is set exactly as it is. *)
Lemma fanout_closed msg targets (h : gmap loc Client) k c :
  h !! k = Some c → cl_closed c = true → fanout msg targets h !! k = Some c.
Proof.
  intros Hc Hcl. rewrite lookup_fanout, Hc. cbn.
  case_decide; [now apply deliver_closed | reflexivity].
Qed.

Lemma route_heap k m σ σ' :
  wf σ → route k m σ = Some σ' →
  heap σ' = heap σ ∨ ∃ msg targets, heap σ' = fanout msg targets (heap σ).
Proof.
  intros Hwf Hroute.
  destruct (heap σ !! k) as [c |] eqn:Hc;
    [| unfold route in Hroute; rewrite Hc in Hroute; discriminate].
  destruct (wf_room _ Hwf _ _ Hc) as [r Hr].
  destruct (String.eqb_spec (msg_Type m) TypeDraw) as [Hd | Hd].
  { destruct (Unmarshal_DrawElement (Marshal_data (msg_Data m))) as [e |] eqn:He.
    - rewrite (route_draw_stored _ _ _ _ _ _ Hwf Hc Hr Hd He) in Hroute.
      injection Hroute as <-. right. eexists _, _. reflexivity.
    - rewrite (route_draw_raw _ _ _ _ _ Hwf Hc Hr Hd He) in Hroute.
      injection Hroute as <-. right. eexists _, _. reflexivity. }
  destruct (String.eqb_spec (msg_Type m) TypeCursor) as [Hcu | Hcu].
  { rewrite (route_cursor _ _ _ _ _ Hwf Hc Hr Hcu) in Hroute.
    injection Hroute as <-. right. eexists _, _. reflexivity. }
  destruct (String.eqb_spec (msg_Type m) TypeClear) as [Hcl | Hcl].
  { rewrite (route_clear _ _ _ _ _ Hwf Hc Hr Hcl) in Hroute.
    injection Hroute as <-. right. eexists _, _. reflexivity. }
  rewrite (route_other _ _ _ _ Hc Hd Hcu Hcl) in Hroute.
  injection Hroute as <-. now left.
Qed.

Lemma handle_frame_closed k f σ σ' j c :
  wf σ → handle_frame k f σ = Some σ' →
  heap σ !! j = Some c → cl_closed c = true → heap σ' !! j = Some c.
Proof.
  intros Hwf H Hj Hcl. unfold handle_frame in H.
  destruct (Unmarshal_Message f) as [m |].
  - destruct (route_heap _ _ _ _ Hwf H) as [-> | (msg & targets & ->)];
      [assumption | now apply fanout_closed].
  - now injection H as <-.
Qed.

Lemma teardown_leave_heap k σ σ' :
  wf σ → teardown_leave k σ = Some σ' →
  ∃ c msg1 targets1 msg2 targets2,
    heap σ !! k = Some c
    ∧ heap σ' = fanout msg2 targets2
                  (fanout msg1 targets1
                     (<[k := set_cl_Conn (Conn_Close (cl_Conn c)) c]> (heap σ))).
Proof.
  intros Hwf. unfold teardown_leave.
  destruct (heap σ !! k) as [c |] eqn:Hc; [| discriminate]. cbn [mbind option_bind].
  unfold on_Room.
  destruct (Rooms σ !! cl_Room c) as [r |] eqn:Hr; [| discriminate].
  cbn [mbind option_bind].
  set (σ1 := set_heap _ (set_Rooms _ σ)).
  assert (Hwf1 : wf σ1).
  { apply (wf_set_client _ _ (set_Rooms _ σ)).
    - apply (wf_room_update (RemoveClient k)); [assumption .. |]. cbn. set_solver.
    - destruct (wf_client _ Hwf _ _ Hc). split; assumption.
    - cbn. rewrite lookup_insert_eq. eauto. }
  assert (Hr1 : Rooms σ1 !! cl_Room c = Some (RemoveClient k r))
    by (cbn; apply lookup_insert_eq).
  rewrite (Room_Broadcast_wf _ _ _ _ _ Hwf1 Hr1). cbn [mbind option_bind].
  set (σ2 := set_heap _ σ1).
  assert (Hwf2 : wf σ2) by (apply wf_fanout; assumption).
  assert (Hr2 : Rooms σ2 !! cl_Room c = Some (RemoveClient k r)) by exact Hr1.
  rewrite Hr2. cbn [mbind option_bind].
  destruct (GetUserList _ (heap σ2)) as [users |]; [| discriminate].
  cbn [mbind option_bind].
  rewrite (Room_BroadcastToAll_wf _ _ _ _ Hwf2 Hr2). cbn [mbind option_bind].
  intros [= <-]. eexists c, _, _, _, _. split; reflexivity.
Qed.

(** Once the flag of a client is set it stays set, and its buffer is
    never written again: it can only be drained. *)
Lemma exec_closed e σ σ' k c :
  wf σ → exec e σ = Some σ' → heap σ !! k = Some c → cl_closed c = true →
  ∃ c', heap σ' !! k = Some c' ∧ cl_closed c' = true
        ∧ ch_buf (cl_Send c') `suffix_of` ch_buf (cl_Send c).
Proof.
  intros Hwf He Hk Hcl.
  assert (Hconnect : ∀ roomID userID ok σ σ',
             wf σ → exec (EvConnect roomID userID ok) σ = Some σ' →
             heap σ !! k = Some c →
             ∃ c', heap σ' !! k = Some c' ∧ cl_closed c' = true
                   ∧ ch_buf (cl_Send c') `suffix_of` ch_buf (cl_Send c)).
  { clear Hwf He Hk σ σ'. intros roomID userID ok σ σ' Hwf He Hk. cbn [exec] in He.
    destruct (handleWebSocket roomID userID ok σ) as [[res σ1] |] eqn:H;
      [| discriminate].
    cbn in He. injection He as <-. exists c. split; [| split; [assumption | reflexivity]].
    destruct ok.
    + destruct (handleWebSocket_color _ _ _ _ H) as (color & ci & Hcol).
      destruct (handleWebSocket_join roomID userID σ color ci Hwf Hcol)
        as (k0 & σ2 & uid & σ0 & Hj & _ & Hfresh & _ & _ & _ & _
            & c1 & msgJ & msgU & _ & Hheap).
      rewrite Hj in H. injection H as <- <-. rewrite Hheap.
      apply fanout_closed; [| assumption]. apply fanout_closed; [| assumption].
      rewrite lookup_insert_ne; [assumption | congruence].
    + destruct (handleWebSocket_refused roomID userID σ) as (uid & σ0 & Hres & Hr).
      rewrite Hr in H. injection H as <- <-.
      destruct (resolve_userID_total userID σ)
        as (uid' & σ0' & Hres' & _ & _ & Hh1 & _).
      rewrite Hres in Hres'. injection Hres' as <- <-. cbn. now rewrite Hh1. }
  destruct e as [roomID userID ok | j f | j u | j | j ok | q | q roomID ok];
    [ exact (Hconnect _ _ _ _ _ Hwf He Hk) | | | |
    | destruct (exec_EvDraw _ _ _ He) as (b & seed & _ & _ & ->);
      exists c; split; [exact Hk | split; [assumption | reflexivity]]
    | destruct (exec_EvAccept _ _ _ _ _ He) as (uid & σ1 & _ & _ & He' & ->);
      exact (Hconnect _ _ _ _ _ Hwf He' Hk) ];
    cbn [exec] in He.
  - destruct (reading j σ); [| discriminate].
    exists c. split; [| split; [assumption | reflexivity]].
    eapply handle_frame_closed; eassumption.
  - destruct (reading j σ) eqn:Hread; [| discriminate].
    assert (j ≠ k).
    { intros ->. unfold reading in Hread. rewrite Hk, Hcl in Hread. discriminate. }
    exists c. split; [| split; [assumption | reflexivity]].
    unfold teardown_close in He.
    destruct u; cbn [heap log_Printf] in He;
      (destruct (heap σ !! j) as [cj |]; [| discriminate];
       cbn [mbind option_bind] in He;
       destruct (chan_close _); [| discriminate]; cbn in He; injection He as <-;
       cbn; now rewrite lookup_insert_ne by assumption).
  - destruct (leaving j σ); [| discriminate].
    destruct (teardown_leave_heap _ _ _ Hwf He)
      as (cj & msg1 & T1 & msg2 & T2 & Hj & ->).
    destruct (decide (j = k)) as [-> | Hne].
    + rewrite Hk in Hj. injection Hj as <-.
      exists (set_cl_Conn (Conn_Close (cl_Conn c)) c).
      split; [| split; [assumption | reflexivity]].
      apply fanout_closed; [| assumption]. apply fanout_closed; [| assumption].
      apply lookup_insert_eq.
    + exists c. split; [| split; [assumption | reflexivity]].
      apply fanout_closed; [| assumption]. apply fanout_closed; [| assumption].
      now rewrite lookup_insert_ne.
  - unfold writePump_step in He.
    destruct (heap σ !! j) as [cj |] eqn:Hj; [| discriminate].
    cbn [mbind option_bind] in He.
    destruct (decide (j = k)) as [-> | Hne].
    + rewrite Hk in Hj. injection Hj as <-.
      unfold chan_recv in He.
      destruct (ch_buf (cl_Send c)) as [| msg rest] eqn:Hbuf.
      * destruct (ch_closed (cl_Send c)); injection He as <-.
        -- eexists. cbn. rewrite lookup_insert_eq. split; [reflexivity |].
           cbn. rewrite Hbuf. split; [assumption | reflexivity].
        -- exists c. rewrite Hbuf. split; [assumption | split; [assumption | reflexivity]].
      * injection He as <-. eexists. cbn. rewrite lookup_insert_eq.
        split; [reflexivity |]. cbn. split; [assumption |].
        exists [msg]. reflexivity.
    + exists c. split; [| split; [assumption | reflexivity]].
      destruct (chan_recv _); injection He as <-; cbn;
        rewrite ?lookup_insert_ne by assumption; assumption.
Qed.

Lemma run_closed es σ σ' k c :
  wf σ → run es σ = Some σ' → heap σ !! k = Some c → cl_closed c = true →
  ∃ c', heap σ' !! k = Some c' ∧ cl_closed c' = true
        ∧ ch_buf (cl_Send c') `suffix_of` ch_buf (cl_Send c).
Proof.
  revert σ c. induction es as [| e es IH]; intros σ c Hwf Hrun Hk Hcl; cbn [run] in Hrun.
  - injection Hrun as <-. exists c. split; [assumption | split; [assumption | reflexivity]].
  - destruct (exec e σ) as [σ1 |] eqn:He; [| discriminate]. cbn in Hrun.
    destruct (exec_closed _ _ _ _ _ Hwf He Hk Hcl) as (c1 & Hk1 & Hcl1 & Hsuf1).
    destruct (IH σ1 c1 (exec_wf _ _ _ Hwf He) Hrun Hk1 Hcl1) as (c' & Hk' & Hcl' & Hsuf').
    exists c'. split; [assumption | split; [assumption |]].
    etransitivity; eassumption.
Qed.

End Closing.

(* ===================================================================== *)
(** ** Readers are members                                                *)
(* ===================================================================== *)

Section Membership.

Implicit Types (σ : State) (c : Client) (r : Room) (e : event).

(** A fan-out keeps the room and the flag of every client. *)
Lemma fanout_same_room msg targets (h : gmap loc Client) k c' :
  fanout msg targets h !! k = Some c' →
  ∃ c, h !! k = Some c ∧ cl_Room c' = cl_Room c ∧ cl_closed c' = cl_closed c.
Proof.
  intros H. apply fanout_lookup_inv in H as (c & Hc & [-> | Hd]).
  - eauto.
  - exists c. split; [exact Hc |].
    now destruct (deliver_frame _ _ _ Hd) as (_ & _ & -> & _ & -> & _).
Qed.

Lemma route_rooms k m σ σ' :
  wf σ → route k m σ = Some σ' →
  Rooms σ' = Rooms σ
  ∨ ∃ rid r r', Rooms σ !! rid = Some r ∧ Rooms σ' = <[rid := r']> (Rooms σ)
                ∧ room_Clients r' = room_Clients r.
Proof.
  intros Hwf Hroute.
  destruct (heap σ !! k) as [c |] eqn:Hc;
    [| unfold route in Hroute; rewrite Hc in Hroute; discriminate].
  destruct (wf_room _ Hwf _ _ Hc) as [r Hr].
  destruct (String.eqb_spec (msg_Type m) TypeDraw) as [Hd | Hd].
  { destruct (Unmarshal_DrawElement (Marshal_data (msg_Data m))) as [e |] eqn:He.
    - rewrite (route_draw_stored _ _ _ _ _ _ Hwf Hc Hr Hd He) in Hroute.
      injection Hroute as <-. right. eexists _, r, _. split; [exact Hr |].
      split; reflexivity.
    - rewrite (route_draw_raw _ _ _ _ _ Hwf Hc Hr Hd He) in Hroute.
      injection Hroute as <-. now left. }
  destruct (String.eqb_spec (msg_Type m) TypeCursor) as [Hcu | Hcu].
  { rewrite (route_cursor _ _ _ _ _ Hwf Hc Hr Hcu) in Hroute.
    injection Hroute as <-. now left. }
  destruct (String.eqb_spec (msg_Type m) TypeClear) as [Hcl | Hcl].
  { rewrite (route_clear _ _ _ _ _ Hwf Hc Hr Hcl) in Hroute.
    injection Hroute as <-. right. eexists _, r, _. split; [exact Hr |].
    split; reflexivity. }
  rewrite (route_other _ _ _ _ Hc Hd Hcu Hcl) in Hroute.
  injection Hroute as <-. now left.
Qed.

(** Members survive a change of a room that keeps its members. *)
Lemma readers_same_members σ (h' : gmap loc Client) (R' : gmap string Room) :
  readers_are_members σ →
  (∀ k c', h' !! k = Some c' →
           ∃ c, heap σ !! k = Some c ∧ cl_Room c' = cl_Room c
                ∧ cl_closed c' = cl_closed c) →
  (∀ rid r, Rooms σ !! rid = Some r →
            ∃ r', R' !! rid = Some r' ∧ room_Clients r ⊆ room_Clients r') →
  ∀ k c', h' !! k = Some c' → cl_closed c' = false →
          ∃ r', R' !! cl_Room c' = Some r' ∧ k ∈ room_Clients r'.
Proof.
  intros Hinv Hh HR k c' Hc' Hopen.
  destruct (Hh _ _ Hc') as (c & Hc & Hroom & Hcl).
  destruct (Hinv _ _ Hc) as (r & Hr & Hk); [congruence |].
  destruct (HR _ _ Hr) as (r' & Hr' & Hsub).
  exists r'. rewrite Hroom. split; [exact Hr' | set_solver].
Qed.

Lemma rooms_same rid r r' (R : gmap string Room) :
  R !! rid = Some r → room_Clients r ⊆ room_Clients r' →
  ∀ rid0 r0, R !! rid0 = Some r0 →
             ∃ r1, <[rid := r']> R !! rid0 = Some r1
                   ∧ room_Clients r0 ⊆ room_Clients r1.
Proof.
  intros Hr Hsub rid0 r0 Hr0. destruct (decide (rid = rid0)) as [-> | Hne].
  - rewrite lookup_insert_eq. exists r'. split; [reflexivity |].
    rewrite Hr in Hr0. now injection Hr0 as <-.
  - rewrite lookup_insert_ne by assumption. eauto.
Qed.

Lemma teardown_leave_rooms k σ σ' :
  teardown_leave k σ = Some σ' →
  ∃ c r, heap σ !! k = Some c ∧ Rooms σ !! cl_Room c = Some r
         ∧ Rooms σ' = <[cl_Room c := RemoveClient k r]> (Rooms σ).
Proof.
  unfold teardown_leave.
  destruct (heap σ !! k) as [c |] eqn:Hc; [| discriminate]. cbn [mbind option_bind].
  unfold on_Room.
  destruct (Rooms σ !! cl_Room c) as [r |] eqn:Hr; [| discriminate].
  cbn [mbind option_bind].
  unfold Room_Broadcast. cbn [Rooms set_heap set_Rooms].
  rewrite lookup_insert_eq. cbn [mbind option_bind].
  destruct (Broadcast _ _ _ _) as [h1 |]; [| discriminate]. cbn [mbind option_bind].
  cbn [Rooms set_heap set_Rooms]. rewrite lookup_insert_eq. cbn [mbind option_bind].
  destruct (GetUserList _ _) as [users |]; [| discriminate]. cbn [mbind option_bind].
  unfold Room_BroadcastToAll. cbn [Rooms set_heap set_Rooms].
  rewrite lookup_insert_eq. cbn [mbind option_bind].
  destruct (BroadcastToAll _ _ _) as [h2 |]; [| discriminate]. cbn [mbind option_bind].
  intros [= <-]. exists c, r. auto.
Qed.

Lemma exec_readers e σ σ' :
  wf σ → readers_are_members σ → exec e σ = Some σ' → readers_are_members σ'.
Proof.
  intros Hwf Hinv He.
  assert (Hconnect : ∀ roomID userID ok σ σ',
             wf σ → readers_are_members σ →
             exec (EvConnect roomID userID ok) σ = Some σ' → readers_are_members σ').
  { clear Hwf Hinv He σ σ'. intros roomID userID ok σ σ' Hwf Hinv He.
    cbn [exec] in He.
    destruct (handleWebSocket roomID userID ok σ) as [[res σ1] |] eqn:H;
      [| discriminate].
    cbn in He. injection He as <-. destruct ok.
    + destruct (handleWebSocket_color _ _ _ _ H) as (color & ci & Hcol).
      destruct (handleWebSocket_join roomID userID σ color ci Hwf Hcol)
        as (k0 & σ2 & uid & σ0 & Hj & _ & Hfresh & _ & _ & _ & HR
            & c1 & msgJ & msgU & Hc1 & Hheap).
      rewrite Hj in H. injection H as <- <-.
      intros k c' Hk Hopen. rewrite Hheap in Hk.
      apply fanout_same_room in Hk as (c2 & Hk & Hroom2 & Hcl2).
      apply fanout_same_room in Hk as (c3 & Hk & Hroom3 & Hcl3).
      rewrite HR, Hroom2, Hroom3.
      destruct (decide (k0 = k)) as [-> | Hne].
      * rewrite lookup_insert_eq in Hk. injection Hk as <-. subst c1. cbn.
        rewrite lookup_insert_eq. eexists. split; [reflexivity |]. cbn. set_solver.
      * rewrite lookup_insert_ne in Hk by assumption.
        destruct (Hinv _ _ Hk) as (r & Hr & Hmem); [congruence |].
        destruct (decide (room_key roomID = cl_Room c3)) as [Heq | Hne'].
        -- rewrite Heq, lookup_insert_eq. eexists. split; [reflexivity |].
           unfold room_of. rewrite Hr. cbn. set_solver.
        -- rewrite lookup_insert_ne by assumption. eauto.
    + destruct (handleWebSocket_refused roomID userID σ) as (uid & σ0 & Hres & Hr).
      rewrite Hr in H. injection H as <- <-.
      destruct (resolve_userID_total userID σ)
        as (uid' & σ0' & Hres' & _ & HR1 & Hh1 & _).
      rewrite Hres in Hres'. injection Hres' as <- <-.
      intros k c Hk. cbn in *. rewrite HR1. rewrite Hh1 in Hk. now apply Hinv. }
  destruct e as [roomID userID ok | j f | j u | j | j ok | q | q roomID ok];
    [ exact (Hconnect _ _ _ _ _ Hwf Hinv He) | | | |
    | destruct (exec_EvDraw _ _ _ He) as (b & seed & _ & _ & ->); exact Hinv
    | destruct (exec_EvAccept _ _ _ _ _ He) as (uid & σ1 & _ & _ & He' & ->);
      exact (Hconnect _ _ _ _ _ Hwf Hinv He') ];
    cbn [exec] in He.
  - destruct (reading j σ); [| discriminate]. unfold handle_frame in He.
    destruct (Unmarshal_Message f) as [m |]; [| now injection He as <-].
    unfold readers_are_members. apply (readers_same_members σ); [exact Hinv | |].
    + intros k c' Hk.
      destruct (route_heap _ _ _ _ Hwf He) as [Hh | (msg & T & Hh)]; rewrite Hh in Hk.
      * eauto.
      * now apply fanout_same_room in Hk.
    + destruct (route_rooms _ _ _ _ Hwf He) as [-> | (rid & r & r' & Hr & -> & Hsame)].
      * intros rid r Hr. eauto.
      * apply (rooms_same _ r); [exact Hr | now rewrite Hsame].
  - destruct (reading j σ); [| discriminate]. unfold teardown_close in He.
    destruct u; cbn [heap log_Printf] in He;
      (destruct (heap σ !! j) as [cj |] eqn:Hj; [| discriminate];
       cbn [mbind option_bind] in He;
       destruct (chan_close _); [| discriminate]; cbn in He; injection He as <-;
       intros k c' Hk Hopen; cbn in Hk |- *;
       rewrite lookup_insert in Hk; case_decide;
       [injection Hk as <-; discriminate | now apply Hinv]).
  - destruct (leaving j σ) eqn:Hleave; [| discriminate].
    destruct (teardown_leave_heap _ _ _ Hwf He)
      as (cj & msg1 & T1 & msg2 & T2 & Hj & Hheap).
    destruct (teardown_leave_rooms _ _ _ He) as (cj' & r & Hj' & Hr & HR).
    rewrite Hj in Hj'. injection Hj' as <-.
    assert (Hclosed : cl_closed cj = true).
    { unfold leaving in Hleave. rewrite Hj in Hleave.
      now apply andb_true_iff in Hleave as [-> _]. }
    intros k c' Hk Hopen. rewrite Hheap in Hk.
    apply fanout_same_room in Hk as (c2 & Hk & Hroom2 & Hcl2).
    apply fanout_same_room in Hk as (c3 & Hk & Hroom3 & Hcl3).
    rewrite lookup_insert in Hk. case_decide as Hjk.
    + injection Hk as <-. cbn in Hcl3. congruence.
    + destruct (Hinv _ _ Hk) as (r3 & Hr3 & Hmem); [congruence |].
      rewrite HR, Hroom2, Hroom3.
      destruct (decide (cl_Room cj = cl_Room c3)) as [Heq | Hne'].
      * rewrite Heq, lookup_insert_eq. eexists. split; [reflexivity |].
        rewrite Heq, Hr3 in Hr. injection Hr as <-. cbn. set_solver.
      * rewrite lookup_insert_ne by assumption. eauto.
  - unfold writePump_step in He.
    destruct (heap σ !! j) as [cj |] eqn:Hj; [| discriminate].
    cbn [mbind option_bind] in He.
    unfold readers_are_members. apply (readers_same_members σ); [exact Hinv | |].
    + intros k c' Hk.
      destruct (chan_recv _); injection He as <-; cbn in Hk;
        rewrite ?lookup_insert in Hk; try case_decide; try subst k;
        try (injection Hk as <-; eauto); eauto.
    + assert (Rooms σ' = Rooms σ) as -> by (destruct (chan_recv _); now injection He as <-).
      intros rid r Hr. eauto.
Qed.

Lemma reachable_readers σ : reachable σ → readers_are_members σ.
Proof.
  intros [es Hes].
  assert (H : ∀ es σ0, wf σ0 → readers_are_members σ0 →
                       run es σ0 = Some σ → readers_are_members σ).
  { clear. induction es as [| e es IH]; intros σ0 Hwf Hinv; cbn [run].
    - now intros [= <-].
    - destruct (exec e σ0) as [σ1 |] eqn:He; [| discriminate]. cbn.
      apply IH; [eapply exec_wf | eapply exec_readers]; eassumption. }
  apply (H es init); [apply wf_init | | exact Hes].
  intros k c Hk. cbn in Hk. rewrite lookup_empty in Hk. discriminate.
Qed.

End Membership.

(* ===================================================================== *)
(** ** Properties of the router                                           *)
(* ===================================================================== *)

Lemma two_members_reachable : reachable two_members.
Proof.
  exists [EvConnect "abc123" "A" true; EvConnect "abc123" "B" true].
  vm_compute. reflexivity.
Qed.

Lemma crowded_reachable : reachable crowded.
Proof.
  exists ([EvConnect "abc123" "A" true; EvConnect "abc123" "B" true]
          ++ repeat (EvFrame 0%nat cursor_frame) 255)%list.
  vm_compute. reflexivity.
Qed.

(** C8: a well-formed envelope whose type tag is none of draw, cursor and
    clear (the server-only tags sync, join, leave and userlist, or an
    unknown tag) leaves the whole state as it is: element logs, members,
    every queue; the read pump goes on with the next read. *)
Theorem C8_other_tags_are_ignored σ k c f m :
  heap σ !! k = Some c →
  Unmarshal_Message f = Some m →
  msg_Type m ≠ TypeDraw → msg_Type m ≠ TypeCursor → msg_Type m ≠ TypeClear →
  handle_frame k f σ = Some σ
  ∧ ∀ rest, readPump k (ReadFrame f :: rest) σ = readPump k rest σ.
Proof.
  intros Hc Hm H1 H2 H3.
  assert (H : handle_frame k f σ = Some σ).
  { unfold handle_frame. rewrite Hm. now apply (route_other k c). }
  split; [exact H |]. intros rest. cbn [readPump]. now rewrite H.
Qed.

Lemma C8_witness :
  Unmarshal_Message (envelope TypeJoin "B" (JObj [("id", JStr "B")]))
  = Some (mkMessage TypeJoin "B" (DIface (JObj [("id", JStr "B")])))
  ∧ handle_frame 0%nat (envelope TypeJoin "B" (JObj [("id", JStr "B")])) two_members
    = Some two_members.
Proof.
  split; [reflexivity |].
  edestruct C8_other_tags_are_ignored
    with (σ := two_members) (k := 0%nat)
         (f := envelope TypeJoin "B" (JObj [("id", JStr "B")])) as [H _].
  - vm_compute. reflexivity.
  - reflexivity.
  - discriminate.
  - discriminate.
  - discriminate.
  - exact H.
Defined.

(** The two decode failures of [readPump]. An envelope that does not
    decode is logged and dropped (nothing else changes). A draw envelope
    whose data does not decode as an element appends nothing, but it is not
    logged and it is still sent on, with the id of the connection and the
    data it came with, to the other members. In both cases the room is left
    as it is, the connection stays open and the read pump goes on with the
    next read. *)
Lemma decode_failures σ k c r f :
  reachable σ → heap σ !! k = Some c → Rooms σ !! cl_Room c = Some r →
  (Unmarshal_Message f = None
   ∨ ∃ m, Unmarshal_Message f = Some m ∧ msg_Type m = TypeDraw
          ∧ Unmarshal_DrawElement (Marshal_data (msg_Data m)) = None) →
  ∃ σ', handle_frame k f σ = Some σ'
        ∧ Rooms σ' = Rooms σ
        ∧ heap σ' !! k = Some c
        ∧ (∀ rest, readPump k (ReadFrame f :: rest) σ = readPump k rest σ')
        ∧ (Unmarshal_Message f = None →
           heap σ' = heap σ ∧ logged σ' = (logged σ ++ [LogUnmarshalError])%list)
        ∧ (∀ m, Unmarshal_Message f = Some m →
                logged σ' = logged σ
                ∧ heap σ' = fanout (Marshal (mkMessage TypeDraw (cl_ID c) (msg_Data m)))
                              (room_Clients r ∖ {[k]}) (heap σ)).
Proof.
  intros Hreach Hc Hr Hcase. pose proof (reachable_wf _ Hreach) as Hwf.
  destruct Hcase as [Hnone | (m & Hm & Ht & He)].
  - exists (log_Printf LogUnmarshalError σ).
    assert (H : handle_frame k f σ = Some (log_Printf LogUnmarshalError σ))
      by (unfold handle_frame; now rewrite Hnone).
    split; [exact H |]. split; [reflexivity |]. split; [exact Hc |].
    split; [intros rest; cbn [readPump]; now rewrite H |].
    split; [intros _; split; reflexivity |].
    intros m Hm. congruence.
  - eexists.
    assert (H : handle_frame k f σ = Some _)
      by (unfold handle_frame; rewrite Hm;
          apply (route_draw_raw _ _ _ _ _ Hwf Hc Hr Ht He)).
    split; [exact H |]. split; [reflexivity |].
    split; [cbn; rewrite lookup_fanout_outside by set_solver; exact Hc |].
    split; [intros rest; cbn [readPump]; now rewrite H |].
    split; [intros Hnone; congruence |].
    intros m' Hm'. rewrite Hm in Hm'. injection Hm' as <-. split; reflexivity.
Qed.

(** C2: the draw case of [readPump] on a payload that is not an element.
    A, in a room with B, sends [{"type":"draw","userId":"A","data":"scribble"}].
    The data does not decode as a [DrawElement] and nothing is appended,
    but the frame is not discarded: nothing is logged and the envelope is
    queued for B. The sibling failure, a frame whose envelope does not
    decode, is logged and dropped; A goes on reading in both cases. *)
Example C2_undecodable_draw_is_relayed_unlogged :
  Unmarshal_Message (envelope "draw" "A" (JStr "scribble"))
  = Some (mkMessage "draw" "A" (DIface (JStr "scribble")))
  ∧ Unmarshal_DrawElement (JStr "scribble") = None
  ∧ (∃ σ', handle_frame 0%nat (envelope "draw" "A" (JStr "scribble")) two_members
           = Some σ'
           ∧ logged σ' = logged two_members
           ∧ elements_of "abc123" σ' = Some []
           ∧ queue_of 1%nat two_members
             = Some [Marshal (mkMessage TypeUserList ""
                                (DUserList [mkUserInfo "B" "#3498db";
                                            mkUserInfo "A" "#e74c3c"]))]
           ∧ queue_of 1%nat σ'
             = Some [Marshal (mkMessage TypeUserList ""
                                (DUserList [mkUserInfo "B" "#3498db";
                                            mkUserInfo "A" "#e74c3c"]));
                     JObj [("type", JStr "draw"); ("userId", JStr "A");
                           ("data", JStr "scribble")]]
           ∧ reading 0%nat σ' = true)
  ∧ (∃ σ', handle_frame 0%nat Garbage two_members = Some σ'
           ∧ logged σ' = (logged two_members ++ [LogUnmarshalError])%list
           ∧ queue_of 1%nat σ' = queue_of 1%nat two_members
           ∧ elements_of "abc123" σ' = Some []
           ∧ reading 0%nat σ' = true).
Proof.
  split; [reflexivity |]. split; [reflexivity |]. split.
  - eexists. split; [vm_compute; reflexivity |].
    repeat split; vm_compute; reflexivity.
  - eexists. split; [vm_compute; reflexivity |].
    repeat split; vm_compute; reflexivity.
Qed.

(* ===================================================================== *)
(** ** The sender id                                                      *)
(* ===================================================================== *)

Section SenderIdentity.

Implicit Types (σ : State) (c : Client) (m : Message).

(** The router reads the type and the data of the decoded envelope only. *)
Lemma route_agree k m1 m2 σ :
  msg_Type m1 = msg_Type m2 → msg_Data m1 = msg_Data m2 →
  route k m1 σ = route k m2 σ.
Proof.
  intros Ht Hd. unfold route. destruct (heap σ !! k) as [c |]; [| reflexivity].
  cbn [mbind option_bind].
  replace (set_msg_UserID (cl_ID c) m2) with (set_msg_UserID (cl_ID c) m1);
    [reflexivity |].
  unfold set_msg_UserID. now rewrite Ht, Hd.
Qed.

Lemma into_string_agree v old1 old2 :
  match into_string v old1, into_string v old2 with
  | Some _, Some _ | None, None => True
  | _, _ => False
  end.
Proof. destruct v; exact I. Qed.

Lemma fill_Message_agree members m1 m2 :
  msg_Type m1 = msg_Type m2 → msg_Data m1 = msg_Data m2 →
  agree (fill_Message members m1) (fill_Message members m2).
Proof.
  revert m1 m2. induction members as [| [key v] members IH]; intros m1 m2 Ht Hd.
  - cbn. auto.
  - cbn [fill_Message]. destruct (key_is "type" key).
    { rewrite Ht. destruct (into_string v (msg_Type m2)); cbn; [| exact I].
      apply IH; [reflexivity | exact Hd]. }
    destruct (key_is "userId" key).
    { pose proof (into_string_agree v (msg_UserID m1) (msg_UserID m2)) as H.
      destruct (into_string v (msg_UserID m1)), (into_string v (msg_UserID m2));
        cbn; try contradiction; [| exact I].
      apply IH; assumption. }
    destruct (key_is "data" key); apply IH; cbn; auto.
Qed.

Lemma fill_Message_app before after m :
  fill_Message (before ++ after) m = fill_Message before m ≫= fill_Message after.
Proof.
  revert m. induction before as [| [key v] before IH]; intros m; [reflexivity |].
  cbn [app fill_Message].
  destruct (key_is "type" key).
  { destruct (into_string v (msg_Type m)); cbn; [apply IH | reflexivity]. }
  destruct (key_is "userId" key).
  { destruct (into_string v (msg_UserID m)); cbn; [apply IH | reflexivity]. }
  destruct (key_is "data" key); apply IH.
Qed.

Lemma Unmarshal_Message_agree f1 f2 :
  differ_in_userId f1 f2 → agree (Unmarshal_Message f1) (Unmarshal_Message f2).
Proof.
  intros (before & after & u1 & u2 & -> & ->). cbn [Unmarshal_Message].
  rewrite !fill_Message_app.
  destruct (fill_Message before zero_Message) as [m |]; cbn; [| exact I].
  change (key_is "type" "userId") with false. change (key_is "userId" "userId") with true.
  cbn. apply fill_Message_agree; reflexivity.
Qed.

Lemma handle_frame_agree k f1 f2 σ :
  differ_in_userId f1 f2 → handle_frame k f1 σ = handle_frame k f2 σ.
Proof.
  intros H. apply Unmarshal_Message_agree in H. unfold handle_frame.
  destruct (Unmarshal_Message f1) as [m1 |], (Unmarshal_Message f2) as [m2 |];
    cbn in H; try contradiction; [| reflexivity].
  destruct H. now apply route_agree.
Qed.

Lemma same_but_UserID_set u e1 e2 :
  same_but_UserID e1 e2 → set_el_UserID u e1 = set_el_UserID u e2.
Proof.
  unfold same_but_UserID, set_el_UserID. intros [= -> -> -> -> -> -> -> ->].
  reflexivity.
Qed.

Lemma payload_userId_Marshal type uid d :
  uid ≠ "" → payload_userId (Marshal (mkMessage type uid d)) = Some (JStr uid).
Proof.
  intros Hne. unfold Marshal, payload_userId. cbn.
  destruct (String.eqb_spec uid ""); [contradiction |]. reflexivity.
Qed.

End SenderIdentity.

Section ElementIdentity.

Lemma obj_put_same k v1 v2 m1 m2 :
  same_member (k, v1) (k, v2) → Forall2 same_member m1 m2 →
  Forall2 same_member (obj_put k v1 m1) (obj_put k v2 m2).
Proof.
  intros Hkv H. induction H as [| [k1 w1] [k2 w2] m1 m2 Hw H IH]; cbn [obj_put].
  - constructor; [assumption | constructor].
  - destruct Hw as [Hk Hw]. cbn in Hk. subst k2.
    destruct (String.compare k k1).
    + constructor; assumption.
    + constructor; [assumption |].
      constructor; [split; [reflexivity | assumption] | assumption].
    + constructor; [split; [reflexivity | assumption] | assumption].
Qed.

Lemma fold_obj_put_same xs ys acc1 acc2 :
  Forall2 same_member xs ys → Forall2 same_member acc1 acc2 →
  Forall2 same_member
    (fold_left (λ m kv, obj_put (fst kv) (snd kv) m) xs acc1)
    (fold_left (λ m kv, obj_put (fst kv) (snd kv) m) ys acc2).
Proof.
  intros H. revert acc1 acc2.
  induction H as [| [k1 v1] [k2 v2] xs ys Hx H IH]; intros acc1 acc2 Hacc;
    [exact Hacc |].
  cbn [fold_left fst snd]. apply IH.
  pose proof Hx as [Hk _]. cbn in Hk. subst k2. now apply obj_put_same.
Qed.

Lemma same_member_refl l : Forall2 same_member l l.
Proof. induction l; constructor; [split; auto | assumption]. Qed.

(** The maps decoded from two objects that differ in the string under
    one [userId] key. *)
Lemma to_iface_same before after u1 u2 :
  ∃ m1 m2,
    to_iface (JObj (before ++ ("userId", JStr u1) :: after)) = JObj m1
    ∧ to_iface (JObj (before ++ ("userId", JStr u2) :: after)) = JObj m2
    ∧ Forall2 same_member m1 m2.
Proof.
  eexists _, _. split; [reflexivity |]. split; [reflexivity |].
  apply fold_obj_put_same; [| constructor].
  rewrite !map_app. apply Forall2_app; [apply same_member_refl |].
  cbn [map fst snd to_iface]. constructor; [| apply same_member_refl].
  split; [reflexivity |]. right. split; [reflexivity |]. eauto.
Qed.

Lemma fill_DrawElement_same m1 m2 e1 e2 :
  Forall2 same_member m1 m2 → same_but_UserID e1 e2 →
  agree_elements (fill_DrawElement m1 e1) (fill_DrawElement m2 e2).
Proof.
  intros H. revert e1 e2.
  induction H as [| [k1 v1] [k2 v2] m1 m2 Hm H IH]; intros e1 e2 He; [exact He |].
  destruct Hm as [Hk Hv]. cbn in Hk, Hv. subst k2.
  destruct e1 as [a1 b1 c1 d1 f1 g1 h1 i1 j1], e2 as [a2 b2 c2 d2 f2 g2 h2 i2 j2].
  unfold same_but_UserID, set_el_UserID in He. cbn in He.
  injection He as -> -> -> -> -> -> -> ->.
  destruct Hv as [-> | (-> & s1 & s2 & -> & ->)].
  - cbn [fill_DrawElement el_ID el_Type el_X1 el_Y1 el_X2 el_Y2 el_StrokeColor
           el_StrokeWidth el_UserID].
    repeat (match goal with
            | |- context [if key_is ?t k1 then _ else _] => destruct (key_is t k1)
            end;
            [ first [ destruct (into_string v2 _); cbn; [apply IH; reflexivity | exact I]
                    | destruct (into_float64 v2 _); cbn; [apply IH; reflexivity | exact I]
                    | idtac ] | ]).
    + destruct v2; cbn; try exact I; apply IH; reflexivity.
    + apply IH. reflexivity.
  - cbn. apply IH. reflexivity.
Qed.

Lemma Unmarshal_DrawElement_same before after u1 u2 :
  agree_elements
    (Unmarshal_DrawElement (to_iface (JObj (before ++ ("userId", JStr u1) :: after))))
    (Unmarshal_DrawElement (to_iface (JObj (before ++ ("userId", JStr u2) :: after)))).
Proof.
  destruct (to_iface_same before after u1 u2) as (m1 & m2 & -> & -> & H).
  cbn [Unmarshal_DrawElement]. apply fill_DrawElement_same; [exact H | reflexivity].
Qed.

End ElementIdentity.

Section DrawIdentity.

Implicit Types (σ : State) (c : Client) (m : Message).

Lemma fill_Message_but_data d1 d2 members m1 m2 :
  msg_Type m1 = msg_Type m2 → msg_UserID m1 = msg_UserID m2 →
  (msg_Data m1 = msg_Data m2 ∨ (msg_Data m1 = d1 ∧ msg_Data m2 = d2)) →
  agree_but_data d1 d2 (fill_Message members m1) (fill_Message members m2).
Proof.
  revert m1 m2. induction members as [| [key v] members IH]; intros m1 m2 Ht Hu Hd.
  - cbn. auto.
  - cbn [fill_Message]. destruct (key_is "type" key).
    { rewrite Ht. destruct (into_string v (msg_Type m2)); cbn; [| exact I].
      apply IH; auto. }
    destruct (key_is "userId" key).
    { rewrite Hu. destruct (into_string v (msg_UserID m2)); cbn; [| exact I].
      apply IH; auto. }
    destruct (key_is "data" key); apply IH; cbn; auto.
Qed.

Lemma Unmarshal_Message_but_data before after d1 d2 :
  agree_but_data (DIface (to_iface d1)) (DIface (to_iface d2))
    (Unmarshal_Message (Json (JObj (before ++ ("data", d1) :: after))))
    (Unmarshal_Message (Json (JObj (before ++ ("data", d2) :: after)))).
Proof.
  cbn [Unmarshal_Message]. rewrite !fill_Message_app.
  destruct (fill_Message before zero_Message) as [m |]; cbn [mbind option_bind];
    [| exact I].
  cbn [fill_Message].
  change (key_is "type" "data") with false. change (key_is "userId" "data") with false.
  change (key_is "data" "data") with true. cbv iota.
  apply fill_Message_but_data; cbn; auto.
Qed.

Lemma route_draw_agree k m1 m2 e1 e2 σ :
  msg_Type m1 = TypeDraw → msg_Type m2 = TypeDraw →
  Unmarshal_DrawElement (Marshal_data (msg_Data m1)) = Some e1 →
  Unmarshal_DrawElement (Marshal_data (msg_Data m2)) = Some e2 →
  same_but_UserID e1 e2 →
  route k m1 σ = route k m2 σ.
Proof.
  intros Ht1 Ht2 He1 He2 Hsame. unfold route.
  destruct (heap σ !! k) as [c |]; [| reflexivity]. cbn [mbind option_bind].
  change (msg_Type (set_msg_UserID (cl_ID c) m1)) with (msg_Type m1).
  change (msg_Type (set_msg_UserID (cl_ID c) m2)) with (msg_Type m2).
  rewrite Ht1, Ht2. change (String.eqb TypeDraw TypeDraw) with true. cbv iota.
  unfold store_draw.
  change (msg_Data (set_msg_UserID (cl_ID c) m1)) with (msg_Data m1).
  change (msg_Data (set_msg_UserID (cl_ID c) m2)) with (msg_Data m2).
  rewrite He1, He2, (same_but_UserID_set (cl_ID c) e1 e2 Hsame).
  unfold set_msg_Data, set_msg_UserID. cbn [msg_Type msg_UserID].
  now rewrite Ht1, Ht2.
Qed.

Lemma handle_frame_element_agree k f1 f2 m1 σ :
  differ_in_element_userId f1 f2 →
  Unmarshal_Message f1 = Some m1 → msg_Type m1 = TypeDraw →
  is_Some (Unmarshal_DrawElement (Marshal_data (msg_Data m1))) →
  handle_frame k f1 σ = handle_frame k f2 σ.
Proof.
  intros (before & after & ebefore & eafter & u1 & u2 & -> & ->) Hm1 Ht [e1 He1].
  pose proof (Unmarshal_Message_but_data before after
                (JObj (ebefore ++ ("userId", JStr u1) :: eafter))
                (JObj (ebefore ++ ("userId", JStr u2) :: eafter))) as H.
  unfold handle_frame. rewrite Hm1 in *. unfold agree_but_data in H.
  match type of H with
  | match ?o with _ => _ end => destruct o as [m2 |]; [| contradiction]
  end.
  destruct H as [Ht2 [Hd | [Hd1 Hd2]]].
  - now apply route_agree.
  - pose proof (Unmarshal_DrawElement_same ebefore eafter u1 u2) as Hsame.
    rewrite Hd1 in He1. cbn [Marshal_data] in He1. rewrite He1 in Hsame.
    destruct (Unmarshal_DrawElement (to_iface (JObj (ebefore ++ ("userId", JStr u2) :: eafter))))
      as [e2 |] eqn:He2; cbn in Hsame; [| contradiction].
    apply (route_draw_agree _ _ _ e1 e2); try assumption; try congruence.
    + rewrite Hd1. exact He1.
    + rewrite Hd2. exact He2.
Qed.

End DrawIdentity.

(** Where the sender id is the connection's: whatever the router sends on
    carries the id of the connection as its [userId]; a draw whose data
    decodes as an element is stored and sent on with the id of the
    connection as the [userId] of the element. Two frames that differ in
    the string of the envelope's [userId] only are handled alike; so are
    two draw frames that differ in the string of the element's [userId]
    only, when the data decodes as an element. *)
Lemma sender_id_is_the_connection_id σ k c r :
  reachable σ → heap σ !! k = Some c → Rooms σ !! cl_Room c = Some r →
  (∀ m, msg_Type m = TypeDraw ∨ msg_Type m = TypeCursor ∨ msg_Type m = TypeClear →
        ∃ σ' payload targets,
          route k m σ = Some σ'
          ∧ heap σ' = fanout payload targets (heap σ)
          ∧ payload_userId payload = Some (JStr (cl_ID c)))
  ∧ (∀ m e, msg_Type m = TypeDraw →
            Unmarshal_DrawElement (Marshal_data (msg_Data m)) = Some e →
            ∃ σ' e',
              route k m σ = Some σ'
              ∧ e' = set_el_UserID (cl_ID c) e
              ∧ el_UserID e' = cl_ID c
              ∧ elements_of (cl_Room c) σ' = Some (room_Elements r ++ [e'])%list
              ∧ heap σ' = fanout (Marshal (mkMessage TypeDraw (cl_ID c) (DElement e')))
                            (room_Clients r ∖ {[k]}) (heap σ))
  ∧ (∀ f1 f2, differ_in_userId f1 f2 → handle_frame k f1 σ = handle_frame k f2 σ)
  ∧ (∀ f1 f2 m1, differ_in_element_userId f1 f2 →
                 Unmarshal_Message f1 = Some m1 → msg_Type m1 = TypeDraw →
                 is_Some (Unmarshal_DrawElement (Marshal_data (msg_Data m1))) →
                 handle_frame k f1 σ = handle_frame k f2 σ).
Proof.
  intros Hreach Hc Hr. pose proof (reachable_wf _ Hreach) as Hwf.
  pose proof (ok_id _ (wf_client _ Hwf _ _ Hc)) as Hid.
  split; [| split; [| split]].
  - intros m [Ht | [Ht | Ht]].
    + destruct (Unmarshal_DrawElement (Marshal_data (msg_Data m))) as [e |] eqn:He.
      * eexists _, _, _. split; [apply (route_draw_stored _ _ _ _ _ _ Hwf Hc Hr Ht He) |].
        split; [reflexivity | now apply payload_userId_Marshal].
      * eexists _, _, _. split; [apply (route_draw_raw _ _ _ _ _ Hwf Hc Hr Ht He) |].
        split; [reflexivity | now apply payload_userId_Marshal].
    + eexists _, _, _. split; [apply (route_cursor _ _ _ _ _ Hwf Hc Hr Ht) |].
      split; [reflexivity | now apply payload_userId_Marshal].
    + eexists _, _, _. split; [apply (route_clear _ _ _ _ _ Hwf Hc Hr Ht) |].
      split; [reflexivity | now apply payload_userId_Marshal].
  - intros m e Ht He. eexists _, _.
    split; [apply (route_draw_stored _ _ _ _ _ _ Hwf Hc Hr Ht He) |].
    split; [reflexivity |]. split; [reflexivity |].
    split; [| reflexivity].
    unfold elements_of. cbn. now rewrite lookup_insert_eq.
  - intros f1 f2. apply handle_frame_agree.
  - intros f1 f2 m1. apply handle_frame_element_agree.
Qed.

(** C1: the draw case of [readPump] on a payload that is not an element.
    A, in a room with B, sends a draw whose element has the number 7 for its
    [id] and "mallory" for its [userId]. The data does not decode as a
    [DrawElement], so [element.UserID = c.ID] is not reached, and the
    envelope is queued for B all the same: B is sent the id "mallory" in
    the element, under the envelope id "A", and nothing is stored. The same
    frame with the [userId] "A" in the element gives B another payload. On
    the sibling path, where the [id] is the string "e1", the element is
    stored and sent on with the id of the connection. *)
Example C1_undecodable_draw_keeps_the_wire_userId :
  (cl_ID <$> heap two_members !! 0%nat) = Some "A"
  ∧ Unmarshal_DrawElement (line_element (JNum 7%float) (JStr "mallory")) = None
  ∧ (elements_of "abc123"
       <$> handle_frame 0%nat
             (envelope "draw" "A" (line_element (JNum 7%float) (JStr "mallory")))
             two_members)
    = Some (Some [])
  ∧ (last <$> (handle_frame 0%nat
                 (envelope "draw" "A" (line_element (JNum 7%float) (JStr "mallory")))
                 two_members ≫= queue_of 1%nat))
    = Some (Some (JObj [("type", JStr "draw"); ("userId", JStr "A");
                        ("data",
                         JObj [("elementType", JStr "line"); ("id", JNum 7%float);
                               ("strokeColor", JStr "#000000");
                               ("strokeWidth", JNum 2%float);
                               ("userId", JStr "mallory");
                               ("x1", JNum 1%float); ("x2", JNum 3%float);
                               ("y1", JNum 2%float); ("y2", JNum 4%float)])]))
  ∧ differ_in_element_userId
      (envelope "draw" "A" (line_element (JNum 7%float) (JStr "A")))
      (envelope "draw" "A" (line_element (JNum 7%float) (JStr "mallory")))
  ∧ (queue_of 1%nat
       <$> handle_frame 0%nat
             (envelope "draw" "A" (line_element (JNum 7%float) (JStr "A"))) two_members)
    ≠ (queue_of 1%nat
         <$> handle_frame 0%nat
               (envelope "draw" "A" (line_element (JNum 7%float) (JStr "mallory")))
               two_members)
  ∧ (elements_of "abc123"
       <$> handle_frame 0%nat
             (envelope "draw" "A" (line_element (JStr "e1") (JStr "mallory")))
             two_members)
    = Some (Some [mkDrawElement "e1" "line" 1%float 2%float 3%float 4%float
                    "#000000" 2%float "A"])
  ∧ (last <$> (handle_frame 0%nat
                 (envelope "draw" "A" (line_element (JStr "e1") (JStr "mallory")))
                 two_members ≫= queue_of 1%nat))
    = Some (Some (JObj [("type", JStr "draw"); ("userId", JStr "A");
                        ("data",
                         JObj [("id", JStr "e1"); ("elementType", JStr "line");
                               ("x1", JNum 1%float); ("y1", JNum 2%float);
                               ("x2", JNum 3%float); ("y2", JNum 4%float);
                               ("strokeColor", JStr "#000000");
                               ("strokeWidth", JNum 2%float);
                               ("userId", JStr "A")])])).
Proof.
  split; [vm_compute; reflexivity |]. split; [reflexivity |].
  split; [vm_compute; reflexivity |]. split; [vm_compute; reflexivity |].
  split.
  { exists [("type", JStr "draw"); ("userId", JStr "A")], [],
      [("id", JNum 7%float); ("elementType", JStr "line");
       ("x1", JNum 1%float); ("y1", JNum 2%float);
       ("x2", JNum 3%float); ("y2", JNum 4%float);
       ("strokeColor", JStr "#000000"); ("strokeWidth", JNum 2%float)], [],
      "A", "mallory".
    split; reflexivity. }
  split; [vm_compute; discriminate |].
  split; vm_compute; reflexivity.
Qed.

(* ===================================================================== *)
(** ** Who is sent what                                                   *)
(* ===================================================================== *)

Section Exclusion.

Implicit Types (σ : State) (c : Client) (m : Message).

(** The buffer after an enqueue attempt on a client of the server. *)
Lemma deliver_queue payload c :
  client_ok c →
  ∃ c', deliver payload c = Some c'
        ∧ ch_buf (cl_Send c')
          = if (cl_closed c || (256 <=? length (ch_buf (cl_Send c)))%nat)%bool
            then ch_buf (cl_Send c)
            else (ch_buf (cl_Send c) ++ [payload])%list.
Proof.
  intros [Hco Hcap Hid]. destruct (cl_closed c) eqn:Hcl.
  - exists c. split; [now apply deliver_closed | reflexivity].
  - rewrite deliver_open by congruence. rewrite Hcap. cbn [orb].
    eexists. split; [reflexivity |].
    destruct (Nat.ltb_spec (length (ch_buf (cl_Send c))) 256),
             (Nat.leb_spec 256 (length (ch_buf (cl_Send c)))); try lia; reflexivity.
Qed.

Lemma queue_of_fanout payload targets σ σ' j cj :
  wf σ → heap σ' = fanout payload targets (heap σ) → heap σ !! j = Some cj →
  queue_of j σ'
  = Some (if decide (j ∈ targets)
          then if (cl_closed cj || (256 <=? length (ch_buf (cl_Send cj)))%nat)%bool
               then ch_buf (cl_Send cj)
               else (ch_buf (cl_Send cj) ++ [payload])%list
          else ch_buf (cl_Send cj)).
Proof.
  intros Hwf Hh Hj. unfold queue_of. rewrite Hh, lookup_fanout, Hj. cbn.
  case_decide; [| reflexivity].
  destruct (deliver_queue payload cj (wf_client _ Hwf _ _ Hj)) as (cj' & Hd & Hb).
  rewrite Hd. cbn. now rewrite Hb.
Qed.

End Exclusion.

(** C4, the claim as stated fails: B is a member of the room of A and its
    queue holds 256 payloads; the cursor message of A is not put on it. *)
Lemma C4_counterexample :
  ((λ s, bool_decide (1%nat ∈ s)) <$> members_of "abc123" crowded) = Some true
  ∧ (length <$> queue_of 1%nat crowded) = Some 256%nat
  ∧ ∃ σ', handle_frame 0%nat cursor_frame crowded = Some σ'
          ∧ queue_of 1%nat σ' = queue_of 1%nat crowded.
Proof.
  split; [vm_compute; reflexivity |]. split; [vm_compute; reflexivity |].
  eexists. split; vm_compute; reflexivity.
Qed.

(** C4, amended: a draw or cursor message puts its payload at the end of
    the queue of every member of the sender's room, the sender excepted,
    that is not closing and has fewer than 256 payloads queued; a clear
    message does so for every such member, the sender included (a sender
    whose read pump is running is a member of its room). The queue of a
    member that is closing or full is left as it is, and so are the
    sender's queue on its own draw and cursor messages and the queue of
    every client outside the room. *)
Theorem C4_exclusion σ k c r m :
  reachable σ → heap σ !! k = Some c → Rooms σ !! cl_Room c = Some r →
  msg_Type m = TypeDraw ∨ msg_Type m = TypeCursor ∨ msg_Type m = TypeClear →
  (cl_closed c = false → k ∈ room_Clients r)
  ∧ ∃ σ' payload,
      route k m σ = Some σ'
      ∧ (∀ j cj, heap σ !! j = Some cj →
           queue_of j σ'
           = Some (if decide (j ∈ room_Clients r
                              ∧ (j ≠ k ∨ msg_Type m = TypeClear))
                   then if (cl_closed cj
                            || (256 <=? length (ch_buf (cl_Send cj)))%nat)%bool
                        then ch_buf (cl_Send cj)
                        else (ch_buf (cl_Send cj) ++ [payload])%list
                   else ch_buf (cl_Send cj))).
Proof.
  intros Hreach Hc Hr Ht. pose proof (reachable_wf _ Hreach) as Hwf.
  split.
  { intros Hopen.
    destruct (reachable_readers σ Hreach k c Hc Hopen) as (r' & Hr' & Hk).
    rewrite Hr in Hr'. now injection Hr' as <-. }
  assert (Hother : ∀ σ' payload,
             msg_Type m ≠ TypeClear →
             heap σ' = fanout payload (room_Clients r ∖ {[k]}) (heap σ) →
             ∀ j cj, heap σ !! j = Some cj →
               queue_of j σ'
               = Some (if decide (j ∈ room_Clients r ∧ (j ≠ k ∨ msg_Type m = TypeClear))
                       then if (cl_closed cj
                                || (256 <=? length (ch_buf (cl_Send cj)))%nat)%bool
                            then ch_buf (cl_Send cj)
                            else (ch_buf (cl_Send cj) ++ [payload])%list
                       else ch_buf (cl_Send cj))).
  { intros σ' payload Hne Hh j cj Hj.
    rewrite (queue_of_fanout _ _ _ _ _ _ Hwf Hh Hj).
    repeat case_decide; try reflexivity; exfalso; set_solver. }
  destruct Ht as [Ht | [Ht | Ht]].
  - destruct (Unmarshal_DrawElement (Marshal_data (msg_Data m))) as [e |] eqn:He.
    + eexists _, _. split; [apply (route_draw_stored _ _ _ _ _ _ Hwf Hc Hr Ht He) |].
      apply Hother; [rewrite Ht; discriminate | reflexivity].
    + eexists _, _. split; [apply (route_draw_raw _ _ _ _ _ Hwf Hc Hr Ht He) |].
      apply Hother; [rewrite Ht; discriminate | reflexivity].
  - eexists _, _. split; [apply (route_cursor _ _ _ _ _ Hwf Hc Hr Ht) |].
    apply Hother; [rewrite Ht; discriminate | reflexivity].
  - eexists _, _. split; [apply (route_clear _ _ _ _ _ Hwf Hc Hr Ht) |].
    intros j cj Hj.
    erewrite (queue_of_fanout _ _ σ); [| exact Hwf | reflexivity | exact Hj].
    repeat case_decide; try reflexivity; exfalso; tauto.
Qed.

Lemma C4_witness :
  ∃ σ' payload,
    route 0%nat (mkMessage TypeClear "" (DIface JNull)) two_members = Some σ'
    ∧ (last <$> queue_of 0%nat σ') = Some (Some payload)
    ∧ (last <$> queue_of 1%nat σ') = Some (Some payload).
Proof.
  edestruct C4_exclusion
    with (σ := two_members) (k := 0%nat) (m := mkMessage TypeClear "" (DIface JNull))
    as (_ & σ' & payload & Hroute & Hq).
  - exact two_members_reachable.
  - vm_compute. reflexivity.
  - vm_compute. reflexivity.
  - right. right. reflexivity.
  - exists σ', payload. split; [exact Hroute |]. split.
    + erewrite Hq by (vm_compute; reflexivity). vm_compute. reflexivity.
    + erewrite Hq by (vm_compute; reflexivity). vm_compute. reflexivity.
Defined.

(* ===================================================================== *)
(** ** The snapshot is a copy                                             *)
(* ===================================================================== *)

Section Slices.

Variable grow : nat → nat.
Hypothesis grow_enough : ∀ n, (n < grow n)%nat.

Implicit Types (arrays : gmap loc (list DrawElement)) (s t : slice).

Lemma slice_make_spec n arrays :
  let '(s, arrays') := slice_make n arrays in
  arrays !! sl_array s = None ∧ slice_ok arrays' s ∧ sl_len s = n
  ∧ slice_read arrays' s = replicate n zero_DrawElement
  ∧ ∀ a, a ≠ sl_array s → arrays' !! a = arrays !! a.
Proof.
  cbn. split; [apply not_elem_of_dom, is_fresh |].
  split.
  { eexists. cbn. rewrite lookup_insert_eq. split; [reflexivity |].
    rewrite length_replicate. auto. }
  split; [reflexivity |].
  split.
  { unfold slice_read. cbn. rewrite lookup_insert_eq. cbn.
    apply take_ge. now rewrite length_replicate. }
  intros a Ha. now rewrite lookup_insert_ne.
Qed.

(** What the room reads after an operation is what the list model says,
    and the operation writes to the array of the room or to a new one. *)
Lemma log_op_slice_spec op s arrays :
  slice_ok arrays s →
  let '(s', arrays') := log_op_slice grow (s, arrays) op in
  slice_ok arrays' s'
  ∧ slice_read arrays' s' = log_op_list (slice_read arrays s) op
  ∧ ∀ a, a ≠ sl_array s → is_Some (arrays !! a) →
         arrays' !! a = arrays !! a ∧ a ≠ sl_array s'.
Proof.
  intros (cells & Hcells & Hlen & Hle). destruct op as [x |]; cbn.
  - unfold AddElement_slice, slice_append. cbn [fst snd].
    destruct (Nat.ltb_spec (sl_len s) (sl_cap s)) as [Hlt | Hge]; cbn.
    + split.
      { eexists. cbn. rewrite lookup_alter_eq, Hcells. cbn.
        split; [reflexivity |]. rewrite length_insert. lia. }
      split.
      { unfold slice_read. cbn. rewrite lookup_alter_eq, Hcells. cbn.
        rewrite (take_S_r _ _ x) by (apply list_lookup_insert_eq; lia).
        now rewrite take_insert_ge by lia. }
      intros a Ha _. split; [now rewrite lookup_alter_ne | assumption].
    + assert (Hfresh : arrays !! fresh (dom arrays) = None)
        by apply not_elem_of_dom, is_fresh.
      split.
      { eexists. cbn. rewrite lookup_insert_eq. split; [reflexivity |].
        pose proof (grow_enough (sl_cap s)).
        rewrite length_app. cbn. rewrite length_replicate.
        unfold slice_read. rewrite Hcells. cbn. rewrite length_take.
        assert (T1 : (sl_len s <= length cells)%nat) by lia.
        rewrite Nat.min_l by exact T1. split; lia. }
      split.
      { assert (Hl : length (slice_read arrays s) = sl_len s).
        { unfold slice_read. rewrite Hcells. cbn. rewrite length_take. lia. }
        unfold slice_read at 1. cbn [sl_array sl_len sl_cap].
        rewrite lookup_insert_eq. cbn [default from_option id].
        change (take (sl_len s) (default [] (arrays !! sl_array s)))
          with (slice_read arrays s).
        rewrite take_app_ge by (rewrite Hl; lia). rewrite Hl.
        replace (S (sl_len s) - sl_len s)%nat with 1%nat by lia. reflexivity. }
      intros a Ha [d Hd]. split.
      * rewrite lookup_insert_ne; [reflexivity |]. intros <-. congruence.
      * intros ->. congruence.
  - assert (Hfresh : arrays !! fresh (dom arrays) = None)
      by apply not_elem_of_dom, is_fresh.
    split.
    { eexists. cbn. rewrite lookup_insert_eq. split; [reflexivity |]. auto. }
    split; [reflexivity |].
    intros a Ha [d Hd]. split.
    + rewrite lookup_insert_ne; [reflexivity |]. intros <-. congruence.
    + intros ->. congruence.
Qed.

(** The snapshot reads what the room reads, from an array of its own. *)
Lemma GetElements_slice_spec s arrays :
  slice_ok arrays s →
  let '(t, arrays') := GetElements_slice (s, arrays) in
  slice_read arrays' t = slice_read arrays s
  ∧ slice_ok arrays' s ∧ slice_read arrays' s = slice_read arrays s
  ∧ sl_array t ≠ sl_array s ∧ is_Some (arrays' !! sl_array t).
Proof.
  intros (cells & Hcells & Hlen & Hle).
  unfold GetElements_slice, slice_make, slice_copy. cbn.
  set (a := fresh (dom arrays)).
  assert (Hfresh : arrays !! a = None) by apply not_elem_of_dom, is_fresh.
  assert (Hne : a ≠ sl_array s) by (intros Heq; rewrite Heq in Hfresh; congruence).
  rewrite lookup_insert_eq. cbn.
  assert (Hsrc : slice_read (<[a := replicate (sl_len s) zero_DrawElement]> arrays) s
                 = slice_read arrays s).
  { unfold slice_read. now rewrite lookup_insert_ne. }
  rewrite Hsrc.
  assert (Hl : length (slice_read arrays s) = sl_len s).
  { unfold slice_read. rewrite Hcells. cbn. rewrite length_take. lia. }
  split.
  { unfold slice_read at 1. cbn. rewrite lookup_insert_eq. cbn.
    change (take (sl_len s) (default [] (arrays !! sl_array s)))
      with (slice_read arrays s).
    rewrite Nat.min_id. rewrite take_app_le by (rewrite length_take, Hl; lia).
    rewrite take_take, Nat.min_id. apply take_ge. lia. }
  split.
  { exists cells. rewrite !lookup_insert_ne by assumption. auto. }
  split.
  { unfold slice_read. now rewrite !lookup_insert_ne by assumption. }
  split; [exact Hne |]. rewrite lookup_insert_eq. eauto.
Qed.

Lemma log_ops_slice_independent ops s t arrays :
  slice_ok arrays s → sl_array t ≠ sl_array s → is_Some (arrays !! sl_array t) →
  let '(s', arrays') := foldl (log_op_slice grow) (s, arrays) ops in
  slice_read arrays' t = slice_read arrays t
  ∧ slice_read arrays' s' = foldl log_op_list (slice_read arrays s) ops.
Proof.
  revert s arrays. induction ops as [| op ops IH]; intros s arrays Hok Hne Hsome.
  - cbn. auto.
  - cbn [foldl].
    pose proof (log_op_slice_spec op s arrays Hok) as Hstep.
    destruct (log_op_slice grow (s, arrays) op) as [s1 arrays1].
    destruct Hstep as (Hok1 & Hread1 & Hframe).
    destruct (Hframe _ Hne Hsome) as [Hsame Hne1].
    specialize (IH s1 arrays1 Hok1 Hne1).
    destruct (foldl (log_op_slice grow) (s1, arrays1) ops) as [s' arrays'].
    destruct IH as [IH1 IH2]; [rewrite Hsame; exact Hsome |].
    split.
    + rewrite IH1. unfold slice_read. now rewrite Hsame.
    + now rewrite IH2, Hread1.
Qed.

End Slices.

(* ===================================================================== *)
(** ** Snapshots for late joiners                                         *)
(* ===================================================================== *)

Section Snapshots.

Implicit Types (σ : State) (c : Client) (r : Room).

Lemma Marshal_sync elements uid color :
  uid ≠ "" →
  Marshal (mkMessage TypeSync uid (DSync elements uid color))
  = sync_payload elements uid color.
Proof.
  intros Hne. unfold Marshal, sync_payload. cbn.
  destruct (String.eqb_spec uid ""); [contradiction | reflexivity].
Qed.

(** A join whose colour is available goes through. *)
Lemma join_total roomID userID σ :
  wf σ → 0 ≤ colorIndex σ →
  ∃ k σ', handleWebSocket roomID userID true σ = Some (Some k, σ').
Proof.
  intros Hwf Hci.
  destruct (getNextColor_total _ Hci) as (color & ci & Hcol).
  destruct (handleWebSocket_join roomID userID σ color ci Hwf Hcol)
    as (k & σ' & _ & _ & Hj & _).
  eauto.
Qed.

(** The sync written to the socket of a connection that has joined holds
    the element log of the room. *)
Lemma join_sync roomID userID σ k σ' :
  wf σ → handleWebSocket roomID userID true σ = Some (Some k, σ') →
  ∃ uid color,
    sync_of k σ'
    = Some (sync_payload (room_Elements (room_of (room_key roomID) σ)) uid color)
    ∧ (userID ≠ "" → uid = userID)
    ∧ wf σ'
    ∧ is_Some (Rooms σ' !! room_key roomID).
Proof.
  intros Hwf H.
  destruct (handleWebSocket_color _ _ _ _ H) as (color & ci & Hcol).
  destruct (handleWebSocket_join roomID userID σ color ci Hwf Hcol)
    as (k0 & σ0 & uid & σ1 & Hj & Hres & _ & Hwf' & Hsync & _ & HR & _).
  rewrite H in Hj. injection Hj as <- <-.
  destruct (resolve_userID_total userID σ)
    as (uid' & σ1' & Hres' & Hne & _ & _ & _ & _ & Hsame & _).
  rewrite Hres in Hres'. injection Hres' as <- <-.
  exists uid, color.
  split; [now rewrite Hsync, Marshal_sync |].
  split; [intros Hu; now destruct (Hsame Hu) |].
  split; [exact Hwf' |]. rewrite HR, lookup_insert_eq. eauto.
Qed.

Lemma AddElement_all_log rid r es σ :
  wf σ → Rooms σ !! rid = Some r →
  ∃ σ1, AddElement_all rid es σ = Some σ1
        ∧ wf σ1
        ∧ Rooms σ1 !! rid
          = Some (mkRoom (room_ID r) (room_Clients r) (room_Elements r ++ es))
        ∧ heap σ1 = heap σ ∧ colorIndex σ1 = colorIndex σ.
Proof.
  revert r σ. induction es as [| e es IH]; intros r σ Hwf Hr.
  - exists σ. cbn. rewrite app_nil_r. destruct r. auto.
  - cbn [AddElement_all]. unfold on_Room. rewrite Hr. cbn [mbind option_bind].
    destruct (IH (AddElement e r) (set_Rooms (<[rid := AddElement e r]> (Rooms σ)) σ))
      as (σ1 & H1 & Hwf1 & Hr1 & Hh1 & Hc1).
    + apply (wf_room_update (AddElement e)); [assumption .. | reflexivity].
    + cbn. apply lookup_insert_eq.
    + exists σ1. split; [exact H1 |]. split; [exact Hwf1 |].
      split; [| split; assumption].
      rewrite Hr1. cbn. now rewrite <- app_assoc.
Qed.

End Snapshots.

(* ===================================================================== *)
(** ** The bounded queue                                                  *)
(* ===================================================================== *)

Section Capacity.

Implicit Types (σ : State) (c : Client).

(** Attempts on an open client fill the room that is left, in order, and
    drop the rest. *)
Lemma deliver_all_open msgs c :
  cl_closed c = false → ch_closed (cl_Send c) = false →
  deliver_all msgs c
  = Some (set_cl_Send
            (mkChan (ch_buf (cl_Send c)
                     ++ take (ch_cap (cl_Send c) - length (ch_buf (cl_Send c))) msgs)
               (ch_cap (cl_Send c)) false) c).
Proof.
  revert c. induction msgs as [| msg msgs IH]; intros c Hcl Hch.
  - cbn. rewrite take_nil, app_nil_r.
    destruct c as [? ? ? ? [? ? ?] ?]. cbn in *. now subst.
  - cbn [deliver_all]. rewrite deliver_open by assumption.
    destruct (Nat.ltb_spec (length (ch_buf (cl_Send c))) (ch_cap (cl_Send c)))
      as [Hlt | Hge]; cbn [mbind option_bind].
    + rewrite IH by (cbn; assumption || reflexivity).
      unfold set_cl_Send. cbn. f_equal. f_equal. f_equal.
      rewrite length_app. cbn [length].
      replace (ch_cap (cl_Send c) - length (ch_buf (cl_Send c)))%nat
        with (S (ch_cap (cl_Send c) - (length (ch_buf (cl_Send c)) + 1)))%nat by lia.
      cbn [take]. now rewrite <- app_assoc.
    + rewrite IH by assumption.
      replace (ch_cap (cl_Send c) - length (ch_buf (cl_Send c)))%nat with O by lia.
      reflexivity.
Qed.

End Capacity.

(** C7: the queue of every connection has capacity 256. Of 257 enqueue
    attempts on an open connection whose queue is empty, nothing being
    taken off the queue meanwhile, the first 256 payloads are queued in
    order and the last one is dropped: its send would block and the
    attempt returns at once, the queue unchanged. Every attempt returns. *)
Theorem C7_drop_under_load σ k c msgs :
  reachable σ → heap σ !! k = Some c →
  ch_cap (cl_Send c) = 256%nat
  ∧ (cl_closed c = false → ch_buf (cl_Send c) = [] → length msgs = 257%nat →
     ∃ c' last,
       deliver_all msgs c = Some c'
       ∧ ch_buf (cl_Send c') = take 256 msgs
       ∧ length (ch_buf (cl_Send c')) = 256%nat
       ∧ msgs !! 256%nat = Some last
       ∧ deliver_all (take 256 msgs) c = Some c'
       ∧ chan_send last (cl_Send c') = SendWouldBlock
       ∧ deliver last c' = Some c'
       ∧ ∀ n, is_Some (deliver_all (take n msgs) c)).
Proof.
  intros Hreach Hc. pose proof (reachable_wf _ Hreach) as Hwf.
  destruct (wf_client _ Hwf _ _ Hc) as [Hco Hcap Hid].
  split; [exact Hcap |]. intros Hcl Hbuf Hlen.
  assert (Hch : ch_closed (cl_Send c) = false) by congruence.
  destruct (msgs !! 256%nat) as [last |] eqn:Hlast;
    [| apply lookup_ge_None in Hlast; lia].
  eexists _, last.
  split; [apply deliver_all_open; assumption |].
  rewrite Hbuf, Hcap. cbn [app length Nat.sub].
  split; [reflexivity |].
  split; [cbn; rewrite length_take; lia |].
  split; [reflexivity |].
  split.
  { rewrite deliver_all_open by assumption. rewrite Hbuf, Hcap. cbn [app length Nat.sub].
    now rewrite take_take. }
  split.
  { unfold chan_send. cbn. rewrite length_take.
    replace (256 `min` length msgs)%nat with 256%nat by lia. reflexivity. }
  split.
  { rewrite deliver_open by (cbn; first [assumption | reflexivity]).
    cbn. rewrite length_take.
    replace (256 `min` length msgs)%nat with 256%nat by lia. reflexivity. }
  intros n. rewrite deliver_all_open by assumption. eauto.
Qed.

Lemma C7_witness :
  queue_of 0%nat drained = Some []
  ∧ ∃ c c',
      heap drained !! 0%nat = Some c
      ∧ deliver_all (numbered 257) c = Some c'
      ∧ ch_buf (cl_Send c') = numbered 256.
Proof.
  split; [vm_compute; reflexivity |].
  edestruct C7_drop_under_load
    with (σ := drained) (k := 0%nat) (msgs := numbered 257)
    as (_ & H).
  - exists [EvConnect "abc123" "A" true; EvWrite 0%nat true]. vm_compute. reflexivity.
  - vm_compute. reflexivity.
  - destruct H as (c' & last & H1 & H2 & _); [reflexivity .. |].
    eexists _, c'. split; [reflexivity |]. split; [exact H1 |].
    rewrite H2. vm_compute. reflexivity.
Defined.

(* ===================================================================== *)
(** ** No send after close                                                *)
(* ===================================================================== *)

(** C5: the deferred function of the read pump sets the closing flag and
    closes the queue in one critical section. In every reachable state an
    enqueue attempt, and so every broadcast, is free of a send on a closed
    queue; and once the flag of a connection is set, in every later state
    of every run the flag is still set, the queue is still closed, its
    contents are what is left of the contents at the time (nothing is
    added) and an enqueue attempt leaves the connection as it is. *)
Theorem C5_no_send_after_close σ k c :
  reachable σ → heap σ !! k = Some c →
  (∀ msg, is_Some (deliver msg c))
  ∧ (∀ rid r msg sender,
       Rooms σ !! rid = Some r →
       is_Some (Broadcast msg sender r (heap σ))
       ∧ is_Some (BroadcastToAll msg r (heap σ)))
  ∧ (∀ σ', teardown_close k σ = Some σ' →
           ∃ c', heap σ' !! k = Some c' ∧ cl_closed c' = true
                 ∧ ch_closed (cl_Send c') = true)
  ∧ (cl_closed c = true →
     ch_closed (cl_Send c) = true
     ∧ ∀ es σ', run es σ = Some σ' →
         ∃ c', heap σ' !! k = Some c'
               ∧ cl_closed c' = true
               ∧ ch_closed (cl_Send c') = true
               ∧ ch_buf (cl_Send c') `suffix_of` ch_buf (cl_Send c)
               ∧ ∀ msg, deliver msg c' = Some c').
Proof.
  intros Hreach Hc. pose proof (reachable_wf _ Hreach) as Hwf.
  split; [| split; [| split]].
  - intros msg. apply deliver_coherent. apply (wf_coherent _ _ _ Hwf Hc).
  - intros rid r msg sender Hr. split.
    + unfold Broadcast. rewrite Broadcast_loop_fanout; [eauto | apply NoDup_elements |].
      intros j Hj _. apply elem_of_elements in Hj.
      destruct (wf_member _ Hwf _ _ _ Hr Hj) as [cj Hcj].
      exists cj. split; [exact Hcj | apply (wf_coherent _ _ _ Hwf Hcj)].
    + unfold BroadcastToAll.
      rewrite BroadcastToAll_loop_fanout; [eauto | apply NoDup_elements |].
      intros j Hj. apply elem_of_elements in Hj.
      destruct (wf_member _ Hwf _ _ _ Hr Hj) as [cj Hcj].
      exists cj. split; [exact Hcj | apply (wf_coherent _ _ _ Hwf Hcj)].
  - intros σ' H. destruct (teardown_close_closes _ _ _ H) as (c0 & c' & _ & Hc' & H1 & H2 & _).
    eauto.
  - intros Hcl. split; [now rewrite <- (wf_coherent _ _ _ Hwf Hc) |].
    intros es σ' Hrun.
    destruct (run_closed _ _ _ _ _ Hwf Hrun Hc Hcl) as (c' & Hc' & Hcl' & Hsuf).
    exists c'. split; [exact Hc' |]. split; [exact Hcl' |].
    split; [now rewrite <- (wf_coherent _ _ _ (run_wf _ _ _ Hwf Hrun) Hc') |].
    split; [exact Hsuf |]. intros msg. now apply deliver_closed.
Qed.

Lemma C5_witness :
  ((λ s, bool_decide (1%nat ∈ s)) <$> members_of "abc123" closing) = Some true
  ∧ ∃ σ' c',
      run [EvFrame 0%nat cursor_frame; EvWrite 1%nat true] closing = Some σ'
      ∧ heap σ' !! 1%nat = Some c'
      ∧ cl_closed c' = true ∧ ch_closed (cl_Send c') = true
      ∧ ch_buf (cl_Send c') = [].
Proof.
  split; [vm_compute; reflexivity |].
  edestruct C5_no_send_after_close with (σ := closing) (k := 1%nat) as (_ & _ & _ & H).
  - exists [EvConnect "abc123" "A" true; EvConnect "abc123" "B" true;
            EvReadError 1%nat false].
    vm_compute. reflexivity.
  - vm_compute. reflexivity.
  - destruct H as [_ H]; [reflexivity |].
    destruct (H [EvFrame 0%nat cursor_frame; EvWrite 1%nat true]
                (state_of [EvConnect "abc123" "A" true; EvConnect "abc123" "B" true;
                           EvReadError 1%nat false;
                           EvFrame 0%nat cursor_frame; EvWrite 1%nat true]))
      as (c' & H1 & H2 & H3 & _); [vm_compute; reflexivity |].
    eexists _, c'. split; [vm_compute; reflexivity |].
    split; [exact H1 |]. split; [exact H2 |]. split; [exact H3 |].
    revert H1. vm_compute. now intros [= <-].
Defined.

(* ===================================================================== *)
(** ** Generated ids                                                      *)
(* ===================================================================== *)

(** C9: for a positive bound [randomInt] returns a value from 0 up to the
    bound, excluded: the seed divided by 65536 is below 2^48 and converts
    to a non-negative [int]. So [randomString n] returns a string of
    exactly [n] characters, each one of the 62 letters: no index is out of
    range. *)
Theorem C9_random_in_range max n seed :
  0 < max → 0 ≤ n →
  0 ≤ wrap_int (wrap_uint64 (seed * 1103515245 + 12345) / 65536)
  ∧ (∃ r seed', randomInt max seed = Some (r, seed') ∧ 0 ≤ r < max)
  ∧ len letters = 62
  ∧ (∃ i seed' b, randomInt (len letters) seed = Some (i, seed')
                  ∧ index_string letters i = Some b)
  ∧ (∃ s seed', randomString n seed = Some (s, seed')
                ∧ Z.of_nat (String.length s) = n
                ∧ Forall (λ a, In a (list_ascii_of_string letters))
                    (list_ascii_of_string s)).
Proof.
  intros Hmax Hn.
  split.
  { destruct (wrap_int_quotient _ (wrap_uint64_range (seed * 1103515245 + 12345)))
      as [-> [H _]]. exact H. }
  split.
  { destruct (randomInt_range max seed Hmax) as (r & seed' & H & Hr & _). eauto. }
  split; [reflexivity |].
  split.
  { destruct (randomInt_range (len letters) seed) as (i & seed' & H & Hi & _);
      [rewrite len_letters; lia |].
    destruct (index_string_in_range letters i Hi) as (b & Hb & _). eauto. }
  unfold randomString. destruct (Z.ltb_spec n 0); [lia |].
  destruct (randomString_loop_total (Z.to_nat n) seed) as (s & seed' & H' & Hlen & Hall).
  exists s, seed'. split; [exact H' |]. split; [lia | exact Hall].
Qed.

Lemma C9_witness :
  randomInt 62 1 = Some (36, 1103527590)
  ∧ ∃ s seed', randomString 8 1 = Some (s, seed') ∧ Z.of_nat (String.length s) = 8.
Proof.
  split; [reflexivity |].
  destruct (C9_random_in_range 62 8 1) as (_ & _ & _ & _ & s & seed' & H & Hlen & _);
    [lia | lia |].
  exists s, seed'. split; [exact H | exact Hlen].
Defined.

(** The first ids the process hands out. *)
Example first_generated_ids :
  generateIDs 3 randSeed_init
  = Some (["Ks3HxRsF"; "k4drioTr"; "7r54wOXF"], 18142616323464075177).
Proof. vm_compute. reflexivity. Qed.

(** After a run in which no call of [generateID] was interrupted, with [n]
    such calls, the next connection without a user id is given the
    [n+1]-th id of the sequence, of 8 characters. *)
Lemma next_generated_id es σ room k σ' :
  run es init = Some σ → uninterrupted es = true →
  handleWebSocket room "" true σ = Some (Some k, σ') →
  ∃ ids id,
    generateIDs (S (generated es)) randSeed_init
    = Some ((ids ++ [id])%list, randSeed σ')
    ∧ String.length id = 8%nat
    ∧ (cl_ID <$> heap σ' !! k) = Some id.
Proof.
  intros Hrun Hun Hj.
  pose proof (run_wf _ _ _ wf_init Hrun) as Hwf.
  destruct (run_seed es init σ 0 randSeed_init [] wf_init eq_refl Hun Hrun)
    as [ids Hids].
  cbn [Nat.add app] in Hids.
  destruct (handleWebSocket_color _ _ _ _ Hj) as (color & ci & Hcol).
  destruct (handleWebSocket_join room "" σ color ci Hwf Hcol)
    as (k0 & σ0 & uid & σs & Hj0 & Hres & _ & Hwf0 & _ & Hseed & _
        & c1 & msgJ & msgU & Hc1 & Hheap).
  rewrite Hj in Hj0. injection Hj0 as <- <-.
  destruct (resolve_userID_total "" σ)
    as (uid' & σs' & Hres' & _ & _ & _ & _ & _ & _ & Hgen').
  rewrite Hres in Hres'. injection Hres' as <- <-.
  specialize (Hgen' eq_refl). rewrite <- Hseed in Hgen'.
  destruct (generateID_total (randSeed σ)) as (id0 & s0 & Hid0 & Hlen0).
  rewrite Hgen' in Hid0. injection Hid0 as <- <-.
  exists ids, uid. split; [now apply (generateIDs_snoc _ _ _ _ _ _ Hids) |].
  split; [exact Hlen0 |].
  rewrite Hheap.
  assert (H1 : (<[k := c1]> (heap σ)) !! k = Some c1) by apply lookup_insert_eq.
  destruct (fanout_lookup_Some msgJ
              (({[k]} ∪ room_Clients (room_of (room_key room) σ)) ∖ {[k]})
              _ _ _ H1) as (c2 & H2 & Hc2); [now subst c1 |].
  assert (Hid2 : cl_ID c2 = uid ∧ cl_closed c2 = ch_closed (cl_Send c2)).
  { destruct Hc2 as [-> | Hd]; [now subst c1 |].
    destruct (deliver_frame _ _ _ Hd) as (-> & _ & _ & _ & -> & _ & ->).
    now subst c1. }
  destruct Hid2 as [Hid2 Hco2].
  destruct (fanout_lookup_Some msgU
              ({[k]} ∪ room_Clients (room_of (room_key room) σ)) _ _ _ H2 Hco2)
    as (c3 & H3 & Hc3).
  rewrite H3. cbn. f_equal. destruct Hc3 as [-> | Hd]; [exact Hid2 |].
  now destruct (deliver_frame _ _ _ Hd) as (-> & _).
Qed.

(* ===================================================================== *)
(** ** Encoding and decoding *)
(* ===================================================================== *)

(** The keys the decoder takes for a tag: the tag in any case, and with
    the long s (U+017F) for an s or the Kelvin sign (U+212A) for a k; a
    frame that gives such a key a value of the wrong type is rejected as
    the same frame with the plain key is. *)
Example key_folding :
  key_is "userId" "USERID" = true
  ∧ key_is "userId" "uſerId" = true
  ∧ key_is "strokeColor" "stroKeColor" = true
  ∧ String.length "uſerId" = 7%nat
  ∧ String.length "stroKeColor" = 13%nat
  ∧ key_is "userId" "userld" = false
  ∧ Unmarshal_Message
      (Json (JObj [("type", JStr "draw"); ("uſerId", JNum 5%float);
                   ("data", JStr "scribble")])) = None
  ∧ Unmarshal_Message
      (Json (JObj [("type", JStr "draw"); ("uſerId", JStr "mallory")]))
    = Some (mkMessage "draw" "mallory" (DIface JNull))
  ∧ Unmarshal_DrawElement
      (JObj [("id", JStr "e1"); ("ſtrokeColor", JNum 5%float)]) = None.
Proof. repeat split; vm_compute; reflexivity. Qed.

Section RoundTrips.

(** The element the draw case of [readPump] gets back from its own
    [json.Marshal] and [json.Unmarshal], through an [interface{}]. *)
Lemma Unmarshal_DrawElement_via_iface e :
  Unmarshal_DrawElement (to_iface (Marshal_DrawElement e)) = Some e.
Proof. destruct e. reflexivity. Qed.

Lemma Unmarshal_Message_Marshal m :
  Unmarshal_Message (Json (Marshal m))
  = Some (mkMessage (msg_Type m) (msg_UserID m)
            (DIface (to_iface (Marshal_data (msg_Data m))))).
Proof.
  destruct m as [t u d]. unfold Marshal. cbn [msg_Type msg_UserID msg_Data].
  destruct (String.eqb_spec u "") as [-> | Hu];
    destruct (data_is_nil d) eqn:Hd; cbn.
  - destruct d as [[] | | | |]; try discriminate. reflexivity.
  - reflexivity.
  - destruct d as [[] | | | |]; try discriminate. reflexivity.
  - reflexivity.
Qed.

End RoundTrips.

(** X1: decoding the JSON object that [json.Marshal] writes for a
    [DrawElement] gives the element back, field by field, both directly and
    after the object has been through an [interface{}] (a map, written with
    its keys sorted), which is the way the draw case of [readPump] takes. *)
Theorem DrawElement_round_trip e :
  Unmarshal_DrawElement (Marshal_DrawElement e) = Some e
  ∧ Unmarshal_DrawElement (to_iface (Marshal_DrawElement e)) = Some e
  ∧ Unmarshal_DrawElement (Marshal_data (DIface (to_iface (Marshal_DrawElement e))))
    = Some e.
Proof. destruct e. repeat split; reflexivity. Qed.

(** X2: decoding an envelope the server has marshalled gives back its
    type and its user id, and its data as the server would read them from
    the wire; an empty user id and a nil data are left out of the payload
    ([omitempty]) and come back as the zero values they were. *)
Theorem envelope_round_trip m :
  Unmarshal_Message (Json (Marshal m))
  = Some (mkMessage (msg_Type m) (msg_UserID m)
            (DIface (to_iface (Marshal_data (msg_Data m)))))
  ∧ Marshal (mkMessage (msg_Type m) "" (DIface JNull))
    = JObj [("type", JStr (msg_Type m))]
  ∧ Unmarshal_Message (Json (Marshal (mkMessage (msg_Type m) "" (DIface JNull))))
    = Some (mkMessage (msg_Type m) "" (DIface JNull)).
Proof.
  split; [| split; reflexivity].
  destruct m as [t u d]. unfold Marshal. cbn [msg_Type msg_UserID msg_Data].
  destruct (String.eqb_spec u "") as [-> | Hu];
    destruct (data_is_nil d) eqn:Hd; cbn;
    try reflexivity; destruct d as [[] | | | |]; try discriminate; reflexivity.
Qed.

(** X3: a draw message whose data is an element in the format of the
    schema is stored as sent, but for the user id, which is the id of the
    connection whatever id the message carried; the members other than the
    sender are offered the envelope with that same element. *)
Theorem draw_of_an_element σ k c r u e :
  reachable σ → heap σ !! k = Some c → Rooms σ !! cl_Room c = Some r →
  ∃ σ',
    handle_frame k (Json (Marshal (mkMessage TypeDraw u (DElement e)))) σ = Some σ'
    ∧ elements_of (cl_Room c) σ'
      = Some (room_Elements r ++ [set_el_UserID (cl_ID c) e])%list
    ∧ members_of (cl_Room c) σ' = Some (room_Clients r)
    ∧ heap σ' = fanout (Marshal (mkMessage TypeDraw (cl_ID c)
                                   (DElement (set_el_UserID (cl_ID c) e))))
                  (room_Clients r ∖ {[k]}) (heap σ).
Proof.
  intros Hreach Hc Hr.
  pose proof (reachable_wf _ Hreach) as Hwf.
  unfold handle_frame. rewrite Unmarshal_Message_Marshal.
  erewrite route_draw_stored; [| eassumption | eassumption | eassumption | reflexivity |].
  2:{ cbn [msg_Data Marshal_data]. apply Unmarshal_DrawElement_via_iface. }
  eexists. split; [reflexivity |].
  unfold elements_of, members_of. cbn. rewrite lookup_insert_eq.
  repeat split.
Qed.

Lemma draw_of_an_element_witness :
  ∃ σ',
    handle_frame 0%nat
      (Json (Marshal (mkMessage TypeDraw "mallory"
                        (DElement (mkDrawElement "e1" "line" 1%float 2%float 3%float
                                     4%float "#000000" 2%float "mallory")))))
      two_members = Some σ'
    ∧ elements_of "abc123" σ'
      = Some [mkDrawElement "e1" "line" 1%float 2%float 3%float 4%float
                "#000000" 2%float "A"].
Proof.
  edestruct draw_of_an_element
    with (σ := two_members) (k := 0%nat) (u := "mallory")
         (e := mkDrawElement "e1" "line" 1%float 2%float 3%float 4%float
                 "#000000" 2%float "mallory")
    as (σ' & H & Hel & _).
  - exact two_members_reachable.
  - vm_compute. reflexivity.
  - vm_compute. reflexivity.
  - exists σ'. split; [exact H | exact Hel].
Defined.

(** X4: the draw case validates nothing. A draw message without data, or
    with an empty object as data, decodes to the zero element, which is
    stored under the id of the connection and sent on to the other
    members. *)
Theorem draw_without_data σ k c r f m :
  reachable σ → heap σ !! k = Some c → Rooms σ !! cl_Room c = Some r →
  Unmarshal_Message f = Some m → msg_Type m = TypeDraw →
  msg_Data m = DIface JNull ∨ msg_Data m = DIface (JObj []) →
  ∃ σ', handle_frame k f σ = Some σ'
    ∧ elements_of (cl_Room c) σ'
      = Some (room_Elements r ++ [set_el_UserID (cl_ID c) zero_DrawElement])%list
    ∧ heap σ' = fanout (Marshal (mkMessage TypeDraw (cl_ID c)
                                   (DElement (set_el_UserID (cl_ID c) zero_DrawElement))))
                  (room_Clients r ∖ {[k]}) (heap σ).
Proof.
  intros Hreach Hc Hr Hm Ht Hd.
  pose proof (reachable_wf _ Hreach) as Hwf.
  unfold handle_frame. rewrite Hm.
  erewrite route_draw_stored; [| eassumption | eassumption | eassumption | assumption |].
  2:{ destruct Hd as [-> | ->]; reflexivity. }
  eexists. split; [reflexivity |]. split; [| reflexivity].
  unfold elements_of. cbn. rewrite lookup_insert_eq. reflexivity.
Qed.

Lemma draw_without_data_witness :
  ∃ σ',
    handle_frame 0%nat (Json (JObj [("type", JStr "draw")])) two_members = Some σ'
    ∧ elements_of "abc123" σ'
      = Some [mkDrawElement "" "" 0%float 0%float 0%float 0%float "" 0%float "A"].
Proof.
  edestruct draw_without_data
    with (σ := two_members) (k := 0%nat) (f := Json (JObj [("type", JStr "draw")]))
    as (σ' & H & Hel & _).
  - exact two_members_reachable.
  - vm_compute. reflexivity.
  - vm_compute. reflexivity.
  - vm_compute. reflexivity.
  - reflexivity.
  - left. reflexivity.
  - exists σ'. split; [exact H | exact Hel].
Defined.

(* ===================================================================== *)
(** ** Enumerations of the members *)
(* ===================================================================== *)

Section Enumerations.

Implicit Types (σ : State) (c : Client) (r : Room) (h : gmap loc Client).

Lemma GetUserList_loop_users l h users :
  (∀ k, k ∈ l → is_Some (h !! k)) →
  GetUserList_loop l h users = Some (users ++ users_of l h)%list.
Proof.
  revert users. induction l as [| k l IH]; intros users Hall; cbn.
  - now rewrite app_nil_r.
  - destruct (Hall k) as [c Hc]; [now left |].
    unfold users_of. cbn [omap]. rewrite Hc. cbn.
    rewrite IH by (intros j Hj; apply Hall; now right).
    now rewrite <- app_assoc.
Qed.

Lemma users_of_Permutation l1 l2 h : l1 ≡ₚ l2 → users_of l1 h ≡ₚ users_of l2 h.
Proof. intros H. unfold users_of. now rewrite H. Qed.

Lemma elem_of_users_of l h u :
  u ∈ users_of l h ↔ ∃ k c, k ∈ l ∧ h !! k = Some c ∧ u = user_info c.
Proof.
  unfold users_of. rewrite list_elem_of_omap. split.
  - intros (k & Hk & Hu). destruct (h !! k) as [c |] eqn:Hc; [| discriminate].
    injection Hu as <-. eauto.
  - intros (k & c & Hk & Hc & ->). exists k. split; [exact Hk |]. now rewrite Hc.
Qed.

Lemma length_users_of l h :
  (∀ k, k ∈ l → is_Some (h !! k)) → length (users_of l h) = length l.
Proof.
  induction l as [| k l IH]; intros Hall; [reflexivity |].
  destruct (Hall k) as [c Hc]; [now left |].
  unfold users_of in *. cbn. rewrite Hc. cbn. f_equal.
  apply IH. intros j Hj. apply Hall. now right.
Qed.

End Enumerations.

(** X5: the outcome of [Broadcast] and of [BroadcastToAll] does not depend
    on the order in which the [range] over the member map visits the
    members: every enumeration of the members ends in the same client
    objects, one enqueue attempt on each member addressed. *)
Theorem broadcast_is_order_independent σ rid r msg sender l :
  reachable σ → Rooms σ !! rid = Some r → l ≡ₚ elements (room_Clients r) →
  Broadcast_loop msg sender l (heap σ)
  = Some (fanout msg (room_Clients r ∖ {[sender]}) (heap σ))
  ∧ BroadcastToAll_loop msg l (heap σ)
    = Some (fanout msg (room_Clients r) (heap σ))
  ∧ Broadcast_loop msg sender l (heap σ) = Broadcast msg sender r (heap σ)
  ∧ BroadcastToAll_loop msg l (heap σ) = BroadcastToAll msg r (heap σ).
Proof.
  intros Hreach Hr Hl. pose proof (reachable_wf _ Hreach) as Hwf.
  assert (Hnd : NoDup l) by (rewrite Hl; apply NoDup_elements).
  assert (Hset : list_to_set l = room_Clients r).
  { apply set_eq. intros k. rewrite elem_of_list_to_set, Hl. apply elem_of_elements. }
  assert (Hall : ∀ k, k ∈ l →
                      ∃ c, heap σ !! k = Some c ∧ cl_closed c = ch_closed (cl_Send c)).
  { intros k Hk. rewrite Hl in Hk. apply elem_of_elements in Hk.
    destruct (wf_member _ Hwf _ _ _ Hr Hk) as [c Hc].
    exists c. split; [exact Hc | apply (wf_coherent _ _ _ Hwf Hc)]. }
  assert (H1 : Broadcast_loop msg sender l (heap σ)
               = Some (fanout msg (room_Clients r ∖ {[sender]}) (heap σ))).
  { rewrite Broadcast_loop_fanout; [now rewrite Hset | exact Hnd |].
    intros k Hk _. now apply Hall. }
  assert (H2 : BroadcastToAll_loop msg l (heap σ)
               = Some (fanout msg (room_Clients r) (heap σ))).
  { rewrite BroadcastToAll_loop_fanout; [now rewrite Hset | exact Hnd | exact Hall]. }
  split; [exact H1 |]. split; [exact H2 |]. split.
  - rewrite H1. symmetry.
    pose proof (Room_Broadcast_wf rid r msg sender σ Hwf Hr) as H.
    unfold Room_Broadcast in H. rewrite Hr in H. cbn [mbind option_bind] in H.
    destruct (Broadcast msg sender r (heap σ)) as [h |]; [| discriminate].
    cbn in H. now injection H as ->.
  - rewrite H2. symmetry.
    pose proof (Room_BroadcastToAll_wf rid r msg σ Hwf Hr) as H.
    unfold Room_BroadcastToAll in H. rewrite Hr in H. cbn [mbind option_bind] in H.
    destruct (BroadcastToAll msg r (heap σ)) as [h |]; [| discriminate].
    cbn in H. now injection H as ->.
Qed.

Lemma broadcast_is_order_independent_witness :
  Broadcast_loop (JStr "hello") 0%nat [1%nat; 0%nat] (heap two_members)
  = Broadcast_loop (JStr "hello") 0%nat [0%nat; 1%nat] (heap two_members).
Proof.
  edestruct broadcast_is_order_independent
    with (σ := two_members) (rid := "abc123") (msg := JStr "hello") (sender := 0%nat)
         (l := [1%nat; 0%nat]) as (H1 & _ & _ & _).
  - exact two_members_reachable.
  - vm_compute. reflexivity.
  - vm_compute. first [reflexivity | apply perm_swap].
  - edestruct broadcast_is_order_independent
      with (σ := two_members) (rid := "abc123") (msg := JStr "hello") (sender := 0%nat)
           (l := [0%nat; 1%nat]) as (H2 & _ & _ & _).
    + exact two_members_reachable.
    + vm_compute. reflexivity.
    + vm_compute. first [reflexivity | apply perm_swap].
    + rewrite H1, H2. reflexivity.
Defined.

(** X6: [GetUserList] returns one entry per member connection, with the
    id and the colour of that connection (two connections with one user id
    give two entries); another visiting order of the member map gives the
    same entries in another order. *)
Theorem user_list_entries σ rid r l :
  reachable σ → Rooms σ !! rid = Some r → l ≡ₚ elements (room_Clients r) →
  ∃ users,
    GetUserList_loop l (heap σ) [] = Some users
    ∧ length users = size (room_Clients r)
    ∧ (∀ u, u ∈ users ↔
            ∃ k c, k ∈ room_Clients r ∧ heap σ !! k = Some c
                   ∧ u = mkUserInfo (cl_ID c) (cl_Color c))
    ∧ ∃ users0, GetUserList r (heap σ) = Some users0 ∧ users ≡ₚ users0.
Proof.
  intros Hreach Hr Hl. pose proof (reachable_wf _ Hreach) as Hwf.
  assert (Hall : ∀ k, k ∈ l → is_Some (heap σ !! k)).
  { intros k Hk. rewrite Hl in Hk. apply elem_of_elements in Hk.
    apply (wf_member _ Hwf _ _ _ Hr Hk). }
  exists (users_of l (heap σ)).
  split; [now rewrite GetUserList_loop_users |].
  split; [rewrite length_users_of by exact Hall; now rewrite Hl |].
  split.
  - intros u. rewrite elem_of_users_of. split.
    + intros (k & c & Hk & Hc & ->). exists k, c.
      rewrite Hl in Hk. apply elem_of_elements in Hk. auto.
    + intros (k & c & Hk & Hc & ->). exists k, c.
      split; [rewrite Hl; now apply elem_of_elements | auto].
  - exists (users_of (elements (room_Clients r)) (heap σ)). split.
    + unfold GetUserList. rewrite GetUserList_loop_users; [reflexivity |].
      intros k Hk. apply elem_of_elements in Hk. apply (wf_member _ Hwf _ _ _ Hr Hk).
    + now apply users_of_Permutation.
Qed.

Lemma user_list_entries_witness :
  ∃ users, GetUserList_loop [0%nat; 1%nat] (heap two_members) [] = Some users
           ∧ length users = 2%nat.
Proof.
  edestruct user_list_entries
    with (σ := two_members) (rid := "abc123") (l := [0%nat; 1%nat])
    as (users & H & Hlen & _).
  - exact two_members_reachable.
  - vm_compute. reflexivity.
  - vm_compute. first [reflexivity | apply perm_swap].
  - exists users. split; [exact H |]. rewrite Hlen. vm_compute. reflexivity.
Defined.

(* ===================================================================== *)
(** ** The write pump as a whole *)
(* ===================================================================== *)

Section WritePump.

Implicit Types (σ : State) (c : Client).

Lemma set_heap_set_heap (h1 h2 : gmap loc Client) σ :
  set_heap h2 (set_heap h1 σ) = set_heap h2 σ.
Proof. reflexivity. Qed.

Lemma pumped_nothing c :
  pumped [] (ch_buf (cl_Send c)) (conn_closed (cl_Conn c)) c = c.
Proof.
  destruct c as [id [w cl] rm col [buf cap chc] f]. unfold pumped. cbn.
  now rewrite app_nil_r.
Qed.

(** With every write succeeding the pump writes the whole queue, oldest
    payload first; it closes the socket if [Send] has been closed and
    stays blocked otherwise. *)
Lemma writePump_drains k c σ (n : nat) :
  heap σ !! k = Some c → conn_closed (cl_Conn c) = false →
  (length (ch_buf (cl_Send c)) < n)%nat →
  writePump k (repeat true n) σ
  = Some (set_heap (<[k := pumped (ch_buf (cl_Send c)) [] (ch_closed (cl_Send c)) c]>
                      (heap σ)) σ).
Proof.
  destruct c as [id [w cl] rm col [buf cap chc] f]. cbn.
  revert σ w n. induction buf as [| msg buf IH]; intros σ w n Hk Hcl Hn.
  - destruct n as [| n]; [lia |]. cbn [repeat writePump]. rewrite Hk. cbn.
    subst cl. unfold pumped. cbn. rewrite app_nil_r.
    destruct chc; cbn; [reflexivity |].
    rewrite insert_id by exact Hk. now destruct σ.
  - destruct n as [| n]; [cbn in Hn; lia |]. cbn [repeat writePump]. rewrite Hk. cbn.
    subst cl. cbn.
    rewrite (IH _ (w ++ [msg])%list n); cbn.
    + rewrite insert_insert_eq. unfold pumped. cbn. now rewrite <- app_assoc.
    + apply lookup_insert_eq.
    + reflexivity.
    + cbn in Hn. lia.
Qed.

(** The first write that fails ends the pump: the payload it had taken
    from the queue is lost, the rest of the queue is left where it is and
    the socket is closed. *)
Lemma writePump_fails k c σ (i : nat) msg rest :
  heap σ !! k = Some c → conn_closed (cl_Conn c) = false →
  ch_buf (cl_Send c) !! i = Some msg →
  writePump k (repeat true i ++ false :: rest) σ
  = Some (set_heap (<[k := pumped (take i (ch_buf (cl_Send c)))
                             (drop (S i) (ch_buf (cl_Send c))) true c]>
                      (heap σ)) σ).
Proof.
  destruct c as [id [w cl] rm col [buf cap chc] f]. cbn.
  revert σ w buf. induction i as [| i IH]; intros σ w buf Hk Hcl Hi.
  - destruct buf as [| m buf]; [discriminate |]. cbn in Hi. injection Hi as ->.
    cbn [repeat app writePump]. rewrite Hk. cbn.
    unfold pumped. cbn. now rewrite app_nil_r, drop_0.
  - destruct buf as [| m buf]; [discriminate |]. cbn in Hi.
    cbn [repeat app writePump]. rewrite Hk. cbn. subst cl. cbn.
    rewrite (IH _ (w ++ [m])%list buf); cbn.
    + rewrite insert_insert_eq. unfold pumped. cbn. now rewrite <- app_assoc.
    + apply lookup_insert_eq.
    + reflexivity.
    + exact Hi.
Qed.

(** Each turn of the loop is one step of the pump. *)
Lemma writePump_unfold k ok rest σ :
  writePump k (ok :: rest) σ
  = σ1 ← writePump_step k ok σ;
    match heap σ !! k with
    | Some c =>
        match chan_recv (cl_Send c) with
        | Received _ _ =>
            if (ok && negb (conn_closed (cl_Conn c)))%bool
            then writePump k rest σ1 else Some σ1
        | _ => Some σ1
        end
    | None => None
    end.
Proof.
  cbn [writePump]. unfold writePump_step.
  destruct (heap σ !! k) as [c |]; [| reflexivity]. cbn [mbind option_bind].
  destruct (chan_recv (cl_Send c)); cbn [mbind option_bind]; try reflexivity.
  destruct (ok && negb (conn_closed (cl_Conn c)))%bool; reflexivity.
Qed.

End WritePump.

(* ===================================================================== *)
(** ** The join in closed form *)
(* ===================================================================== *)

Section JoinState.

Implicit Types (σ : State) (c : Client) (r : Room) (h : gmap loc Client).

Lemma users_of_fanout msg targets l h :
  (∀ k c, h !! k = Some c → cl_closed c = ch_closed (cl_Send c)) →
  users_of l (fanout msg targets h) = users_of l h.
Proof.
  intros Hco. unfold users_of.
  induction l as [| k l IH]; [reflexivity |]. cbn. rewrite IH. clear IH.
  destruct (h !! k) as [c |] eqn:Hc.
  - destruct (fanout_lookup_Some msg targets h k c Hc (Hco _ _ Hc))
      as (c' & -> & [-> | Hd]); [reflexivity |].
    destruct (deliver_frame _ _ _ Hd) as (Hid & _ & _ & Hcol & _).
    cbn. unfold user_info. now rewrite Hid, Hcol.
  - rewrite lookup_fanout, Hc. reflexivity.
Qed.

Lemma resolve_userID_drawn userID σ uid σ1 :
  resolve_userID userID σ = Some (uid, σ1) → drawn σ1 = drawn σ.
Proof.
  unfold resolve_userID. destruct (String.eqb userID "").
  - destruct (generateID (randSeed σ)) as [[id seed] |]; [| discriminate].
    now intros [= _ <-].
  - now intros [= _ <-].
Qed.

Lemma GetOrCreateRoom_drawn rid σ : drawn (GetOrCreateRoom rid σ) = drawn σ.
Proof. unfold GetOrCreateRoom. now destruct (Rooms σ !! rid). Qed.

Lemma handleWebSocket_state roomID userID σ color ci :
  wf σ → getNextColor (colorIndex σ) = Some (color, ci) →
  ∃ uid σ1,
    resolve_userID userID σ = Some (uid, σ1)
    ∧ (let rid := room_key roomID in
      let r0 := room_of rid σ in
      let k := fresh (dom (heap σ)) in
      let c1 := mkClient uid
                  (mkConn [Marshal (mkMessage TypeSync uid
                                      (DSync (room_Elements r0) uid color))] false)
                  rid color (make_chan 256) false in
      let users := users_of (elements ({[k]} ∪ room_Clients r0)) (<[k := c1]> (heap σ)) in
      heap σ !! k = None ∧ (k ∉ room_Clients r0)
      ∧ handleWebSocket roomID userID true σ
        = Some (Some k,
                mkState (<[rid := AddClient k r0]> (Rooms σ))
                  (fanout (Marshal (mkMessage TypeUserList "" (DUserList users)))
                     ({[k]} ∪ room_Clients r0)
                     (fanout (Marshal (mkMessage TypeJoin uid
                                         (DUserInfo (mkUserInfo uid color))))
                        (room_Clients r0) (<[k := c1]> (heap σ))))
                  ci (randSeed σ1) (logged σ ++ [LogJoined uid rid]) (drawn σ))).
Proof.
  intros Hwf Hcol. unfold handleWebSocket.
  destruct (resolve_userID_total userID σ)
    as (uid & σ1 & Hres & Huid & HR1 & Hh1 & Hc1 & Hl1 & _ & _).
  exists uid, σ1. split; [exact Hres |].
  rewrite Hres. cbn [mbind option_bind negb].
  assert (Hwf1 : wf σ1).
  { destruct Hwf as [A B C]. split; rewrite ?HR1, ?Hh1; assumption. }
  set (rid := room_key roomID).
  destruct (GetOrCreateRoom_lookup rid σ1) as (Hr0 & Hh2 & Hc2 & Hs2 & Hins).
  assert (Hro : room_of rid σ1 = room_of rid σ) by (unfold room_of; now rewrite HR1).
  rewrite Hro in Hr0, Hins.
  pose proof (wf_GetOrCreateRoom rid _ Hwf1) as Hwf2.
  assert (Hl2 : logged (GetOrCreateRoom rid σ1) = logged σ).
  { rewrite <- Hl1. unfold GetOrCreateRoom. now destruct (Rooms σ1 !! rid). }
  assert (Hd2 : drawn (GetOrCreateRoom rid σ1) = drawn σ).
  { rewrite GetOrCreateRoom_drawn. exact (resolve_userID_drawn _ _ _ _ Hres). }
  set (σ2 := GetOrCreateRoom rid σ1) in *.
  rewrite Hc2, Hc1, Hcol. cbn [mbind option_bind].
  assert (Hk : fresh (dom (heap (set_colorIndex ci σ2))) = fresh (dom (heap σ))).
  { cbn. now rewrite Hh2, Hh1. }
  rewrite Hk.
  set (k := fresh (dom (heap σ))).
  assert (Hfresh : heap σ !! k = None) by (apply not_elem_of_dom, is_fresh).
  assert (Hnotin : k ∉ room_Clients (room_of rid σ)).
  { intros Hin. destruct (wf_member _ Hwf2 _ _ _ Hr0 Hin) as [c Hc].
    rewrite Hh2, Hh1, Hfresh in Hc. discriminate. }
  cbv zeta. split; [exact Hfresh |]. split; [exact Hnotin |].
  set (c0 := mkClient uid (mkConn [] false) rid color (make_chan 256) false).
  set (σ4 := set_heap (<[k := c0]> (heap (set_colorIndex ci σ2))) (set_colorIndex ci σ2)).
  assert (Hwf4 : wf σ4).
  { apply wf_set_client.
    - now apply wf_set_colorIndex.
    - split; cbn; auto.
    - cbn. rewrite Hr0. eauto. }
  unfold on_Room.
  assert (Hr4 : Rooms σ4 !! rid = Some (room_of rid σ)) by exact Hr0.
  rewrite Hr4. cbn [mbind option_bind].
  set (r1 := AddClient k (room_of rid σ)).
  set (σ5 := set_Rooms (<[rid := r1]> (Rooms σ4)) σ4).
  assert (Hwf5 : wf σ5).
  { apply wf_set_room; [assumption |]. intros j Hj. cbn in Hj.
    apply elem_of_union in Hj as [Hj | Hj].
    - apply elem_of_singleton in Hj as ->. cbn. rewrite lookup_insert_eq. eauto.
    - cbn. rewrite lookup_insert_is_Some.
      destruct (decide (k = j)); [now left | right]. split; [assumption |].
      apply (wf_member _ Hwf2 _ _ _ Hr0 Hj). }
  assert (Hr5 : Rooms (log_Printf (LogJoined uid rid) σ5) !! rid = Some r1)
    by (cbn; apply lookup_insert_eq).
  rewrite Hr5. cbn [mbind option_bind].
  set (syncMsg := mkMessage TypeSync uid (DSync (GetElements r1) uid color)).
  set (c1 := set_cl_Conn (Conn_WriteMessage (Marshal syncMsg) (cl_Conn c0)) c0).
  set (σ7 := set_heap (<[k := c1]> (heap (log_Printf (LogJoined uid rid) σ5)))
               (log_Printf (LogJoined uid rid) σ5)).
  assert (Hwf7 : wf σ7).
  { apply wf_set_client.
    - now apply wf_log_Printf.
    - split; cbn; auto.
    - cbn. rewrite lookup_insert_eq. eauto. }
  assert (Hr7 : Rooms σ7 !! rid = Some r1) by exact Hr5.
  rewrite (Room_Broadcast_wf _ _ _ _ _ Hwf7 Hr7). cbn [mbind option_bind].
  set (σ8 := set_heap (fanout _ _ (heap σ7)) σ7).
  assert (Hwf8 : wf σ8) by (apply wf_fanout; assumption).
  assert (Hr8 : Rooms σ8 !! rid = Some r1) by exact Hr5.
  rewrite Hr8. cbn [mbind option_bind].
  assert (Hh7 : heap σ7 = <[k := c1]> (heap σ)).
  { cbn. now rewrite insert_insert_eq, Hh2, Hh1. }
  assert (Hu : GetUserList r1 (heap σ8)
               = Some (users_of (elements ({[k]} ∪ room_Clients (room_of rid σ)))
                         (<[k := c1]> (heap σ)))).
  { unfold GetUserList. rewrite GetUserList_loop_users.
    - cbn [app]. f_equal. unfold σ8. cbn [heap set_heap].
      rewrite users_of_fanout, Hh7; [reflexivity |].
      intros j cj Hj. apply (wf_coherent σ7 j cj Hwf7 Hj).
    - intros j Hj. apply elem_of_elements in Hj.
      apply (wf_member _ Hwf8 _ _ _ Hr8 Hj). }
  rewrite Hu. cbn [mbind option_bind].
  rewrite (Room_BroadcastToAll_wf _ _ _ _ Hwf8 Hr8). cbn [mbind option_bind].
  f_equal. f_equal. unfold σ8. cbn [heap set_heap]. rewrite Hh7.
  replace (room_Clients r1 ∖ {[k]}) with (room_Clients (room_of rid σ))
    by (cbn; set_solver).
  unfold set_heap. cbn.
  rewrite <- Hins, insert_insert_eq, HR1, Hs2, Hl2, Hd2. reflexivity.
Qed.

End JoinState.

(* ===================================================================== *)
(** ** What one event changes *)
(* ===================================================================== *)

Section Steps.

Implicit Types (σ : State) (c : Client) (r : Room) (e : event) (h : gmap loc Client).

Lemma evolves_refl c : evolves c c.
Proof. split; auto. Qed.

Lemma evolves_trans c1 c2 c3 : evolves c1 c2 → evolves c2 c3 → evolves c1 c3.
Proof.
  intros [A1 A2 A3 A4 A5 A6 A7 A8] [B1 B2 B3 B4 B5 B6 B7 B8]. split.
  - congruence.
  - congruence.
  - congruence.
  - congruence.
  - intros H. rewrite <- A4. apply B5. rewrite A4. now apply A5.
  - etransitivity; eassumption.
  - intros H. rewrite B7; [now apply A7 |]. rewrite A7; assumption.
  - auto.
Qed.

Lemma deliver_evolves msg c c' : deliver msg c = Some c' → evolves c c'.
Proof.
  unfold deliver, select_send_default, chan_send.
  destruct c as [id cn rm col [buf cap chc] cl]; cbn.
  destruct cl; [intros [= <-]; apply evolves_refl |].
  destruct chc; [discriminate |].
  match goal with |- context [if ?b then _ else _] => destruct b eqn:Hlt end;
    cbn; intros H; injection H as <-.
  - apply Nat.ltb_lt in Hlt. split; cbn; auto. intros _. rewrite length_app. cbn. lia.
  - apply evolves_refl.
Qed.

Lemma fanout_evolves msg targets h k c :
  h !! k = Some c → cl_closed c = ch_closed (cl_Send c) →
  ∃ c', fanout msg targets h !! k = Some c' ∧ evolves c c'
        ∧ cl_closed c' = ch_closed (cl_Send c').
Proof.
  intros Hc Hco.
  destruct (fanout_lookup_Some msg targets h k c Hc Hco) as (c' & Hc' & [-> | Hd]).
  - exists c. split; [exact Hc' |]. split; [apply evolves_refl | exact Hco].
  - exists c'. split; [exact Hc' |]. split; [now apply (deliver_evolves msg) |].
    destruct (deliver_frame _ _ _ Hd) as (_ & _ & _ & _ & -> & _ & ->). exact Hco.
Qed.

Lemma fanout_evolves_inv msg targets h k c' :
  fanout msg targets h !! k = Some c' → ∃ c, h !! k = Some c ∧ evolves c c'.
Proof.
  intros H. apply fanout_lookup_inv in H as (c & Hc & [-> | Hd]).
  - exists c. split; [exact Hc | apply evolves_refl].
  - exists c. split; [exact Hc | now apply (deliver_evolves msg)].
Qed.

End Steps.

Section Events.

Implicit Types (σ : State) (c : Client) (r : Room) (e : event) (h : gmap loc Client).

Lemma evolves_teardown_close c ch :
  chan_close (cl_Send c) = Some ch → evolves c (set_cl_Send ch (set_cl_closed true c)).
Proof.
  unfold chan_close. destruct (ch_closed (cl_Send c)); [discriminate |].
  intros [= <-]. split; cbn; auto.
Qed.

Lemma evolves_Conn_Close c : evolves c (set_cl_Conn (Conn_Close (cl_Conn c)) c).
Proof.
  split; cbn; auto. intros H. destruct (cl_Conn c) as [w cl]. cbn in *. now subst.
Qed.

Lemma evolves_writePump_step c msg ch ok :
  chan_recv (cl_Send c) = Received msg ch →
  evolves c (set_cl_Conn
               (if (ok && negb (conn_closed (cl_Conn c)))%bool
                then Conn_WriteMessage msg (cl_Conn c)
                else Conn_Close (cl_Conn c))
               (set_cl_Send ch c)).
Proof.
  unfold chan_recv. destruct (ch_buf (cl_Send c)) as [| m rest] eqn:Hbuf.
  { destruct (ch_closed (cl_Send c)); discriminate. }
  intros [= <- <-]. destruct (cl_Conn c) as [w cl] eqn:Hcn. split; cbn; auto.
  - rewrite Hbuf. cbn. lia.
  - rewrite Hcn. unfold Conn_WriteMessage. cbn.
    destruct ok, cl; cbn; try reflexivity. now exists [m].
  - rewrite Hcn. cbn. intros ->. now destruct ok.
Qed.

(** What one event does to the client objects: those that exist evolve,
    and the only new one is the client of an accepted connection. *)
Lemma exec_clients e σ σ' :
  wf σ → exec e σ = Some σ' →
  (∀ k c, heap σ !! k = Some c → ∃ c', heap σ' !! k = Some c' ∧ evolves c c')
  ∧ (∀ k c', heap σ !! k = None → heap σ' !! k = Some c' →
       ∃ rid uid color sync,
         joins e = Some rid ∧ k = fresh (dom (heap σ))
         ∧ evolves (mkClient uid (mkConn [sync] false) rid color
                      (make_chan 256) false) c').
Proof.
  intros Hwf He.
  assert (Hconnect : ∀ roomID userID ok σ σ',
    wf σ → exec (EvConnect roomID userID ok) σ = Some σ' →
    (∀ k c, heap σ !! k = Some c → ∃ c', heap σ' !! k = Some c' ∧ evolves c c')
    ∧ (∀ k c', heap σ !! k = None → heap σ' !! k = Some c' →
         ∃ rid uid color sync,
           (if ok then Some (room_key roomID) else None) = Some rid
           ∧ k = fresh (dom (heap σ))
           ∧ evolves (mkClient uid (mkConn [sync] false) rid color
                        (make_chan 256) false) c')).
  { clear Hwf He σ σ'. intros roomID userID ok σ σ' Hwf He. cbn [exec] in He.
    destruct (handleWebSocket roomID userID ok σ) as [[res σ1] |] eqn:H;
      [| discriminate].
    cbn in He. injection He as <-. destruct ok.
    + destruct (handleWebSocket_color _ _ _ _ H) as (color & ci & Hcol).
      destruct (handleWebSocket_state roomID userID σ color ci Hwf Hcol)
        as (uid & σ0 & Hres & Hfresh & Hnotin & Hj).
      rewrite Hj in H. injection H as <- <-. cbn [heap]. split.
      * intros k c Hk.
        assert (Hne : fresh (dom (heap σ)) ≠ k) by (intros <-; congruence).
        edestruct (fanout_evolves) as (c2 & H2 & He2 & Hco2);
          [rewrite lookup_insert_ne by exact Hne; exact Hk
          | apply (wf_coherent _ _ _ Hwf Hk) |].
        edestruct (fanout_evolves) as (c3 & H3 & He3 & _); [exact H2 | exact Hco2 |].
        exists c3. split; [exact H3 | eapply evolves_trans; eassumption].
      * intros k c' Hk Hk'.
        apply fanout_evolves_inv in Hk' as (c2 & Hk' & He2).
        apply fanout_evolves_inv in Hk' as (c3 & Hk' & He3).
        rewrite lookup_insert in Hk'. case_decide as Hkk; [| congruence].
        injection Hk' as <-. eexists (room_key roomID), _, _, _.
        split; [reflexivity |]. split; [now symmetry |].
        eapply evolves_trans; eassumption.
    + destruct (handleWebSocket_refused roomID userID σ) as (uid & σ0 & Hres & Hr).
      rewrite Hr in H. injection H as <- <-.
      destruct (resolve_userID_total userID σ)
        as (uid' & σ0' & Hres' & _ & _ & Hh1 & _).
      rewrite Hres in Hres'. injection Hres' as <- <-. cbn [heap log_Printf].
      rewrite Hh1. split.
      * intros k c Hk. exists c. split; [exact Hk | apply evolves_refl].
      * intros k c' Hk Hk'. congruence. }
  destruct e as [roomID userID ok | j f | j u | j | j ok | q | q roomID ok];
    [ destruct ok; exact (Hconnect _ _ _ _ _ Hwf He) | | | |
    | destruct (exec_EvDraw _ _ _ He) as (b & seed & _ & _ & ->);
      split; [| intros; cbn in *; congruence];
      intros k c Hk; exists c; split; [exact Hk | apply evolves_refl]
    | destruct (exec_EvAccept _ _ _ _ _ He) as (uid & σ1 & _ & _ & He' & ->);
      destruct ok; exact (Hconnect _ _ _ _ _ Hwf He') ];
    cbn [exec] in He.
  - destruct (reading j σ); [| discriminate]. unfold handle_frame in He.
    destruct (Unmarshal_Message f) as [m |].
    + destruct (route_heap _ _ _ _ Hwf He) as [-> | (msg & T & ->)].
      * split; [| intros; congruence].
        intros k c Hk. exists c. split; [exact Hk | apply evolves_refl].
      * split.
        -- intros k c Hk.
           destruct (fanout_evolves msg T _ _ _ Hk (wf_coherent _ _ _ Hwf Hk))
             as (c' & H1 & H2 & _). eauto.
        -- intros k c' Hk Hk'. apply fanout_evolves_inv in Hk' as (c & Hc & _).
           congruence.
    + injection He as <-. split; [| intros; cbn in *; congruence].
      intros k c Hk. exists c. split; [exact Hk | apply evolves_refl].
  - destruct (reading j σ); [| discriminate].
    assert (He0 : ∃ σ0, heap σ0 = heap σ ∧ teardown_close j σ0 = Some σ').
    { destruct u; eexists; (split; [| exact He]); reflexivity. }
    clear He. destruct He0 as (σ0 & Hh & He). unfold teardown_close in He.
    rewrite Hh in He.
    destruct (heap σ !! j) as [cj |] eqn:Hj; [| discriminate].
    cbn [mbind option_bind] in He.
    destruct (chan_close (cl_Send cj)) as [ch |] eqn:Hch; [| discriminate].
    cbn [mbind option_bind] in He. injection He as <-. cbn [heap set_heap].
    split.
    + intros k c Hk. rewrite lookup_insert. case_decide as Hjk.
      * subst k. rewrite Hj in Hk. injection Hk as <-.
        eexists. split; [reflexivity | now apply evolves_teardown_close].
      * exists c. split; [exact Hk | apply evolves_refl].
    + intros k c' Hk. rewrite lookup_insert. case_decide as Hjk; congruence.
  - destruct (leaving j σ); [| discriminate].
    destruct (teardown_leave_heap _ _ _ Hwf He)
      as (cj & msg1 & T1 & msg2 & T2 & Hj & ->).
    split.
    + intros k c Hk.
      assert (∃ c1, <[j := set_cl_Conn (Conn_Close (cl_Conn cj)) cj]> (heap σ) !! k
                    = Some c1 ∧ evolves c c1
                    ∧ cl_closed c1 = ch_closed (cl_Send c1)) as (c1 & H1 & He1 & Hco1).
      { rewrite lookup_insert. case_decide as Hjk.
        - subst k. rewrite Hj in Hk. injection Hk as <-. eexists.
          split; [reflexivity |]. split; [apply evolves_Conn_Close |].
          cbn. apply (wf_coherent _ _ _ Hwf Hj).
        - exists c. split; [exact Hk |]. split; [apply evolves_refl |].
          apply (wf_coherent _ _ _ Hwf Hk). }
      destruct (fanout_evolves msg1 T1 _ _ _ H1 Hco1) as (c2 & H2 & He2 & Hco2).
      destruct (fanout_evolves msg2 T2 _ _ _ H2 Hco2) as (c3 & H3 & He3 & _).
      exists c3. split; [exact H3 |].
      eapply evolves_trans; [exact He1 |]. eapply evolves_trans; eassumption.
    + intros k c' Hk Hk'.
      apply fanout_evolves_inv in Hk' as (c2 & Hk' & _).
      apply fanout_evolves_inv in Hk' as (c3 & Hk' & _).
      rewrite lookup_insert in Hk'. case_decide; congruence.
  - unfold writePump_step in He.
    destruct (heap σ !! j) as [cj |] eqn:Hj; [| discriminate].
    cbn [mbind option_bind] in He.
    destruct (chan_recv (cl_Send cj)) as [msg ch | |] eqn:Hrecv; injection He as <-;
      cbn [heap set_heap].
    + split.
      * intros k c Hk. rewrite lookup_insert. case_decide as Hjk.
        -- subst k. rewrite Hj in Hk. injection Hk as <-. eexists.
           split; [reflexivity | now apply evolves_writePump_step].
        -- exists c. split; [exact Hk | apply evolves_refl].
      * intros k c' Hk. rewrite lookup_insert. case_decide; congruence.
    + split.
      * intros k c Hk. rewrite lookup_insert. case_decide as Hjk.
        -- subst k. rewrite Hj in Hk. injection Hk as <-. eexists.
           split; [reflexivity | apply evolves_Conn_Close].
        -- exists c. split; [exact Hk | apply evolves_refl].
      * intros k c' Hk. rewrite lookup_insert. case_decide; congruence.
    + split; [| intros; congruence].
      intros k c Hk. exists c. split; [exact Hk | apply evolves_refl].
Qed.

End Events.

Section RoomSteps.

Implicit Types (σ : State) (c : Client) (r : Room) (e : event) (h : gmap loc Client).

Lemma rooms_step_same e σ σ' rid :
  Rooms σ' = Rooms σ →
  match Rooms σ !! rid with
  | Some r => ∃ r', Rooms σ' !! rid = Some r' ∧ room_step σ e rid r r'
  | None =>
      Rooms σ' !! rid = None
      ∨ (joins e = Some rid
         ∧ Rooms σ' !! rid = Some (AddClient (fresh (dom (heap σ))) (new_Room rid)))
  end.
Proof.
  intros ->. destruct (Rooms σ !! rid) as [r |] eqn:Hr; [| now left].
  exists r. split; [reflexivity | constructor].
Qed.

Lemma rooms_step_update e σ σ' rid0 r0 r0' rid :
  Rooms σ !! rid0 = Some r0 → Rooms σ' = <[rid0 := r0']> (Rooms σ) →
  room_step σ e rid0 r0 r0' →
  match Rooms σ !! rid with
  | Some r => ∃ r', Rooms σ' !! rid = Some r' ∧ room_step σ e rid r r'
  | None =>
      Rooms σ' !! rid = None
      ∨ (joins e = Some rid
         ∧ Rooms σ' !! rid = Some (AddClient (fresh (dom (heap σ))) (new_Room rid)))
  end.
Proof.
  intros Hr0 -> Hstep. destruct (decide (rid0 = rid)) as [<- | Hne].
  - rewrite Hr0. exists r0'. split; [apply lookup_insert_eq | exact Hstep].
  - rewrite lookup_insert_ne by exact Hne.
    destruct (Rooms σ !! rid) as [r |] eqn:Hr; [| now left].
    exists r. split; [reflexivity | constructor].
Qed.

(** What one event does to the rooms of the hub: a room that exists takes
    one [room_step], and the only new room is the one an accepted
    connection asks for. *)
Lemma exec_rooms e σ σ' rid :
  wf σ → exec e σ = Some σ' →
  match Rooms σ !! rid with
  | Some r => ∃ r', Rooms σ' !! rid = Some r' ∧ room_step σ e rid r r'
  | None =>
      Rooms σ' !! rid = None
      ∨ (joins e = Some rid
         ∧ Rooms σ' !! rid = Some (AddClient (fresh (dom (heap σ))) (new_Room rid)))
  end.
Proof.
  intros Hwf He.
  assert (Hconnect : ∀ (e0 : event) (roomID userID : string) (ok : bool) σ σ',
    joins e0 = (if ok then Some (room_key roomID) else None) →
    wf σ → exec (EvConnect roomID userID ok) σ = Some σ' →
    match Rooms σ !! rid with
    | Some r => ∃ r', Rooms σ' !! rid = Some r' ∧ room_step σ e0 rid r r'
    | None =>
        Rooms σ' !! rid = None
        ∨ (joins e0 = Some rid
           ∧ Rooms σ' !! rid = Some (AddClient (fresh (dom (heap σ))) (new_Room rid)))
    end).
  { clear Hwf He σ σ' e. intros e roomID userID ok σ σ' Hjoins Hwf He.
    cbn [exec] in He.
    destruct (handleWebSocket roomID userID ok σ) as [[res σ1] |] eqn:H;
      [| discriminate].
    cbn in He. injection He as <-. destruct ok.
    + destruct (handleWebSocket_color _ _ _ _ H) as (color & ci & Hcol).
      destruct (handleWebSocket_state roomID userID σ color ci Hwf Hcol)
        as (uid & σ0 & Hres & Hfresh & Hnotin & Hj).
      rewrite Hj in H. injection H as <- <-.
      destruct (Rooms σ !! room_key roomID) as [r0 |] eqn:Hr0.
      * apply (rooms_step_update _ _ _ (room_key roomID) r0
                 (AddClient (fresh (dom (heap σ))) r0)); [exact Hr0 | |].
        -- cbn [Rooms]. unfold room_of. now rewrite Hr0.
        -- now apply step_join.
      * cbn [Rooms]. unfold room_of. rewrite Hr0. cbn [default].
        destruct (decide (room_key roomID = rid)) as [<- | Hne].
        -- rewrite Hr0. right.
           split; [exact Hjoins | apply lookup_insert_eq].
        -- rewrite lookup_insert_ne by exact Hne.
           destruct (Rooms σ !! rid) as [r |] eqn:Hr; [| now left].
           exists r. split; [reflexivity | constructor].
    + destruct (handleWebSocket_refused roomID userID σ) as (uid & σ0 & Hres & Hr).
      rewrite Hr in H. injection H as <- <-.
      destruct (resolve_userID_total userID σ)
        as (uid' & σ0' & Hres' & _ & HR1 & _).
      rewrite Hres in Hres'. injection Hres' as <- <-.
      apply rooms_step_same. exact HR1. }
  destruct e as [roomID userID ok | j f | j u | j | j ok | q | q roomID ok];
    [ apply (Hconnect _ roomID userID ok σ); [now destruct ok | exact Hwf | exact He]
    | | | |
    | destruct (exec_EvDraw _ _ _ He) as (b & seed & _ & _ & ->);
      now apply rooms_step_same
    | destruct (exec_EvAccept _ _ _ _ _ He) as (uid & σ1 & _ & _ & He' & ->);
      exact (Hconnect (EvAccept q roomID ok) roomID uid ok _ _
               ltac:(now destruct ok) Hwf He') ];
    cbn [exec] in He.
  - destruct (reading j σ) eqn:Hread; [| discriminate]. unfold handle_frame in He.
    destruct (Unmarshal_Message f) as [m |] eqn:Hm;
      [| injection He as <-; now apply rooms_step_same].
    destruct (heap σ !! j) as [c |] eqn:Hc;
      [| unfold route in He; rewrite Hc in He; discriminate].
    destruct (wf_room _ Hwf _ _ Hc) as [r0 Hr0].
    destruct (String.eqb_spec (msg_Type m) TypeDraw) as [Hd | Hd].
    { destruct (Unmarshal_DrawElement (Marshal_data (msg_Data m))) as [el |] eqn:Hel.
      - rewrite (route_draw_stored _ _ _ _ _ _ Hwf Hc Hr0 Hd Hel) in He.
        injection He as <-.
        apply (rooms_step_update _ _ _ (cl_Room c) r0
                 (AddElement (set_el_UserID (cl_ID c) el) r0));
          [exact Hr0 | reflexivity |].
        apply (step_draw _ _ _ _ j f c el); try reflexivity; try assumption.
        unfold appends. rewrite Hc, Hm, Hel, Hd, String.eqb_refl. reflexivity.
      - rewrite (route_draw_raw _ _ _ _ _ Hwf Hc Hr0 Hd Hel) in He.
        injection He as <-. now apply rooms_step_same. }
    destruct (String.eqb_spec (msg_Type m) TypeCursor) as [Hcu | Hcu].
    { rewrite (route_cursor _ _ _ _ _ Hwf Hc Hr0 Hcu) in He.
      injection He as <-. now apply rooms_step_same. }
    destruct (String.eqb_spec (msg_Type m) TypeClear) as [Hcl | Hcl].
    { rewrite (route_clear _ _ _ _ _ Hwf Hc Hr0 Hcl) in He.
      injection He as <-.
      apply (rooms_step_update _ _ _ (cl_Room c) r0 (ClearElements r0));
        [exact Hr0 | reflexivity |].
      apply (step_clear _ _ _ _ j f c); try reflexivity; try assumption.
      cbn. rewrite Hm, Hcl. reflexivity. }
    rewrite (route_other _ _ _ _ Hc Hd Hcu Hcl) in He.
    injection He as <-. now apply rooms_step_same.
  - destruct (reading j σ); [| discriminate]. apply rooms_step_same.
    unfold teardown_close in He.
    destruct u; cbn [heap log_Printf] in He;
      (destruct (heap σ !! j) as [cj |]; [| discriminate];
       cbn [mbind option_bind] in He;
       destruct (chan_close _); [| discriminate]; cbn in He; now injection He as <-).
  - destruct (leaving j σ); [| discriminate].
    destruct (teardown_leave_rooms _ _ _ He) as (cj & r0 & Hj & Hr0 & HR).
    apply (rooms_step_update _ _ _ (cl_Room cj) r0 (RemoveClient j r0));
      [exact Hr0 | exact HR |].
    now apply (step_leave _ _ _ _ j cj).
  - apply rooms_step_same. unfold writePump_step in He.
    destruct (heap σ !! j) as [cj |]; [| discriminate].
    cbn [mbind option_bind] in He.
    destruct (chan_recv _); now injection He as <-.
Qed.

Lemma room_step_ID σ e rid r r' : room_step σ e rid r r' → room_ID r' = room_ID r.
Proof. now intros []. Qed.

End RoomSteps.

(* ===================================================================== *)
(** ** Invariants of the reachable states *)
(* ===================================================================== *)

Section RunInvariants.

Implicit Types (σ : State) (c : Client) (r : Room) (e : event) (h : gmap loc Client).

Lemma run_invariant (I : State → Prop) :
  (∀ e σ σ', wf σ → I σ → exec e σ = Some σ' → I σ') →
  ∀ es σ σ', wf σ → I σ → run es σ = Some σ' → I σ'.
Proof.
  intros Hstep. induction es as [| e es IH]; intros σ σ' Hwf HI; cbn [run].
  - now intros [= <-].
  - destruct (exec e σ) as [σ1 |] eqn:He; [| discriminate]. cbn.
    apply IH; [eapply exec_wf | eapply Hstep]; eassumption.
Qed.

Lemma reachable_invariant (I : State → Prop) :
  I init → (∀ e σ σ', wf σ → I σ → exec e σ = Some σ' → I σ') →
  ∀ σ, reachable σ → I σ.
Proof.
  intros Hinit Hstep σ [es Hes].
  apply (run_invariant I Hstep es init σ wf_init Hinit Hes).
Qed.

(** The client of an accepted connection belongs to the room asked for. *)
Lemma exec_joiner e rid σ σ' :
  wf σ → joins e = Some rid → exec e σ = Some σ' →
  ∃ c', heap σ' !! fresh (dom (heap σ)) = Some c' ∧ cl_Room c' = rid
        ∧ (length (ch_buf (cl_Send c')) ≤ ch_cap (cl_Send c'))%nat.
Proof.
  intros Hwf Hjoins He.
  assert (Hfresh : heap σ !! fresh (dom (heap σ)) = None)
    by apply not_elem_of_dom, is_fresh.
  assert (Hconnect : ∀ (roomID userID : string) σ σ',
             wf σ → exec (EvConnect roomID userID true) σ = Some σ' →
             ∃ r', Rooms σ' !! room_key roomID = Some r'
                   ∧ fresh (dom (heap σ)) ∈ room_Clients r').
  { clear. intros roomID userID σ σ' Hwf He. cbn [exec] in He.
    destruct (handleWebSocket roomID userID true σ) as [[res σ1] |] eqn:H;
      [| discriminate].
    cbn in He. injection He as <-.
    destruct (handleWebSocket_color _ _ _ _ H) as (color & ci & Hcol).
    destruct (handleWebSocket_state roomID userID σ color ci Hwf Hcol)
      as (uid & σ0 & Hres & _ & _ & Hj).
    rewrite Hj in H. injection H as <- <-. cbn [Rooms].
    rewrite lookup_insert_eq. eexists. split; [reflexivity |]. cbn. set_solver. }
  assert (∃ r', Rooms σ' !! rid = Some r'
                ∧ fresh (dom (heap σ)) ∈ room_Clients r') as (r' & Hr' & Hin).
  { destruct e as [roomID userID [] | | | | | | q roomID []]; try discriminate;
      injection Hjoins as <-.
    - exact (Hconnect _ _ _ _ Hwf He).
    - destruct (exec_EvAccept _ _ _ _ _ He) as (uid & σ1 & _ & _ & He' & ->).
      exact (Hconnect _ _ _ _ Hwf He'). }
  destruct (wf_member _ (exec_wf _ _ _ Hwf He) _ _ _ Hr' Hin) as [c' Hc'].
  destruct (exec_clients _ _ _ Hwf He) as [_ Hnew].
  destruct (Hnew _ _ Hfresh Hc') as (rid0 & uid & color & sync & Heq & _ & Hev).
  rewrite Hjoins in Heq. injection Heq as <-. exists c'. split; [exact Hc' |].
  destruct Hev as [_ E2 _ E4 E5 _ _ _]. cbn in *. split; [exact E2 |].
  rewrite E4. apply E5. lia.
Qed.

Lemma exec_members_own_room e σ σ' :
  wf σ → members_own_room σ → exec e σ = Some σ' → members_own_room σ'.
Proof.
  intros Hwf Hinv He rid r' k Hr' Hk.
  destruct (exec_clients _ _ _ Hwf He) as [Hold _].
  assert (Hkeep : ∀ r, Rooms σ !! rid = Some r → k ∈ room_Clients r →
                       ∃ c, heap σ' !! k = Some c ∧ cl_Room c = rid).
  { intros r Hr Hin. destruct (Hinv _ _ _ Hr Hin) as (c & Hc & Hroom).
    destruct (Hold _ _ Hc) as (c' & Hc' & Hev).
    exists c'. split; [exact Hc' |]. now rewrite (ev_Room _ _ Hev). }
  assert (Hjoin : joins e = Some rid →
                  ∃ c, heap σ' !! fresh (dom (heap σ)) = Some c ∧ cl_Room c = rid).
  { intros Hjoins.
    destruct (exec_joiner _ _ _ _ Hwf Hjoins He) as (c' & Hc' & Hroom & _). eauto. }
  pose proof (exec_rooms _ _ _ rid Hwf He) as Hrooms.
  destruct (Rooms σ !! rid) as [r |] eqn:Hr.
  - destruct Hrooms as (r'' & Hr'' & Hstep).
    rewrite Hr' in Hr''. injection Hr'' as <-.
    inversion Hstep as [| E1 | j cj E1 E2 E3
                        | j f cj el E1 E2 E3 E5 | j f cj E1 E2 E3 E4]; subst r'.
    + now apply (Hkeep r).
    + cbn in Hk. apply elem_of_union in Hk as [Hk | Hk].
      * apply elem_of_singleton in Hk as ->. now apply Hjoin.
      * now apply (Hkeep r).
    + cbn in Hk. apply (Hkeep r); [reflexivity | set_solver].
    + now apply (Hkeep r).
    + now apply (Hkeep r).
  - destruct Hrooms as [Hnone | (E1 & Hnew)]; [congruence |].
    rewrite Hr' in Hnew. injection Hnew as ->. cbn in Hk.
    apply elem_of_union in Hk as [Hk | Hk]; [| set_solver].
    apply elem_of_singleton in Hk as ->. now apply Hjoin.
Qed.

Lemma reachable_members_own_room σ : reachable σ → members_own_room σ.
Proof.
  apply (reachable_invariant members_own_room).
  - intros rid r k Hr. cbn in Hr. rewrite lookup_empty in Hr. discriminate.
  - apply exec_members_own_room.
Qed.

Lemma exec_rooms_named e σ σ' :
  wf σ → rooms_named σ → exec e σ = Some σ' → rooms_named σ'.
Proof.
  intros Hwf Hinv He rid r' Hr'.
  pose proof (exec_rooms _ _ _ rid Hwf He) as Hrooms.
  destruct (Rooms σ !! rid) as [r |] eqn:Hr.
  - destruct Hrooms as (r'' & Hr'' & Hstep).
    rewrite Hr' in Hr''. injection Hr'' as <-.
    rewrite (room_step_ID _ _ _ _ _ Hstep). now apply Hinv.
  - destruct Hrooms as [Hnone | (E1 & Hnew)]; [congruence |].
    rewrite Hr' in Hnew. now injection Hnew as ->.
Qed.

Lemma reachable_rooms_named σ : reachable σ → rooms_named σ.
Proof.
  apply (reachable_invariant rooms_named).
  - intros rid r Hr. cbn in Hr. rewrite lookup_empty in Hr. discriminate.
  - apply exec_rooms_named.
Qed.

Lemma exec_queues_bounded e σ σ' :
  wf σ → queues_bounded σ → exec e σ = Some σ' → queues_bounded σ'.
Proof.
  intros Hwf Hinv He k c' Hc'.
  destruct (exec_clients _ _ _ Hwf He) as [Hold Hnew].
  destruct (heap σ !! k) as [c |] eqn:Hc.
  - destruct (Hold _ _ Hc) as (c'' & Hc'' & Hev).
    rewrite Hc' in Hc''. injection Hc'' as <-.
    rewrite (ev_cap _ _ Hev). apply (ev_bound _ _ Hev). now apply (Hinv k).
  - destruct (Hnew _ _ Hc Hc') as (rid & uid & color & sync & _ & _ & Hev).
    rewrite (ev_cap _ _ Hev). apply (ev_bound _ _ Hev). cbn. lia.
Qed.

Lemma reachable_queues_bounded σ : reachable σ → queues_bounded σ.
Proof.
  apply (reachable_invariant queues_bounded).
  - intros k c Hc. cbn in Hc. rewrite lookup_empty in Hc. discriminate.
  - apply exec_queues_bounded.
Qed.

Lemma exec_elements_attributed e σ σ' :
  wf σ → elements_attributed σ → exec e σ = Some σ' → elements_attributed σ'.
Proof.
  intros Hwf Hinv He rid r' el Hr' Hel.
  destruct (exec_clients _ _ _ Hwf He) as [Hold _].
  assert (Hsender : ∀ k c, heap σ !! k = Some c → cl_Room c = rid →
                           cl_ID c = el_UserID el →
                           ∃ k c, heap σ' !! k = Some c ∧ cl_Room c = rid
                                  ∧ cl_ID c = el_UserID el).
  { intros k c Hc Hroom Hid. destruct (Hold _ _ Hc) as (c' & Hc' & Hev).
    exists k, c'. split; [exact Hc' |].
    now rewrite (ev_Room _ _ Hev), (ev_ID _ _ Hev). }
  assert (Hkeep : ∀ r, Rooms σ !! rid = Some r → el ∈ room_Elements r →
                       ∃ k c, heap σ' !! k = Some c ∧ cl_Room c = rid
                              ∧ cl_ID c = el_UserID el).
  { intros r Hr Hin. destruct (Hinv _ _ _ Hr Hin) as (k & c & Hc & Hroom & Hid).
    now apply (Hsender k c). }
  pose proof (exec_rooms _ _ _ rid Hwf He) as Hrooms.
  destruct (Rooms σ !! rid) as [r |] eqn:Hr.
  - destruct Hrooms as (r'' & Hr'' & Hstep).
    rewrite Hr' in Hr''. injection Hr'' as <-.
    inversion Hstep as [| E1 | j cj E1 E2 E3
                        | j f cj el0 E1 E2 E3 E5 | j f cj E1 E2 E3 E4]; subst r'.
    + now apply (Hkeep r).
    + now apply (Hkeep r).
    + now apply (Hkeep r).
    + cbn in Hel. apply elem_of_app in Hel as [Hel | Hel].
      * now apply (Hkeep r).
      * apply list_elem_of_singleton in Hel as ->. now apply (Hsender j cj).
    + cbn in Hel. now apply elem_of_nil in Hel.
  - destruct Hrooms as [Hnone | (E1 & Hnew)]; [congruence |].
    rewrite Hr' in Hnew. injection Hnew as ->. cbn in Hel.
    now apply elem_of_nil in Hel.
Qed.

Lemma reachable_elements_attributed σ : reachable σ → elements_attributed σ.
Proof.
  apply (reachable_invariant elements_attributed).
  - intros rid r el Hr. cbn in Hr. rewrite lookup_empty in Hr. discriminate.
  - apply exec_elements_attributed.
Qed.

Lemma run_evolves es σ σ' k c :
  wf σ → run es σ = Some σ' → heap σ !! k = Some c →
  ∃ c', heap σ' !! k = Some c' ∧ evolves c c'.
Proof.
  revert σ c. induction es as [| e es IH]; intros σ c Hwf Hrun Hk; cbn [run] in Hrun.
  - injection Hrun as <-. exists c. split; [exact Hk | apply evolves_refl].
  - destruct (exec e σ) as [σ1 |] eqn:He; [| discriminate]. cbn in Hrun.
    destruct (exec_clients _ _ _ Hwf He) as [Hold _].
    destruct (Hold _ _ Hk) as (c1 & Hk1 & Hev1).
    destruct (IH σ1 c1 (exec_wf _ _ _ Hwf He) Hrun Hk1) as (c' & Hk' & Hev').
    exists c'. split; [exact Hk' | eapply evolves_trans; eassumption].
Qed.

(** A room is never removed from the hub, and without a clear message its
    log only grows at its end. *)
Lemma run_log_grows es σ σ' rid r :
  wf σ → run es σ = Some σ' → Rooms σ !! rid = Some r →
  ∃ r', Rooms σ' !! rid = Some r' ∧ room_ID r' = room_ID r
        ∧ (forallb (λ e, negb (clears e)) es = true →
           room_Elements r `prefix_of` room_Elements r').
Proof.
  revert σ r. induction es as [| e es IH]; intros σ r Hwf Hrun Hr; cbn [run] in Hrun.
  - injection Hrun as <-. exists r. split; [exact Hr |]. split; reflexivity.
  - destruct (exec e σ) as [σ1 |] eqn:He; [| discriminate]. cbn in Hrun.
    pose proof (exec_rooms _ _ _ rid Hwf He) as Hrooms. rewrite Hr in Hrooms.
    destruct Hrooms as (r1 & Hr1 & Hstep).
    destruct (IH σ1 r1 (exec_wf _ _ _ Hwf He) Hrun Hr1) as (r' & Hr' & Hid & Hpre).
    exists r'. split; [exact Hr' |].
    split; [now rewrite Hid, (room_step_ID _ _ _ _ _ Hstep) |].
    intros Hno. cbn in Hno. apply andb_true_iff in Hno as [Hne Hno].
    etransitivity; [| exact (Hpre Hno)].
    inversion Hstep as [| E1 | j cj E1 E2 E3
                        | j f cj el0 E1 E2 E3 E5 | j f cj E1 E2 E3 E4]; subst r1;
      cbn; try reflexivity.
    + now apply prefix_app_r.
    + rewrite E4 in Hne. discriminate.
Qed.

(** One turn of the read pump in closed form: a fan-out to members of the
    room of the client and an update of that room, nothing else. *)
Lemma handle_frame_shape k c r f σ :
  wf σ → heap σ !! k = Some c → Rooms σ !! cl_Room c = Some r →
  ∃ σ', handle_frame k f σ = Some σ'
        ∧ (heap σ' = heap σ
           ∨ ∃ msg targets, targets ⊆ room_Clients r
                            ∧ heap σ' = fanout msg targets (heap σ))
        ∧ (Rooms σ' = Rooms σ ∨ ∃ r', Rooms σ' = <[cl_Room c := r']> (Rooms σ))
        ∧ colorIndex σ' = colorIndex σ ∧ randSeed σ' = randSeed σ.
Proof.
  intros Hwf Hc Hr. unfold handle_frame.
  destruct (Unmarshal_Message f) as [m |];
    [| eexists; split; [reflexivity |]; cbn; auto].
  destruct (String.eqb_spec (msg_Type m) TypeDraw) as [Hd | Hd].
  { destruct (Unmarshal_DrawElement (Marshal_data (msg_Data m))) as [el |] eqn:Hel.
    - rewrite (route_draw_stored _ _ _ _ _ _ Hwf Hc Hr Hd Hel).
      eexists. split; [reflexivity |]. cbn. split; [| eauto].
      right. eexists _, _. split; [| reflexivity]. set_solver.
    - rewrite (route_draw_raw _ _ _ _ _ Hwf Hc Hr Hd Hel).
      eexists. split; [reflexivity |]. cbn. split; [| eauto].
      right. eexists _, _. split; [| reflexivity]. set_solver. }
  destruct (String.eqb_spec (msg_Type m) TypeCursor) as [Hcu | Hcu].
  { rewrite (route_cursor _ _ _ _ _ Hwf Hc Hr Hcu).
    eexists. split; [reflexivity |]. cbn. split; [| eauto].
    right. eexists _, _. split; [| reflexivity]. set_solver. }
  destruct (String.eqb_spec (msg_Type m) TypeClear) as [Hcl | Hcl].
  { rewrite (route_clear _ _ _ _ _ Hwf Hc Hr Hcl).
    eexists. split; [reflexivity |]. cbn. split; [| eauto].
    right. eexists _, _. split; [| reflexivity]. set_solver. }
  rewrite (route_other _ _ _ _ Hc Hd Hcu Hcl).
  eexists. split; [reflexivity |]. auto.
Qed.

End RunInvariants.

Lemma sketched_reachable : reachable sketched.
Proof.
  exists [EvConnect "abc123" "A" true; EvConnect "abc123" "B" true;
          EvFrame 0%nat draw_frame].
  vm_compute. reflexivity.
Qed.

Lemma closing_reachable : reachable closing.
Proof.
  exists [EvConnect "abc123" "A" true; EvConnect "abc123" "B" true;
          EvReadError 1%nat false].
  vm_compute. reflexivity.
Qed.

(** X7: in every reachable state the [Send] channel of every client has
    capacity 256 and holds at most 256 payloads. *)
Theorem queue_never_exceeds_capacity σ k c :
  reachable σ → heap σ !! k = Some c →
  ch_cap (cl_Send c) = 256%nat ∧ (length (ch_buf (cl_Send c)) ≤ 256)%nat.
Proof.
  intros Hreach Hc.
  pose proof (ok_cap _ (wf_client _ (reachable_wf _ Hreach) _ _ Hc)) as Hcap.
  split; [exact Hcap |]. rewrite <- Hcap.
  now apply (reachable_queues_bounded _ Hreach k).
Qed.

Lemma queue_never_exceeds_capacity_witness :
  ∃ c, heap crowded !! 1%nat = Some c
       ∧ length (ch_buf (cl_Send c)) = 256%nat
       ∧ (length (ch_buf (cl_Send c)) ≤ 256)%nat.
Proof.
  eexists. split; [vm_compute; reflexivity |]. split; [vm_compute; reflexivity |].
  eapply proj2, (queue_never_exceeds_capacity crowded 1%nat).
  - exact crowded_reachable.
  - vm_compute. reflexivity.
Defined.

(** X8: once a client object is made, the server never changes its id,
    its room or its colour and never frees it; what has been written to its
    socket stays written, a closed socket is never written again and the
    [closed] flag is never reset. *)
Theorem client_identity_is_fixed es σ σ' k c :
  reachable σ → run es σ = Some σ' → heap σ !! k = Some c →
  ∃ c', heap σ' !! k = Some c'
        ∧ cl_ID c' = cl_ID c ∧ cl_Room c' = cl_Room c ∧ cl_Color c' = cl_Color c
        ∧ conn_written (cl_Conn c) `prefix_of` conn_written (cl_Conn c')
        ∧ (conn_closed (cl_Conn c) = true → cl_Conn c' = cl_Conn c)
        ∧ (cl_closed c = true → cl_closed c' = true).
Proof.
  intros Hreach Hrun Hc.
  destruct (run_evolves _ _ _ _ _ (reachable_wf _ Hreach) Hrun Hc) as (c' & Hc' & Hev).
  exists c'. split; [exact Hc' |]. destruct Hev. auto 10.
Qed.

Lemma client_identity_is_fixed_witness :
  ∃ c', heap sketched !! 1%nat = Some c' ∧ cl_ID c' = "B" ∧ cl_Room c' = "abc123".
Proof.
  edestruct client_identity_is_fixed
    with (es := [EvFrame 0%nat draw_frame]) (σ := two_members) (k := 1%nat)
    as (c' & Hc' & Hid & Hroom & _).
  - exact two_members_reachable.
  - vm_compute. reflexivity.
  - vm_compute. reflexivity.
  - exists c'. split; [| split].
    + rewrite <- Hc'. vm_compute. reflexivity.
    + exact Hid.
    + exact Hroom.
Defined.

(** X10: handling an inbound frame of a connection never panics and
    touches nothing outside the room of that connection: the other rooms,
    the clients of the other rooms, the colour counter and the seed are
    left as they are. *)
Theorem a_frame_stays_in_its_room σ k c f :
  reachable σ → heap σ !! k = Some c →
  ∃ σ', handle_frame k f σ = Some σ'
        ∧ (∀ rid, rid ≠ cl_Room c → Rooms σ' !! rid = Rooms σ !! rid)
        ∧ (∀ j cj, heap σ !! j = Some cj → cl_Room cj ≠ cl_Room c →
                   heap σ' !! j = Some cj)
        ∧ colorIndex σ' = colorIndex σ ∧ randSeed σ' = randSeed σ.
Proof.
  intros Hreach Hc. pose proof (reachable_wf _ Hreach) as Hwf.
  destruct (wf_room _ Hwf _ _ Hc) as [r Hr].
  destruct (handle_frame_shape k c r f σ Hwf Hc Hr)
    as (σ' & H & Hheap & Hrooms & Hci & Hseed).
  exists σ'. split; [exact H |]. split; [| split; [| auto]].
  - intros rid Hne. destruct Hrooms as [-> | (r' & ->)]; [reflexivity |].
    now rewrite lookup_insert_ne.
  - intros j cj Hj Hne. destruct Hheap as [-> | (msg & T & Hsub & ->)]; [exact Hj |].
    rewrite lookup_fanout_outside; [exact Hj |].
    intros Hin. apply Hne.
    destruct (reachable_members_own_room _ Hreach _ _ j Hr (Hsub _ Hin))
      as (cj' & Hj' & Hroom).
    congruence.
Qed.

Lemma two_rooms_reachable : reachable two_rooms.
Proof.
  exists [EvConnect "abc123" "A" true; EvConnect "abc123" "B" true;
          EvConnect "xyz789" "C" true].
  vm_compute. reflexivity.
Qed.

Lemma a_frame_stays_in_its_room_witness :
  ∃ σ', handle_frame 0%nat draw_frame two_rooms = Some σ'
        ∧ Rooms σ' !! "xyz789" = Rooms two_rooms !! "xyz789"
        ∧ heap σ' !! 2%nat = heap two_rooms !! 2%nat.
Proof.
  edestruct a_frame_stays_in_its_room
    with (σ := two_rooms) (k := 0%nat) (f := draw_frame) as (σ' & H & HR & Hh & _).
  - exact two_rooms_reachable.
  - vm_compute. reflexivity.
  - exists σ'. split; [exact H |]. split.
    + apply HR. vm_compute. discriminate.
    + erewrite Hh; [symmetry | |]; [vm_compute; reflexivity .. |].
      vm_compute. discriminate.
Defined.

(** X11: a room is never removed from the hub (not even when its last
    member has left), and along a run in which no clear message is handled
    its element log only grows at its end: nothing is dropped, changed or
    reordered by joins, leaves, draws or cursor moves. *)
Theorem log_is_append_only es σ σ' rid r :
  reachable σ → run es σ = Some σ' → Rooms σ !! rid = Some r →
  ∃ r', Rooms σ' !! rid = Some r' ∧ room_ID r' = room_ID r
        ∧ (forallb (λ e, negb (clears e)) es = true →
           room_Elements r `prefix_of` room_Elements r').
Proof.
  intros Hreach Hrun Hr.
  exact (run_log_grows es σ σ' rid r (reachable_wf _ Hreach) Hrun Hr).
Qed.

Lemma log_is_append_only_witness :
  ∃ σ' r',
    run [EvReadError 0%nat false; EvLeave 0%nat; EvReadError 1%nat true; EvLeave 1%nat;
         EvConnect "abc123" "C" true; EvFrame 2%nat draw_frame] sketched = Some σ'
    ∧ Rooms σ' !! "abc123" = Some r'
    ∧ (room_Elements <$> Rooms sketched !! "abc123") = Some (take 1 (room_Elements r')).
Proof.
  edestruct log_is_append_only
    with (es := [EvReadError 0%nat false; EvLeave 0%nat; EvReadError 1%nat true;
                 EvLeave 1%nat; EvConnect "abc123" "C" true; EvFrame 2%nat draw_frame])
         (σ := sketched) (rid := "abc123") as (r' & Hr' & _ & Hpre).
  - exact sketched_reachable.
  - vm_compute. reflexivity.
  - vm_compute. reflexivity.
  - eexists _, r'. split; [vm_compute; reflexivity |]. split; [exact Hr' |].
    destruct Hpre as [tail Htail]; [vm_compute; reflexivity |].
    rewrite Htail. vm_compute. reflexivity.
Defined.

(** X12: every element in the log of a room carries a user id that is
    not empty and is the id of a connection that joined that room. *)
Theorem stored_elements_carry_a_member_id σ rid r element :
  reachable σ → Rooms σ !! rid = Some r → element ∈ room_Elements r →
  el_UserID element ≠ ""
  ∧ ∃ k c, heap σ !! k = Some c ∧ cl_Room c = rid ∧ cl_ID c = el_UserID element.
Proof.
  intros Hreach Hr Hel.
  destruct (reachable_elements_attributed _ Hreach _ _ _ Hr Hel)
    as (k & c & Hc & Hroom & Hid).
  split; [| eauto]. rewrite <- Hid.
  apply (ok_id _ (wf_client _ (reachable_wf _ Hreach) _ _ Hc)).
Qed.

Lemma stored_elements_carry_a_member_id_witness :
  ∃ k c, heap sketched !! k = Some c ∧ cl_Room c = "abc123" ∧ cl_ID c = "A".
Proof.
  edestruct stored_elements_carry_a_member_id
    with (σ := sketched) (rid := "abc123")
         (element := mkDrawElement "e1" "line" 1%float 2%float 3%float 4%float
                       "#000000" 2%float "A") as (_ & k & c & Hc & Hroom & Hid).
  - exact sketched_reachable.
  - vm_compute. reflexivity.
  - vm_compute. apply list_elem_of_here.
  - exists k, c. auto.
Defined.

(* ===================================================================== *)
(** ** Joining and leaving, as the other members see them *)
(* ===================================================================== *)

Section Announcements.

Implicit Types (σ : State) (c : Client) (r : Room) (e : event) (h : gmap loc Client).

Lemma users_of_insert_outside l h k c :
  k ∉ l → users_of l (<[k := c]> h) = users_of l h.
Proof.
  intros Hk. unfold users_of. induction l as [| j l IH]; [reflexivity |].
  cbn. rewrite lookup_insert_ne by (intros ->; apply Hk; now left).
  rewrite IH; [reflexivity |]. intros Hin. apply Hk. now right.
Qed.

(** The deferred function of [readPump] in closed form. *)
Lemma teardown_state k c r σ :
  wf σ → heap σ !! k = Some c → cl_closed c = false →
  Rooms σ !! cl_Room c = Some r →
  let gone := set_cl_Conn (Conn_Close (cl_Conn c))
                (set_cl_Send (mkChan (ch_buf (cl_Send c)) (ch_cap (cl_Send c)) true)
                   (set_cl_closed true c)) in
  let users := users_of (elements (room_Clients r ∖ {[k]})) (heap σ) in
  teardown k σ
  = Some (mkState (<[cl_Room c := RemoveClient k r]> (Rooms σ))
            (fanout (Marshal (mkMessage TypeUserList "" (DUserList users)))
               (room_Clients r ∖ {[k]})
               (fanout (Marshal (mkMessage TypeLeave (cl_ID c) (DIface JNull)))
                  (room_Clients r ∖ {[k]}) (<[k := gone]> (heap σ))))
            (colorIndex σ) (randSeed σ)
            (logged σ ++ [LogLeft (cl_ID c) (cl_Room c)]) (drawn σ)).
Proof.
  intros Hwf Hc Hopen Hr gone users. unfold teardown.
  destruct (teardown_close k σ) as [σ1 |] eqn:H1.
  2:{ unfold teardown_close, chan_close in H1. rewrite Hc in H1. cbn in H1.
      rewrite <- (wf_coherent _ _ _ Hwf Hc), Hopen in H1. discriminate. }
  pose proof (wf_teardown_close _ _ _ Hwf H1) as Hwf1.
  unfold teardown_close, chan_close in H1. rewrite Hc in H1. cbn in H1.
  rewrite <- (wf_coherent _ _ _ Hwf Hc), Hopen in H1. cbn in H1. injection H1 as <-.
  cbn [mbind option_bind]. unfold teardown_leave. cbn [heap set_heap].
  rewrite lookup_insert_eq. cbn [mbind option_bind].
  unfold on_Room. cbn [cl_Room set_cl_Send set_cl_closed Rooms set_heap].
  rewrite Hr. cbn [mbind option_bind].
  set (c1 := set_cl_Send _ (set_cl_closed true c)) in *.
  set (σ1 := set_heap (<[k := c1]> (heap σ)) σ) in *.
  set (σ2 := set_heap _ (set_Rooms _ σ1)).
  assert (Hwf2 : wf σ2).
  { apply (wf_set_client _ _ (set_Rooms _ σ1)).
    - apply (wf_room_update (RemoveClient k) _ r σ1);
        [exact Hwf1 | exact Hr | cbn; set_solver].
    - destruct (wf_client _ Hwf _ _ Hc). split; cbn; auto.
    - cbn. rewrite lookup_insert_eq. eauto. }
  assert (Hr2 : Rooms σ2 !! cl_Room c = Some (RemoveClient k r))
    by (cbn; apply lookup_insert_eq).
  change (cl_ID c1) with (cl_ID c).
  rewrite (Room_Broadcast_wf _ _ _ _ _ Hwf2 Hr2). cbn [mbind option_bind].
  set (σ3 := set_heap _ σ2).
  assert (Hwf3 : wf σ3) by (apply wf_fanout; assumption).
  assert (Hr3 : Rooms σ3 !! cl_Room c = Some (RemoveClient k r)) by exact Hr2.
  rewrite Hr3. cbn [mbind option_bind].
  assert (Hh2 : heap σ2 = <[k := gone]> (heap σ)).
  { cbn. now rewrite insert_insert_eq. }
  assert (Hu : GetUserList (RemoveClient k r) (heap σ3) = Some users).
  { unfold GetUserList. rewrite GetUserList_loop_users.
    - cbn [app]. f_equal. unfold σ3. cbn [heap set_heap].
      rewrite users_of_fanout.
      + rewrite Hh2. apply users_of_insert_outside.
        rewrite elem_of_elements. set_solver.
      + intros j cj Hj. apply (wf_coherent σ2 j cj Hwf2 Hj).
    - intros j Hj. apply elem_of_elements in Hj.
      apply (wf_member _ Hwf3 _ _ _ Hr3 Hj). }
  rewrite Hu. cbn [mbind option_bind].
  rewrite (Room_BroadcastToAll_wf _ _ _ _ Hwf3 Hr3). cbn [mbind option_bind].
  f_equal. unfold σ3. cbn [heap set_heap]. rewrite Hh2.
  replace (room_Clients (RemoveClient k r) ∖ {[k]}) with (room_Clients r ∖ {[k]})
    by (cbn; set_solver).
  reflexivity.
Qed.

End Announcements.

Lemma lookup_fanout_twice msg1 T1 msg2 T2 (h : gmap loc Client) k :
  fanout msg2 T2 (fanout msg1 T1 h) !! k
  = h !! k ≫= (λ c, (if decide (k ∈ T1) then deliver msg1 c else Some c)
                     ≫= (λ c, if decide (k ∈ T2) then deliver msg2 c else Some c)).
Proof.
  rewrite !lookup_fanout. destruct (h !! k) as [c |]; reflexivity.
Qed.

(** X13: an accepted connection (no other goroutine running in between)
    gets a client object that was not in use, with the user id asked for or
    a generated one of 8 characters; it is added to the room, whose log is
    left alone; the sync is the one payload written to its socket and the
    user list the one payload in its queue; every earlier member is offered
    the join message and then the user list, which has one entry per member,
    the newcomer included; clients and rooms elsewhere are left alone. *)
Theorem join_announcement σ roomID userID :
  reachable σ → 0 ≤ colorIndex σ →
  ∃ k σ' c' users,
    handleWebSocket roomID userID true σ = Some (Some k, σ')
    ∧ heap σ !! k = None
    ∧ heap σ' !! k = Some c'
    ∧ cl_Room c' = room_key roomID ∧ (userID ≠ "" → cl_ID c' = userID)
    ∧ (userID = "" → String.length (cl_ID c') = 8%nat)
    ∧ cl_closed c' = false ∧ conn_closed (cl_Conn c') = false
    ∧ length (conn_written (cl_Conn c')) = 1%nat
    ∧ ch_buf (cl_Send c') = [Marshal (mkMessage TypeUserList "" (DUserList users))]
    ∧ members_of (room_key roomID) σ'
      = Some ({[k]} ∪ room_Clients (room_of (room_key roomID) σ))
    ∧ elements_of (room_key roomID) σ'
      = Some (room_Elements (room_of (room_key roomID) σ))
    ∧ length users = S (size (room_Clients (room_of (room_key roomID) σ)))
    ∧ mkUserInfo (cl_ID c') (cl_Color c') ∈ users
    ∧ (∀ j cj, heap σ !! j = Some cj →
         heap σ' !! j
         = if decide (j ∈ room_Clients (room_of (room_key roomID) σ))
           then deliver (Marshal (mkMessage TypeJoin (cl_ID c')
                                    (DUserInfo (mkUserInfo (cl_ID c') (cl_Color c'))))) cj
                ≫= deliver (Marshal (mkMessage TypeUserList "" (DUserList users)))
           else Some cj)
    ∧ (∀ rid, rid ≠ room_key roomID → Rooms σ' !! rid = Rooms σ !! rid)
    ∧ logged σ' = (logged σ ++ [LogJoined (cl_ID c') (room_key roomID)])%list.
Proof.
  intros Hreach Hci. pose proof (reachable_wf _ Hreach) as Hwf.
  destruct (getNextColor_total _ Hci) as (color & ci & Hcol).
  destruct (handleWebSocket_state roomID userID σ color ci Hwf Hcol)
    as (uid & σ0 & Hres & Hfresh & Hnotin & Hj).
  set (rid := room_key roomID) in *. set (r0 := room_of rid σ) in *.
  set (k := fresh (dom (heap σ))) in *.
  set (c1 := mkClient uid _ rid color (make_chan 256) false) in *.
  set (users := users_of _ _) in *.
  set (msgU := Marshal (mkMessage TypeUserList "" (DUserList users))) in *.
  eexists k, _, (set_cl_Send (mkChan [msgU] 256 false) c1), users.
  split; [exact Hj |]. split; [exact Hfresh |]. cbn [heap Rooms logged].
  split.
  { rewrite lookup_fanout_twice, lookup_insert_eq. cbn [mbind option_bind].
    rewrite decide_False by exact Hnotin. cbn [mbind option_bind].
    rewrite decide_True by set_solver. reflexivity. }
  split; [reflexivity |]. split.
  { intros Hne. destruct (resolve_userID_total userID σ)
      as (uid' & σ0' & Hres' & _ & _ & _ & _ & _ & Hsame & _).
    rewrite Hres in Hres'. injection Hres' as <- <-. now destruct (Hsame Hne). }
  split.
  { intros Hu. destruct (resolve_userID_total userID σ)
      as (uid' & σ0' & Hres' & _ & _ & _ & _ & _ & _ & Hgen).
    rewrite Hres in Hres'. injection Hres' as <- <-.
    destruct (generateID_total (randSeed σ)) as (id & seed & Hid & Hlen).
    rewrite (Hgen Hu) in Hid. now injection Hid as -> _. }
  do 4 (split; [reflexivity |]).
  split; [unfold members_of; cbn; now rewrite lookup_insert_eq |].
  split; [unfold elements_of; cbn; now rewrite lookup_insert_eq |].
  assert (Hall : ∀ j, j ∈ elements ({[k]} ∪ room_Clients r0) →
                      is_Some (<[k := c1]> (heap σ) !! j)).
  { intros j Hin. apply elem_of_elements in Hin. rewrite lookup_insert_is_Some.
    destruct (decide (k = j)); [now left | right]. split; [assumption |].
    assert (Hjr : j ∈ room_Clients r0) by set_solver.
    unfold r0, room_of in Hjr. destruct (Rooms σ !! rid) as [r |] eqn:Hr.
    - apply (wf_member _ Hwf _ _ _ Hr Hjr).
    - cbn in Hjr. set_solver. }
  split.
  { unfold users. rewrite length_users_of by exact Hall.
    change (length (elements ({[k]} ∪ room_Clients r0)))
      with (size ({[k]} ∪ room_Clients r0)).
    rewrite size_union by set_solver. now rewrite size_singleton. }
  split.
  { unfold users. apply elem_of_users_of. exists k, c1.
    split; [apply elem_of_elements; set_solver |].
    split; [apply lookup_insert_eq | reflexivity]. }
  split.
  { intros j cj Hcj.
    assert (Hne : k ≠ j) by (intros <-; congruence).
    rewrite lookup_fanout_twice, lookup_insert_ne, Hcj by exact Hne.
    cbn [mbind option_bind].
    destruct (decide (j ∈ room_Clients r0)) as [Hin | Hout].
    - destruct (deliver _ cj) as [cj' |]; [| reflexivity]. cbn.
      now rewrite decide_True by set_solver.
    - cbn. now rewrite decide_False by set_solver. }
  split; [| reflexivity].
  intros rid' Hne. now rewrite lookup_insert_ne.
Qed.

Lemma join_announcement_witness :
  ∃ k σ' c', handleWebSocket "abc123" "C" true two_members = Some (Some k, σ')
             ∧ heap σ' !! k = Some c' ∧ cl_ID c' = "C"
             ∧ length (ch_buf (cl_Send c')) = 1%nat
             ∧ (length <$> queue_of 0%nat σ') = Some 5%nat.
Proof.
  edestruct join_announcement with (σ := two_members) (roomID := "abc123") (userID := "C")
    as (k & σ' & c' & users & H & _ & Hc' & _ & Hid & _ & _ & _ & _ & Hbuf & _ & _ & _
        & _ & Hold & _).
  - exact two_members_reachable.
  - vm_compute. discriminate.
  - exists k, σ', c'. split; [exact H |]. split; [exact Hc' |].
    split; [apply Hid; discriminate |]. split; [now rewrite Hbuf |].
    unfold queue_of. erewrite Hold by (vm_compute; reflexivity).
    rewrite decide_True by (refine (bool_decide_unpack _ _); vm_compute; exact I).
    vm_compute. reflexivity.
Defined.

(** X14: when [ReadMessage] fails on a connection whose pump is in its
    loop, the deferred function of [readPump] (no other goroutine running
    in between) closes the channel with its payloads still in it, closes the
    socket, removes the client from its room, whose log is left alone, and
    offers every remaining member the leave message and then the user list
    of the remaining members; clients and rooms elsewhere are left alone. *)
Theorem leave_announcement σ k c unexpected rest :
  reachable σ → heap σ !! k = Some c → cl_closed c = false →
  ∃ σ' r gone users,
    readPump k (ReadError unexpected :: rest) σ = Some σ'
    ∧ Rooms σ !! cl_Room c = Some r ∧ k ∈ room_Clients r
    ∧ heap σ' !! k = Some gone
    ∧ cl_closed gone = true ∧ ch_closed (cl_Send gone) = true
    ∧ ch_buf (cl_Send gone) = ch_buf (cl_Send c)
    ∧ cl_Conn gone = Conn_Close (cl_Conn c)
    ∧ members_of (cl_Room c) σ' = Some (room_Clients r ∖ {[k]})
    ∧ elements_of (cl_Room c) σ' = Some (room_Elements r)
    ∧ S (length users) = size (room_Clients r)
    ∧ (∀ u, u ∈ users ↔
            ∃ j cj, j ∈ room_Clients r ∧ j ≠ k ∧ heap σ !! j = Some cj
                    ∧ u = mkUserInfo (cl_ID cj) (cl_Color cj))
    ∧ (∀ j cj, j ≠ k → heap σ !! j = Some cj →
         heap σ' !! j
         = if decide (j ∈ room_Clients r)
           then deliver (JObj [("type", JStr "leave"); ("userId", JStr (cl_ID c))]) cj
                ≫= deliver (Marshal (mkMessage TypeUserList "" (DUserList users)))
           else Some cj)
    ∧ (∀ rid, rid ≠ cl_Room c → Rooms σ' !! rid = Rooms σ !! rid)
    ∧ logged σ'
      = (logged σ ++ (if unexpected then [LogWebSocketError] else [])
         ++ [LogLeft (cl_ID c) (cl_Room c)])%list.
Proof.
  intros Hreach Hc Hopen. pose proof (reachable_wf _ Hreach) as Hwf.
  destruct (reachable_readers _ Hreach _ _ Hc Hopen) as (r & Hr & Hk).
  set (σu := if unexpected then log_Printf LogWebSocketError σ else σ).
  assert (Hwfu : wf σu) by (destruct unexpected; [apply wf_log_Printf |]; assumption).
  assert (Hhu : heap σu = heap σ) by now destruct unexpected.
  assert (HRu : Rooms σu = Rooms σ) by now destruct unexpected.
  assert (Hlu : logged σu
                = (logged σ ++ (if unexpected then [LogWebSocketError] else []))%list).
  { destruct unexpected; cbn; [reflexivity | now rewrite app_nil_r]. }
  assert (Hcu : heap σu !! k = Some c) by now rewrite Hhu.
  assert (Hru : Rooms σu !! cl_Room c = Some r) by now rewrite HRu.
  pose proof (teardown_state k c r σu Hwfu Hcu Hopen Hru) as Ht. cbv zeta in Ht.
  rewrite Hhu, HRu, Hlu in Ht.
  assert (Hid : Marshal (mkMessage TypeLeave (cl_ID c) (DIface JNull))
                = JObj [("type", JStr "leave"); ("userId", JStr (cl_ID c))]).
  { unfold Marshal. cbn.
    destruct (String.eqb_spec (cl_ID c) "") as [Heq | _]; [| reflexivity].
    now destruct (ok_id _ (wf_client _ Hwf _ _ Hc)). }
  rewrite Hid in Ht.
  set (users := users_of (elements (room_Clients r ∖ {[k]})) (heap σ)) in *.
  eexists _, r, _, users. split; [exact Ht |].
  split; [exact Hr |]. split; [exact Hk |]. cbn [heap Rooms logged].
  split.
  { rewrite lookup_fanout_twice, lookup_insert_eq. cbn [mbind option_bind].
    rewrite decide_False by set_solver. cbn [mbind option_bind].
    rewrite decide_False by set_solver. reflexivity. }
  do 4 (split; [reflexivity |]).
  split; [unfold members_of; cbn; now rewrite lookup_insert_eq |].
  split; [unfold elements_of; cbn; now rewrite lookup_insert_eq |].
  split.
  { unfold users. rewrite length_users_of.
    - change (length (elements (room_Clients r ∖ {[k]})))
        with (size (room_Clients r ∖ {[k]})).
      rewrite size_difference by set_solver. rewrite size_singleton.
      assert (size (room_Clients r) ≠ 0%nat); [| lia].
      intros Hz. apply size_empty_inv in Hz. set_solver.
    - intros j Hj. apply elem_of_elements in Hj.
      apply (wf_member _ Hwf _ _ _ Hr). set_solver. }
  split.
  { intros info. unfold users. rewrite elem_of_users_of. split.
    - intros (j & cj & Hj & Hcj & ->). apply elem_of_elements in Hj.
      exists j, cj. split; [set_solver |]. split; [set_solver |]. auto.
    - intros (j & cj & Hj & Hne & Hcj & ->). exists j, cj.
      split; [apply elem_of_elements; set_solver | auto]. }
  split.
  { intros j cj Hne Hcj.
    rewrite lookup_fanout_twice, lookup_insert_ne, Hcj by congruence.
    cbn [mbind option_bind].
    destruct (decide (j ∈ room_Clients r)) as [Hin | Hout].
    - rewrite decide_True by set_solver.
      destruct (deliver _ cj) as [cj' |]; [| reflexivity]. cbn.
      now rewrite decide_True by set_solver.
    - rewrite decide_False by set_solver. cbn.
      now rewrite decide_False by set_solver. }
  split; [| now rewrite <- app_assoc].
  intros rid' Hne. now rewrite lookup_insert_ne.
Qed.

Lemma leave_announcement_witness :
  ∃ σ' gone users,
    readPump 1%nat [ReadError false] two_members = Some σ'
    ∧ heap σ' !! 1%nat = Some gone
    ∧ cl_closed gone = true ∧ ch_closed (cl_Send gone) = true
    ∧ length users = 1%nat
    ∧ (last <$> queue_of 0%nat σ')
      = Some (Some (Marshal (mkMessage TypeUserList "" (DUserList users)))).
Proof.
  edestruct leave_announcement
    with (σ := two_members) (k := 1%nat) (unexpected := false) (rest := @nil read)
    as (σ' & r & gone & users & H & Hr & _ & Hg & Hcl & Hch & _ & _ & _ & _ & Hlen & _
        & Hold & _).
  - exact two_members_reachable.
  - vm_compute. reflexivity.
  - reflexivity.
  - assert (Hr' : Rooms two_members !! "abc123" = Some r) by exact Hr.
    vm_compute in Hr'. injection Hr' as <-.
    exists σ', gone, users. split; [exact H |]. split; [exact Hg |].
    split; [exact Hcl |]. split; [exact Hch |].
    split; [vm_compute in Hlen; now injection Hlen |].
    unfold queue_of. erewrite Hold; [| discriminate | vm_compute; reflexivity].
    rewrite decide_True by (refine (bool_decide_unpack _ _); vm_compute; exact I).
    vm_compute. reflexivity.
Defined.

(* ===================================================================== *)
(** ** Refused upgrades and the way to the socket *)
(* ===================================================================== *)

(** X15: when the upgrade fails the request leaves no trace but a log
    line: no room is made, no client, no colour is taken; but the user id is
    resolved before the upgrade, so a request without one has advanced the
    seed by one generated id. *)
Theorem refused_upgrade σ roomID userID :
  ∃ σ', handleWebSocket roomID userID false σ = Some (None, σ')
        ∧ Rooms σ' = Rooms σ ∧ heap σ' = heap σ ∧ colorIndex σ' = colorIndex σ
        ∧ logged σ' = (logged σ ++ [LogUpgradeError])%list
        ∧ (if String.eqb userID ""
           then ∃ id, generateID (randSeed σ) = Some (id, randSeed σ')
                      ∧ String.length id = 8%nat
           else randSeed σ' = randSeed σ).
Proof.
  destruct (handleWebSocket_refused roomID userID σ) as (uid & σ1 & Hres & H).
  destruct (resolve_userID_total userID σ)
    as (uid' & σ1' & Hres' & _ & HR & Hh & Hc & Hl & Hsame & Hgen).
  rewrite Hres in Hres'. injection Hres' as <- <-.
  eexists. split; [exact H |]. cbn. rewrite HR, Hh, Hc, Hl.
  do 4 (split; [reflexivity |]).
  destruct (String.eqb_spec userID "") as [Hu | Hu].
  - exists uid. split; [now apply Hgen |].
    destruct (generateID_total (randSeed σ)) as (id & seed & Hid & Hlen).
    rewrite (Hgen Hu) in Hid. now injection Hid as -> _.
  - now destruct (Hsame Hu) as [_ ->].
Qed.

(** X16: the write pump of a client whose socket is open, with every
    write succeeding, writes the payloads of the queue to the socket in the
    order in which they were queued and touches nothing else; the socket is
    closed at the end exactly when [Send] had been closed. *)
Theorem write_pump_is_fifo σ k c (n : nat) :
  heap σ !! k = Some c → conn_closed (cl_Conn c) = false →
  (length (ch_buf (cl_Send c)) < n)%nat →
  ∃ σ' c',
    writePump k (repeat true n) σ = Some σ' ∧ heap σ' !! k = Some c'
    ∧ conn_written (cl_Conn c')
      = (conn_written (cl_Conn c) ++ ch_buf (cl_Send c))%list
    ∧ ch_buf (cl_Send c') = []
    ∧ conn_closed (cl_Conn c') = ch_closed (cl_Send c)
    ∧ (∀ j, j ≠ k → heap σ' !! j = heap σ !! j)
    ∧ Rooms σ' = Rooms σ.
Proof.
  intros Hc Hopen Hn. eexists _, _.
  split; [apply (writePump_drains k c σ n Hc Hopen Hn) |]. cbn.
  split; [apply lookup_insert_eq |]. do 3 (split; [reflexivity |]).
  split; [| reflexivity]. intros j Hne. now rewrite lookup_insert_ne.
Qed.

Lemma write_pump_is_fifo_witness :
  ∃ σ' c', writePump 0%nat [true; true; true; true] two_members = Some σ'
           ∧ heap σ' !! 0%nat = Some c'
           ∧ length (conn_written (cl_Conn c')) = 4%nat
           ∧ conn_closed (cl_Conn c') = false.
Proof.
  edestruct write_pump_is_fifo with (σ := two_members) (k := 0%nat) (n := 4%nat)
    as (σ' & c' & H & Hc' & Hw & _ & Hcl & _).
  - vm_compute. reflexivity.
  - reflexivity.
  - vm_compute. lia.
  - exists σ', c'. split; [exact H |]. split; [exact Hc' |].
    split; [rewrite Hw; reflexivity | rewrite Hcl; reflexivity].
Defined.

(** X17: the first write that fails ends the write pump: the payloads
    before it are written, the one it had taken from the queue is lost, the
    later ones stay in the channel and the socket is closed; the [closed]
    flag of the client is not touched. *)
Theorem write_pump_stops_at_a_failed_write σ k c (i : nat) msg rest :
  heap σ !! k = Some c → conn_closed (cl_Conn c) = false →
  ch_buf (cl_Send c) !! i = Some msg →
  ∃ σ' c',
    writePump k (repeat true i ++ false :: rest) σ = Some σ'
    ∧ heap σ' !! k = Some c'
    ∧ conn_written (cl_Conn c')
      = (conn_written (cl_Conn c) ++ take i (ch_buf (cl_Send c)))%list
    ∧ conn_closed (cl_Conn c') = true
    ∧ ch_buf (cl_Send c') = drop (S i) (ch_buf (cl_Send c))
    ∧ cl_closed c' = cl_closed c.
Proof.
  intros Hc Hopen Hi. eexists _, _.
  split; [apply (writePump_fails k c σ i msg rest Hc Hopen Hi) |]. cbn.
  split; [apply lookup_insert_eq |]. repeat split.
Qed.

Lemma write_pump_stops_at_a_failed_write_witness :
  ∃ σ' c', writePump 0%nat [true; false; true] two_members = Some σ'
           ∧ heap σ' !! 0%nat = Some c'
           ∧ length (conn_written (cl_Conn c')) = 2%nat
           ∧ conn_closed (cl_Conn c') = true
           ∧ length (ch_buf (cl_Send c')) = 1%nat.
Proof.
  edestruct write_pump_stops_at_a_failed_write
    with (σ := two_members) (k := 0%nat) (i := 1%nat) (rest := [true])
    as (σ' & c' & H & Hc' & Hw & Hcl & Hq & _).
  - vm_compute. reflexivity.
  - reflexivity.
  - vm_compute. reflexivity.
  - exists σ', c'. split; [exact H |]. split; [exact Hc' |].
    split; [rewrite Hw; reflexivity |]. split; [exact Hcl |].
    rewrite Hq. reflexivity.
Defined.

(** X18: a cursor message of one member is written to the socket of
    another member whose queue has room, by that member's write pump, after
    the payloads that were queued before it and with the id of the sending
    connection in its envelope. *)
Theorem a_cursor_reaches_the_socket σ k c j cj r m :
  reachable σ → heap σ !! k = Some c → Rooms σ !! cl_Room c = Some r →
  msg_Type m = TypeCursor →
  j ∈ room_Clients r → j ≠ k → heap σ !! j = Some cj →
  cl_closed cj = false → conn_closed (cl_Conn cj) = false →
  (length (ch_buf (cl_Send cj)) < 256)%nat →
  ∃ σ1 σ2 cj',
    route k m σ = Some σ1
    ∧ writePump j (repeat true (S (S (length (ch_buf (cl_Send cj)))))) σ1 = Some σ2
    ∧ heap σ2 !! j = Some cj'
    ∧ conn_written (cl_Conn cj')
      = (conn_written (cl_Conn cj) ++ ch_buf (cl_Send cj)
         ++ [Marshal (mkMessage TypeCursor (cl_ID c) (msg_Data m))])%list
    ∧ ch_buf (cl_Send cj') = [].
Proof.
  intros Hreach Hc Hr Ht Hj Hne Hcj Hopen Hsock Hlen.
  pose proof (reachable_wf _ Hreach) as Hwf.
  pose proof (wf_client _ Hwf _ _ Hcj) as [Hco Hcap _].
  set (payload := Marshal (mkMessage TypeCursor (cl_ID c) (msg_Data m))).
  set (cj1 := set_cl_Send (mkChan (ch_buf (cl_Send cj) ++ [payload])
                             (ch_cap (cl_Send cj)) false) cj).
  assert (H1 : fanout payload (room_Clients r ∖ {[k]}) (heap σ) !! j = Some cj1).
  { rewrite lookup_fanout_inside by set_solver. rewrite Hcj. cbn.
    rewrite deliver_open by congruence.
    rewrite <- Hcap in Hlen. apply Nat.ltb_lt in Hlen. now rewrite Hlen. }
  eexists _, _, _. split; [apply (route_cursor _ _ _ _ _ Hwf Hc Hr Ht) |].
  split.
  { apply (writePump_drains j cj1); [exact H1 | exact Hsock |].
    cbn. rewrite length_app. cbn. lia. }
  cbn. split; [apply lookup_insert_eq |]. split; reflexivity.
Qed.

Lemma a_cursor_reaches_the_socket_witness :
  ∃ σ2 cj', heap σ2 !! 1%nat = Some cj'
    ∧ last (conn_written (cl_Conn cj'))
      = Some (JObj [("type", JStr "cursor"); ("userId", JStr "A");
                    ("data", JObj [("x", JNum 10%float); ("y", JNum 20%float)])]).
Proof.
  edestruct a_cursor_reaches_the_socket
    with (σ := two_members) (k := 0%nat) (j := 1%nat)
         (m := mkMessage TypeCursor "A"
                 (DIface (JObj [("x", JNum 10%float); ("y", JNum 20%float)])))
    as (σ1 & σ2 & cj' & _ & _ & Hcj' & Hw & _).
  - exact two_members_reachable.
  - vm_compute. reflexivity.
  - vm_compute. reflexivity.
  - reflexivity.
  - refine (bool_decide_unpack _ _). vm_compute. exact I.
  - discriminate.
  - vm_compute. reflexivity.
  - reflexivity.
  - reflexivity.
  - vm_compute. lia.
  - exists σ2, cj'. split; [exact Hcj' |]. rewrite Hw. vm_compute. reflexivity.
Defined.

(* ===================================================================== *)
(** ** The read pump as a whole *)
(* ===================================================================== *)

Section ReadPump.

Implicit Types (σ : State) (c : Client) (r : Room).

Lemma handle_frame_keeps_flag k f σ σ' j cj :
  wf σ → handle_frame k f σ = Some σ' → heap σ !! j = Some cj →
  ∃ cj', heap σ' !! j = Some cj' ∧ cl_closed cj' = cl_closed cj.
Proof.
  intros Hwf H Hj. unfold handle_frame in H.
  destruct (Unmarshal_Message f) as [m |]; [| injection H as <-; eauto].
  destruct (route_heap _ _ _ _ Hwf H) as [-> | (msg & T & ->)]; [eauto |].
  destruct (fanout_lookup_Some msg T _ _ _ Hj (wf_coherent _ _ _ Hwf Hj))
    as (cj' & Hj' & [-> | Hd]); [eauto |].
  exists cj'. split; [exact Hj' |].
  now destruct (deliver_frame _ _ _ Hd) as (_ & _ & _ & _ & -> & _).
Qed.

(** The read pump of a client is a run of the events of that client: its
    frames in order, then the two parts of the deferred function; nothing
    is read after the first error. *)
Lemma readPump_run k frames unexpected rest σ :
  wf σ → readers_are_members σ →
  (∃ c, heap σ !! k = Some c ∧ cl_closed c = false) →
  ∃ σ',
    readPump k (map ReadFrame frames ++ ReadError unexpected :: rest) σ = Some σ'
    ∧ run (map (EvFrame k) frames ++ [EvReadError k unexpected; EvLeave k]) σ = Some σ'
    ∧ reading k σ' = false ∧ leaving k σ' = false.
Proof.
  revert σ. induction frames as [| f frames IH]; intros σ Hwf Hmem (c & Hc & Hopen).
  - cbn [map app readPump run exec].
    assert (Hrd : reading k σ = true) by (unfold reading; now rewrite Hc, Hopen).
    rewrite Hrd.
    set (σu := if unexpected then log_Printf LogWebSocketError σ else σ).
    assert (Hwfu : wf σu) by (destruct unexpected; [apply wf_log_Printf |]; assumption).
    assert (Hcu : heap σu !! k = Some c) by now destruct unexpected.
    destruct (Hmem _ _ Hc Hopen) as (r & Hr & Hk).
    assert (Hru : Rooms σu !! cl_Room c = Some r) by now destruct unexpected.
    pose proof (teardown_state k c r σu Hwfu Hcu Hopen Hru) as Ht. cbv zeta in Ht.
    eexists. split; [exact Ht |].
    split; [| split].
    + rewrite <- Ht. unfold teardown.
      destruct (teardown_close k σu) as [σ1 |] eqn:H1; [| reflexivity].
      cbn [mbind option_bind].
      assert (Hlv : leaving k σ1 = true).
      { unfold teardown_close, chan_close in H1. rewrite Hcu in H1. cbn in H1.
        destruct (ch_closed (cl_Send c)); [discriminate |]. cbn in H1.
        injection H1 as <-. unfold leaving. cbn [heap set_heap Rooms].
        rewrite lookup_insert_eq. cbn. rewrite Hru. now apply bool_decide_eq_true. }
      rewrite Hlv. now destruct (teardown_leave k σ1).
    + unfold reading. cbn [heap].
      rewrite lookup_fanout_twice, lookup_insert_eq. cbn [mbind option_bind].
      rewrite decide_False by set_solver. cbn [mbind option_bind].
      rewrite decide_False by set_solver. reflexivity.
    + unfold leaving. cbn [heap Rooms].
      rewrite lookup_fanout_twice, lookup_insert_eq. cbn [mbind option_bind].
      rewrite decide_False by set_solver. cbn [mbind option_bind].
      rewrite decide_False by set_solver. cbn.
      rewrite lookup_insert_eq. apply bool_decide_eq_false. cbn. set_solver.
  - cbn [map app readPump run exec].
    assert (Hrd : reading k σ = true) by (unfold reading; now rewrite Hc, Hopen).
    rewrite Hrd.
    destruct (wf_room _ Hwf _ _ Hc) as [r Hr].
    destruct (handle_frame_shape k c r f σ Hwf Hc Hr) as (σ1 & H1 & _).
    rewrite H1. cbn [mbind option_bind].
    apply IH.
    + apply (wf_handle_frame _ _ _ _ Hwf H1).
    + apply (exec_readers (EvFrame k f) σ σ1 Hwf Hmem). cbn. now rewrite Hrd.
    + destruct (handle_frame_keeps_flag _ _ _ _ _ _ Hwf H1 Hc) as (c' & Hc' & Hfl).
      exists c'. split; [exact Hc' | congruence].
Qed.

End ReadPump.

(** X19: the read pump handles the frames it reads in order up to the
    first read error and nothing after it, then runs its deferred function
    once; that is a run of the events of this client, it never panics from a
    reachable state, and afterwards the client is neither reading nor a
    member. *)
Theorem read_pump_is_a_run σ k c frames unexpected rest :
  reachable σ → heap σ !! k = Some c → cl_closed c = false →
  ∃ σ',
    readPump k (map ReadFrame frames ++ ReadError unexpected :: rest) σ = Some σ'
    ∧ run (map (EvFrame k) frames ++ [EvReadError k unexpected; EvLeave k]) σ = Some σ'
    ∧ reading k σ' = false ∧ leaving k σ' = false.
Proof.
  intros Hreach Hc Hopen.
  apply (readPump_run k frames unexpected rest σ (reachable_wf _ Hreach)
           (reachable_readers _ Hreach)).
  eauto.
Qed.

Lemma read_pump_is_a_run_witness :
  ∃ σ',
    readPump 0%nat [ReadFrame draw_frame; ReadFrame cursor_frame; ReadError true;
                    ReadFrame draw_frame] two_members = Some σ'
    ∧ run [EvFrame 0%nat draw_frame; EvFrame 0%nat cursor_frame;
           EvReadError 0%nat true; EvLeave 0%nat] two_members = Some σ'
    ∧ (length <$> elements_of "abc123" σ') = Some 1%nat.
Proof.
  edestruct read_pump_is_a_run
    with (σ := two_members) (k := 0%nat) (frames := [draw_frame; cursor_frame])
         (unexpected := true) (rest := [ReadFrame draw_frame])
    as (σ' & H1 & H2 & _).
  - exact two_members_reachable.
  - vm_compute. reflexivity.
  - reflexivity.
  - exists σ'. split; [exact H1 |]. split; [exact H2 |].
    cbn [map app] in H2. vm_compute in H2. injection H2 as <-.
    vm_compute. reflexivity.
Defined.

(* ===================================================================== *)
(** ** The colour counter *)
(* ===================================================================== *)

Section Colours.

Implicit Types (σ : State) (c : Client) (e : event).

Lemma wrap_int_small x : - 2 ^ 63 ≤ x < 2 ^ 63 → wrap_int x = x.
Proof.
  intros Hx. unfold wrap_int, wrap_int_bits. change (64 - 1) with 63.
  assert (2 ^ 63 + 2 ^ 63 = 2 ^ 64) by reflexivity.
  rewrite Z.mod_small; lia.
Qed.

Lemma getNextColor_color ci :
  0 ≤ ci →
  ∃ color, getNextColor ci = Some (color, wrap_int (ci + 1))
           ∧ userColors !! Z.to_nat (ci mod 8) = Some color.
Proof.
  intros Hlo. unfold getNextColor.
  change (Z.of_nat (length userColors)) with 8.
  rewrite Z.rem_mod_nonneg by lia.
  pose proof (Z.mod_pos_bound ci 8 ltac:(lia)) as Hm.
  destruct (Z.ltb_spec (ci mod 8) 0) as [Hneg | _]; [lia |].
  destruct (userColors !! Z.to_nat (ci mod 8)) as [color |] eqn:E.
  - exists color. cbn. auto.
  - apply lookup_ge_None in E. cbn in E. lia.
Qed.

Lemma getNextColor_next ci :
  0 ≤ ci → ci + 1 < 2 ^ 63 →
  ∃ color, getNextColor ci = Some (color, ci + 1)
           ∧ userColors !! Z.to_nat (ci mod 8) = Some color.
Proof.
  intros Hlo Hhi. destruct (getNextColor_color ci Hlo) as (color & H & Hcol).
  exists color. rewrite H, wrap_int_small by lia. auto.
Qed.

Lemma getNextColor_None ci :
  getNextColor ci = None ↔ ci < 0 ∧ Z.rem ci 8 ≠ 0.
Proof.
  unfold getNextColor. change (Z.of_nat (length userColors)) with 8.
  pose proof (Z.rem_bound_abs ci 8 ltac:(lia)) as Hb.
  destruct (Z.ltb_spec (Z.rem ci 8) 0) as [Hneg | Hpos].
  - split; [intros _ | reflexivity]. split; [| lia].
    destruct (Z.le_gt_cases 0 ci) as [Hci | Hci]; [| exact Hci].
    pose proof (Z.rem_nonneg ci 8 ltac:(lia) Hci). lia.
  - destruct (userColors !! Z.to_nat (Z.rem ci 8)) as [color |] eqn:E.
    + cbn. split; [discriminate |]. intros [Hci Hne].
      pose proof (Z.rem_nonpos ci 8 ltac:(lia) ltac:(lia)). lia.
    + apply lookup_ge_None in E. cbn in E. lia.
Qed.

Lemma getNextColors_spec (n : nat) ci :
  0 ≤ ci → ci + Z.of_nat n < 2 ^ 63 →
  ∃ colors, getNextColors n ci = Some (colors, ci + Z.of_nat n)
            ∧ length colors = n
            ∧ ∀ j : nat, (j < n)%nat →
                colors !! j = userColors !! Z.to_nat ((ci + Z.of_nat j) mod 8).
Proof.
  revert ci. induction n as [| n IH]; intros ci Hlo Hhi.
  - exists []. cbn. rewrite Z.add_0_r. repeat split. intros j Hj. lia.
  - destruct (getNextColor_next ci Hlo ltac:(lia)) as (color & Hc & Hcol).
    destruct (IH (ci + 1) ltac:(lia) ltac:(lia)) as (colors & Hcs & Hlen & Hnth).
    exists (color :: colors). cbn [getNextColors]. rewrite Hc. cbn. rewrite Hcs. cbn.
    split; [do 2 f_equal; lia |]. split; [now rewrite Hlen |].
    intros [| j] Hj; cbn.
    + now rewrite Z.add_0_r.
    + rewrite Hnth by lia. do 3 f_equal. lia.
Qed.

Lemma Room_Broadcast_colorIndex rid msg sender σ σ' :
  Room_Broadcast rid msg sender σ = Some σ' → colorIndex σ' = colorIndex σ.
Proof.
  unfold Room_Broadcast. destruct (Rooms σ !! rid); [| discriminate]. cbn.
  destruct (Broadcast _ _ _ _); [| discriminate]. cbn. now intros [= <-].
Qed.

Lemma Room_BroadcastToAll_colorIndex rid msg σ σ' :
  Room_BroadcastToAll rid msg σ = Some σ' → colorIndex σ' = colorIndex σ.
Proof.
  unfold Room_BroadcastToAll. destruct (Rooms σ !! rid); [| discriminate]. cbn.
  destruct (BroadcastToAll _ _ _); [| discriminate]. cbn. now intros [= <-].
Qed.

Lemma teardown_leave_colorIndex k σ σ' :
  teardown_leave k σ = Some σ' → colorIndex σ' = colorIndex σ.
Proof.
  unfold teardown_leave. destruct (heap σ !! k) as [c |]; [| discriminate].
  cbn [mbind option_bind]. unfold on_Room.
  destruct (Rooms σ !! cl_Room c) as [r |]; [| discriminate].
  cbn [mbind option_bind].
  destruct (Room_Broadcast _ _ _ _) as [σ2 |] eqn:E2; [| discriminate].
  cbn [mbind option_bind].
  destruct (Rooms σ2 !! cl_Room c); [| discriminate]. cbn [mbind option_bind].
  destruct (GetUserList _ _); [| discriminate]. cbn [mbind option_bind].
  destruct (Room_BroadcastToAll _ _ σ2) as [σ3 |] eqn:E3; [| discriminate].
  cbn [mbind option_bind]. intros [= <-]. cbn.
  rewrite (Room_BroadcastToAll_colorIndex _ _ _ _ E3),
    (Room_Broadcast_colorIndex _ _ _ _ _ E2).
  reflexivity.
Qed.

(** Only an accepted connection advances [colorIndex], by one call of
    [getNextColor]. *)
Lemma exec_colorIndex e σ σ' :
  wf σ → exec e σ = Some σ' →
  if accepts e
  then ∃ color, getNextColor (colorIndex σ) = Some (color, colorIndex σ')
  else colorIndex σ' = colorIndex σ.
Proof.
  intros Hwf He.
  assert (Hconnect : ∀ (roomID userID : string) (ok : bool) σ σ',
             wf σ → exec (EvConnect roomID userID ok) σ = Some σ' →
             if ok
             then ∃ color, getNextColor (colorIndex σ) = Some (color, colorIndex σ')
             else colorIndex σ' = colorIndex σ).
  { clear. intros roomID userID ok σ σ' Hwf He. cbn [exec] in He.
    destruct (handleWebSocket roomID userID ok σ) as [[res σ1] |] eqn:H;
      [| discriminate].
    cbn in He. injection He as <-. destruct ok.
    + destruct (handleWebSocket_color _ _ _ _ H) as (color & ci & Hcol).
      destruct (handleWebSocket_state roomID userID σ color ci Hwf Hcol)
        as (uid & σ0 & Hres & _ & _ & Hj).
      rewrite Hj in H. injection H as <- <-. exists color. exact Hcol.
    + destruct (handleWebSocket_refused roomID userID σ) as (uid & σ0 & Hres & Hr).
      rewrite Hr in H. injection H as <- <-.
      destruct (resolve_userID_total userID σ)
        as (uid' & σ0' & Hres' & _ & _ & _ & Hc1 & _).
      rewrite Hres in Hres'. injection Hres' as <- <-. exact Hc1. }
  destruct e as [roomID userID ok | j f | j u | j | j ok | q | q roomID ok];
    [ exact (Hconnect _ _ _ _ _ Hwf He) | | | |
    | destruct (exec_EvDraw _ _ _ He) as (b & seed & _ & _ & ->); reflexivity
    | destruct (exec_EvAccept _ _ _ _ _ He) as (uid & σ1 & _ & _ & He' & ->);
      exact (Hconnect _ _ _ _ _ Hwf He') ];
    cbn [exec accepts] in *.
  - destruct (reading j σ) eqn:Hrd; [| discriminate].
    unfold reading in Hrd. destruct (heap σ !! j) as [c |] eqn:Hc; [| discriminate].
    destruct (wf_room _ Hwf _ _ Hc) as [r Hr].
    destruct (handle_frame_shape j c r f σ Hwf Hc Hr) as (σ1 & H1 & _ & _ & Hci & _).
    rewrite H1 in He. now injection He as <-.
  - destruct (reading j σ); [| discriminate]. unfold teardown_close in He.
    destruct u; cbn [heap log_Printf] in He;
      (destruct (heap σ !! j) as [cj |]; [| discriminate];
       cbn [mbind option_bind] in He;
       destruct (chan_close _); [| discriminate]; cbn in He; now injection He as <-).
  - destruct (leaving j σ); [| discriminate].
    now apply (teardown_leave_colorIndex j).
  - unfold writePump_step in He.
    destruct (heap σ !! j) as [cj |]; [| discriminate].
    cbn [mbind option_bind] in He.
    destruct (chan_recv _); now injection He as <-.
Qed.

Lemma run_colorIndex es σ σ' (n : nat) :
  wf σ → colorIndex σ = Z.of_nat n → Z.of_nat (n + accepted es) < 2 ^ 63 →
  run es σ = Some σ' → colorIndex σ' = Z.of_nat (n + accepted es).
Proof.
  revert σ n. induction es as [| e es IH]; intros σ n Hwf Hn Hb; cbn [run accepted].
  - intros [= <-]. now rewrite Nat.add_0_r.
  - destruct (exec e σ) as [σ1 |] eqn:He; [| discriminate]. cbn [mbind option_bind].
    intros Hrun. pose proof (exec_colorIndex _ _ _ Hwf He) as Hstep.
    cbn [accepted] in Hb.
    destruct (accepts e).
    + destruct Hstep as [color Hcol].
      destruct (getNextColor_next (colorIndex σ)) as (color' & Hc' & _); [lia .. |].
      rewrite Hcol in Hc'. injection Hc' as _ Hci.
      replace (n + (1 + accepted es))%nat with (S n + accepted es)%nat by lia.
      apply (IH σ1 (S n)); [eapply exec_wf; eassumption | lia | | exact Hrun].
      replace (S n + accepted es)%nat with (n + (1 + accepted es))%nat by lia.
      exact Hb.
    + apply (IH σ1 n); [eapply exec_wf; eassumption | congruence | exact Hb | exact Hrun].
Qed.

End Colours.

(** X20: eight successive calls of [getNextColor] return the eight
    colours of the palette, each once, starting at the index of the counter
    modulo 8, and the ninth call returns the colour of the first. *)
Theorem palette_cycles ci :
  0 ≤ ci → ci + 8 < 2 ^ 63 →
  ∃ colors,
    getNextColors 8 ci = Some (colors, ci + 8)
    ∧ colors = (drop (Z.to_nat (ci mod 8)) userColors
                ++ take (Z.to_nat (ci mod 8)) userColors)%list
    ∧ colors ≡ₚ userColors
    ∧ (fst <$> getNextColor (ci + 8)) = (fst <$> getNextColor ci).
Proof.
  intros Hlo Hhi.
  destruct (getNextColors_spec 8 ci Hlo Hhi) as (colors & Hcs & Hlen & Hnth).
  exists colors. split; [exact Hcs |].
  assert (Hrot : colors = (drop (Z.to_nat (ci mod 8)) userColors
                           ++ take (Z.to_nat (ci mod 8)) userColors)%list).
  { pose proof (Z.mod_pos_bound ci 8 ltac:(lia)) as Hm.
    apply list_eq. intros j.
    destruct (decide (j < 8)%nat) as [Hj | Hj].
    - rewrite (Hnth j Hj).
      assert (Hi : ci mod 8 = 0 ∨ ci mod 8 = 1 ∨ ci mod 8 = 2 ∨ ci mod 8 = 3
                   ∨ ci mod 8 = 4 ∨ ci mod 8 = 5 ∨ ci mod 8 = 6 ∨ ci mod 8 = 7) by lia.
      do 8 (destruct j as [| j]; [
        rewrite Z.add_mod by lia;
        repeat (destruct Hi as [Hi | Hi]; [rewrite Hi; reflexivity |]);
        rewrite Hi; reflexivity |]).
      lia.
    - rewrite (lookup_ge_None_2 colors j) by lia. symmetry.
      apply lookup_ge_None_2. rewrite length_app, length_drop, length_take. cbn. lia. }
  split; [exact Hrot |]. split.
  - rewrite Hrot, Permutation_app_comm, take_drop. reflexivity.
  - destruct (getNextColor_color (ci + 8)) as (c1 & -> & H1); [lia |].
    destruct (getNextColor_color ci) as (c2 & -> & H2); [lia |].
    cbn. replace ((ci + 8) mod 8) with (ci mod 8) in H1
      by (rewrite <- (Z.mod_add ci 1 8) by lia; f_equal; lia).
    congruence.
Qed.

Lemma palette_cycles_witness :
  getNextColors 8 11
  = Some (["#f39c12"; "#9b59b6"; "#1abc9c"; "#e67e22"; "#34495e";
           "#e74c3c"; "#3498db"; "#2ecc71"], 19).
Proof.
  destruct (palette_cycles 11) as (colors & H & Hrot & _).
  - lia.
  - vm_compute. reflexivity.
  - rewrite H, Hrot. reflexivity.
Defined.

(** X21: [getNextColor] panics (index out of range) exactly when the
    counter is negative and not a multiple of 8, which is where [int]
    overflow leads: from the largest [int] the second call still succeeds
    and the third panics. *)
Theorem getNextColor_panics ci :
  (getNextColor ci = None ↔ ci < 0 ∧ Z.rem ci 8 ≠ 0)
  ∧ getNextColors 2 (2 ^ 63 - 1) = Some (["#34495e"; "#e74c3c"], - 2 ^ 63 + 1)
  ∧ getNextColors 3 (2 ^ 63 - 1) = None.
Proof.
  split; [apply getNextColor_None |]. split; reflexivity.
Qed.

(** X22: the colour counter is the number of connections accepted so
    far, in any room: the next accepted connection gets the colour of the
    palette at that number modulo 8, whichever room it joins. *)
Theorem colours_follow_the_accepted_connections es σ roomID userID :
  run es init = Some σ → Z.of_nat (accepted es) + 1 < 2 ^ 63 →
  colorIndex σ = Z.of_nat (accepted es)
  ∧ ∃ k σ' c,
      handleWebSocket roomID userID true σ = Some (Some k, σ')
      ∧ heap σ' !! k = Some c
      ∧ userColors !! (accepted es mod 8)%nat = Some (cl_Color c)
      ∧ colorIndex σ' = Z.of_nat (accepted es) + 1.
Proof.
  intros Hrun Hb.
  assert (Hwf : wf σ) by (eapply run_wf; [apply wf_init | exact Hrun]).
  assert (Hci : colorIndex σ = Z.of_nat (accepted es)).
  { apply (run_colorIndex es init σ 0 wf_init); [reflexivity | | exact Hrun].
    cbn [Nat.add]. lia. }
  split; [exact Hci |].
  destruct (getNextColor_next (colorIndex σ)) as (color & Hcol & Hlook); [lia .. |].
  destruct (handleWebSocket_state roomID userID σ color _ Hwf Hcol)
    as (uid & σ0 & Hres & Hfresh & Hnotin & Hj).
  eexists _, _, _. split; [exact Hj |]. cbn [heap colorIndex]. split.
  { rewrite lookup_fanout_twice, lookup_insert_eq. cbn [mbind option_bind].
    rewrite decide_False by exact Hnotin. cbn [mbind option_bind].
    rewrite decide_True by set_solver. reflexivity. }
  cbn. split; [| lia].
  rewrite <- Hlook, Hci. f_equal.
  change 8 with (Z.of_nat 8). rewrite <- Nat2Z.inj_mod. now rewrite Nat2Z.id.
Qed.

Lemma colours_follow_the_accepted_connections_witness :
  ∃ k σ' c,
    handleWebSocket "xyz789" "D" true two_rooms = Some (Some k, σ')
    ∧ heap σ' !! k = Some c ∧ cl_Color c = "#f39c12".
Proof.
  edestruct colours_follow_the_accepted_connections
    with (es := [EvConnect "abc123" "A" true; EvConnect "abc123" "B" true;
                 EvConnect "xyz789" "C" true])
         (roomID := "xyz789") (userID := "D") as (_ & k & σ' & c & H & Hc & Hcol & _).
  - vm_compute. reflexivity.
  - vm_compute. reflexivity.
  - exists k, σ', c. split; [exact H |]. split; [exact Hc |].
    vm_compute in Hcol. injection Hcol as Hcol. symmetry. exact Hcol.
Defined.

(* ===================================================================== *)
(** ** The seed *)
(* ===================================================================== *)

Section Seeds.

Lemma randomInt_seed max seed i seed' :
  randomInt max seed = Some (i, seed') →
  seed' = wrap_uint64 (seed * 1103515245 + 12345).
Proof.
  unfold randomInt. destruct (max =? 0); [discriminate |]. now intros [= _ <-].
Qed.

(** The multiplier is odd, hence invertible modulo 2^64. *)
Lemma seed_step_injective s1 s2 :
  0 ≤ s1 < 2 ^ 64 → 0 ≤ s2 < 2 ^ 64 →
  wrap_uint64 (s1 * 1103515245 + 12345) = wrap_uint64 (s2 * 1103515245 + 12345) →
  s1 = s2.
Proof.
  intros H1 H2 Heq. unfold wrap_uint64 in Heq.
  pose proof (Z.div_mod (s1 * 1103515245 + 12345) (2 ^ 64) ltac:(lia)) as E1.
  pose proof (Z.div_mod (s2 * 1103515245 + 12345) (2 ^ 64) ltac:(lia)) as E2.
  rewrite Heq in E1.
  set (q1 := (s1 * 1103515245 + 12345) / 2 ^ 64) in *.
  set (q2 := (s2 * 1103515245 + 12345) / 2 ^ 64) in *.
  set (r := (s2 * 1103515245 + 12345) mod 2 ^ 64) in *.
  assert (Hd : (s1 - s2) * 1103515245 = 2 ^ 64 * (q1 - q2)) by lia.
  assert (Hinv : 1103515245 * 17850689345304521573 = 1 + 1067858249 * 2 ^ 64)
    by reflexivity.
  assert (Hz : s1 - s2
               = 2 ^ 64 * ((q1 - q2) * 17850689345304521573 - (s1 - s2) * 1067858249)).
  { transitivity ((s1 - s2) * (1103515245 * 17850689345304521573)
                  - (s1 - s2) * 1067858249 * 2 ^ 64).
    - rewrite Hinv. ring.
    - rewrite Z.mul_assoc, Hd. ring. }
  set (z := (q1 - q2) * 17850689345304521573 - (s1 - s2) * 1067858249) in *.
  assert (2 ^ 64 = 18446744073709551616) by reflexivity.
  lia.
Qed.

Lemma seed_step_parity s :
  wrap_uint64 (s * 1103515245 + 12345) mod 2 = (s + 1) mod 2.
Proof.
  unfold wrap_uint64. change (2 ^ 64) with 18446744073709551616.
  pose proof (Z.div_mod (s * 1103515245 + 12345) 18446744073709551616 ltac:(lia)) as E.
  set (q := (s * 1103515245 + 12345) / 18446744073709551616) in *.
  set (r := (s * 1103515245 + 12345) mod 18446744073709551616) in *.
  replace r with (s * 1103515245 + 12345 - 18446744073709551616 * q) by lia.
  replace (s * 1103515245 + 12345 - 18446744073709551616 * q)
    with (s + 1 + (s * 551757622 + 6172 - 9223372036854775808 * q) * 2) by ring.
  apply Z.mod_add. lia.
Qed.

End Seeds.

(** X23: a call of [randomInt] leaves a seed that is a 64-bit value
    different from the seed it started from (its parity flips), and two
    different seeds never lead to the same seed. *)
Theorem the_seed_never_repeats_at_once max s1 s2 i1 i2 s1' s2' :
  0 ≤ s1 < 2 ^ 64 → 0 ≤ s2 < 2 ^ 64 →
  randomInt max s1 = Some (i1, s1') → randomInt max s2 = Some (i2, s2') →
  0 ≤ s1' < 2 ^ 64 ∧ s1' ≠ s1 ∧ s1' mod 2 = (s1 + 1) mod 2
  ∧ (s1' = s2' → s1 = s2).
Proof.
  intros H1 H2 R1 R2.
  apply randomInt_seed in R1. apply randomInt_seed in R2. subst s1' s2'.
  pose proof (seed_step_parity s1) as Hp.
  split; [apply wrap_uint64_range |]. split; [| split; [exact Hp |]].
  - intros Heq. rewrite Heq in Hp.
    pose proof (Z.div_mod s1 2 ltac:(lia)) as E1.
    pose proof (Z.div_mod (s1 + 1) 2 ltac:(lia)) as E2.
    rewrite <- Hp in E2. lia.
  - now apply seed_step_injective.
Qed.

Lemma the_seed_never_repeats_at_once_witness :
  ∃ i s', randomInt 62 randSeed_init = Some (i, s') ∧ s' ≠ 1 ∧ s' mod 2 = 0.
Proof.
  eexists _, _. split; [reflexivity |].
  edestruct the_seed_never_repeats_at_once
    with (max := 62) (s1 := 1) (s2 := 1) as (_ & Hne & Hpar & _).
  - split; [lia | reflexivity].
  - split; [lia | reflexivity].
  - reflexivity.
  - reflexivity.
  - split; [exact Hne | exact Hpar].
Defined.

(* ===================================================================== *)
(** ** Edges of the generator *)
(* ===================================================================== *)

Section GeneratorEdges.

Lemma randomInt_bounds max seed i seed' :
  randomInt max seed = Some (i, seed') → 0 ≤ i < Z.abs max.
Proof.
  unfold randomInt. destruct (Z.eqb_spec max 0) as [-> | Hne]; [discriminate |].
  intros [= <- <-].
  destruct (wrap_int_quotient _ (wrap_uint64_range (seed * 1103515245 + 12345)))
    as [-> [Hlo _]].
  set (q := wrap_uint64 (seed * 1103515245 + 12345) / 65536) in *.
  destruct (Z.lt_total max 0) as [Hneg | [Hz | Hpos]]; [| contradiction |].
  - replace max with (- - max) by lia. rewrite Z.rem_opp_r by lia.
    pose proof (Z.rem_bound_pos q (- max) Hlo ltac:(lia)). lia.
  - pose proof (Z.rem_bound_pos q max Hlo Hpos). lia.
Qed.

Lemma randomString_None n seed : randomString n seed = None ↔ n < 0.
Proof.
  unfold randomString. destruct (Z.ltb_spec n 0) as [Hneg | Hpos].
  - split; [intros _; exact Hneg | reflexivity].
  - destruct (randomString_loop_total (Z.to_nat n) seed) as (s & seed' & -> & _).
    split; [discriminate | lia].
Qed.

End GeneratorEdges.

(** X24: [randomInt] panics (division by zero) exactly for a zero bound,
    and for any other bound, negative ones included, its result is at
    least 0 and below the absolute value of the bound; [randomString]
    panics exactly for a negative length, returns the empty string without
    touching the seed for length 0, and otherwise a string of that length. *)
Theorem generator_edges max n seed :
  (randomInt max seed = None ↔ max = 0)
  ∧ (∀ i seed', randomInt max seed = Some (i, seed') → 0 ≤ i < Z.abs max)
  ∧ (randomString n seed = None ↔ n < 0)
  ∧ randomString 0 seed = Some (EmptyString, seed)
  ∧ (∀ s seed', randomString n seed = Some (s, seed') →
                Z.of_nat (String.length s) = n).
Proof.
  split.
  { unfold randomInt. destruct (Z.eqb_spec max 0) as [-> | Hne].
    - split; reflexivity.
    - split; [discriminate | contradiction]. }
  split; [intros i seed'; apply randomInt_bounds |].
  split; [apply randomString_None |]. split; [reflexivity |].
  intros s seed' H. unfold randomString in H.
  destruct (Z.ltb_spec n 0) as [Hneg | Hpos]; [discriminate |].
  destruct (randomString_loop_total (Z.to_nat n) seed) as (s0 & seed0 & H0 & Hlen & _).
  rewrite H in H0. injection H0 as <- <-. rewrite Hlen. lia.
Qed.

Lemma generator_edges_witness :
  ∃ i seed', randomInt (-62) randSeed_init = Some (i, seed') ∧ 0 ≤ i < 62.
Proof.
  destruct (generator_edges (-62) 8 randSeed_init) as (_ & Hb & _).
  eexists _, _. split; [reflexivity |]. apply (Hb _ _ eq_refl).
Defined.

(* ===================================================================== *)
(** ** What outlives a connection *)
(* ===================================================================== *)

Section Persistence.

Implicit Types (σ : State) (c : Client) (r : Room).

Lemma wf_teardown k σ σ' : wf σ → teardown k σ = Some σ' → wf σ'.
Proof.
  intros Hwf. unfold teardown.
  destruct (teardown_close k σ) as [σ1 |] eqn:H1; [| discriminate].
  cbn [mbind option_bind]. apply wf_teardown_leave.
  now apply (wf_teardown_close k σ).
Qed.

End Persistence.

(** X25: the drawings of a room outlive its members. When a connection
    leaves, the last one included, the room stays in the hub with its log,
    and the next connection that joins it (in every state in which the
    colour counter has not wrapped) is sent that log in its sync. *)
Theorem drawings_outlive_the_members σ k c r roomID userID unexpected :
  reachable σ → heap σ !! k = Some c → cl_closed c = false →
  Rooms σ !! cl_Room c = Some r → room_key roomID = cl_Room c →
  0 ≤ colorIndex σ →
  ∃ σ1 j σ2 uid color,
    readPump k [ReadError unexpected] σ = Some σ1
    ∧ members_of (cl_Room c) σ1 = Some (room_Clients r ∖ {[k]})
    ∧ (room_Clients r = {[k]} → members_of (cl_Room c) σ1 = Some ∅)
    ∧ elements_of (cl_Room c) σ1 = Some (room_Elements r)
    ∧ handleWebSocket roomID userID true σ1 = Some (Some j, σ2)
    ∧ sync_of j σ2 = Some (sync_payload (room_Elements r) uid color)
    ∧ members_of (cl_Room c) σ2 = Some ({[j]} ∪ room_Clients r ∖ {[k]}).
Proof.
  intros Hreach Hc Hopen Hr Hkey Hci. pose proof (reachable_wf _ Hreach) as Hwf.
  set (σu := if unexpected then log_Printf LogWebSocketError σ else σ).
  assert (Hwfu : wf σu) by (destruct unexpected; [apply wf_log_Printf |]; assumption).
  assert (Hcu : heap σu !! k = Some c) by now destruct unexpected.
  assert (Hru : Rooms σu !! cl_Room c = Some r) by now destruct unexpected.
  assert (Hciu : colorIndex σu = colorIndex σ) by now destruct unexpected.
  pose proof (teardown_state k c r σu Hwfu Hcu Hopen Hru) as Ht. cbv zeta in Ht.
  pose proof (wf_teardown _ _ _ Hwfu Ht) as Hwf1.
  match type of Ht with _ = Some ?s => set (σ1 := s) in * end.
  assert (Hr1 : Rooms σ1 !! cl_Room c = Some (RemoveClient k r))
    by (cbn; apply lookup_insert_eq).
  destruct (getNextColor_total (colorIndex σ1)) as (color & ci & Hcol);
    [cbn; now rewrite Hciu |].
  destruct (handleWebSocket_state roomID userID σ1 color ci Hwf1 Hcol)
    as (uid & σ0 & Hres & Hfresh & Hnotin & Hj).
  destruct (resolve_userID_total userID σ1) as (uid' & σ0' & Hres' & Huid & _).
  rewrite Hres in Hres'. injection Hres' as <- <-.
  rewrite Hkey in Hj, Hnotin.
  assert (Hro : room_of (cl_Room c) σ1 = RemoveClient k r)
    by (unfold room_of; now rewrite Hr1).
  rewrite Hro in Hj, Hnotin.
  eexists σ1, _, _, uid, color. split; [exact Ht |].
  split; [unfold members_of; now rewrite Hr1 |].
  split.
  { intros Hlast. unfold members_of. rewrite Hr1. cbn. f_equal. set_solver. }
  split; [unfold elements_of; now rewrite Hr1 |].
  split; [exact Hj |]. split.
  - unfold sync_of. cbn [heap].
    rewrite lookup_fanout_twice, lookup_insert_eq. cbn [mbind option_bind].
    rewrite decide_False by exact Hnotin. cbn [mbind option_bind].
    rewrite decide_True by set_solver. cbn.
    now rewrite Marshal_sync.
  - unfold members_of. cbn [Rooms]. rewrite lookup_insert_eq. reflexivity.
Qed.

Lemma drawings_outlive_the_members_witness :
  ∃ σ1 j σ2 uid color,
    readPump 0%nat [ReadError false] (state_of [EvConnect "abc123" "A" true;
                                               EvFrame 0%nat draw_frame]) = Some σ1
    ∧ members_of "abc123" σ1 = Some ∅
    ∧ handleWebSocket "abc123" "B" true σ1 = Some (Some j, σ2)
    ∧ sync_of j σ2
      = Some (sync_payload [mkDrawElement "e1" "line" 1%float 2%float 3%float 4%float
                              "#000000" 2%float "A"] uid color).
Proof.
  edestruct drawings_outlive_the_members
    with (σ := state_of [EvConnect "abc123" "A" true; EvFrame 0%nat draw_frame])
         (k := 0%nat) (roomID := "abc123") (userID := "B") (unexpected := false)
    as (σ1 & j & σ2 & uid & color & H1 & _ & Hlast & _ & H2 & Hsync & _).
  - exists [EvConnect "abc123" "A" true; EvFrame 0%nat draw_frame].
    vm_compute. reflexivity.
  - vm_compute. reflexivity.
  - reflexivity.
  - vm_compute. reflexivity.
  - reflexivity.
  - vm_compute. discriminate.
  - exists σ1, j, σ2, uid, color. split; [exact H1 |].
    split; [apply Hlast; reflexivity |]. split; [exact H2 | exact Hsync].
Defined.

Section AfterTheTeardown.

Implicit Types (σ : State) (c : Client).

(** On a closed socket the write pump writes nothing: its first write
    fails and it returns. *)
Lemma writePump_closed_socket k c writes σ :
  heap σ !! k = Some c → conn_closed (cl_Conn c) = true →
  ∃ σ' c', writePump k writes σ = Some σ' ∧ heap σ' !! k = Some c'
           ∧ cl_Conn c' = cl_Conn c
           ∧ ch_buf (cl_Send c') `suffix_of` ch_buf (cl_Send c)
           ∧ (length (ch_buf (cl_Send c)) ≤ S (length (ch_buf (cl_Send c'))))%nat.
Proof.
  intros Hc Hcl. destruct writes as [| ok rest]; cbn [writePump].
  { exists σ, c. split; [reflexivity |]. split; [exact Hc |].
    split; [reflexivity |]. split; [reflexivity | lia]. }
  rewrite Hc. cbn [mbind option_bind]. unfold chan_recv.
  assert (Heta : Conn_Close (cl_Conn c) = cl_Conn c).
  { destruct (cl_Conn c) as [w cl]. cbn in *. now subst. }
  destruct (ch_buf (cl_Send c)) as [| msg buf] eqn:Hbuf.
  - destruct (ch_closed (cl_Send c)).
    + eexists _, _. split; [reflexivity |]. cbn. rewrite lookup_insert_eq.
      split; [reflexivity |]. cbn. rewrite Hbuf. split; [exact Heta |].
      split; [reflexivity | cbn; lia].
    + exists σ, c. split; [reflexivity |]. split; [exact Hc |].
      split; [reflexivity |]. rewrite Hbuf. split; [reflexivity | cbn; lia].
  - rewrite Hcl, andb_false_r.
    eexists _, _. split; [reflexivity |]. cbn. rewrite lookup_insert_eq.
    split; [reflexivity |]. cbn. split; [exact Heta |].
    split; [now exists [msg] | lia].
Qed.

End AfterTheTeardown.

(** X26: once the deferred function of [readPump] has run, nothing more
    is written to the socket of that connection: the payloads still in its
    queue are never delivered, whatever the write pump does afterwards (it
    takes at most one more payload from the queue and returns). *)
Theorem nothing_is_written_after_the_teardown σ k c unexpected rest writes :
  reachable σ → heap σ !! k = Some c → cl_closed c = false →
  ∃ σ1 σ2 c1 c2,
    readPump k (ReadError unexpected :: rest) σ = Some σ1
    ∧ heap σ1 !! k = Some c1
    ∧ ch_buf (cl_Send c1) = ch_buf (cl_Send c)
    ∧ writePump k writes σ1 = Some σ2
    ∧ heap σ2 !! k = Some c2
    ∧ conn_written (cl_Conn c2) = conn_written (cl_Conn c)
    ∧ conn_closed (cl_Conn c2) = true
    ∧ (length (ch_buf (cl_Send c)) ≤ S (length (ch_buf (cl_Send c2))))%nat.
Proof.
  intros Hreach Hc Hopen. pose proof (reachable_wf _ Hreach) as Hwf.
  destruct (reachable_readers _ Hreach _ _ Hc Hopen) as (r & Hr & Hk).
  set (σu := if unexpected then log_Printf LogWebSocketError σ else σ).
  assert (Hwfu : wf σu) by (destruct unexpected; [apply wf_log_Printf |]; assumption).
  assert (Hcu : heap σu !! k = Some c) by now destruct unexpected.
  assert (Hru : Rooms σu !! cl_Room c = Some r) by now destruct unexpected.
  pose proof (teardown_state k c r σu Hwfu Hcu Hopen Hru) as Ht. cbv zeta in Ht.
  match type of Ht with _ = Some ?s => set (σ1 := s) in * end.
  set (gone := set_cl_Conn (Conn_Close (cl_Conn c))
                 (set_cl_Send (mkChan (ch_buf (cl_Send c)) (ch_cap (cl_Send c)) true)
                    (set_cl_closed true c))).
  assert (H1 : heap σ1 !! k = Some gone).
  { cbn [heap σ1]. rewrite lookup_fanout_twice, lookup_insert_eq.
    cbn [mbind option_bind].
    rewrite decide_False by set_solver. cbn [mbind option_bind].
    rewrite decide_False by set_solver. reflexivity. }
  destruct (writePump_closed_socket k gone writes σ1 H1 eq_refl)
    as (σ2 & c2 & H2 & Hc2 & Hconn & _ & Hlen).
  exists σ1, σ2, gone, c2. split; [exact Ht |]. split; [exact H1 |].
  split; [reflexivity |]. split; [exact H2 |]. split; [exact Hc2 |].
  rewrite Hconn. split; [reflexivity |]. split; [reflexivity | exact Hlen].
Qed.

Lemma nothing_is_written_after_the_teardown_witness :
  ∃ σ1 σ2 c2,
    readPump 1%nat [ReadError false] two_members = Some σ1
    ∧ writePump 1%nat [true; true] σ1 = Some σ2
    ∧ heap σ2 !! 1%nat = Some c2
    ∧ length (conn_written (cl_Conn c2)) = 1%nat
    ∧ (length <$> queue_of 1%nat two_members) = Some 1%nat.
Proof.
  edestruct nothing_is_written_after_the_teardown
    with (σ := two_members) (k := 1%nat) (unexpected := false) (rest := @nil read)
         (writes := [true; true])
    as (σ1 & σ2 & c1 & c2 & H1 & _ & _ & H2 & Hc2 & Hw & _).
  - exact two_members_reachable.
  - vm_compute. reflexivity.
  - reflexivity.
  - exists σ1, σ2, c2. split; [exact H1 |]. split; [exact H2 |].
    split; [exact Hc2 |]. split; [rewrite Hw; reflexivity |].
    vm_compute. reflexivity.
Defined.

(* ===================================================================== *)
(** ** Runs in sequence *)
(* ===================================================================== *)

Section RunsInSequence.

Implicit Types (σ : State) (e : event).

Lemma run_app es1 es2 σ : run (es1 ++ es2) σ = run es1 σ ≫= run es2.
Proof.
  revert σ. induction es1 as [| e es1 IH]; intros σ; cbn [app run]; [reflexivity |].
  destruct (exec e σ) as [σ1 |]; cbn; [apply IH | reflexivity].
Qed.

Lemma reachable_run es σ σ' : reachable σ → run es σ = Some σ' → reachable σ'.
Proof.
  intros [es0 H0] H. exists (es0 ++ es)%list. now rewrite run_app, H0.
Qed.

End RunsInSequence.

(* ===================================================================== *)
(** ** The id generator under overlapping requests *)
(* ===================================================================== *)

Section Schedules.

Implicit Types (σ : State) (e : event) (b : string).

Lemma seed_after_S (n : nat) seed :
  seed_after (S n) seed = wrap_uint64 (seed_after n seed * 1103515245 + 12345).
Proof.
  revert seed. induction n as [| n IH]; intros seed; [reflexivity |].
  change (seed_after (S (S n)) seed)
    with (seed_after (S n) (wrap_uint64 (seed * 1103515245 + 12345))).
  now rewrite IH.
Qed.

Lemma seed_after_add (n m : nat) seed :
  seed_after (n + m) seed = seed_after m (seed_after n seed).
Proof.
  revert seed. induction n as [| n IH]; intros seed; [reflexivity |].
  cbn [Nat.add seed_after]. apply IH.
Qed.

Lemma draws_app es1 es2 : draws (es1 ++ es2) = (draws es1 + draws es2)%nat.
Proof. induction es1 as [| e es1 IH]; cbn [app draws]; lia. Qed.

Lemma list_ascii_of_string_snoc b a :
  list_ascii_of_string (String.append b (String a EmptyString))
  = (list_ascii_of_string b ++ [a])%list.
Proof.
  induction b as [| a0 b IH]; [reflexivity |].
  change (String.append (String a0 b) (String a EmptyString))
    with (String a0 (String.append b (String a EmptyString))).
  cbn [list_ascii_of_string app]. now f_equal.
Qed.

Lemma length_snoc b a :
  String.length (String.append b (String a EmptyString)) = S (String.length b).
Proof.
  induction b as [| a0 b IH]; [reflexivity |].
  change (String.append (String a0 b) (String a EmptyString))
    with (String a0 (String.append b (String a EmptyString))).
  cbn [String.length]. now f_equal.
Qed.

(** The [p]-th call of [randomInt] of the process, made by a turn of
    [randomString]. *)
Lemma randomString_turn_at b (p : nat) :
  ∃ a, char_at p = Some a
       ∧ randomString_turn b (seed_after p randSeed_init)
         = Some (String.append b (String a EmptyString),
                 seed_after (S p) randSeed_init).
Proof.
  unfold char_at, randomString_turn. rewrite seed_after_S.
  destruct (randomInt_range (len letters) (seed_after p randSeed_init))
    as (i & seed1 & -> & Hi & ->); [rewrite len_letters; lia |].
  destruct (index_string_in_range letters i Hi) as (a & Ha & _).
  exists a. cbn [mbind option_bind]. rewrite Ha. split; reflexivity.
Qed.

Lemma randomString_loop_seed (n : nat) seed s seed' :
  randomString_loop n seed = Some (s, seed') → seed' = seed_after n seed.
Proof.
  revert seed s. induction n as [| n IH]; intros seed s; cbn [randomString_loop].
  - now intros [= _ <-].
  - destruct (randomInt (len letters) seed) as [[i seed1] |] eqn:Hri; [| discriminate].
    cbn [mbind option_bind].
    destruct (index_string letters i); [| discriminate]. cbn [mbind option_bind].
    destruct (randomString_loop n seed1) as [[rest seed2] |] eqn:Hrest;
      [| discriminate].
    cbn [mbind option_bind]. intros [= _ <-].
    rewrite (IH _ _ Hrest), (randomInt_seed _ _ _ _ Hri). reflexivity.
Qed.

(** An uninterrupted call of [randomString] takes consecutive draws. *)
Lemma randomString_loop_at (n p : nat) s seed' :
  randomString_loop n (seed_after p randSeed_init) = Some (s, seed') →
  seed' = seed_after (p + n) randSeed_init ∧ drawn_at (seq p n) s.
Proof.
  revert p s seed'. induction n as [| n IH]; intros p s seed'; cbn [randomString_loop].
  - intros [= <- <-]. rewrite Nat.add_0_r. split; reflexivity.
  - destruct (randomInt_range (len letters) (seed_after p randSeed_init))
      as (i & seed1 & Hri & Hi & Hs1); [rewrite len_letters; lia |].
    destruct (index_string_in_range letters i Hi) as (a & Ha & _).
    assert (Hch : char_at p = Some a).
    { unfold char_at. rewrite Hri. exact Ha. }
    rewrite Hri. cbn [mbind option_bind]. rewrite Ha. cbn [mbind option_bind].
    rewrite <- seed_after_S in Hs1. subst seed1.
    destruct (randomString_loop n (seed_after (S p) randSeed_init))
      as [[rest seed2] |] eqn:Hrest; [| discriminate].
    cbn [mbind option_bind]. intros [= <- <-].
    destruct (IH _ _ _ Hrest) as [-> Hat].
    split; [f_equal; lia |].
    unfold drawn_at in *. cbn [list_ascii_of_string seq].
    rewrite !fmap_cons, Hat, Hch. reflexivity.
Qed.

Lemma Room_Broadcast_drawn rid msg sender σ σ' :
  Room_Broadcast rid msg sender σ = Some σ' → drawn σ' = drawn σ.
Proof.
  unfold Room_Broadcast. destruct (Rooms σ !! rid); [| discriminate]. cbn.
  destruct (Broadcast _ _ _ _); [| discriminate]. cbn. now intros [= <-].
Qed.

Lemma Room_BroadcastToAll_drawn rid msg σ σ' :
  Room_BroadcastToAll rid msg σ = Some σ' → drawn σ' = drawn σ.
Proof.
  unfold Room_BroadcastToAll. destruct (Rooms σ !! rid); [| discriminate]. cbn.
  destruct (BroadcastToAll _ _ _); [| discriminate]. cbn. now intros [= <-].
Qed.

Lemma on_Room_drawn rid f σ σ' :
  on_Room rid f σ = Some σ' → drawn σ' = drawn σ.
Proof.
  unfold on_Room. destruct (Rooms σ !! rid); [| discriminate]. cbn.
  now intros [= <-].
Qed.

Lemma handle_frame_drawn k f σ σ' :
  handle_frame k f σ = Some σ' → drawn σ' = drawn σ.
Proof.
  unfold handle_frame. destruct (Unmarshal_Message f) as [m |];
    [| now intros [= <-]].
  unfold route. destruct (heap σ !! k) as [c |]; [| discriminate].
  cbn [mbind option_bind].
  destruct (String.eqb _ TypeDraw).
  { unfold store_draw. destruct (Unmarshal_DrawElement _).
    - destruct (on_Room _ _ σ) as [σ1 |] eqn:E1; [| discriminate].
      cbn [mbind option_bind]. intros H.
      rewrite (Room_Broadcast_drawn _ _ _ _ _ H). apply (on_Room_drawn _ _ _ _ E1).
    - cbn [mbind option_bind]. apply Room_Broadcast_drawn. }
  destruct (String.eqb _ TypeCursor); [apply Room_Broadcast_drawn |].
  destruct (String.eqb _ TypeClear); [| now intros [= <-]].
  destruct (on_Room _ _ σ) as [σ1 |] eqn:E1; [| discriminate].
  cbn [mbind option_bind]. intros H.
  rewrite (Room_BroadcastToAll_drawn _ _ _ _ H). apply (on_Room_drawn _ _ _ _ E1).
Qed.

Lemma teardown_close_drawn k σ σ' :
  teardown_close k σ = Some σ' → drawn σ' = drawn σ.
Proof.
  unfold teardown_close. destruct (heap σ !! k) as [c |]; [| discriminate].
  cbn [mbind option_bind]. destruct (chan_close _); [| discriminate].
  cbn. now intros [= <-].
Qed.

Lemma teardown_leave_drawn k σ σ' :
  teardown_leave k σ = Some σ' → drawn σ' = drawn σ.
Proof.
  unfold teardown_leave. destruct (heap σ !! k) as [c |]; [| discriminate].
  cbn [mbind option_bind].
  destruct (on_Room _ _ σ) as [σ1 |] eqn:E1; [| discriminate].
  cbn [mbind option_bind].
  destruct (Room_Broadcast _ _ _ _) as [σ2 |] eqn:E2; [| discriminate].
  cbn [mbind option_bind].
  destruct (Rooms σ2 !! cl_Room c); [| discriminate]. cbn [mbind option_bind].
  destruct (GetUserList _ _); [| discriminate]. cbn [mbind option_bind].
  destruct (Room_BroadcastToAll _ _ σ2) as [σ3 |] eqn:E3; [| discriminate].
  cbn [mbind option_bind]. intros [= <-]. cbn.
  rewrite (Room_BroadcastToAll_drawn _ _ _ _ E3), (Room_Broadcast_drawn _ _ _ _ _ E2).
  cbn. apply (on_Room_drawn _ _ _ _ E1).
Qed.

Lemma writePump_step_drawn k ok σ σ' :
  writePump_step k ok σ = Some σ' → drawn σ' = drawn σ.
Proof.
  unfold writePump_step. destruct (heap σ !! k) as [c |]; [| discriminate].
  cbn [mbind option_bind]. destruct (chan_recv _); now intros [= <-].
Qed.

(** The client object of an accepted connection carries the id the handler
    resolved, whatever the announcements did to its queue. *)
Lemma handleWebSocket_id roomID userID σ k σ' :
  wf σ → handleWebSocket roomID userID true σ = Some (Some k, σ') →
  ∃ uid σ1 c,
    resolve_userID userID σ = Some (uid, σ1)
    ∧ heap σ !! k = None ∧ heap σ' !! k = Some c ∧ cl_ID c = uid
    ∧ randSeed σ' = randSeed σ1 ∧ drawn σ' = drawn σ.
Proof.
  intros Hwf Hj.
  destruct (handleWebSocket_color _ _ _ _ Hj) as (color & ci & Hcol).
  destruct (handleWebSocket_state roomID userID σ color ci Hwf Hcol)
    as (uid & σ1 & Hres & Hfresh & _ & Hst).
  rewrite Hj in Hst. injection Hst as -> ->. cbn [heap randSeed drawn].
  set (k := fresh (dom (heap σ))) in *.
  match goal with
  | |- context [<[k := ?c]> (heap σ)] => set (c1 := c)
  end.
  assert (H1 : (<[k := c1]> (heap σ)) !! k = Some c1) by apply lookup_insert_eq.
  edestruct fanout_evolves as (c2 & H2 & He2 & Hco2); [exact H1 | reflexivity |].
  edestruct fanout_evolves as (c3 & H3 & He3 & _); [exact H2 | exact Hco2 |].
  exists uid, σ1, c3. split; [exact Hres |]. split; [exact Hfresh |].
  split; [exact H3 |].
  split; [now rewrite (ev_ID _ _ He3), (ev_ID _ _ He2) |]. split; reflexivity.
Qed.

Lemma handleWebSocket_drawn roomID userID ok σ res σ' :
  wf σ → handleWebSocket roomID userID ok σ = Some (res, σ') → drawn σ' = drawn σ.
Proof.
  intros Hwf H. destruct ok.
  - destruct (handleWebSocket_color _ _ _ _ H) as (color & ci & Hcol).
    destruct (handleWebSocket_state roomID userID σ color ci Hwf Hcol)
      as (uid & σ1 & Hres & _ & _ & Hst).
    rewrite H in Hst. now injection Hst as _ ->.
  - destruct (handleWebSocket_refused roomID userID σ) as (uid & σ1 & Hres & Hr).
    rewrite Hr in H. injection H as _ <-. cbn.
    exact (resolve_userID_drawn _ _ _ _ Hres).
Qed.

(** What one event does to the ids under construction and to the seed. *)
Lemma exec_draws e σ σ' :
  wf σ → exec e σ = Some σ' →
  randSeed σ' = seed_after (draws_of e) (randSeed σ)
  ∧ match e with
    | EvDraw q =>
        ∃ b, randomString_turn (default EmptyString (drawn σ !! q)) (randSeed σ)
             = Some (b, randSeed σ')
             ∧ (String.length (default EmptyString (drawn σ !! q)) < 8)%nat
             ∧ drawn σ' = <[q := b]> (drawn σ)
    | EvAccept q _ _ => drawn σ' = delete q (drawn σ)
    | _ => drawn σ' = drawn σ
    end.
Proof.
  intros Hwf He.
  assert (Hconnect : ∀ (roomID userID : string) (ok : bool) σ σ',
             wf σ → exec (EvConnect roomID userID ok) σ = Some σ' →
             randSeed σ' = seed_after (if String.eqb userID "" then 8 else 0)%nat
                             (randSeed σ)
             ∧ drawn σ' = drawn σ).
  { clear. intros roomID userID ok σ σ' Hwf He.
    pose proof (exec_seed _ _ _ Hwf He) as Hs. cbn [generates] in Hs.
    cbn [exec] in He.
    destruct (handleWebSocket roomID userID ok σ) as [[res σ1] |] eqn:H;
      [| discriminate].
    cbn in He. injection He as <-.
    split; [| exact (handleWebSocket_drawn _ _ _ _ _ _ Hwf H)].
    destruct (String.eqb userID ""); [| exact Hs].
    destruct Hs as [id Hid]. unfold generateID, randomString in Hid.
    exact (randomString_loop_seed _ _ _ _ Hid). }
  destruct e as [roomID userID ok | j f | j u | j | j ok | q | q roomID ok];
    cbn [draws_of seed_after].
  - exact (Hconnect _ _ _ _ _ Hwf He).
  - pose proof (exec_seed _ _ _ Hwf He) as Hs. cbn [generates] in Hs.
    split; [exact Hs |]. cbn [exec] in He.
    destruct (reading j σ); [| discriminate]. exact (handle_frame_drawn _ _ _ _ He).
  - pose proof (exec_seed _ _ _ Hwf He) as Hs. cbn [generates] in Hs.
    split; [exact Hs |]. cbn [exec] in He.
    destruct (reading j σ); [| discriminate].
    rewrite (teardown_close_drawn _ _ _ He). now destruct u.
  - pose proof (exec_seed _ _ _ Hwf He) as Hs. cbn [generates] in Hs.
    split; [exact Hs |]. cbn [exec] in He.
    destruct (leaving j σ); [| discriminate]. exact (teardown_leave_drawn _ _ _ He).
  - pose proof (exec_seed _ _ _ Hwf He) as Hs. cbn [generates] in Hs.
    split; [exact Hs |]. exact (writePump_step_drawn _ _ _ _ He).
  - destruct (exec_EvDraw _ _ _ He) as (b & seed & Hlt & Ht & ->).
    cbn [randSeed drawn set_drawn set_randSeed].
    split; [| exists b; auto].
    unfold randomString_turn in Ht.
    destruct (randomInt (len letters) (randSeed σ)) as [[i s1] |] eqn:Hri;
      [| discriminate].
    cbn [mbind option_bind] in Ht.
    destruct (index_string letters i); [| discriminate]. injection Ht as _ <-.
    exact (randomInt_seed _ _ _ _ Hri).
  - destruct (exec_EvAccept _ _ _ _ _ He) as (uid & σ1 & _ & Hlen & He' & ->).
    destruct (Hconnect _ _ _ _ _ Hwf He') as [Hs Hd].
    cbn [randSeed drawn set_drawn]. rewrite Hd.
    split; [| reflexivity]. destruct uid; [discriminate | exact Hs].
Qed.

Lemma run_ind_snoc (P : list event → State → Prop) :
  P [] init →
  (∀ es σ e σ', run es init = Some σ → P es σ → exec e σ = Some σ' →
                P (es ++ [e])%list σ') →
  ∀ es σ, run es init = Some σ → P es σ.
Proof.
  intros H0 Hstep es. induction es as [| e es IH] using rev_ind; intros σ Hrun.
  - injection Hrun as <-. exact H0.
  - rewrite run_app in Hrun.
    destruct (run es init) as [σ1 |] eqn:H1; [| discriminate].
    cbn [mbind option_bind run] in Hrun.
    destruct (exec e σ1) as [σ2 |] eqn:He; [| discriminate].
    cbn in Hrun. injection Hrun as <-. eapply Hstep; eauto.
Qed.

Lemma increasing_below_le (n m : nat) ps :
  (n ≤ m)%nat → increasing_below n ps → increasing_below m ps.
Proof.
  intros Hle [Hs Hb]. split; [exact Hs |].
  eapply Forall_impl; [exact Hb |]. intros p Hp. cbn in Hp. lia.
Qed.

Lemma increasing_below_snoc (n : nat) ps :
  increasing_below n ps → increasing_below (S n) (ps ++ [n]).
Proof.
  intros [Hs Hb]. split.
  - induction ps as [| p ps IH]; cbn [app].
    + repeat constructor.
    + apply StronglySorted_inv in Hs as [Hs Hp].
      apply Forall_cons in Hb as [Hpn Hb].
      constructor; [now apply IH |].
      apply Forall_app. split; [exact Hp |]. now repeat constructor.
  - apply Forall_app. split.
    + eapply Forall_impl; [exact Hb |]. intros p Hp. cbn in Hp. lia.
    + repeat constructor.
Qed.

Lemma increasing_below_seq (p n : nat) : increasing_below (p + n) (seq p n).
Proof.
  split.
  - revert p. induction n as [| n IH]; intros p; cbn [seq]; constructor.
    + apply IH.
    + apply Forall_forall. intros x Hx. apply elem_of_seq in Hx. lia.
  - apply Forall_forall. intros x Hx. apply elem_of_seq in Hx. lia.
Qed.

(** Along every run the seed is the initial seed advanced once for each
    draw, and each id under construction holds characters of the one
    sequence of draws, at increasing positions. *)
Lemma run_draws es σ :
  run es init = Some σ →
  wf σ
  ∧ randSeed σ = seed_after (draws es) randSeed_init
  ∧ ∀ q b, drawn σ !! q = Some b →
           (String.length b ≤ 8)%nat
           ∧ ∃ ps, drawn_at ps b ∧ increasing_below (draws es) ps.
Proof.
  revert es σ. apply run_ind_snoc.
  - split; [apply wf_init |]. split; [reflexivity |].
    intros q b Hq. cbn in Hq. rewrite lookup_empty in Hq. discriminate.
  - intros es σ e σ' Hrun (Hwf & Hseed & Hinv) He.
    destruct (exec_draws _ _ _ Hwf He) as [Hs Hd].
    rewrite draws_app. cbn [draws]. rewrite Nat.add_0_r.
    split; [exact (exec_wf _ _ _ Hwf He) |].
    split; [now rewrite Hs, Hseed, seed_after_add |].
    assert (Hkeep : ∀ q b, drawn σ !! q = Some b →
              (String.length b ≤ 8)%nat
              ∧ ∃ ps, drawn_at ps b
                      ∧ increasing_below (draws es + draws_of e) ps).
    { intros q b Hq. destruct (Hinv _ _ Hq) as (Hlen & ps & Hat & Hinc).
      split; [exact Hlen |]. exists ps. split; [exact Hat |].
      eapply increasing_below_le; [| exact Hinc]. lia. }
    destruct e as [roomID userID ok | j f | j u | j | j ok | q0 | q0 roomID ok];
      try (rewrite Hd; exact Hkeep).
    + destruct Hd as (b' & Ht & Hlt & ->). intros q b Hq.
      rewrite lookup_insert in Hq. case_decide as Hqq; [| now apply (Hkeep q)].
      injection Hq as <-. subst q0. rewrite Hseed in Ht.
      destruct (randomString_turn_at (default EmptyString (drawn σ !! q)) (draws es))
        as (a & Ha & Ht').
      rewrite Ht' in Ht. injection Ht as <- _.
      rewrite length_snoc. split; [lia |].
      assert (∃ ps, drawn_at ps (default EmptyString (drawn σ !! q))
                    ∧ increasing_below (draws es) ps) as (ps & Hat & Hinc).
      { destruct (drawn σ !! q) as [b0 |] eqn:Hq0.
        - now destruct (Hinv _ _ Hq0).
        - exists []. split; [reflexivity |]. split; constructor. }
      exists (ps ++ [draws es])%list. split.
      * unfold drawn_at in *.
        rewrite list_ascii_of_string_snoc, !fmap_app, Hat. cbn. now rewrite Ha.
      * cbn [draws_of]. rewrite Nat.add_1_r. now apply increasing_below_snoc.
    + rewrite Hd. intros q b Hq. apply lookup_delete_Some in Hq as [_ Hq].
      now apply (Hkeep q).
Qed.

End Schedules.

Section Uninterrupted.

Implicit Types (σ : State) (e : event) (b : string).

Lemma append_snoc_assoc b a s :
  String.append (String.append b (String a EmptyString)) s
  = String.append b (String a s).
Proof.
  induction b as [| a0 b IH]; [reflexivity |].
  change (String.append (String.append (String a0 b) (String a EmptyString)) s)
    with (String a0 (String.append (String.append b (String a EmptyString)) s)).
  now rewrite IH.
Qed.

(** The turns of one handler, taken with nothing in between, fill [b] as
    the loop of [randomString] does. *)
Lemma run_EvDraw_repeat q (n : nat) σ s seed' :
  (String.length (default EmptyString (drawn σ !! q)) + S n ≤ 8)%nat →
  randomString_loop (S n) (randSeed σ) = Some (s, seed') →
  run (repeat (EvDraw q) (S n)) σ
  = Some (set_drawn (<[q := String.append (default EmptyString (drawn σ !! q)) s]>
                       (drawn σ))
            (set_randSeed seed' σ)).
Proof.
  revert σ s seed'. induction n as [| n IH]; intros σ s seed' Hlen Hloop.
  - cbn [randomString_loop] in Hloop. cbn [repeat run exec]. cbv zeta.
    destruct (Nat.ltb_spec (String.length (default EmptyString (drawn σ !! q))) 8);
      [| lia].
    unfold randomString_turn.
    destruct (randomInt (len letters) (randSeed σ)) as [[i seed1] |];
      [| discriminate].
    cbn [mbind option_bind] in *.
    destruct (index_string letters i) as [a |]; [| discriminate].
    cbn [mbind option_bind] in *. now injection Hloop as <- <-.
  - change (repeat (EvDraw q) (S (S n))) with (EvDraw q :: repeat (EvDraw q) (S n)).
    change (randomString_loop (S (S n)) (randSeed σ))
      with ('(i, seed1) ← randomInt (len letters) (randSeed σ);
            a ← index_string letters i;
            '(rest, seed2) ← randomString_loop (S n) seed1;
            Some (String a rest, seed2)) in Hloop.
    cbn [run exec]. cbv zeta.
    destruct (Nat.ltb_spec (String.length (default EmptyString (drawn σ !! q))) 8);
      [| lia].
    unfold randomString_turn.
    destruct (randomInt (len letters) (randSeed σ)) as [[i seed1] |];
      [| discriminate].
    cbn [mbind option_bind] in *.
    destruct (index_string letters i) as [a |]; [| discriminate].
    cbn [mbind option_bind] in *.
    destruct (randomString_loop (S n) seed1) as [[rest seed2] |] eqn:Hrest;
      [| discriminate].
    cbn [mbind option_bind] in Hloop. injection Hloop as <- <-.
    set (b := default EmptyString (drawn σ !! q)) in *.
    set (σ1 := set_drawn _ (set_randSeed seed1 σ)).
    assert (Hb1 : default EmptyString (drawn σ1 !! q)
                  = String.append b (String a EmptyString)).
    { unfold σ1. cbn [drawn set_drawn]. now rewrite lookup_insert_eq. }
    rewrite (IH σ1 rest seed2); [| rewrite Hb1, length_snoc; lia | exact Hrest].
    rewrite Hb1, append_snoc_assoc. unfold σ1. cbn [drawn set_drawn].
    rewrite insert_insert_eq. reflexivity.
Qed.

(** The handler neither reads nor writes the ids under construction. *)
Lemma resolve_userID_set_drawn userID d σ :
  resolve_userID userID (set_drawn d σ)
  = (λ x, (x.1, set_drawn d x.2)) <$> resolve_userID userID σ.
Proof.
  unfold resolve_userID. destruct (String.eqb userID ""); [| reflexivity].
  cbn [randSeed set_drawn].
  destruct (generateID (randSeed σ)) as [[id seed] |]; reflexivity.
Qed.

Lemma handleWebSocket_set_drawn roomID userID ok d σ :
  wf σ →
  handleWebSocket roomID userID ok (set_drawn d σ)
  = (λ x, (x.1, set_drawn d x.2)) <$> handleWebSocket roomID userID ok σ.
Proof.
  intros Hwf. pose proof (wf_set_drawn d σ Hwf) as Hwfd.
  pose proof (resolve_userID_set_drawn userID d σ) as Hres.
  destruct ok.
  - destruct (getNextColor (colorIndex σ)) as [[color ci] |] eqn:Hcol.
    + destruct (handleWebSocket_state roomID userID _ color ci Hwfd Hcol)
        as (uid1 & σ1 & Hres1 & _ & _ & H1).
      destruct (handleWebSocket_state roomID userID _ color ci Hwf Hcol)
        as (uid2 & σ2 & Hres2 & _ & _ & H2).
      rewrite Hres1, Hres2 in Hres. cbn in Hres. injection Hres as -> ->.
      rewrite H1, H2. reflexivity.
    + destruct (handleWebSocket roomID userID true (set_drawn d σ)) as [x |] eqn:H1.
      { destruct (handleWebSocket_color _ _ _ _ H1) as (color & ci & Hc).
        cbn in Hc. congruence. }
      destruct (handleWebSocket roomID userID true σ) as [x |] eqn:H2; [| reflexivity].
      destruct (handleWebSocket_color _ _ _ _ H2) as (color & ci & Hc). congruence.
  - destruct (handleWebSocket_refused roomID userID (set_drawn d σ))
      as (uid1 & σ1 & Hres1 & ->).
    destruct (handleWebSocket_refused roomID userID σ) as (uid2 & σ2 & Hres2 & ->).
    rewrite Hres1, Hres2 in Hres. cbn in Hres. injection Hres as -> ->.
    reflexivity.
Qed.

(** A request handled without interruption is the schedule in which the
    eight turns of its handler and the rest of the handler follow each
    other. *)
Lemma connect_is_an_uninterrupted_schedule q roomID ok σ :
  wf σ → drawn σ !! q = None →
  run (repeat (EvDraw q) 8 ++ [EvAccept q roomID ok]) σ
  = exec (EvConnect roomID "" ok) σ.
Proof.
  intros Hwf Hq. rewrite run_app.
  assert (Hbind : ∀ o : option State, o ≫= (λ σ, Some σ) = o) by (now intros []).
  destruct (generateID_total (randSeed σ)) as (id & seed' & Hid & Hlen).
  rewrite (run_EvDraw_repeat q 7 σ id seed'); [| rewrite Hq; cbn; lia | exact Hid].
  rewrite Hq. cbn [default mbind option_bind].
  change (String.append EmptyString id) with id.
  match goal with
  | |- run [?e] ?σ1 = _ => change (run [e] σ1) with (exec e σ1 ≫= λ σ, Some σ)
  end.
  rewrite Hbind. cbn [exec drawn set_drawn].
  rewrite lookup_insert_eq. cbn [mbind option_bind].
  rewrite Hlen. cbn [Nat.eqb].
  rewrite (handleWebSocket_set_drawn _ _ _ _ _ (wf_set_randSeed seed' σ Hwf)).
  assert (Hsame : handleWebSocket roomID id ok (set_randSeed seed' σ)
                  = handleWebSocket roomID "" ok σ).
  { unfold handleWebSocket, resolve_userID. rewrite Hid.
    cbn [String.eqb mbind option_bind].
    assert (String.eqb id "" = false) as -> by (now destruct id).
    reflexivity. }
  rewrite Hsame.
  destruct (handleWebSocket roomID "" ok σ) as [[res σj] |] eqn:Hj; [| reflexivity].
  pose proof (handleWebSocket_drawn _ _ _ _ _ _ Hwf Hj) as Hd.
  cbn. f_equal. rewrite delete_insert_eq, delete_id by exact Hq.
  rewrite <- Hd. now destruct σj.
Qed.

End Uninterrupted.

(** C10, amended: the seed starts at the constant 1 and every call of
    [randomInt] advances it by the same step, so after any run the seed is
    the initial seed advanced once for each draw made so far and the next
    draw selects the next character of one fixed sequence. The handler of a request
    without a user id takes a draw at each of its eight turns: an id under
    construction holds characters of that sequence at increasing positions,
    a further turn appends the character at the next position, and the
    handler then joins its room under the id it has drawn. Taken with
    nothing in between, the eight turns and the join are the handling of the
    request in one step, whose id is the next 8 characters of the sequence;
    so after a run in which no call of [generateID] was interrupted, with
    [n] such calls, the next id is the [n+1]-th of the fixed sequence of
    ids, and two such runs with the same number of calls give the next
    connection the same id. *)
Theorem C10_generated_ids_follow_the_draws es σ :
  run es init = Some σ →
  randSeed init = 1
  ∧ randSeed σ = seed_after (draws es) 1
  ∧ (∀ q b, drawn σ !! q = Some b →
       (String.length b ≤ 8)%nat
       ∧ ∃ ps, drawn_at ps b ∧ increasing_below (draws es) ps)
  ∧ (∀ q, (String.length (default EmptyString (drawn σ !! q)) < 8)%nat →
       ∃ a σ',
         char_at (draws es) = Some a
         ∧ exec (EvDraw q) σ = Some σ'
         ∧ drawn σ'
           = <[q := String.append (default EmptyString (drawn σ !! q))
                      (String a EmptyString)]> (drawn σ)
         ∧ randSeed σ' = seed_after (S (draws es)) 1)
  ∧ (∀ q b roomID,
       drawn σ !! q = Some b → String.length b = 8%nat → 0 ≤ colorIndex σ →
       ∃ σ' k c,
         exec (EvAccept q roomID true) σ = Some σ'
         ∧ heap σ !! k = None ∧ heap σ' !! k = Some c ∧ cl_ID c = b
         ∧ drawn σ' = delete q (drawn σ) ∧ randSeed σ' = randSeed σ)
  ∧ (∀ q roomID ok,
       drawn σ !! q = None →
       run (repeat (EvDraw q) 8 ++ [EvAccept q roomID ok]) σ
       = exec (EvConnect roomID "" ok) σ)
  ∧ (∀ roomID,
       0 ≤ colorIndex σ →
       ∃ k σ' c,
         handleWebSocket roomID "" true σ = Some (Some k, σ')
         ∧ heap σ' !! k = Some c
         ∧ String.length (cl_ID c) = 8%nat
         ∧ drawn_at (seq (draws es) 8) (cl_ID c)
         ∧ randSeed σ' = seed_after (draws es + 8) 1)
  ∧ (uninterrupted es = true →
     ∀ roomID k σ',
       handleWebSocket roomID "" true σ = Some (Some k, σ') →
       ∃ ids id,
         generateIDs (S (generated es)) randSeed_init
         = Some ((ids ++ [id])%list, randSeed σ')
         ∧ String.length id = 8%nat
         ∧ (cl_ID <$> heap σ' !! k) = Some id
         ∧ ∀ es2 σ2 roomID2 k2 σ2',
             run es2 init = Some σ2 → uninterrupted es2 = true →
             generated es2 = generated es →
             handleWebSocket roomID2 "" true σ2 = Some (Some k2, σ2') →
             (cl_ID <$> heap σ2' !! k2) = Some id ∧ randSeed σ2' = randSeed σ').
Proof.
  intros Hrun. destruct (run_draws es σ Hrun) as (Hwf & Hseed & Hinv).
  change randSeed_init with 1 in *.
  split; [reflexivity |]. split; [exact Hseed |]. split; [exact Hinv |].
  split; [| split; [| split; [| split]]].
  - intros q Hlt.
    destruct (randomString_turn_at (default EmptyString (drawn σ !! q)) (draws es))
      as (a & Ha & Ht).
    exists a, (set_drawn
                 (<[q := String.append (default EmptyString (drawn σ !! q))
                            (String a EmptyString)]> (drawn σ))
                 (set_randSeed (seed_after (S (draws es)) 1) σ)).
    split; [exact Ha |]. split; [| split; reflexivity].
    cbn [exec]. cbv zeta. apply Nat.ltb_lt in Hlt. rewrite Hlt, Hseed.
    change randSeed_init with 1 in Ht. rewrite Ht. reflexivity.
  - intros q b roomID Hq Hlen Hci.
    destruct (join_total roomID b σ Hwf Hci) as (k & σ1 & Hj).
    destruct (handleWebSocket_id _ _ _ _ _ Hwf Hj)
      as (uid & σ0 & c & Hres & Hfresh & Hc & Hid & Hs & Hd).
    destruct (resolve_userID_total b σ)
      as (uid' & σ0' & Hres' & _ & _ & _ & _ & _ & Hsame & _).
    rewrite Hres in Hres'. injection Hres' as <- <-.
    destruct Hsame as [-> ->]; [intros ->; discriminate |].
    exists (set_drawn (delete q (drawn σ1)) σ1), k, c. split.
    { cbn [exec]. rewrite Hq. cbn [mbind option_bind]. rewrite Hlen. cbn [Nat.eqb].
      rewrite Hj. reflexivity. }
    cbn [heap drawn randSeed set_drawn]. rewrite Hd. auto.
  - intros q roomID ok. now apply connect_is_an_uninterrupted_schedule.
  - intros roomID Hci.
    destruct (join_total roomID "" σ Hwf Hci) as (k & σ' & Hj).
    destruct (handleWebSocket_id _ _ _ _ _ Hwf Hj)
      as (uid & σ1 & c & Hres & Hfresh & Hc & Hid & Hs & Hd).
    destruct (resolve_userID_total "" σ)
      as (uid' & σ1' & Hres' & _ & _ & _ & _ & _ & _ & Hgen).
    rewrite Hres in Hres'. injection Hres' as <- <-.
    specialize (Hgen eq_refl). rewrite Hseed in Hgen.
    destruct (generateID_total (seed_after (draws es) 1)) as (id & s & Hg & Hlen).
    rewrite Hgen in Hg. injection Hg as <- <-.
    unfold generateID, randomString in Hgen.
    destruct (randomString_loop_at _ _ _ _ Hgen) as [Hs' Hat].
    exists k, σ', c. rewrite Hid. split; [exact Hj |]. split; [exact Hc |].
    split; [exact Hlen |]. split; [exact Hat |]. rewrite Hs. exact Hs'.
  - intros Hun roomID k σ' Hj.
    destruct (next_generated_id _ _ _ _ _ Hrun Hun Hj) as (ids & id & Hg & Hlen & Hid).
    exists ids, id. split; [exact Hg |]. split; [exact Hlen |]. split; [exact Hid |].
    intros es2 σ2 roomID2 k2 σ2' Hrun2 Hun2 Hgen2 Hj2.
    destruct (next_generated_id _ _ _ _ _ Hrun2 Hun2 Hj2)
      as (ids2 & id2 & Hg2 & _ & Hid2).
    rewrite Hgen2, Hg in Hg2. injection Hg2 as Hl Hs2.
    apply app_inj_tail in Hl as [_ <-]. split; [exact Hid2 | now rewrite Hs2].
Qed.

Lemma C10_witness :
  ∃ σ, run [EvDraw 0%nat; EvDraw 1%nat; EvDraw 0%nat] init = Some σ
       ∧ randSeed σ = seed_after 3 1
       ∧ char_at 3 = Some "H"%char
       ∧ (∀ b, drawn σ !! 0%nat = Some b →
            ∃ ps, drawn_at ps b ∧ increasing_below 3 ps).
Proof.
  eexists. split; [vm_compute; reflexivity |].
  edestruct C10_generated_ids_follow_the_draws
    with (es := [EvDraw 0%nat; EvDraw 1%nat; EvDraw 0%nat]) as (_ & Hs & Hinv & _).
  - vm_compute. reflexivity.
  - split; [exact Hs |]. split; [vm_compute; reflexivity |].
    intros b Hb. exact (proj2 (Hinv _ _ Hb)).
Defined.

(** C10, the claim as stated fails: the same two requests, neither with a
    user id, in two runs of the process. Handled one after the other they
    are given the first two ids of the sequence; when the turns of their
    handlers alternate they are given other ids. *)
Lemma C10_counterexample :
  (∃ σ, run one_after_the_other init = Some σ
        ∧ (cl_ID <$> heap σ !! 0%nat) = Some "Ks3HxRsF"
        ∧ (cl_ID <$> heap σ !! 1%nat) = Some "k4drioTr")
  ∧ (∃ σ, run overlapping init = Some σ
          ∧ (cl_ID <$> heap σ !! 0%nat) = Some "K3xskdiT"
          ∧ (cl_ID <$> heap σ !! 1%nat) = Some "sHRF4ror")
  ∧ run [EvConnect "abc123" "" true; EvConnect "abc123" "" true] init
    = run one_after_the_other init.
Proof.
  split; [| split].
  - eexists. split; [vm_compute; reflexivity |]. split; vm_compute; reflexivity.
  - eexists. split; [vm_compute; reflexivity |]. split; vm_compute; reflexivity.
  - vm_compute. reflexivity.
Qed.

(* ===================================================================== *)
(** ** The snapshot of a joiner *)
(* ===================================================================== *)

Section IndependentCopy.

Variable grow : nat → nat.
Hypothesis grow_enough : ∀ n, (n < grow n)%nat.

Implicit Types (arrays : gmap loc (list DrawElement)) (s t : slice).

(** No append or clear of the room writes to an array other than the
    room's own or a new one. *)
Lemma log_ops_slice_frame ops s t arrays :
  slice_ok arrays s → sl_array t ≠ sl_array s → is_Some (arrays !! sl_array t) →
  let '(s', arrays') := foldl (log_op_slice grow) (s, arrays) ops in
  arrays' !! sl_array t = arrays !! sl_array t
  ∧ sl_array t ≠ sl_array s'
  ∧ slice_ok arrays' s'.
Proof.
  revert s arrays. induction ops as [| op ops IH]; intros s arrays Hok Hne Hsome.
  - cbn. auto.
  - cbn [foldl].
    pose proof (log_op_slice_spec grow grow_enough op s arrays Hok) as Hstep.
    destruct (log_op_slice grow (s, arrays) op) as [s1 arrays1].
    destruct Hstep as (Hok1 & Hread1 & Hframe).
    destruct (Hframe _ Hne Hsome) as [Hsame Hne1].
    specialize (IH s1 arrays1 Hok1 Hne1).
    destruct (foldl (log_op_slice grow) (s1, arrays1) ops) as [s' arrays'].
    destruct IH as (IH1 & IH2 & IH3); [rewrite Hsame; exact Hsome |].
    split; [now rewrite IH1 | auto].
Qed.

(** A store through one slice is seen through that slice only, unless
    another shares its array. *)
Lemma slice_store_spec t s i x arrays arrays' :
  slice_store t i x arrays = Some arrays' →
  sl_array t ≠ sl_array s →
  slice_read arrays' t = <[i := x]> (slice_read arrays t)
  ∧ slice_read arrays' s = slice_read arrays s.
Proof.
  unfold slice_store. destruct (Nat.ltb_spec i (sl_len t)) as [Hlt | Hge];
    [| discriminate].
  intros [= <-] Hne. unfold slice_read. split.
  - rewrite lookup_alter_eq. destruct (arrays !! sl_array t) as [cells |]; cbn.
    + now rewrite take_insert_lt.
    + now rewrite take_nil.
  - now rewrite lookup_alter_ne.
Qed.

End IndependentCopy.

Section SentIsSent.

Implicit Types (σ : State) (c : Client).

(** What has been written to a socket stays its first message. *)
Lemma run_sync_of es σ σ' k msg :
  wf σ → run es σ = Some σ' → sync_of k σ = Some msg → sync_of k σ' = Some msg.
Proof.
  intros Hwf Hrun. unfold sync_of.
  destruct (heap σ !! k) as [c |] eqn:Hc; [| discriminate]. cbn.
  destruct (run_evolves _ _ _ _ _ Hwf Hrun Hc) as (c' & -> & Hev). cbn.
  destruct (ev_written _ _ Hev) as [more ->].
  destruct (conn_written (cl_Conn c)); [discriminate | exact id].
Qed.

End SentIsSent.

(** C3: after any sequence of elements has been appended to the log of a
    room, a connection that joins the room is sent a sync payload whose
    element list is the log before followed by the appended elements, in
    the order of the appends, and nothing else (for a room that started
    empty, exactly the appended elements); the join goes through in every
    state in which the colour counter has not wrapped around, and whatever
    the server does afterwards, that payload stays the first message of the
    socket. The snapshot is a copy of its own: on the slices, [GetElements]
    returns a slice on a new array, different from the array of the room
    before and after any later appends and clears; taking it leaves the
    log of the room as it is; no later append or clear writes a cell of its
    array; and a store through the snapshot changes the snapshot and not
    the log of the room. *)
Theorem C3_join_sync_completeness σ roomID userID r es :
  reachable σ → Rooms σ !! room_key roomID = Some r →
  ∃ σ1,
    AddElement_all (room_key roomID) es σ = Some σ1
    ∧ elements_of (room_key roomID) σ1 = Some (room_Elements r ++ es)%list
    ∧ (0 ≤ colorIndex σ →
       ∃ k σ2, handleWebSocket roomID userID true σ1 = Some (Some k, σ2))
    ∧ (∀ k σ2,
         handleWebSocket roomID userID true σ1 = Some (Some k, σ2) →
         ∃ uid color,
           sync_of k σ2 = Some (sync_payload (room_Elements r ++ es) uid color)
           ∧ (userID ≠ "" → uid = userID)
           ∧ ∀ evs σ3,
               run evs σ2 = Some σ3 →
               sync_of k σ3 = Some (sync_payload (room_Elements r ++ es) uid color))
    ∧ (∀ grow s arrays ops,
         (∀ n, (n < grow n)%nat) → slice_ok arrays s →
         slice_read arrays s = (room_Elements r ++ es)%list →
         ∃ t arrays1 s' arrays2,
           GetElements_slice (s, arrays) = (t, arrays1)
           ∧ foldl (log_op_slice grow) (s, arrays1) ops = (s', arrays2)
           ∧ arrays !! sl_array t = None
           ∧ sl_array t ≠ sl_array s
           ∧ sl_array t ≠ sl_array s'
           ∧ slice_read arrays1 t = (room_Elements r ++ es)%list
           ∧ slice_read arrays1 s = (room_Elements r ++ es)%list
           ∧ arrays2 !! sl_array t = arrays1 !! sl_array t
           ∧ slice_read arrays2 t = (room_Elements r ++ es)%list
           ∧ slice_read arrays2 s'
             = foldl log_op_list (room_Elements r ++ es)%list ops
           ∧ ∀ i x arrays3,
               slice_store t i x arrays2 = Some arrays3 →
               slice_read arrays3 t = <[i := x]> (room_Elements r ++ es)%list
               ∧ slice_read arrays3 s' = slice_read arrays2 s').
Proof.
  intros Hreach Hr. pose proof (reachable_wf _ Hreach) as Hwf.
  destruct (AddElement_all_log _ _ es _ Hwf Hr) as (σ1 & H1 & Hwf1 & Hr1 & Hh1 & Hc1).
  assert (Hro : room_Elements (room_of (room_key roomID) σ1) = (room_Elements r ++ es)%list)
    by (unfold room_of; now rewrite Hr1).
  exists σ1. split; [exact H1 |].
  split; [unfold elements_of; now rewrite Hr1 |].
  split; [intros Hci; apply join_total; [exact Hwf1 | now rewrite Hc1] |].
  split.
  - intros k σ2 Hj.
    destruct (join_sync _ _ _ _ _ Hwf1 Hj) as (uid & color & Hs & Hu & Hwf2 & _).
    rewrite Hro in Hs. exists uid, color.
    split; [exact Hs |]. split; [exact Hu |].
    intros evs σ3 Hrun. exact (run_sync_of _ _ _ _ _ Hwf2 Hrun Hs).
  - intros grow s arrays ops Hgrow Hok Hread.
    pose proof (GetElements_slice_spec s arrays Hok) as Hsnap.
    assert (Hfresh : arrays !! sl_array (fst (GetElements_slice (s, arrays))) = None).
    { unfold GetElements_slice, slice_make. cbn. apply not_elem_of_dom, is_fresh. }
    destruct (GetElements_slice (s, arrays)) as [t arrays1] eqn:Hget.
    cbn [fst] in Hfresh.
    destruct Hsnap as (Ht & Hok1 & Hsame & Hne & Halloc).
    pose proof (log_ops_slice_independent grow Hgrow ops s t arrays1 Hok1 Hne Halloc)
      as Hind.
    pose proof (log_ops_slice_frame grow Hgrow ops s t arrays1 Hok1 Hne Halloc)
      as Hfr.
    destruct (foldl (log_op_slice grow) (s, arrays1) ops) as [s' arrays2] eqn:Hfold.
    destruct Hind as [Hind Hlog]. destruct Hfr as (Hfr & Hne' & _).
    exists t, arrays1, s', arrays2.
    split; [reflexivity |]. split; [exact Hfold |]. split; [exact Hfresh |].
    split; [exact Hne |]. split; [exact Hne' |].
    split; [now rewrite Ht |]. split; [now rewrite Hsame |].
    split; [exact Hfr |]. split; [now rewrite Hind, Ht |].
    split; [now rewrite Hlog, Hsame, Hread |].
    intros i x arrays3 Hst.
    destruct (slice_store_spec t s' i x arrays2 arrays3 Hst Hne') as [Hst1 Hst2].
    split; [| exact Hst2]. now rewrite Hst1, Hind, Ht, Hread.
Qed.

Lemma C3_witness :
  ∃ σ1 k σ2 uid color,
    AddElement_all "abc123"
      [mkDrawElement "e1" "line" 1%float 2%float 3%float 4%float "#000000" 2%float "A";
       mkDrawElement "e2" "line" 3%float 4%float 5%float 6%float "#000000" 2%float "B"]
      two_members = Some σ1
    ∧ handleWebSocket "abc123" "C" true σ1 = Some (Some k, σ2)
    ∧ sync_of k σ2
      = Some (sync_payload
                [mkDrawElement "e1" "line" 1%float 2%float 3%float 4%float "#000000" 2%float "A";
                 mkDrawElement "e2" "line" 3%float 4%float 5%float 6%float "#000000" 2%float "B"]
                uid color).
Proof.
  edestruct C3_join_sync_completeness
    with (σ := two_members) (roomID := "abc123") (userID := "C")
         (es := [mkDrawElement "e1" "line" 1%float 2%float 3%float 4%float "#000000" 2%float "A";
                 mkDrawElement "e2" "line" 3%float 4%float 5%float 6%float "#000000" 2%float "B"])
    as (σ1 & H1 & _ & Htotal & Hsync & _).
  - exact two_members_reachable.
  - vm_compute. reflexivity.
  - destruct Htotal as (k & σ2 & Hj); [vm_compute; discriminate |].
    destruct (Hsync k σ2 Hj) as (uid & color & Hs & _).
    exists σ1, k, σ2, uid, color. split; [exact H1 |]. split; [exact Hj | exact Hs].
Defined.

(* ===================================================================== *)
(** ** After a clear *)
(* ===================================================================== *)

Section AfterTheClear.

Implicit Types (σ : State) (c : Client) (r : Room) (e : event).

(** An event that does not append to the log of a room leaves an empty
    log empty. *)
Lemma exec_keeps_empty e σ σ' rid r :
  wf σ → exec e σ = Some σ' → Rooms σ !! rid = Some r → room_Elements r = [] →
  appends rid σ e = false →
  ∃ r', Rooms σ' !! rid = Some r' ∧ room_Elements r' = [].
Proof.
  intros Hwf He Hr Hempty Hno.
  pose proof (exec_rooms _ _ _ rid Hwf He) as Hrooms. rewrite Hr in Hrooms.
  destruct Hrooms as (r' & Hr' & Hstep). exists r'. split; [exact Hr' |].
  inversion Hstep as [| E1 | j cj E1 E2 E3
                      | j f cj el E1 E2 E3 E5 | j f cj E1 E2 E3 E4]; subst r';
    cbn; try assumption; try reflexivity.
  congruence.
Qed.

Lemma run_keeps_empty es σ σ' rid r :
  wf σ → run es σ = Some σ' → Rooms σ !! rid = Some r → room_Elements r = [] →
  no_append rid es σ = true →
  wf σ' ∧ ∃ r', Rooms σ' !! rid = Some r' ∧ room_Elements r' = [].
Proof.
  revert σ r. induction es as [| e es IH]; intros σ r Hwf Hrun Hr Hempty Hno;
    cbn [run] in Hrun.
  - injection Hrun as <-. eauto.
  - destruct (exec e σ) as [σ1 |] eqn:He; [| discriminate]. cbn in Hrun.
    cbn [no_append] in Hno. rewrite He in Hno.
    apply andb_true_iff in Hno as [Hno1 Hno].
    apply negb_true_iff in Hno1.
    destruct (exec_keeps_empty _ _ _ _ _ Hwf He Hr Hempty Hno1) as (r1 & Hr1 & Hempty1).
    exact (IH σ1 r1 (exec_wf _ _ _ Hwf He) Hrun Hr1 Hempty1 Hno).
Qed.

End AfterTheClear.

(** C6: a clear message empties the element log of the sender's room and
    leaves its members as they are. The log then stays empty for as long
    as nothing is appended to it: after any run of the server along which
    no draw of a client of that room is stored (connections may join and
    leave, cursors move, other rooms be drawn in), the log of the room is
    still empty, and a connection that joins the room then is sent a sync
    payload with an empty element list (it does join in every state in
    which the colour counter has not wrapped around). *)
Theorem C6_clear_empties_the_log σ k c r m :
  reachable σ → heap σ !! k = Some c → Rooms σ !! cl_Room c = Some r →
  msg_Type m = TypeClear →
  ∃ σ', route k m σ = Some σ'
        ∧ elements_of (cl_Room c) σ' = Some []
        ∧ members_of (cl_Room c) σ' = Some (room_Clients r)
        ∧ ∀ evs σ'',
            run evs σ' = Some σ'' → no_append (cl_Room c) evs σ' = true →
            elements_of (cl_Room c) σ'' = Some []
            ∧ ∀ roomID userID,
                room_key roomID = cl_Room c →
                (0 ≤ colorIndex σ'' →
                 ∃ j σ3, handleWebSocket roomID userID true σ'' = Some (Some j, σ3))
                ∧ ∀ j σ3,
                    handleWebSocket roomID userID true σ'' = Some (Some j, σ3) →
                    ∃ uid color, sync_of j σ3 = Some (sync_payload [] uid color).
Proof.
  intros Hreach Hc Hr Ht. pose proof (reachable_wf _ Hreach) as Hwf.
  eexists. split; [apply (route_clear _ _ _ _ _ Hwf Hc Hr Ht) |].
  split; [unfold elements_of; cbn; now rewrite lookup_insert_eq |].
  split; [unfold members_of; cbn; now rewrite lookup_insert_eq |].
  match goal with
  | |- ∀ evs σ'', run evs ?s = _ → _ => set (σ' := s)
  end.
  assert (Hwf' : wf σ').
  { apply (wf_fanout _ _ (set_Rooms _ σ)).
    apply (wf_room_update ClearElements); [assumption .. | reflexivity]. }
  assert (Hr' : Rooms σ' !! cl_Room c = Some (ClearElements r))
    by (cbn; apply lookup_insert_eq).
  intros evs σ'' Hrun Hno.
  destruct (run_keeps_empty _ _ _ _ _ Hwf' Hrun Hr' eq_refl Hno)
    as (Hwf'' & r'' & Hr'' & Hempty).
  split; [unfold elements_of; rewrite Hr''; cbn; now rewrite Hempty |].
  intros roomID userID Hkey.
  split; [intros Hci; now apply join_total |].
  intros j σ3 Hj.
  destruct (join_sync _ _ _ _ _ Hwf'' Hj) as (uid & color & Hs & _).
  exists uid, color. rewrite Hs. unfold room_of. rewrite Hkey, Hr''. cbn.
  now rewrite Hempty.
Qed.

Lemma C6_witness :
  ∃ σ' σ'' j σ3 uid color,
    elements_of "abc123" sketched
    = Some [mkDrawElement "e1" "line" 1%float 2%float 3%float 4%float
              "#000000" 2%float "A"]
    ∧ route 0%nat (mkMessage TypeClear "" (DIface JNull)) sketched = Some σ'
    ∧ run [EvConnect "xyz789" "C" true; EvFrame 2%nat draw_frame;
           EvFrame 1%nat cursor_frame; EvReadError 0%nat false; EvLeave 0%nat] σ'
      = Some σ''
    ∧ elements_of "xyz789" σ''
      = Some [mkDrawElement "e1" "line" 1%float 2%float 3%float 4%float
                "#000000" 2%float "C"]
    ∧ elements_of "abc123" σ'' = Some []
    ∧ handleWebSocket "abc123" "D" true σ'' = Some (Some j, σ3)
    ∧ sync_of j σ3 = Some (sync_payload [] uid color).
Proof.
  edestruct C6_clear_empties_the_log
    with (σ := sketched) (k := 0%nat) (m := mkMessage TypeClear "" (DIface JNull))
    as (σ' & Hroute & _ & _ & Hlater).
  - exact sketched_reachable.
  - vm_compute. reflexivity.
  - vm_compute. reflexivity.
  - reflexivity.
  - assert (Hσ' : σ' = default init (route 0%nat (mkMessage TypeClear "" (DIface JNull))
                                       sketched)) by now rewrite Hroute.
    edestruct (Hlater [EvConnect "xyz789" "C" true; EvFrame 2%nat draw_frame;
                       EvFrame 1%nat cursor_frame; EvReadError 0%nat false;
                       EvLeave 0%nat]) as [Hel Hjoin].
    + rewrite Hσ'. vm_compute. reflexivity.
    + rewrite Hσ'. vm_compute. reflexivity.
    + destruct (Hjoin "abc123" "D") as [Htotal Hsync]; [vm_compute; reflexivity |].
      destruct Htotal as (j & σ3 & Hj); [vm_compute; discriminate |].
      destruct (Hsync j σ3 Hj) as (uid & color & Hs).
      eexists σ', _, j, σ3, uid, color.
      split; [vm_compute; reflexivity |]. split; [exact Hroute |].
      split; [rewrite Hσ'; vm_compute; reflexivity |].
      split; [vm_compute; reflexivity |].
      split; [exact Hel |]. split; [exact Hj | exact Hs].
Defined.

(* ===================================================================== *)
(** ** Membership along runs *)
(* ===================================================================== *)

Section MembersAlongRuns.

Implicit Types (σ : State) (c : Client) (r : Room) (e : event).

(** The client of an accepted connection is a member of the room asked
    for. *)
Lemma exec_join_member e rid σ σ' :
  wf σ → joins e = Some rid → exec e σ = Some σ' →
  ∃ r', Rooms σ' !! rid = Some r' ∧ fresh (dom (heap σ)) ∈ room_Clients r'.
Proof.
  intros Hwf Hjoins He.
  assert (Hconnect : ∀ (roomID userID : string) σ σ',
             wf σ → exec (EvConnect roomID userID true) σ = Some σ' →
             ∃ r', Rooms σ' !! room_key roomID = Some r'
                   ∧ fresh (dom (heap σ)) ∈ room_Clients r').
  { clear. intros roomID userID σ σ' Hwf He. cbn [exec] in He.
    destruct (handleWebSocket roomID userID true σ) as [[res σ1] |] eqn:H;
      [| discriminate].
    cbn in He. injection He as <-.
    destruct (handleWebSocket_color _ _ _ _ H) as (color & ci & Hcol).
    destruct (handleWebSocket_state roomID userID σ color ci Hwf Hcol)
      as (uid & σ0 & Hres & _ & _ & Hj).
    rewrite Hj in H. injection H as <- <-. cbn [Rooms].
    rewrite lookup_insert_eq. eexists. split; [reflexivity |]. cbn. set_solver. }
  destruct e as [roomID userID [] | | | | | | q roomID []]; try discriminate;
    injection Hjoins as <-.
  - exact (Hconnect _ _ _ _ Hwf He).
  - destruct (exec_EvAccept _ _ _ _ _ He) as (uid & σ1 & _ & _ & He' & ->).
    exact (Hconnect _ _ _ _ Hwf He').
Qed.

(** What one event does to the membership of a client in its room: only
    the second part of its own deferred function ends it. *)
Lemma exec_membership e σ σ' k c r :
  wf σ → exec e σ = Some σ' → heap σ !! k = Some c →
  Rooms σ !! cl_Room c = Some r →
  ∃ r', Rooms σ' !! cl_Room c = Some r'
        ∧ (k ∈ room_Clients r' ↔ k ∈ room_Clients r ∧ e ≠ EvLeave k).
Proof.
  intros Hwf He Hc Hr.
  assert (Hfresh : fresh (dom (heap σ)) ≠ k).
  { intros <-. pose proof (is_fresh (dom (heap σ))) as Hf.
    apply Hf, elem_of_dom. eauto. }
  assert (Hother : (∀ j, e ≠ EvLeave j) →
            ∃ r', Rooms σ' !! cl_Room c = Some r'
                  ∧ (k ∈ room_Clients r' ↔ k ∈ room_Clients r ∧ e ≠ EvLeave k)).
  { intros Hnl.
    pose proof (exec_rooms _ _ _ (cl_Room c) Hwf He) as Hrooms. rewrite Hr in Hrooms.
    destruct Hrooms as (r' & Hr' & Hstep). exists r'. split; [exact Hr' |].
    inversion Hstep as [| E1 | j cj E1 E2 E3
                        | j f cj el E1 E2 E3 E5 | j f cj E1 E2 E3 E4]; subst r';
      cbn; try (split; [intros H; split; [exact H | apply Hnl] | now intros [H _]]).
    - split.
      + intros H. apply elem_of_union in H as [H | H]; [| split; [exact H | apply Hnl]].
        apply elem_of_singleton in H. congruence.
      + intros [H _]. set_solver.
    - exfalso. now apply (Hnl j). }
  destruct e as [roomID userID ok | j f | j u | j | j ok | q | q roomID ok];
    try (apply Hother; intros j0; discriminate).
  cbn [exec] in He. destruct (leaving j σ); [| discriminate].
  destruct (teardown_leave_rooms _ _ _ He) as (cj & r0 & Hj & Hr0 & HR).
  rewrite HR. destruct (decide (j = k)) as [-> | Hne].
  - rewrite Hc in Hj. injection Hj as <-. rewrite Hr in Hr0. injection Hr0 as <-.
    rewrite lookup_insert_eq. eexists. split; [reflexivity |]. cbn.
    split; [set_solver | now intros [_ H]].
  - destruct (decide (cl_Room cj = cl_Room c)) as [Heq | Hne'].
    + rewrite Heq in *. rewrite Hr in Hr0. injection Hr0 as <-.
      rewrite lookup_insert_eq. eexists. split; [reflexivity |]. cbn.
      split; [intros H; split; [set_solver | congruence] | intros [H _]; set_solver].
    + rewrite lookup_insert_ne by exact Hne'. exists r. split; [exact Hr |].
      split; [intros H; split; [exact H | congruence] | now intros [H _]].
Qed.

(** Along a run from the initial state, a client is a member of its room
    until the second part of its deferred function has run. *)
Lemma run_membership es σ :
  run es init = Some σ →
  wf σ
  ∧ (∀ j, EvLeave j ∈ es → is_Some (heap σ !! j))
  ∧ ∀ k c r, heap σ !! k = Some c → Rooms σ !! cl_Room c = Some r →
             (k ∈ room_Clients r ↔ EvLeave k ∉ es).
Proof.
  revert es σ. apply run_ind_snoc.
  - split; [apply wf_init |]. split.
    + intros j Hj. now apply elem_of_nil in Hj.
    + intros k c r Hc. cbn in Hc. rewrite lookup_empty in Hc. discriminate.
  - intros es σ e σ' Hrun (Hwf & Halloc & Hinv) He.
    pose proof (exec_wf _ _ _ Hwf He) as Hwf'.
    destruct (exec_clients _ _ _ Hwf He) as [Hold Hnew].
    split; [exact Hwf' |]. split.
    + intros j Hj. apply elem_of_app in Hj as [Hj | Hj].
      * destruct (Halloc _ Hj) as [cj Hcj].
        destruct (Hold _ _ Hcj) as (cj' & Hcj' & _). eauto.
      * apply list_elem_of_singleton in Hj as <-. cbn [exec] in He.
        destruct (leaving j σ) eqn:Hlv; [| discriminate].
        unfold leaving in Hlv. destruct (heap σ !! j) as [cj |] eqn:Hcj;
          [| discriminate].
        destruct (Hold _ _ Hcj) as (cj' & Hcj' & _). eauto.
    + intros k c' r' Hc' Hr'.
      destruct (heap σ !! k) as [c |] eqn:Hc.
      * destruct (Hold _ _ Hc) as (c'' & Hc'' & Hev).
        rewrite Hc' in Hc''. injection Hc'' as <-.
        rewrite (ev_Room _ _ Hev) in Hr'.
        destruct (wf_room _ Hwf _ _ Hc) as [r Hr].
        destruct (exec_membership _ _ _ _ _ _ Hwf He Hc Hr) as (r'' & Hr'' & Hiff).
        rewrite Hr' in Hr''. injection Hr'' as <-.
        rewrite Hiff, (Hinv _ _ _ Hc Hr), not_elem_of_app, list_elem_of_singleton.
        split; intros [H1 H2]; split; auto.
      * destruct (Hnew _ _ Hc Hc') as (rid & uid & color & sync & Hjoins & -> & Hev).
        destruct (exec_join_member _ _ _ _ Hwf Hjoins He) as (r1 & Hr1 & Hin).
        destruct Hev as [_ E2 _ _ _ _ _ _]. cbn in E2. rewrite E2 in Hr'.
        rewrite Hr' in Hr1. injection Hr1 as <-.
        split; [intros _ | intros _; exact Hin].
        rewrite not_elem_of_app, list_elem_of_singleton. split.
        -- intros Hj. destruct (Halloc _ Hj) as [cj Hcj]. congruence.
        -- intros <-. discriminate.
Qed.

End MembersAlongRuns.

(** X9: every room is stored under its own id, and after any run of the
    server its members are exactly the connections that joined it and whose
    deferred function has not yet called [RemoveClient]: a connection is a
    member from the moment it is accepted, whatever it and the others do,
    and it is one no more once the second part of its deferred function has
    run. A connection whose read pump is in its loop is a member, and no
    connection is a member of two rooms. *)
Theorem members_are_the_live_connections es σ rid r k :
  run es init = Some σ → Rooms σ !! rid = Some r →
  room_ID r = rid
  ∧ (k ∈ room_Clients r ↔
     ∃ c, heap σ !! k = Some c ∧ cl_Room c = rid ∧ EvLeave k ∉ es)
  ∧ (∀ c, heap σ !! k = Some c → cl_Room c = rid → cl_closed c = false →
          k ∈ room_Clients r)
  ∧ (∀ rid2 r2, Rooms σ !! rid2 = Some r2 →
                k ∈ room_Clients r → k ∈ room_Clients r2 → rid2 = rid).
Proof.
  intros Hrun Hr. assert (Hreach : reachable σ) by (now exists es).
  pose proof (reachable_members_own_room _ Hreach) as Hown.
  pose proof (reachable_readers _ Hreach) as Hread.
  destruct (run_membership _ _ Hrun) as (Hwf & _ & Hinv).
  split; [now apply (reachable_rooms_named _ Hreach) |].
  split; [split |]; [| | split].
  - intros Hk. destruct (Hown _ _ _ Hr Hk) as (c & Hc & Hroom).
    exists c. split; [exact Hc |]. split; [exact Hroom |].
    subst rid. now apply (Hinv _ _ _ Hc Hr).
  - intros (c & Hc & Hroom & Hnl). subst rid. now apply (Hinv _ _ _ Hc Hr).
  - intros c Hc Hroom Hopen.
    destruct (Hread _ _ Hc Hopen) as (r0 & Hr0 & Hk).
    rewrite Hroom, Hr in Hr0. now injection Hr0 as <-.
  - intros rid2 r2 Hr2 Hk Hk2.
    destruct (Hown _ _ _ Hr Hk) as (c & Hc & Hroom).
    destruct (Hown _ _ _ Hr2 Hk2) as (c2 & Hc2 & Hroom2). congruence.
Qed.

Lemma members_are_the_live_connections_witness :
  ∃ σ r c,
    run [EvConnect "abc123" "A" true; EvConnect "abc123" "B" true;
         EvReadError 1%nat false; EvFrame 0%nat cursor_frame; EvLeave 1%nat] init
    = Some σ
    ∧ Rooms σ !! "abc123" = Some r
    ∧ heap σ !! 1%nat = Some c ∧ cl_Room c = "abc123"
    ∧ (1%nat ∉ room_Clients r) ∧ (0%nat ∈ room_Clients r).
Proof.
  eexists _, _, _. split; [vm_compute; reflexivity |].
  split; [vm_compute; reflexivity |]. split; [vm_compute; reflexivity |].
  split; [reflexivity |].
  edestruct members_are_the_live_connections
    with (es := [EvConnect "abc123" "A" true; EvConnect "abc123" "B" true;
                 EvReadError 1%nat false; EvFrame 0%nat cursor_frame; EvLeave 1%nat])
         (rid := "abc123") (k := 1%nat) as (_ & [Hto _] & _).
  - vm_compute. reflexivity.
  - vm_compute. reflexivity.
  - split.
    + intros Hin. destruct (Hto Hin) as (c & _ & _ & Hnl).
      apply Hnl. do 4 right. left.
    + refine (bool_decide_unpack _ _). vm_compute. exact I.
Defined.
